(** * globalTrader-Company: the simulation core of the trading game

    A shallow embedding of the state-update engine of the React
    application: the per-tick state updater that the [setInterval]
    callback hands to [setGameState], and the player-action handlers
    (trade, unlock, upgrade, sell, toggle, loan, repay).

    The repository holds two versions of [App.tsx].  They are embedded
    side by side, module [AppA] for the version with the pause button,
    the wealth tax on net worth and [handleSellFacility], module [AppB]
    for the version with the tax on liquid cash and the clamped cash.
    The blocks whose text is the same in both versions (market, event
    and production logic, ledger roll) are shared definitions.

    Numbers.  A TypeScript [number] is embedded as a rational [Q].
    Sums, differences and products of amounts are exact.  Where the
    program turns a product or a quotient into a whole number with
    [Math.floor] (the daily cost of a facility, the refund of a sale,
    the top of the trade slider), the operation is rounded to binary64
    before the floor is taken, since the rounding decides the whole
    number; the cost of an upgrade keeps the exact product, whose floor
    is that of the binary64 product up to level 38
    ([upgrade_floor_exact]).  NaN and the infinities appear only in the
    figures of [CommodityCard].  Fields that only ever hold integers
    are [Z]: day counters, levels, durations, and quantities, which
    reach [handleTrade] through [parseInt].  Numeric equalities between
    values computed along different paths are stated with [==].

    Layout.  The embedding of the source comes first, then the
    predicates the statements are written with, then the lemmas on the
    blocks of the tick and on the updaters, and last the theorems on
    the behaviour of the program: first those of the claims C1 to
    C10, then further properties of the tick, of the handlers and of
    the panels and cards. *)

From Stdlib Require Import QArith Qround Qabs Qminmax Qpower Lqa ZArith.
From stdpp Require Import gmap strings list pretty.

Local Open Scope Q_scope.

(** ** JavaScript arithmetic on exact rationals *)

(** [x < y] and [x <= y] as the booleans the code branches on. *)
Definition Qltb (x y : Q) : bool := negb (Qle_bool y x).
Definition Qleb (x y : Q) : bool := Qle_bool x y.

(** Rounding toward zero, the integer part JavaScript's [%] works with. *)
Definition Qtrunc (x : Q) : Z := Z.quot (Qnum x) (Zpos (Qden x)).

Module Math.
Definition floor (x : Q) : Z := Qfloor x.
Definition max (x y : Q) : Q := Qmax x y.
Definition min (x y : Q) : Q := Qmin x y.
Definition abs (x : Q) : Q := Qabs x.
Definition pow (b : Q) (e : Z) : Q := Qpower b e.
End Math.

(** ** Rounding to binary64

    Where the program takes [Math.floor] of a product or of a quotient,
    the rounding of the operation decides the whole number that comes
    out: [50 * Math.pow(1.4, 2)] is 97.99999999999999 and its floor is
    97, where the exact product is 98.  These operations are embedded
    as IEEE 754 prescribes them: the operands are binary64 values (a
    literal such as [0.7] is the binary64 value nearest to it), and the
    result is the exact result rounded to the nearest binary64 value,
    ties to the even significand.  [Math.pow], which the language
    standard leaves to the implementation to approximate, is taken as
    the correctly rounded power.  Values beyond the largest binary64
    value are, like the infinities, outside the model. *)

Module Binary64.

(** The largest [k] with [2^k <= x], for [0 < x]. *)
Definition floorLog2 (x : Q) : Z :=
  let k := (Z.log2 (Qnum x) - Z.log2 (Zpos (Qden x)))%Z in
  if Qleb (Qpower 2 k) x then k else (k - 1)%Z.

(** The integer nearest to [x], the even one of the two when [x] lies
    half way. *)
Definition roundTiesToEven (x : Q) : Z :=
  let n := Qfloor x in
  match Qcompare (x - inject_Z n) 0.5 with
  | Lt => n
  | Gt => (n + 1)%Z
  | Eq => if Z.even n then n else (n + 1)%Z
  end.

(** The binary64 value nearest to [x]: a significand of 53 bits, and
    the exponent of the last bit not below -1074. *)
Definition round (x : Q) : Q :=
  if Qeq_bool x 0 then 0 else
  let e := Z.max (-1074) (floorLog2 (Qabs x) - 52) in
  inject_Z (roundTiesToEven (x / Qpower 2 e)) * Qpower 2 e.

(** [x * y], and [Math.pow(b, e)] for an integer [e]. *)
Definition mul (x y : Q) : Q := round (round x * round y).
Definition pow (b : Q) (e : Z) : Q := round (Qpower (round b) e).

End Binary64.

(** [x % y]: the remainder has the sign of the dividend. *)
Definition jsRem (x y : Q) : Q := x - y * inject_Z (Qtrunc (x / y)).

(** [l.slice(-n)]: the last [n] elements of [l]. *)
Definition sliceLast {A : Type} (n : nat) (l : list A) : list A :=
  drop (length l - n) l.

(** ** Effects of a state updater

    An updater may call [Math.random()] and may throw a [TypeError]
    when it reads a property of [undefined].  [Rng] is the sequence of
    values the successive calls of [Math.random()] return, with the
    number of calls made so far; [None] is the thrown error. *)

Record Rng := mkRng { stream : nat -> Q; cursor : nat }.

Definition M (A : Type) : Type := Rng -> option (A * Rng).

Definition ret {A : Type} (a : A) : M A := fun g => Some (a, g).

Definition bind {A B : Type} (m : M A) (k : A -> M B) : M B :=
  fun g => match m g with
           | Some (a, g') => k a g'
           | None => None
           end.

(** Reading a property of a value that may be [undefined], and running
    a block that draws no random number. *)
Definition defined {A : Type} (o : option A) : M A :=
  fun g => match o with
           | Some a => Some (a, g)
           | None => None
           end.

Definition Math_random : M Q :=
  fun g => Some (stream g (cursor g), mkRng (stream g) (S (cursor g))).

Declare Scope upd_scope.
Delimit Scope upd_scope with upd.
Notation "'let*' x ':=' c 'in' k" := (bind c (fun x => k))
  (at level 10, x name, c at level 100, k at level 200) : upd_scope.
Notation "'let*' ' p ':=' c 'in' k" := (bind c (fun x => let 'p := x in k))
  (at level 10, p pattern, c at level 100, k at level 200) : upd_scope.

(** [xs.forEach] with an accumulator threaded through the calls. *)
Fixpoint forEachM {A S : Type} (f : S -> A -> M S) (xs : list A) (s : S) : M S :=
  match xs with
  | [] => ret s
  | x :: xs' => bind (f s x) (forEachM f xs')
  end.

(** [Math.random()] returns a value in [0, 1). *)
Definition valid_rng (g : Rng) : Prop :=
  forall i : nat, 0 <= stream g i /\ stream g i < 1.

(** ** Data model ([types.ts]) *)

Inductive CommodityCategory : Set := ENERGY | METAL | AGRICULTURE | LIVESTOCK.

(** [CommodityCategory | 'ALL'] *)
Inductive EventCategory : Set :=
| Cat (c : CommodityCategory)
| ALL.

Definition CommodityCategory_eqb (a b : CommodityCategory) : bool :=
  match a, b with
  | ENERGY, ENERGY | METAL, METAL | AGRICULTURE, AGRICULTURE
  | LIVESTOCK, LIVESTOCK => true
  | _, _ => false
  end.

Module GlobalEvent.
Record t := mk {
  name : string;
  description : string;
  category : EventCategory;
  multiplier : Q;
  duration : Z;
  remainingDays : Z
}.
End GlobalEvent.
Abbreviation GlobalEvent := GlobalEvent.t.

(** [Omit<GlobalEvent, 'remainingDays' | 'duration'>] *)
Module EventTemplate.
Record t := mk {
  name : string;
  description : string;
  category : EventCategory;
  multiplier : Q
}.
End EventTemplate.
Abbreviation EventTemplate := EventTemplate.t.

Module Commodity.
Record t := mk {
  id : string;
  name : string;
  category : CommodityCategory;
  basePrice : Q;
  volatility : Q;
  productionCost : Q;
  productionYield : Z
}.
End Commodity.
Abbreviation Commodity := Commodity.t.

Inductive Trend : Set := up | down | stable.

Module MarketPrice.
Record t := mk {
  id : string;
  currentPrice : Q;
  history : list Q;
  trend : Trend
}.
End MarketPrice.
Abbreviation MarketPrice := MarketPrice.t.

Module InventoryItem.
Record t := mk {
  commodityId : string;
  quantity : Z
}.
End InventoryItem.
Abbreviation InventoryItem := InventoryItem.t.

Module ProductionFacility.
Record t := mk {
  commodityId : string;
  level : Z;
  isProducing : bool;
  progress : Q
}.
End ProductionFacility.
Abbreviation ProductionFacility := ProductionFacility.t.

Record DailyLedger := mkLedger {
  sales : Q;
  purchases : Q;
  productionCosts : Q;
  net : Q
}.

Record LifetimeStats := mkLifetime {
  totalSales : Q;
  totalMarketPurchases : Q;
  totalProductionCosts : Q;
  totalConstruction : Q;
  totalUpgrades : Q;
  totalInterestPaid : Q;
  totalTaxesPaid : Q
}.

Record GameState := mkGameState {
  cash : Q;
  debt : Q;
  day : Z;
  cycleProgress : Z;
  inventory : list InventoryItem;
  facilities : list ProductionFacility;
  prices : gmap string MarketPrice;
  lastLedger : DailyLedger;
  lifetime : LifetimeStats;
  activeEvent : option GlobalEvent;
  taxRate : Q;
  nextTaxDay : Z
}.

(** ** Catalog ([constants.ts]); the [icon] field is presentation only. *)

Definition COMMODITIES : list Commodity :=
  [ Commodity.mk "oil" "Crude Oil" ENERGY 80 0.15 50 10;
    Commodity.mk "gas" "Natural Gas" ENERGY 4 0.25 2 50;
    Commodity.mk "gold" "Gold" METAL 2000 0.05 1500 1;
    Commodity.mk "steel" "Steel" METAL 600 0.10 400 5;
    Commodity.mk "wheat" "Wheat" AGRICULTURE 250 0.12 150 20;
    Commodity.mk "corn" "Corn" AGRICULTURE 180 0.10 100 25;
    Commodity.mk "beef" "Beef" LIVESTOCK 450 0.08 300 8;
    Commodity.mk "pork" "Pork" LIVESTOCK 320 0.09 200 12 ].

Definition INITIAL_CASH : Q := 5000.

(** ** Constants of [App.tsx] shared by both versions *)

Definition DAILY_INTEREST_RATE : Q := 0.015.
Definition TAX_CYCLE : Z := 30.

Definition EVENTS_POOL : list EventTemplate :=
  [ EventTemplate.mk "OPEC Production Cut"
      "Energy prices surge as oil supply is restricted." (Cat ENERGY) 2.1;
    EventTemplate.mk "Global Drought"
      "Crop failures leading to massive grain shortages." (Cat AGRICULTURE) 1.8;
    EventTemplate.mk "Financial Safe Haven"
      "Investors rush to precious metals amid uncertainty." (Cat METAL) 1.6;
    EventTemplate.mk "Livestock Epidemic"
      "Supply chain collapse in meat production." (Cat LIVESTOCK) 2.3;
    EventTemplate.mk "Technological Breakthrough"
      "Efficiency gains lead to market surplus and price drops." ALL 0.5;
    EventTemplate.mk "Trade War Escalation"
      "Global tariffs crush industrial demand." (Cat METAL) 0.6;
    EventTemplate.mk "Energy Discovery"
      "New shale reserves discovered, energy prices tank." (Cat ENERGY) 0.4 ].

(** ** Blocks of the tick updater shared by both versions *)

Definition findCommodity (id : string) : option Commodity :=
  List.find (fun c => String.eqb (Commodity.id c) id) COMMODITIES.

(** [xs.findIndex(p)]; [None] stands for [-1]. *)
Fixpoint findIndex {A : Type} (p : A -> bool) (xs : list A) : option nat :=
  match xs with
  | [] => None
  | x :: xs' => if p x then Some 0%nat else S <$> findIndex p xs'
  end.

(** [xs[i]] for a numeric index; [None] is [undefined]. *)
Definition jsIndex {A : Type} (xs : list A) (i : Z) : option A :=
  if (i <? 0)%Z then None else xs !! Z.to_nat i.

(** [xs.forEach] over a block that draws no random number. *)
Fixpoint forEachO {A S : Type} (f : S -> A -> option S) (xs : list A) (s : S)
  : option S :=
  match xs with
  | [] => Some s
  | x :: xs' => match f s x with
                | Some s' => forEachO f xs' s'
                | None => None
                end
  end.

(** *** Market logic (version A lines 207-219, version B lines 796-815) *)

(** [nextEvent.category === c.category || nextEvent.category === 'ALL'] *)
Definition eventApplies (ev : GlobalEvent) (c : Commodity) : bool :=
  match GlobalEvent.category ev with
  | Cat k => CommodityCategory_eqb k (Commodity.category c)
  | ALL => true
  end.

Definition targetPrice (c : Commodity) (nextEvent : option GlobalEvent) : Q :=
  match nextEvent with
  | Some ev =>
      if eventApplies ev c
      then Commodity.basePrice c * GlobalEvent.multiplier ev
      else Commodity.basePrice c
  | None => Commodity.basePrice c
  end.

(** The new price of [c] from its current price and the value [r]
    drawn by [Math.random()]. *)
Definition newPrice (c : Commodity) (nextEvent : option GlobalEvent)
    (currentPrice r : Q) : Q :=
  let changePercent := (r - 0.5) * 2 * Commodity.volatility c in
  let gravity := (targetPrice c nextEvent - currentPrice) * 0.1 in
  Math.max (Commodity.basePrice c * 0.1)
           ((currentPrice + gravity) * (1 + changePercent)).

(** The body of [COMMODITIES.forEach(c => ...)]: one commodity. *)
Definition updatePrice (nextEvent : option GlobalEvent)
    (nextPrices : gmap string MarketPrice) (c : Commodity)
  : M (gmap string MarketPrice) :=
  (let* r := Math_random in
   let* price := defined (nextPrices !! Commodity.id c) in
   let np := newPrice c nextEvent (MarketPrice.currentPrice price) r in
   let newHistory := sliceLast 20 (MarketPrice.history price ++ [np]) in
   ret (<[Commodity.id c :=
            MarketPrice.mk (MarketPrice.id price) np newHistory
              (if Qltb (MarketPrice.currentPrice price) np then up else down)]>
          nextPrices))%upd.

Definition marketLogic (nextEvent : option GlobalEvent)
    (nextPrices : gmap string MarketPrice) : M (gmap string MarketPrice) :=
  forEachM (updatePrice nextEvent) COMMODITIES nextPrices.

(** *** Event logic (version A lines 242-252, version B lines 783-793) *)

(** An active event loses one remaining day and is cleared at 0. *)
Definition ageEvent (nextEvent : option GlobalEvent) : option GlobalEvent :=
  match nextEvent with
  | Some ev =>
      let ev' := GlobalEvent.mk (GlobalEvent.name ev) (GlobalEvent.description ev)
                   (GlobalEvent.category ev) (GlobalEvent.multiplier ev)
                   (GlobalEvent.duration ev) (GlobalEvent.remainingDays ev - 1) in
      if (GlobalEvent.remainingDays ev' <=? 0)%Z then None else Some ev'
  | None => None
  end.

(** [Math.random()] is called only when the two tests before it hold.
    An index outside the pool needs a value outside [0, 1) from
    [Math.random()]; there the model stops. *)
Definition eventLogic (activeEvent : option GlobalEvent) (nextCycleProgress : Z)
  : M (option GlobalEvent) :=
  let nextEvent := ageEvent activeEvent in
  if (10 <=? nextCycleProgress)%Z && negb (bool_decide (is_Some nextEvent)) then
    (let* r := Math_random in
     if Qltb 0.3 r then
       let* r1 := Math_random in
       let* randomEvent :=
         defined (jsIndex EVENTS_POOL
                    (Math.floor (r1 * inject_Z (Z.of_nat (length EVENTS_POOL))))) in
       let* r2 := Math_random in
       let duration := (Math.floor (r2 * 5) + 3)%Z in
       ret (Some (GlobalEvent.mk (EventTemplate.name randomEvent)
                    (EventTemplate.description randomEvent)
                    (EventTemplate.category randomEvent)
                    (EventTemplate.multiplier randomEvent)
                    duration duration))
     else ret nextEvent)%upd
  else ret nextEvent.

(** *** Production logic (version A lines 258-283, version B lines 822-847) *)

Record Production := mkProduction {
  currentDayProductionCost : Q;
  nextInventory : list InventoryItem;
  nextFacilities : list ProductionFacility
}.

(** Lines 270-276 (version B 834-840): the item found by [findIndex]
    is replaced by a copy with the yield added; nothing happens when
    [findIndex] returns [-1]. *)
Definition creditYield (commodityId : string) (productionYield : Z)
    (nextInventory : list InventoryItem) : list InventoryItem :=
  match findIndex (fun i => String.eqb (InventoryItem.commodityId i) commodityId)
                  nextInventory with
  | Some invIdx =>
      match nextInventory !! invIdx with
      | Some item =>
          <[invIdx := InventoryItem.mk (InventoryItem.commodityId item)
                        (InventoryItem.quantity item + productionYield)%Z]>
            nextInventory
      | None => nextInventory
      end
  | None => nextInventory
  end.

(** The body of [prev.facilities.forEach(facility => ...)].  The
    commodity found by [COMMODITIES.find] is read only on the branch of
    a facility that produces. *)
Definition produce (hasNoCash : bool) (acc : Production)
    (facility : ProductionFacility) : option Production :=
  let commodity := findCommodity (ProductionFacility.commodityId facility) in
  let isForcePaused := ProductionFacility.isProducing facility && hasNoCash in
  let actualProducing := ProductionFacility.isProducing facility && negb hasNoCash in
  if actualProducing then
    commodity ← commodity;
    let currentLevelCost :=
      inject_Z (Math.floor
                  (Binary64.mul (Commodity.productionCost commodity)
                     (Binary64.pow 1.4 (ProductionFacility.level facility - 1)))) in
    let speedFactor := 5 + inject_Z (ProductionFacility.level facility) * 10 in
    let newProgress := ProductionFacility.progress facility + speedFactor in
    let completed := Qleb 100 newProgress in
    Some (mkProduction
            (currentDayProductionCost acc + currentLevelCost)
            (if completed
             then creditYield (ProductionFacility.commodityId facility)
                    (Commodity.productionYield commodity) (nextInventory acc)
             else nextInventory acc)
            (nextFacilities acc ++
               [ProductionFacility.mk (ProductionFacility.commodityId facility)
                  (ProductionFacility.level facility)
                  (ProductionFacility.isProducing facility)
                  (if completed then jsRem newProgress 100 else newProgress)]))
  else
    Some (mkProduction
            (currentDayProductionCost acc)
            (nextInventory acc)
            (nextFacilities acc ++
               [ProductionFacility.mk (ProductionFacility.commodityId facility)
                  (ProductionFacility.level facility)
                  (if isForcePaused then false
                   else ProductionFacility.isProducing facility)
                  (ProductionFacility.progress facility)])).

Definition productionLogic (hasNoCash : bool) (prev : GameState)
  : option Production :=
  forEachO (produce hasNoCash) (facilities prev)
           (mkProduction 0 (inventory prev) []).

(** *** Cycle ledger (version A lines 285-298, version B lines 849-862) *)

(** The three [useRef] counters of the running 10-day cycle. *)
Record CycleRefs := mkRefs {
  cyclePurchasesRef : Q;
  cycleSalesRef : Q;
  cycleProductionRef : Q
}.

Definition ledgerRoll (refs : CycleRefs) (prev : GameState)
    (currentDayProductionCost : Q) (nextCycleProgress : Z)
  : CycleRefs * DailyLedger :=
  let refs1 := mkRefs (cyclePurchasesRef refs) (cycleSalesRef refs)
                      (cycleProductionRef refs + currentDayProductionCost) in
  if (10 <=? nextCycleProgress)%Z then
    (mkRefs 0 0 0,
     mkLedger (cycleSalesRef refs1) (cyclePurchasesRef refs1)
              (cycleProductionRef refs1)
              (cycleSalesRef refs1 - cyclePurchasesRef refs1
               - cycleProductionRef refs1))
  else (refs1, lastLedger prev).

(** *** Replacement value of a facility

    [basePrice * 25] plus [Math.floor(basePrice * 25 * Math.pow(1.8, i))]
    for [i] from 1 below the level: the loop of [infrastructureValue],
    of the wealth tax and of [handleSellFacility]. *)
Definition totalInvested (c : Commodity) (level : Z) : Q :=
  foldl (fun totalCost i =>
           totalCost + inject_Z (Math.floor (Commodity.basePrice c * 25 * Math.pow 1.8 i)))
        (Commodity.basePrice c * 25)
        (seqZ 1 (level - 1)).

(** *** Derived values read by the view and by the wealth tax *)

(** [inventory.reduce((acc, item) => acc + item.quantity *
    prices[item.commodityId].currentPrice, 0)] *)
Definition inventoryValueAt (prices : gmap string MarketPrice)
    (inventory : list InventoryItem) : option Q :=
  forEachO (fun acc item =>
              price ← prices !! InventoryItem.commodityId item;
              Some (acc + inject_Z (InventoryItem.quantity item)
                          * MarketPrice.currentPrice price))
           inventory 0.

Definition infrastructureValueOf (facilities : list ProductionFacility)
  : option Q :=
  forEachO (fun acc facility =>
              commodity ← findCommodity (ProductionFacility.commodityId facility);
              Some (acc + totalInvested commodity (ProductionFacility.level facility)))
           facilities 0.

(** ** Initial state (the initialiser of [useState<GameState>]) *)

Definition initialPrices : gmap string MarketPrice :=
  foldl (fun initialPrices c =>
           <[Commodity.id c :=
               MarketPrice.mk (Commodity.id c) (Commodity.basePrice c)
                 [Commodity.basePrice c] stable]> initialPrices)
        ∅ COMMODITIES.

Definition initialGameState (INITIAL_TAX_RATE : Q) : GameState :=
  {| cash := INITIAL_CASH;
     debt := 0;
     day := 1;
     cycleProgress := 0;
     inventory := map (fun c => InventoryItem.mk (Commodity.id c) 0) COMMODITIES;
     facilities := [];
     prices := initialPrices;
     lastLedger := mkLedger 0 0 0 0;
     lifetime := mkLifetime 0 0 0 0 0 0 0;
     activeEvent := None;
     taxRate := INITIAL_TAX_RATE;
     nextTaxDay := TAX_CYCLE |}.

(** ** State updaters of the player actions shared by both versions

    Each is the function handed to [setGameState]; the updater of
    [handleTrade] also writes the cycle counters. *)

Definition ownedItem (id : string) (inventory : list InventoryItem)
  : option InventoryItem :=
  List.find (fun i => String.eqb (InventoryItem.commodityId i) id) inventory.

(** The [owned] property handed to a commodity card (version A line
    551): [inventory.find(i => i.commodityId === c.id)?.quantity || 0]. *)
Definition owned (id : string) (inventory : list InventoryItem) : Z :=
  match ownedItem id inventory with
  | Some item => InventoryItem.quantity item
  | None => 0%Z
  end.

(** Version A lines 328-346, version B lines 892-910. *)
Definition tradeUpdater (id : string) (quantity : Z)
    (prev : GameState) (refs : CycleRefs) : option (GameState * CycleRefs) :=
  price ← MarketPrice.currentPrice <$> prices prev !! id;
  let totalCost := inject_Z quantity * price in
  if (0 <? quantity)%Z && Qltb (cash prev) totalCost then Some (prev, refs) else
  let currentItem := ownedItem id (inventory prev) in
  if (quantity <? 0)%Z
     && match currentItem with
        | None => true
        | Some item => (InventoryItem.quantity item <? Z.abs quantity)%Z
        end
  then Some (prev, refs) else
  let refs' :=
    if (0 <? quantity)%Z
    then mkRefs (cyclePurchasesRef refs + totalCost) (cycleSalesRef refs)
                (cycleProductionRef refs)
    else mkRefs (cyclePurchasesRef refs) (cycleSalesRef refs + Math.abs totalCost)
                (cycleProductionRef refs) in
  Some ({| cash := cash prev - totalCost;
           debt := debt prev;
           day := day prev;
           cycleProgress := cycleProgress prev;
           inventory :=
             map (fun item =>
                    if String.eqb (InventoryItem.commodityId item) id
                    then InventoryItem.mk (InventoryItem.commodityId item)
                           (InventoryItem.quantity item + quantity)%Z
                    else item)
                 (inventory prev);
           facilities := facilities prev;
           prices := prices prev;
           lastLedger := lastLedger prev;
           lifetime :=
             {| totalSales :=
                  if (quantity <? 0)%Z
                  then totalSales (lifetime prev) + Math.abs totalCost
                  else totalSales (lifetime prev);
                totalMarketPurchases :=
                  if (0 <? quantity)%Z
                  then totalMarketPurchases (lifetime prev) + totalCost
                  else totalMarketPurchases (lifetime prev);
                totalProductionCosts := totalProductionCosts (lifetime prev);
                totalConstruction := totalConstruction (lifetime prev);
                totalUpgrades := totalUpgrades (lifetime prev);
                totalInterestPaid := totalInterestPaid (lifetime prev);
                totalTaxesPaid := totalTaxesPaid (lifetime prev) |};
           activeEvent := activeEvent prev;
           taxRate := taxRate prev;
           nextTaxDay := nextTaxDay prev |},
        refs').

Definition hasFacility (id : string) (facilities : list ProductionFacility)
  : bool :=
  existsb (fun f => String.eqb (ProductionFacility.commodityId f) id) facilities.

(** Version A lines 353-361, version B lines 916-924; [cost] is computed
    by the handler before it calls [setGameState]. *)
Definition unlockUpdater (id : string) (cost : Q) (prev : GameState) : GameState :=
  if Qltb (cash prev) cost || hasFacility id (facilities prev) then prev else
  {| cash := cash prev - cost;
     debt := debt prev;
     day := day prev;
     cycleProgress := cycleProgress prev;
     inventory := inventory prev;
     facilities := facilities prev ++ [ProductionFacility.mk id 1 true 0];
     prices := prices prev;
     lastLedger := lastLedger prev;
     lifetime :=
       {| totalSales := totalSales (lifetime prev);
          totalMarketPurchases := totalMarketPurchases (lifetime prev);
          totalProductionCosts := totalProductionCosts (lifetime prev);
          totalConstruction := totalConstruction (lifetime prev) + cost;
          totalUpgrades := totalUpgrades (lifetime prev);
          totalInterestPaid := totalInterestPaid (lifetime prev);
          totalTaxesPaid := totalTaxesPaid (lifetime prev) |};
     activeEvent := activeEvent prev;
     taxRate := taxRate prev;
     nextTaxDay := nextTaxDay prev |}.

Definition facilityOf (id : string) (facilities : list ProductionFacility)
  : option ProductionFacility :=
  List.find (fun f => String.eqb (ProductionFacility.commodityId f) id) facilities.

(** Version A lines 366-378, version B lines 928-940. *)
Definition upgradeUpdater (id : string) (prev : GameState) : option GameState :=
  match facilityOf id (facilities prev) with
  | None => Some prev
  | Some facility =>
      commodity ← findCommodity id;
      let upgradeCost :=
        inject_Z (Math.floor (Commodity.basePrice commodity * 25
                              * Math.pow 1.8 (ProductionFacility.level facility))) in
      if Qltb (cash prev) upgradeCost then Some prev else
      Some {| cash := cash prev - upgradeCost;
              debt := debt prev;
              day := day prev;
              cycleProgress := cycleProgress prev;
              inventory := inventory prev;
              facilities :=
                map (fun f =>
                       if String.eqb (ProductionFacility.commodityId f) id
                       then ProductionFacility.mk (ProductionFacility.commodityId f)
                              (ProductionFacility.level f + 1)
                              (ProductionFacility.isProducing f)
                              (ProductionFacility.progress f)
                       else f)
                    (facilities prev);
              prices := prices prev;
              lastLedger := lastLedger prev;
              lifetime :=
                {| totalSales := totalSales (lifetime prev);
                   totalMarketPurchases := totalMarketPurchases (lifetime prev);
                   totalProductionCosts := totalProductionCosts (lifetime prev);
                   totalConstruction := totalConstruction (lifetime prev);
                   totalUpgrades := totalUpgrades (lifetime prev) + upgradeCost;
                   totalInterestPaid := totalInterestPaid (lifetime prev);
                   totalTaxesPaid := totalTaxesPaid (lifetime prev) |};
              activeEvent := activeEvent prev;
              taxRate := taxRate prev;
              nextTaxDay := nextTaxDay prev |}
  end.

(** [{ ...prev, cash: c, debt: d }] *)
Definition withCashDebt (prev : GameState) (c d : Q) : GameState :=
  {| cash := c;
     debt := d;
     day := day prev;
     cycleProgress := cycleProgress prev;
     inventory := inventory prev;
     facilities := facilities prev;
     prices := prices prev;
     lastLedger := lastLedger prev;
     lifetime := lifetime prev;
     activeEvent := activeEvent prev;
     taxRate := taxRate prev;
     nextTaxDay := nextTaxDay prev |}.

(** [{ ...prev, cash: c, facilities: fs }] *)
Definition withCashFacilities (prev : GameState) (c : Q)
    (fs : list ProductionFacility) : GameState :=
  {| cash := c;
     debt := debt prev;
     day := day prev;
     cycleProgress := cycleProgress prev;
     inventory := inventory prev;
     facilities := fs;
     prices := prices prev;
     lastLedger := lastLedger prev;
     lifetime := lifetime prev;
     activeEvent := activeEvent prev;
     taxRate := taxRate prev;
     nextTaxDay := nextTaxDay prev |}.

(** Version A lines 403-406, version B lines 944-947. *)
Definition toggleUpdater (id : string) (prev : GameState) : GameState :=
  withCashFacilities prev (cash prev)
    (map (fun f =>
            if String.eqb (ProductionFacility.commodityId f) id
            then ProductionFacility.mk (ProductionFacility.commodityId f)
                   (ProductionFacility.level f)
                   (negb (ProductionFacility.isProducing f))
                   (ProductionFacility.progress f)
            else f)
         (facilities prev)).

(** Version A line 411, version B line 951. *)
Definition loanUpdater (amount : Q) (prev : GameState) : GameState :=
  withCashDebt prev (cash prev + amount) (debt prev + amount).

(** Version A line 416, version B line 955. *)
Definition repayUpdater (repayAmount : Q) (prev : GameState) : GameState :=
  withCashDebt prev (cash prev - repayAmount) (debt prev - repayAmount).

(** ** The tick updater: what both versions return

    The locals of the tax block, and the object literal returned by the
    updater ([{ ...prev, day: nextDay, ... }]); only the expression for
    [cash] differs between the versions. *)

Module Tax.
Record t := mk {
  nextCash : Q;
  totalTaxesPaid : Q;
  currentTaxRate : Q;
  nextTaxDay : Z;
  taxBill : option Q
}.
End Tax.

Definition tickState (prev : GameState) (nextPrices : gmap string MarketPrice)
    (tax : Tax.t) (nextEvent : option GlobalEvent) (production : Production)
    (finalLedger : DailyLedger) (finalCash : Q) : GameState :=
  let nextDay := (day prev + 1)%Z in
  let nextCycleProgress := (cycleProgress prev + 1)%Z in
  let dailyInterest := debt prev * DAILY_INTEREST_RATE in
  let nextDebt := debt prev + dailyInterest in
  {| cash := finalCash;
     debt := nextDebt;
     day := nextDay;
     cycleProgress := if (10 <=? nextCycleProgress)%Z then 0%Z else nextCycleProgress;
     inventory := nextInventory production;
     facilities := nextFacilities production;
     prices := nextPrices;
     lastLedger := finalLedger;
     lifetime :=
       {| totalSales := totalSales (lifetime prev);
          totalMarketPurchases := totalMarketPurchases (lifetime prev);
          totalProductionCosts :=
            totalProductionCosts (lifetime prev) + currentDayProductionCost production;
          totalConstruction := totalConstruction (lifetime prev);
          totalUpgrades := totalUpgrades (lifetime prev);
          totalInterestPaid := totalInterestPaid (lifetime prev) + dailyInterest;
          totalTaxesPaid := Tax.totalTaxesPaid tax |};
     activeEvent := nextEvent;
     taxRate := Tax.currentTaxRate tax;
     nextTaxDay := Tax.nextTaxDay tax |}.

(** ** Version A of [App.tsx] (lines 96-668): pause button, wealth tax
    on net worth, facilities can be sold *)

Module AppA.

Definition INITIAL_TAX_RATE : Q := 0.15.

(** The state of the component; [activeChartId] only selects the
    chart and is left out.  The timer that clears [lastTaxPaid] after
    five seconds of real time is outside the model. *)
Record App := mkApp {
  gameState : GameState;
  isGameOver : bool;
  isPaused : bool;
  repayAmount : Q;
  lastTaxPaid : option Q;
  refs : CycleRefs
}.

Definition initialApp : App :=
  mkApp (initialGameState INITIAL_TAX_RATE) false false 0 None (mkRefs 0 0 0).

Definition setGameState (s : GameState) (app : App) : App :=
  mkApp s (isGameOver app) (isPaused app) (repayAmount app)
        (lastTaxPaid app) (refs app).

Definition inventoryValue (s : GameState) : option Q :=
  inventoryValueAt (prices s) (inventory s).

Definition infrastructureValue (s : GameState) : option Q :=
  infrastructureValueOf (facilities s).

Definition netEquity (s : GameState) : option Q :=
  iv ← inventoryValue s;
  fv ← infrastructureValue s;
  Some (cash s + iv + fv - debt s).

(** [useEffect(() => { if (netEquity < -1000 && !isGameOver)
    setIsGameOver(true) })] *)
Definition solvencyEffect (app : App) : option App :=
  ne ← netEquity (gameState app);
  Some (if Qltb ne (-1000) && negb (isGameOver app)
        then mkApp (gameState app) true (isPaused app) (repayAmount app)
                   (lastTaxPaid app) (refs app)
        else app).

(** Lines 221-240: the wealth tax on net worth at the new prices. *)
Definition taxLogic (prev : GameState) (nextPrices : gmap string MarketPrice)
  : M Tax.t :=
  let nextDay := (day prev + 1)%Z in
  if (nextTaxDay prev <=? nextDay)%Z then
    (let* currentInvVal := defined (inventoryValueAt nextPrices (inventory prev)) in
     let* currentInfraVal := defined (infrastructureValueOf (facilities prev)) in
     let currentNetWorth :=
       cash prev + currentInvVal + currentInfraVal - debt prev in
     let taxBill := Math.max 0 (currentNetWorth * taxRate prev) in
     let* r := Math_random in
     ret (Tax.mk (cash prev - taxBill)
                 (totalTaxesPaid (lifetime prev) + taxBill)
                 (0.10 + r * 0.10)
                 (nextTaxDay prev + TAX_CYCLE)
                 (Some taxBill)))%upd
  else
    ret (Tax.mk (cash prev) (totalTaxesPaid (lifetime prev)) (taxRate prev)
                (nextTaxDay prev) None).

(** Lines 195-320: the updater of the [setInterval] callback.  The
    market block runs first, with [nextEvent] still [prev.activeEvent]. *)
Definition tick (app : App) : M App :=
  let prev := gameState app in
  (let* nextPrices := marketLogic (activeEvent prev) (prices prev) in
   let* tax := taxLogic prev nextPrices in
   let nextCycleProgress := (cycleProgress prev + 1)%Z in
   let* nextEvent := eventLogic (activeEvent prev) nextCycleProgress in
   let hasNoCash := Qleb (Tax.nextCash tax) 0 in
   let* production := defined (productionLogic hasNoCash prev) in
   let '(refs', finalLedger) :=
     ledgerRoll (refs app) prev (currentDayProductionCost production)
                nextCycleProgress in
   ret (mkApp
          (tickState prev nextPrices tax nextEvent production finalLedger
             (Tax.nextCash tax - currentDayProductionCost production))
          (isGameOver app) (isPaused app) (repayAmount app)
          (match Tax.taxBill tax with
           | Some bill => Some bill
           | None => lastTaxPaid app
           end)
          refs'))%upd.

(** Lines 326-347. *)
Definition handleTrade (id : string) (quantity : Z) (app : App) : option App :=
  if isGameOver app || isPaused app then Some app else
  '(s, r) ← tradeUpdater id quantity (gameState app) (refs app);
  Some (mkApp s (isGameOver app) (isPaused app) (repayAmount app)
              (lastTaxPaid app) r).

(** Lines 349-362. *)
Definition handleUnlockFacility (id : string) (app : App) : option App :=
  if isPaused app then Some app else
  commodity ← findCommodity id;
  let cost := Commodity.basePrice commodity * 25 in
  Some (setGameState (unlockUpdater id cost (gameState app)) app).

(** Lines 364-379. *)
Definition handleUpgradeFacility (id : string) (app : App) : option App :=
  if isPaused app then Some app else
  s ← upgradeUpdater id (gameState app);
  Some (setGameState s app).

(** Lines 383-398. *)
Definition sellUpdater (id : string) (prev : GameState) : option GameState :=
  match facilityOf id (facilities prev) with
  | None => Some prev
  | Some facility =>
      commodity ← findCommodity id;
      let refund :=
        inject_Z (Math.floor
                    (Binary64.mul
                       (totalInvested commodity (ProductionFacility.level facility))
                       0.7)) in
      Some (withCashFacilities prev (cash prev + refund)
              (filter (fun f => ProductionFacility.commodityId f ≠ id)
                      (facilities prev)))
  end.

(** Lines 381-399. *)
Definition handleSellFacility (id : string) (app : App) : option App :=
  if isPaused app then Some app else
  s ← sellUpdater id (gameState app);
  Some (setGameState s app).

(** Lines 401-407. *)
Definition handleToggleProduction (id : string) (app : App) : App :=
  if isPaused app then app else
  setGameState (toggleUpdater id (gameState app)) app.

(** Lines 409-412.  The gate reads [gameState.debt] of the last render,
    which is the current state once the pending updates are applied. *)
Definition takeLoan (amount : Q) (app : App) : App :=
  if Qltb 0 (debt (gameState app)) || isPaused app then app else
  setGameState (loanUpdater amount (gameState app)) app.

(** Lines 414-418. *)
Definition handleRepay (app : App) : App :=
  if isPaused app then app else
  mkApp (repayUpdater (repayAmount app) (gameState app))
        (isGameOver app) (isPaused app) 0 (lastTaxPaid app) (refs app).

(** Line 422, the [max] of the repayment slider, and its [onChange]. *)
Definition maxRepayable (app : App) : Q :=
  Math.min (cash (gameState app)) (debt (gameState app)).

Definition setRepayAmount (amount : Q) (app : App) : App :=
  mkApp (gameState app) (isGameOver app) (isPaused app) amount
        (lastTaxPaid app) (refs app).

(** Line 490, the pause button: [setIsPaused(!isPaused)]. *)
Definition togglePause (app : App) : App :=
  mkApp (gameState app) (isGameOver app) (negb (isPaused app)) (repayAmount app)
        (lastTaxPaid app) (refs app).

(** [n] runs of the updater, each on the state the one before returned. *)
Fixpoint ticks (n : nat) (app : App) : M App :=
  match n with
  | O => ret app
  | S n' => bind (tick app) (ticks n')
  end.

End AppA.

(** ** Version B of [App.tsx] (lines 670-1201): tax on liquid cash,
    cash clamped at zero *)

Module AppB.

Definition INITIAL_TAX_RATE : Q := 0.20.

(** The timer that clears [showTaxAlert] after three seconds of real
    time is outside the model. *)
Record App := mkApp {
  gameState : GameState;
  isGameOver : bool;
  repayAmount : Q;
  showTaxAlert : bool;
  refs : CycleRefs
}.

Definition initialApp : App :=
  mkApp (initialGameState INITIAL_TAX_RATE) false 0 false (mkRefs 0 0 0).

Definition setGameState (s : GameState) (app : App) : App :=
  mkApp s (isGameOver app) (repayAmount app) (showTaxAlert app) (refs app).

Definition inventoryValue (s : GameState) : option Q :=
  inventoryValueAt (prices s) (inventory s).

Definition netEquity (s : GameState) : option Q :=
  iv ← inventoryValue s;
  Some (cash s + iv - debt s).

(** [useEffect(() => { if (netEquity < 0 && !isGameOver)
    setIsGameOver(true) })] *)
Definition solvencyEffect (app : App) : option App :=
  ne ← netEquity (gameState app);
  Some (if Qltb ne 0 && negb (isGameOver app)
        then mkApp (gameState app) true (repayAmount app)
                   (showTaxAlert app) (refs app)
        else app).

(** Lines 768-780: the tax on liquid cash. *)
Definition taxLogic (prev : GameState) : M Tax.t :=
  let nextDay := (day prev + 1)%Z in
  if (nextTaxDay prev <=? nextDay)%Z then
    (let taxBill := cash prev * taxRate prev in
     let* r := Math_random in
     ret (Tax.mk (cash prev - taxBill)
                 (totalTaxesPaid (lifetime prev) + taxBill)
                 (0.10 + r * 0.25)
                 (nextTaxDay prev + TAX_CYCLE)
                 (Some taxBill)))%upd
  else
    ret (Tax.mk (cash prev) (totalTaxesPaid (lifetime prev)) (taxRate prev)
                (nextTaxDay prev) None).

(** Lines 756-884: the updater of the [setInterval] callback.  The
    event block runs before the market block. *)
Definition tick (app : App) : M App :=
  let prev := gameState app in
  (let* tax := taxLogic prev in
   let nextCycleProgress := (cycleProgress prev + 1)%Z in
   let* nextEvent := eventLogic (activeEvent prev) nextCycleProgress in
   let* nextPrices := marketLogic nextEvent (prices prev) in
   let hasNoCash := Qleb (Tax.nextCash tax) 0 in
   let* production := defined (productionLogic hasNoCash prev) in
   let '(refs', finalLedger) :=
     ledgerRoll (refs app) prev (currentDayProductionCost production)
                nextCycleProgress in
   ret (mkApp
          (tickState prev nextPrices tax nextEvent production finalLedger
             (Math.max 0 (Tax.nextCash tax - currentDayProductionCost production)))
          (isGameOver app) (repayAmount app)
          (match Tax.taxBill tax with
           | Some _ => true
           | None => showTaxAlert app
           end)
          refs'))%upd.

(** Lines 890-911. *)
Definition handleTrade (id : string) (quantity : Z) (app : App) : option App :=
  if isGameOver app then Some app else
  '(s, r) ← tradeUpdater id quantity (gameState app) (refs app);
  Some (mkApp s (isGameOver app) (repayAmount app) (showTaxAlert app) r).

(** Lines 913-925. *)
Definition handleUnlockFacility (id : string) (app : App) : option App :=
  commodity ← findCommodity id;
  let cost := Commodity.basePrice commodity * 25 in
  Some (setGameState (unlockUpdater id cost (gameState app)) app).

(** Lines 927-941. *)
Definition handleUpgradeFacility (id : string) (app : App) : option App :=
  s ← upgradeUpdater id (gameState app);
  Some (setGameState s app).

(** Lines 943-948. *)
Definition handleToggleProduction (id : string) (app : App) : App :=
  setGameState (toggleUpdater id (gameState app)) app.

(** Lines 950-952. *)
Definition takeLoan (amount : Q) (app : App) : App :=
  setGameState (loanUpdater amount (gameState app)) app.

(** Lines 954-957. *)
Definition handleRepay (app : App) : App :=
  mkApp (repayUpdater (repayAmount app) (gameState app))
        (isGameOver app) 0 (showTaxAlert app) (refs app).

(** Line 961, the [max] of the repayment slider, and its [onChange]. *)
Definition maxRepayable (app : App) : Q :=
  Math.min (cash (gameState app)) (debt (gameState app)).

Definition setRepayAmount (amount : Q) (app : App) : App :=
  mkApp (gameState app) (isGameOver app) amount (showTaxAlert app) (refs app).

(** [n] runs of the updater, each on the state the one before returned. *)
Fixpoint ticks (n : nat) (app : App) : M App :=
  match n with
  | O => ret app
  | S n' => bind (tick app) (ticks n')
  end.

End AppB.

(** ** [CommodityCard.tsx]: the displayed price change

    The expression divides, and reads [history] by index, so here a
    number may also be one of the three non-finite values: a missing
    array entry ([undefined]) turns into [NaN] under arithmetic and a
    division by zero into an infinity or [NaN].  Negative zero is
    outside the model. *)

Module Number.

Inductive t : Type :=
| Finite (q : Q)
| PlusInfinity
| MinusInfinity
| NaN.

(** An array entry used as an operand. *)
Definition ofEntry (entry : option Q) : t :=
  match entry with
  | Some q => Finite q
  | None => NaN
  end.

Definition flip (sign : t) : t :=
  match sign with
  | PlusInfinity => MinusInfinity
  | MinusInfinity => PlusInfinity
  | other => other
  end.

Definition sub (a b : t) : t :=
  match a, b with
  | NaN, _ | _, NaN => NaN
  | Finite x, Finite y => Finite (x - y)
  | PlusInfinity, PlusInfinity | MinusInfinity, MinusInfinity => NaN
  | PlusInfinity, _ => PlusInfinity
  | MinusInfinity, _ => MinusInfinity
  | Finite _, inf => flip inf
  end.

Definition mul (a b : t) : t :=
  match a, b with
  | NaN, _ | _, NaN => NaN
  | Finite x, Finite y => Finite (x * y)
  | Finite x, inf | inf, Finite x =>
      if Qeq_bool x 0 then NaN else if Qltb 0 x then inf else flip inf
  | PlusInfinity, inf => inf
  | MinusInfinity, inf => flip inf
  end.

Definition div (a b : t) : t :=
  match a, b with
  | NaN, _ | _, NaN => NaN
  | Finite x, Finite y =>
      if Qeq_bool y 0
      then if Qeq_bool x 0 then NaN
           else if Qltb 0 x then PlusInfinity else MinusInfinity
      else Finite (x / y)
  | Finite _, _ => Finite 0
  | inf, Finite y => if Qltb y 0 then flip inf else inf
  | _, _ => NaN
  end.

(** [x.toFixed(fractionDigits)] for [fractionDigits >= 1].  From
    10^21 on JavaScript prints a finite number in exponent notation,
    which depends on its binary64 digits; the model keeps the decimal
    form there. *)
Definition toFixed (x : t) (fractionDigits : nat) : string :=
  match x with
  | NaN => "NaN"
  | PlusInfinity => "Infinity"
  | MinusInfinity => "-Infinity"
  | Finite q =>
      let s := if Qltb q 0 then "-" else "" in
      let x := if Qltb q 0 then - q else q in
      let n := Z.to_N (Qfloor (x * inject_Z (10 ^ Z.of_nat fractionDigits) + 0.5)) in
      let m := pretty n in
      let m := if (String.length m <=? fractionDigits)%nat
               then String.concat ""
                      (replicate (fractionDigits + 1 - String.length m) "0")
                    +:+ m
               else m in
      let k := String.length m in
      s +:+ String.substring 0 (k - fractionDigits) m +:+ "."
        +:+ String.substring (k - fractionDigits) fractionDigits m
  end.

(** A number as the binary64 value nearest to it, and [a / b] as the
    division computes it: the quotient of two binary64 values, rounded. *)
Definition round (x : t) : t :=
  match x with
  | Finite q => Finite (Binary64.round q)
  | other => other
  end.

Definition div64 (a b : t) : t := round (div (round a) (round b)).

(** [Math.floor] of a number that may not be finite. *)
Definition floor (x : t) : t :=
  match x with
  | Finite q => Finite (inject_Z (Qfloor q))
  | other => other
  end.

End Number.

Module CommodityCard.

(** Lines 15-17 of the first version, 19-21 of the second. *)
Definition priceChange (marketData : MarketPrice) : string :=
  let history := MarketPrice.history marketData in
  if (1 <? length history)%nat then
    let prior := Number.ofEntry (history !! (length history - 2)%nat) in
    Number.toFixed
      (Number.mul
         (Number.div
            (Number.sub (Number.Finite (MarketPrice.currentPrice marketData)) prior)
            prior)
         (Number.Finite 100))
      2
  else "0.00".

(** Lines 19-21 of the first version, 23-25 of the second:
    [Math.floor(cash / marketData.currentPrice)], the floor of the
    binary64 quotient. *)
Definition maxBuyable (cash : Q) (marketData : MarketPrice) : Number.t :=
  Number.floor (Number.div64 (Number.Finite cash)
                             (Number.Finite (MarketPrice.currentPrice marketData))).

Definition minAmount (owned : Z) : Z := (- owned)%Z.

Definition maxAmount (cash : Q) (marketData : MarketPrice) : Number.t :=
  maxBuyable cash marketData.

(** Lines 23-27 (27-31): the button of the card.  Nothing is sent for
    an amount of 0; otherwise [onTrade] is called and the amount of the
    card is reset to 0. *)
Definition handleTrade {App : Type} (onTrade : string -> Z -> App -> option App)
    (commodity : Commodity) (tradeAmount : Z) (app : App) : option (App * Z) :=
  if (tradeAmount =? 0)%Z then Some (app, tradeAmount) else
  app' ← onTrade (Commodity.id commodity) tradeAmount app;
  Some (app', 0%Z).

End CommodityCard.

(** ** [ProductionPanel.tsx]: the figures and gates of a facility panel

    [src/components/ProductionPanel.tsx] is the panel version A renders,
    with a sale value and [isPaused] in its gates; the older panel
    (part_002 lines 1-94) is the one version B renders, with the same
    costs, the operating cost on display and gates on cash alone. *)

Module ProductionPanel.

(** Line 17 (line 14 of the older panel). *)
Definition unlockCost (commodity : Commodity) : Q :=
  Commodity.basePrice commodity * 25.

(** Line 18 (15): [facility ? Math.floor(unlockCost * Math.pow(1.8,
    facility.level)) : 0]. *)
Definition upgradeCost (commodity : Commodity)
    (facility : option ProductionFacility) : Q :=
  match facility with
  | Some f =>
      inject_Z (Math.floor (unlockCost commodity
                            * Math.pow 1.8 (ProductionFacility.level f)))
  | None => 0
  end.

(** Line 21 (18): [facility ? Math.floor(commodity.productionCost *
    Math.pow(1.4, facility.level - 1)) : 0]. *)
Definition currentDailyCost (commodity : Commodity)
    (facility : option ProductionFacility) : Q :=
  match facility with
  | Some f =>
      inject_Z (Math.floor
                  (Binary64.mul (Commodity.productionCost commodity)
                     (Binary64.pow 1.4 (ProductionFacility.level f - 1))))
  | None => 0
  end.

(** Line 79 of the older panel, the operating cost on display:
    [facility.isProducing ? currentDailyCost : 0]. *)
Definition opCost (commodity : Commodity) (f : ProductionFacility) : Q :=
  if ProductionFacility.isProducing f
  then currentDailyCost commodity (Some f)
  else 0.

(** Lines 24-30: the loop runs only under
    [facility && facility.level > 1]. *)
Definition sellValue (commodity : Commodity)
    (facility : option ProductionFacility) : Q :=
  let totalInvested :=
    match facility with
    | Some f =>
        if (1 <? ProductionFacility.level f)%Z then
          foldl (fun totalInvested i =>
                   totalInvested
                   + inject_Z (Math.floor (unlockCost commodity * Math.pow 1.8 i)))
                (unlockCost commodity)
                (seqZ 1 (ProductionFacility.level f - 1))
        else unlockCost commodity
    | None => unlockCost commodity
    end in
  inject_Z (Math.floor (Binary64.mul totalInvested 0.7)).

(** Lines 39 and 104: [disabled={cash < unlockCost || isPaused}] of the
    build button, [disabled={cash < upgradeCost || isPaused}] of the
    upgrade button. *)
Definition buildDisabled (commodity : Commodity) (cash : Q) (isPaused : bool) : bool :=
  Qltb cash (unlockCost commodity) || isPaused.

Definition upgradeDisabled (commodity : Commodity)
    (facility : option ProductionFacility) (cash : Q) (isPaused : bool) : bool :=
  Qltb cash (upgradeCost commodity facility) || isPaused.

(** Lines 27 and 84 of the older panel: [disabled={cash < unlockCost}]
    and [disabled={cash < upgradeCost}]. *)
Definition buildDisabled0 (commodity : Commodity) (cash : Q) : bool :=
  Qltb cash (unlockCost commodity).

Definition upgradeDisabled0 (commodity : Commodity)
    (facility : option ProductionFacility) (cash : Q) : bool :=
  Qltb cash (upgradeCost commodity facility).

End ProductionPanel.

(** ** Derived figures of [App.tsx] *)

(** Version A lines 425-431, version B lines 963-969. *)
Definition lifetimeCosts (s : GameState) : Q :=
  totalMarketPurchases (lifetime s) + totalProductionCosts (lifetime s)
  + totalConstruction (lifetime s) + totalUpgrades (lifetime s)
  + totalInterestPaid (lifetime s) + totalTaxesPaid (lifetime s).

Definition lifetimeNet (s : GameState) : Q :=
  totalSales (lifetime s) - lifetimeCosts s.

(** * Vocabulary of the statements *)

(** The random source after [k] more calls of [Math.random()]. *)
Definition advance (k : nat) (g : Rng) : Rng := mkRng (stream g) (cursor g + k).

(** The entry the market block writes for commodity [c] when
    [Math.random()] returns [r] and the event in force is [ev]. *)
Definition repriced (ev : option GlobalEvent) (c : Commodity) (r : Q)
    (price : MarketPrice) : MarketPrice :=
  let np := newPrice c ev (MarketPrice.currentPrice price) r in
  MarketPrice.mk (MarketPrice.id price) np
    (sliceLast 20 (MarketPrice.history price ++ [np]))
    (if Qltb (MarketPrice.currentPrice price) np then up else down).

(** [P'] is the price table the market block makes of [P] for the
    commodities [cs], the [i]-th of them with the [i]-th value drawn
    from [g] on. *)
Definition market_spec (cs : list Commodity) (ev : option GlobalEvent)
    (P P' : gmap string MarketPrice) (g : Rng) : Prop :=
  (forall (i : nat) (c : Commodity), cs !! i = Some c ->
     exists price, P !! Commodity.id c = Some price
       /\ P' !! Commodity.id c
          = Some (repriced ev c (stream g (cursor g + i)) price))
  /\ (forall k : string, k ∉ map Commodity.id cs -> P' !! k = P !! k).

(** What the data model promises of a state: every catalog commodity
    has a price entry and an inventory item, every inventory item has a
    price entry, and every facility belongs to a catalog commodity. *)
Definition wf (s : GameState) : Prop :=
  (forall c : Commodity, c ∈ COMMODITIES -> is_Some (prices s !! Commodity.id c))
  /\ (forall item : InventoryItem, item ∈ inventory s ->
       is_Some (prices s !! InventoryItem.commodityId item))
  /\ (forall f : ProductionFacility, f ∈ facilities s ->
       is_Some (findCommodity (ProductionFacility.commodityId f)))
  /\ (forall c : Commodity, c ∈ COMMODITIES ->
       is_Some (ownedItem (Commodity.id c) (inventory s))).

(** What [handleTrade] does with a quantity [q > 0] of commodity [c],
    bought ([q]) or sold ([- q]) at the current price: the trade goes
    through exactly when the cash, or the owned quantity, suffices, and
    a trade that does not go through returns the state it was given. *)
Definition trade_contract {App : Type} (gameState : App -> GameState)
    (handleTrade : string -> Z -> App -> option App)
    (c : Commodity) (q : Z) (app : App) : Prop :=
  let s := gameState app in
  let id := Commodity.id c in
  exists price, prices s !! id = Some price /\
    let p := MarketPrice.currentPrice price in
    (inject_Z q * p <= cash s ->
       exists app', handleTrade id q app = Some app'
         /\ cash (gameState app') == cash s - inject_Z q * p
         /\ owned id (inventory (gameState app')) = (owned id (inventory s) + q)%Z)
    /\ (cash s < inject_Z q * p -> handleTrade id q app = Some app)
    /\ ((q <= owned id (inventory s))%Z ->
         exists app', handleTrade id (- q)%Z app = Some app'
           /\ cash (gameState app') == cash s + inject_Z q * p
           /\ owned id (inventory (gameState app')) = (owned id (inventory s) - q)%Z)
    /\ ((owned id (inventory s) < q)%Z -> handleTrade id (- q)%Z app = Some app).

(** A facility completes a production cycle in a tick when it produces,
    cash is left after the tax, and its progress reaches 100. *)
Definition completes (hasNoCash : bool) (f : ProductionFacility) : bool :=
  ProductionFacility.isProducing f && negb hasNoCash
  && Qleb 100 (ProductionFacility.progress f
               + (5 + inject_Z (ProductionFacility.level f) * 10)).

(** The facility the production block pushes for [f]. *)
Definition advanceFacility (hasNoCash : bool) (f : ProductionFacility)
  : ProductionFacility :=
  let newProgress :=
    ProductionFacility.progress f + (5 + inject_Z (ProductionFacility.level f) * 10) in
  if ProductionFacility.isProducing f && negb hasNoCash then
    ProductionFacility.mk (ProductionFacility.commodityId f)
      (ProductionFacility.level f) (ProductionFacility.isProducing f)
      (if Qleb 100 newProgress then jsRem newProgress 100 else newProgress)
  else
    ProductionFacility.mk (ProductionFacility.commodityId f)
      (ProductionFacility.level f)
      (if ProductionFacility.isProducing f && hasNoCash then false
       else ProductionFacility.isProducing f)
      (ProductionFacility.progress f).

(** The units facility [f] adds to the inventory item of commodity
    [id] in one tick: the yield of its commodity, once, if it belongs to
    [id] and completes a cycle, and nothing otherwise. *)
Definition credit (hasNoCash : bool) (id : string) (f : ProductionFacility) : Z :=
  if completes hasNoCash f && String.eqb (ProductionFacility.commodityId f) id then
    match findCommodity (ProductionFacility.commodityId f) with
    | Some c => Commodity.productionYield c
    | None => 0%Z
    end
  else 0%Z.

Definition credits (hasNoCash : bool) (id : string) (fs : list ProductionFacility) : Z :=
  foldr (fun f total => (credit hasNoCash id f + total)%Z) 0%Z fs.

(** [production] is what the production block makes of the facilities
    and the inventory of [prev] when [hasNoCash] is [h]. *)
Definition production_spec (h : bool) (prev : GameState) (production : Production)
  : Prop :=
  nextFacilities production = map (advanceFacility h) (facilities prev)
  /\ map InventoryItem.commodityId (nextInventory production)
     = map InventoryItem.commodityId (inventory prev)
  /\ forall id : string,
       ownedItem id (nextInventory production)
       = (fun item => InventoryItem.mk (InventoryItem.commodityId item)
                        (InventoryItem.quantity item
                         + credits h id (facilities prev))%Z)
         <$> ownedItem id (inventory prev).

(** Every catalog commodity is priced at no less than a tenth of its
    base price. *)
Definition price_floor (s : GameState) : Prop :=
  forall c : Commodity, c ∈ COMMODITIES ->
    exists price, prices s !! Commodity.id c = Some price
      /\ Commodity.basePrice c * 0.1 <= MarketPrice.currentPrice price.

(** Every catalog commodity's price in [s'] is the new price computed
    from its price in [s] under the event [ev], with a value drawn from
    the random source [g]. *)
Definition prices_use_event (ev : option GlobalEvent) (g : Rng)
    (s s' : GameState) : Prop :=
  forall c : Commodity, c ∈ COMMODITIES ->
    exists price price' i,
      prices s !! Commodity.id c = Some price
      /\ prices s' !! Commodity.id c = Some price'
      /\ MarketPrice.currentPrice price'
         == newPrice c ev (MarketPrice.currentPrice price) (stream g i).

(** A random source whose every value is [r]. *)
Definition constantRng (r : Q) : Rng := mkRng (fun _ => r) 0.

(** Version A with 10 of cash left and an oil field at work. *)
Definition strainedApp : AppA.App :=
  AppA.setGameState
    (withCashFacilities (initialGameState AppA.INITIAL_TAX_RATE) 10
       [ProductionFacility.mk "oil" 1 true 0])
    AppA.initialApp.

(** The first entry of the catalog. *)
Definition oil : Commodity := Commodity.mk "oil" "Crude Oil" ENERGY 80 0.15 50 10.

(** What [handleUnlockFacility] does for commodity [c]: rejected, with
    the state returned as it was, when the cash is below
    [basePrice * 25] or a facility of [c] exists; otherwise the cost is
    debited and a facility at level 1, producing, with progress 0, is
    appended. *)
Definition unlock_contract {App : Type} (gameState : App -> GameState)
    (handleUnlockFacility : string -> App -> option App)
    (c : Commodity) (app : App) : Prop :=
  let s := gameState app in
  let id := Commodity.id c in
  let cost := Commodity.basePrice c * 25 in
  (cash s < cost \/ hasFacility id (facilities s) = true ->
     handleUnlockFacility id app = Some app)
  /\ (cost <= cash s -> hasFacility id (facilities s) = false ->
       exists app', handleUnlockFacility id app = Some app'
         /\ cash (gameState app') = cash s - cost
         /\ facilities (gameState app')
            = facilities s ++ [ProductionFacility.mk id 1 true 0]
         /\ debt (gameState app') = debt s
         /\ inventory (gameState app') = inventory s
         /\ prices (gameState app') = prices s).

(** The outcome of the unlock scenario of the specification. *)
Definition oil_unlocked (s : GameState) : Prop :=
  cash s == 3000 /\ facilities s = [ProductionFacility.mk "oil" 1 true 0].

(** Version B after two loans of 5000 taken one after the other. *)
Definition twiceIndebtedApp : AppB.App :=
  AppB.takeLoan 5000 (AppB.takeLoan 5000 AppB.initialApp).

(** Version A after a loan of 5000, the repayment slider moved to 5000
    and 100 units of oil bought. *)
Definition staleRepayApp : AppA.App :=
  default AppA.initialApp
    (AppA.handleTrade "oil" 100
       (AppA.setRepayAmount 5000 (AppA.takeLoan 5000 AppA.initialApp))).

(** [s'] is [s] with [amount] added to cash and to debt. *)
Definition loan_granted (amount : Q) (s s' : GameState) : Prop :=
  cash s' = cash s + amount /\ debt s' = debt s + amount
  /\ inventory s' = inventory s /\ facilities s' = facilities s
  /\ prices s' = prices s.

(** [s'] is [s] with [amount] taken from cash and from debt. *)
Definition repaid (amount : Q) (s s' : GameState) : Prop :=
  cash s' = cash s - amount /\ debt s' = debt s - amount
  /\ inventory s' = inventory s /\ facilities s' = facilities s
  /\ prices s' = prices s.

(** [handleUpgradeFacility] returns the state it was given when the
    commodity has no facility or the cash is below the upgrade cost. *)
Definition upgrade_rejects {App : Type} (gameState : App -> GameState)
    (handleUpgradeFacility : string -> App -> option App)
    (c : Commodity) (app : App) : Prop :=
  let s := gameState app in
  match facilityOf (Commodity.id c) (facilities s) with
  | None => handleUpgradeFacility (Commodity.id c) app = Some app
  | Some facility =>
      cash s < inject_Z (Math.floor (Commodity.basePrice c * 25
                                     * Math.pow 1.8 (ProductionFacility.level facility))) ->
      handleUpgradeFacility (Commodity.id c) app = Some app
  end.

(** The handlers that can throw return a state: there is no error. *)
Definition mutators_total (c : Commodity) (appA : AppA.App) (appB : AppB.App)
  : Prop :=
  (forall quantity : Z,
     is_Some (AppA.handleTrade (Commodity.id c) quantity appA)
     /\ is_Some (AppB.handleTrade (Commodity.id c) quantity appB))
  /\ is_Some (AppA.handleUnlockFacility (Commodity.id c) appA)
  /\ is_Some (AppB.handleUnlockFacility (Commodity.id c) appB)
  /\ is_Some (AppA.handleUpgradeFacility (Commodity.id c) appA)
  /\ is_Some (AppB.handleUpgradeFacility (Commodity.id c) appB)
  /\ is_Some (AppA.handleSellFacility (Commodity.id c) appA).

(** Trade, unlock, upgrade and sell return the state they were given
    when their precondition fails. *)
Definition mutators_reject (c : Commodity) (q : Z) (appA : AppA.App)
    (appB : AppB.App) : Prop :=
  trade_contract AppA.gameState AppA.handleTrade c q appA
  /\ trade_contract AppB.gameState AppB.handleTrade c q appB
  /\ unlock_contract AppA.gameState AppA.handleUnlockFacility c appA
  /\ unlock_contract AppB.gameState AppB.handleUnlockFacility c appB
  /\ upgrade_rejects AppA.gameState AppA.handleUpgradeFacility c appA
  /\ upgrade_rejects AppB.gameState AppB.handleUpgradeFacility c appB
  /\ (facilityOf (Commodity.id c) (facilities (AppA.gameState appA)) = None ->
       AppA.handleSellFacility (Commodity.id c) appA = Some appA).

(** What one tick does to the facilities and the inventory of [s]:
    every facility is advanced once; a facility whose progress was in
    [0, 100), at a level of at least 1, has its progress in [0, 100)
    again; and the owned quantity of a catalog commodity grows by the
    credits of the facilities, one credit at most for each of them. *)
Definition production_outcome (s s' : GameState) : Prop :=
  exists hasNoCash : bool,
    facilities s' = map (advanceFacility hasNoCash) (facilities s)
    /\ (forall f : ProductionFacility,
         0 <= ProductionFacility.progress f ->
         ProductionFacility.progress f < 100 ->
         (1 <= ProductionFacility.level f)%Z ->
         0 <= ProductionFacility.progress (advanceFacility hasNoCash f)
         /\ ProductionFacility.progress (advanceFacility hasNoCash f) < 100)
    /\ (forall c : Commodity, c ∈ COMMODITIES ->
         owned (Commodity.id c) (inventory s')
         = (owned (Commodity.id c) (inventory s)
            + credits hasNoCash (Commodity.id c) (facilities s))%Z).

(** Version A with an oil field at level 20, whose progress grows by
    205 a tick. *)
Definition deepOilApp : AppA.App :=
  AppA.setGameState
    (withCashFacilities (initialGameState AppA.INITIAL_TAX_RATE) 100000
       [ProductionFacility.mk "oil" 20 true 0])
    AppA.initialApp.

(** Version A on the last day of an event that halves every target
    price. *)
Definition eventEndingApp : AppA.App :=
  let s := initialGameState AppA.INITIAL_TAX_RATE in
  AppA.setGameState
    {| cash := cash s;
       debt := debt s;
       day := day s;
       cycleProgress := cycleProgress s;
       inventory := inventory s;
       facilities := facilities s;
       prices := prices s;
       lastLedger := lastLedger s;
       lifetime := lifetime s;
       activeEvent :=
         Some (GlobalEvent.mk "Technological Breakthrough"
                 "Efficiency gains lead to market surplus and price drops."
                 ALL 0.5 3 1);
       taxRate := taxRate s;
       nextTaxDay := nextTaxDay s |}
    AppA.initialApp.

(** The order of the event block and the market block in a tick of
    version B: the event block runs on [g1], the market block after it
    on [g2] with the event the event block returned, which is the
    active event of the new state. *)
Definition event_then_market (app : AppB.App) (g : Rng) : Prop :=
  let s := AppB.gameState app in
  exists tax nextEvent g1 g2 app' g',
    AppB.taxLogic s g = Some (tax, g1)
    /\ eventLogic (activeEvent s) (cycleProgress s + 1) g1 = Some (nextEvent, g2)
    /\ marketLogic nextEvent (prices s) g2 = Some (prices (AppB.gameState app'), g')
    /\ AppB.tick app g = Some (app', g')
    /\ activeEvent (AppB.gameState app') = nextEvent
    /\ prices_use_event nextEvent g s (AppB.gameState app').

(** The order in a tick of version A: the market block runs first, on
    [g], with the event that was active before the tick; the event block
    runs after the tax block, on [g2], and returns the active event of
    the new state. *)
Definition market_then_event (app : AppA.App) (g : Rng) : Prop :=
  let s := AppA.gameState app in
  exists tax g1 g2 app' g',
    marketLogic (activeEvent s) (prices s) g = Some (prices (AppA.gameState app'), g1)
    /\ AppA.taxLogic s (prices (AppA.gameState app')) g1 = Some (tax, g2)
    /\ eventLogic (activeEvent s) (cycleProgress s + 1) g2
       = Some (activeEvent (AppA.gameState app'), g')
    /\ AppA.tick app g = Some (app', g')
    /\ prices_use_event (activeEvent s) g s (AppA.gameState app').

(** ** Sessions: ticks interleaved with player actions

    [run tick act n app g app' g']: from [app], with random source [g],
    the scheduler fired [n] times and between the ticks the player took
    actions related by [act], each step returning without error, ending
    in [app'] with random source [g'].  The gate of the scheduler (no
    tick while the game is over or paused) only removes ticks, so it is
    left out: the sessions of the program are among these. *)
Inductive run {App : Type} (tick : App -> M App) (act : App -> App -> Prop)
  : nat -> App -> Rng -> App -> Rng -> Prop :=
| run_stop (app : App) (g : Rng) : run tick act 0 app g app g
| run_tick (n : nat) (app app1 app' : App) (g g1 g' : Rng) :
    tick app g = Some (app1, g1) ->
    run tick act n app1 g1 app' g' ->
    run tick act (S n) app g app' g'
| run_act (n : nat) (app app1 app' : App) (g g' : Rng) :
    act app app1 ->
    run tick act n app1 g app' g' ->
    run tick act n app g app' g'.

(** What can happen between two ticks of version A besides a loan and
    a repayment: the other handlers, the slider, the pause button and
    the solvency effect. *)
Inductive quietA (app : AppA.App) : AppA.App -> Prop :=
| quietA_trade (id : string) (quantity : Z) (app' : AppA.App) :
    AppA.handleTrade id quantity app = Some app' -> quietA app app'
| quietA_unlock (id : string) (app' : AppA.App) :
    AppA.handleUnlockFacility id app = Some app' -> quietA app app'
| quietA_upgrade (id : string) (app' : AppA.App) :
    AppA.handleUpgradeFacility id app = Some app' -> quietA app app'
| quietA_sell (id : string) (app' : AppA.App) :
    AppA.handleSellFacility id app = Some app' -> quietA app app'
| quietA_toggle (id : string) : quietA app (AppA.handleToggleProduction id app)
| quietA_slider (amount : Q) : quietA app (AppA.setRepayAmount amount app)
| quietA_pause : quietA app (AppA.togglePause app)
| quietA_solvency (app' : AppA.App) :
    AppA.solvencyEffect app = Some app' -> quietA app app'.

(** Every action of version A, loans and repayments included. *)
Inductive anyA (app : AppA.App) : AppA.App -> Prop :=
| anyA_quiet (app' : AppA.App) : quietA app app' -> anyA app app'
| anyA_loan (amount : Q) : anyA app (AppA.takeLoan amount app)
| anyA_repay : anyA app (AppA.handleRepay app).

(** The same for version B, which has neither pause nor sale. *)
Inductive quietB (app : AppB.App) : AppB.App -> Prop :=
| quietB_trade (id : string) (quantity : Z) (app' : AppB.App) :
    AppB.handleTrade id quantity app = Some app' -> quietB app app'
| quietB_unlock (id : string) (app' : AppB.App) :
    AppB.handleUnlockFacility id app = Some app' -> quietB app app'
| quietB_upgrade (id : string) (app' : AppB.App) :
    AppB.handleUpgradeFacility id app = Some app' -> quietB app app'
| quietB_toggle (id : string) : quietB app (AppB.handleToggleProduction id app)
| quietB_slider (amount : Q) : quietB app (AppB.setRepayAmount amount app)
| quietB_solvency (app' : AppB.App) :
    AppB.solvencyEffect app = Some app' -> quietB app app'.

Inductive anyB (app : AppB.App) : AppB.App -> Prop :=
| anyB_quiet (app' : AppB.App) : quietB app app' -> anyB app app'
| anyB_loan (amount : Q) : anyB app (AppB.takeLoan amount app)
| anyB_repay : anyB app (AppB.handleRepay app).

(** ** What a tick does to the market, the event and the calendar *)

(** Every catalog price gains its new value at the end of its history,
    which keeps its last 20 entries. *)
Definition history_rolls (s s' : GameState) : Prop :=
  forall c : Commodity, c ∈ COMMODITIES ->
    exists price price',
      prices s !! Commodity.id c = Some price
      /\ prices s' !! Commodity.id c = Some price'
      /\ MarketPrice.history price'
         = drop (length (MarketPrice.history price) - 19) (MarketPrice.history price)
           ++ [MarketPrice.currentPrice price']
      /\ length (MarketPrice.history price')
         = Nat.min 20 (length (MarketPrice.history price) + 1).

(** The history of every catalog price ends with the current price. *)
Definition history_tracks (s : GameState) : Prop :=
  forall c : Commodity, c ∈ COMMODITIES ->
    exists price, prices s !! Commodity.id c = Some price
      /\ last (MarketPrice.history price) = Some (MarketPrice.currentPrice price).

(** The change from [prior] to [current] in percent. *)
Definition percentChange (current prior : Q) : Number.t :=
  Number.mul
    (Number.div (Number.sub (Number.Finite current) (Number.Finite prior))
                (Number.Finite prior))
    (Number.Finite 100).

(** The card of every catalog commodity shows, for [s'], the change
    from the price in [s] to the price in [s']. *)
Definition shows_change (s s' : GameState) : Prop :=
  forall c : Commodity, c ∈ COMMODITIES ->
    exists price price',
      prices s !! Commodity.id c = Some price
      /\ prices s' !! Commodity.id c = Some price'
      /\ CommodityCard.priceChange price'
         = Number.toFixed (percentChange (MarketPrice.currentPrice price')
                                         (MarketPrice.currentPrice price)) 2.

(** The trend of every catalog price in [s'] is [up] when the price
    rose from [s] and [down] otherwise. *)
Definition trend_follows (s s' : GameState) : Prop :=
  forall c : Commodity, c ∈ COMMODITIES ->
    exists price price',
      prices s !! Commodity.id c = Some price
      /\ prices s' !! Commodity.id c = Some price'
      /\ MarketPrice.trend price'
         = if Qltb (MarketPrice.currentPrice price) (MarketPrice.currentPrice price')
           then up else down.

Definition no_stable_trend (s : GameState) : Prop :=
  forall c : Commodity, c ∈ COMMODITIES ->
    exists price, prices s !! Commodity.id c = Some price
      /\ MarketPrice.trend price <> stable.

(** [ev] a day later. *)
Definition aged (ev : GlobalEvent) : GlobalEvent :=
  GlobalEvent.mk (GlobalEvent.name ev) (GlobalEvent.description ev)
    (GlobalEvent.category ev) (GlobalEvent.multiplier ev)
    (GlobalEvent.duration ev) (GlobalEvent.remainingDays ev - 1).

(** [ev] has the name, description, category and multiplier of an entry
    of the pool, and a duration of 3 to 7 days. *)
Definition event_from_pool (ev : GlobalEvent) : Prop :=
  (exists t : EventTemplate, t ∈ EVENTS_POOL
     /\ GlobalEvent.name ev = EventTemplate.name t
     /\ GlobalEvent.description ev = EventTemplate.description t
     /\ GlobalEvent.category ev = EventTemplate.category t
     /\ GlobalEvent.multiplier ev = EventTemplate.multiplier t)
  /\ (3 <= GlobalEvent.duration ev <= 7)%Z.

(** The active event, if any, is from the pool and has between one day
    and its whole duration left. *)
Definition event_ok (s : GameState) : Prop :=
  forall ev : GlobalEvent, activeEvent s = Some ev ->
    event_from_pool ev
    /\ (1 <= GlobalEvent.remainingDays ev <= GlobalEvent.duration ev)%Z.

(** From [s] to [s'] an event with more than one day left goes on, a
    day older; otherwise the event ends, and a new one, from the pool
    and with all its days left, can only start on the day the 10-day
    cycle completes. *)
Definition event_lifecycle (s s' : GameState) : Prop :=
  (forall ev : GlobalEvent, activeEvent s = Some ev ->
     (1 < GlobalEvent.remainingDays ev)%Z -> activeEvent s' = Some (aged ev))
  /\ ((forall ev : GlobalEvent, activeEvent s = Some ev ->
         (GlobalEvent.remainingDays ev <= 1)%Z) ->
      ((cycleProgress s + 1 < 10)%Z -> activeEvent s' = None)
      /\ (forall ev' : GlobalEvent, activeEvent s' = Some ev' ->
            event_from_pool ev'
            /\ GlobalEvent.remainingDays ev' = GlobalEvent.duration ev')).

(** The next tax day is the next multiple of [TAX_CYCLE] after the
    current day. *)
Definition tax_calendar (s : GameState) : Prop :=
  nextTaxDay s = (TAX_CYCLE * (day s / TAX_CYCLE + 1))%Z.

(** [s'] is [n] days after [s]. *)
Definition days_later (n : nat) (s s' : GameState) : Prop :=
  day s' = (day s + Z.of_nat n)%Z
  /\ ((0 <= cycleProgress s < 10)%Z ->
      cycleProgress s' = ((cycleProgress s + Z.of_nat n) mod 10)%Z)
  /\ (tax_calendar s -> tax_calendar s').

(** ** What a tick does to the facilities and the inventory *)

(** The operating cost of facility [f] as its panel computes it. *)
Definition facilityCost (f : ProductionFacility) : Q :=
  match findCommodity (ProductionFacility.commodityId f) with
  | Some c => ProductionPanel.opCost c f
  | None => 0
  end.

(** The operating costs of all facilities. *)
Definition operatingCosts (fs : list ProductionFacility) : Q :=
  foldr (fun f total => facilityCost f + total) 0 fs.

(** No inventory item has a negative quantity. *)
Definition stocked (inv : list InventoryItem) : Prop :=
  Forall (fun item => (0 <= InventoryItem.quantity item)%Z) inv.

(** [s'] has the calendar, the event, the tax rate, the ledger and the
    prices of [s]: what no player action touches. *)
Definition same_clock (s s' : GameState) : Prop :=
  day s' = day s /\ cycleProgress s' = cycleProgress s
  /\ activeEvent s' = activeEvent s /\ taxRate s' = taxRate s
  /\ nextTaxDay s' = nextTaxDay s /\ lastLedger s' = lastLedger s
  /\ prices s' = prices s.

(** [f] switched off. *)
Definition switchedOff (f : ProductionFacility) : ProductionFacility :=
  ProductionFacility.mk (ProductionFacility.commodityId f)
    (ProductionFacility.level f) false (ProductionFacility.progress f).

(** From [s] to [s'] every facility was switched off with its progress
    kept, nothing was produced and nothing was charged for production. *)
Definition production_halted (s s' : GameState) : Prop :=
  facilities s' = map switchedOff (facilities s)
  /\ inventory s' = inventory s
  /\ totalProductionCosts (lifetime s') == totalProductionCosts (lifetime s).

(** From [s] to [s'] the facilities kept their commodities and levels,
    in the same order, the inventory kept its items, and no owned
    quantity went down. *)
Definition plant_kept (s s' : GameState) : Prop :=
  map ProductionFacility.commodityId (facilities s')
  = map ProductionFacility.commodityId (facilities s)
  /\ map ProductionFacility.level (facilities s')
     = map ProductionFacility.level (facilities s)
  /\ map InventoryItem.commodityId (inventory s')
     = map InventoryItem.commodityId (inventory s)
  /\ forall id : string,
       (owned id (inventory s) <= owned id (inventory s'))%Z.

(** The taxes of [s'] are those of [s]. *)
Definition tax_untouched (s s' : GameState) : Prop :=
  taxRate s' = taxRate s /\ nextTaxDay s' = nextTaxDay s
  /\ totalTaxesPaid (lifetime s') = totalTaxesPaid (lifetime s).

(** The tax rate is in [lo, hi). *)
Definition tax_band (lo hi : Q) (s : GameState) : Prop :=
  lo <= taxRate s /\ taxRate s < hi.

(** Each commodity has one inventory item at most, and no quantity is
    negative. *)
Definition inventory_ok (s : GameState) : Prop :=
  NoDup (map InventoryItem.commodityId (inventory s)) /\ stocked (inventory s).

(** The tick that starts in [s] arrives on a day that is a multiple of
    [TAX_CYCLE]. *)
Definition tax_day (s : GameState) : Prop :=
  ((day s + 1) mod TAX_CYCLE = 0)%Z.

(** Version A with no cash left and an oil field at work, 40% into its
    cycle; the same for version B. *)
Definition pennilessAppA : AppA.App :=
  AppA.setGameState
    (withCashFacilities (initialGameState AppA.INITIAL_TAX_RATE) 0
       [ProductionFacility.mk "oil" 1 true 40])
    AppA.initialApp.

Definition pennilessAppB : AppB.App :=
  AppB.setGameState
    (withCashFacilities (initialGameState AppB.INITIAL_TAX_RATE) 0
       [ProductionFacility.mk "oil" 1 true 40])
    AppB.initialApp.

(** Version A and version B with the initial cash, an oil field at
    work and a switched-off wheat farm at level 2. *)
Definition twoPlants : list ProductionFacility :=
  [ProductionFacility.mk "oil" 1 true 40; ProductionFacility.mk "wheat" 2 false 10].

Definition producerAppA : AppA.App :=
  AppA.setGameState
    (withCashFacilities (initialGameState AppA.INITIAL_TAX_RATE) INITIAL_CASH twoPlants)
    AppA.initialApp.

Definition producerAppB : AppB.App :=
  AppB.setGameState
    (withCashFacilities (initialGameState AppB.INITIAL_TAX_RATE) INITIAL_CASH twoPlants)
    AppB.initialApp.

(** ** What the player actions do to the state *)

(** The inventory after a trade of [quantity] units of [id]. *)
Definition traded (id : string) (quantity : Z) (inv : list InventoryItem)
  : list InventoryItem :=
  map (fun item =>
         if String.eqb (InventoryItem.commodityId item) id
         then InventoryItem.mk (InventoryItem.commodityId item)
                (InventoryItem.quantity item + quantity)%Z
         else item) inv.

(** The facilities after an upgrade of the facility of [id]. *)
Definition upgraded (id : string) (fs : list ProductionFacility)
  : list ProductionFacility :=
  map (fun f =>
         if String.eqb (ProductionFacility.commodityId f) id
         then ProductionFacility.mk (ProductionFacility.commodityId f)
                (ProductionFacility.level f + 1)
                (ProductionFacility.isProducing f)
                (ProductionFacility.progress f)
         else f) fs.

(** [s'] is what an updater of a player action makes of [s]: the state
    itself (an action that is rejected or does not touch the game
    state), or the result of the updater of a trade, an unlock, an
    upgrade, a sale (when [sale] allows it), a toggle, a loan or a
    repayment. *)
Inductive updates (sale : bool) (s : GameState) : GameState -> Prop :=
| updates_none : updates sale s s
| updates_trade (id : string) (quantity : Z) (refs refs' : CycleRefs)
    (s' : GameState) :
    tradeUpdater id quantity s refs = Some (s', refs') -> updates sale s s'
| updates_unlock (id : string) (c : Commodity) :
    findCommodity id = Some c ->
    updates sale s (unlockUpdater id (Commodity.basePrice c * 25) s)
| updates_upgrade (id : string) (s' : GameState) :
    upgradeUpdater id s = Some s' -> updates sale s s'
| updates_sell (id : string) (s' : GameState) :
    sale = true -> AppA.sellUpdater id s = Some s' -> updates sale s s'
| updates_toggle (id : string) : updates sale s (toggleUpdater id s)
| updates_loan (amount : Q) : updates sale s (loanUpdater amount s)
| updates_repay (amount : Q) : updates sale s (repayUpdater amount s).

(** The actions of version A other than the sale of a facility. *)
Inductive keepingA (app : AppA.App) : AppA.App -> Prop :=
| keepingA_trade (id : string) (quantity : Z) (app' : AppA.App) :
    AppA.handleTrade id quantity app = Some app' -> keepingA app app'
| keepingA_unlock (id : string) (app' : AppA.App) :
    AppA.handleUnlockFacility id app = Some app' -> keepingA app app'
| keepingA_upgrade (id : string) (app' : AppA.App) :
    AppA.handleUpgradeFacility id app = Some app' -> keepingA app app'
| keepingA_toggle (id : string) : keepingA app (AppA.handleToggleProduction id app)
| keepingA_slider (amount : Q) : keepingA app (AppA.setRepayAmount amount app)
| keepingA_pause : keepingA app (AppA.togglePause app)
| keepingA_solvency (app' : AppA.App) :
    AppA.solvencyEffect app = Some app' -> keepingA app app'
| keepingA_loan (amount : Q) : keepingA app (AppA.takeLoan amount app)
| keepingA_repay : keepingA app (AppA.handleRepay app).

(** Each commodity has one facility at most, and every facility is at
    level 1 or above. *)
Definition plant_ok (s : GameState) : Prop :=
  NoDup (map ProductionFacility.commodityId (facilities s))
  /\ Forall (fun f => (1 <= ProductionFacility.level f)%Z) (facilities s).

(** No price is negative. *)
Definition prices_nonneg (s : GameState) : Prop :=
  forall (id : string) (price : MarketPrice),
    prices s !! id = Some price -> 0 <= MarketPrice.currentPrice price.

(** Cash less debt less the lifetime net profit of the report. *)
Definition books (s : GameState) : Q := cash s - debt s - lifetimeNet s.

(** Nothing throws in [app]: a tick returns, and so does every handler
    that reads the catalog or the price table, for every commodity of
    the catalog; the same for version B. *)
Definition no_errorA (app : AppA.App) : Prop :=
  (forall g : Rng, valid_rng g -> is_Some (AppA.tick app g))
  /\ is_Some (AppA.solvencyEffect app)
  /\ forall c : Commodity, c ∈ COMMODITIES ->
       (forall quantity : Z, is_Some (AppA.handleTrade (Commodity.id c) quantity app))
       /\ is_Some (AppA.handleUnlockFacility (Commodity.id c) app)
       /\ is_Some (AppA.handleUpgradeFacility (Commodity.id c) app)
       /\ is_Some (AppA.handleSellFacility (Commodity.id c) app).

Definition no_errorB (app : AppB.App) : Prop :=
  (forall g : Rng, valid_rng g -> is_Some (AppB.tick app g))
  /\ is_Some (AppB.solvencyEffect app)
  /\ forall c : Commodity, c ∈ COMMODITIES ->
       (forall quantity : Z, is_Some (AppB.handleTrade (Commodity.id c) quantity app))
       /\ is_Some (AppB.handleUnlockFacility (Commodity.id c) app)
       /\ is_Some (AppB.handleUpgradeFacility (Commodity.id c) app).

(** No owned quantity is negative. *)
Definition never_short (s : GameState) : Prop :=
  forall id : string, (0 <= owned id (inventory s))%Z.

(** ** What the buttons of the panels and cards do *)

(** [handleUpgradeFacility] accepts the upgrade of [facility], the
    facility of commodity [c]: the cost the panel shows is debited and
    booked, the level of the facility goes up by one, and its progress
    and switch stay as they are. *)
Definition upgrade_contract {App : Type} (gameState : App -> GameState)
    (handleUpgradeFacility : string -> App -> option App)
    (c : Commodity) (facility : ProductionFacility) (app : App) : Prop :=
  let s := gameState app in
  let cost := ProductionPanel.upgradeCost c (Some facility) in
  exists app', handleUpgradeFacility (Commodity.id c) app = Some app'
    /\ cash (gameState app') = cash s - cost
    /\ facilities (gameState app') = upgraded (Commodity.id c) (facilities s)
    /\ facilityOf (Commodity.id c) (facilities (gameState app'))
       = Some (ProductionFacility.mk (ProductionFacility.commodityId facility)
                 (ProductionFacility.level facility + 1)
                 (ProductionFacility.isProducing facility)
                 (ProductionFacility.progress facility))
    /\ totalUpgrades (lifetime (gameState app'))
       = totalUpgrades (lifetime s) + cost
    /\ debt (gameState app') = debt s
    /\ inventory (gameState app') = inventory s
    /\ prices (gameState app') = prices s.

(** Pressing the button of the card of [c] with [tradeAmount] on the
    slider trades that amount at the price [p]: [tradeAmount * p] is
    debited, [tradeAmount] is added to the owned quantity, and the
    amount of the card is back at 0. *)
Definition goes_through {App : Type} (gameState : App -> GameState)
    (onTrade : string -> Z -> App -> option App)
    (c : Commodity) (p : Q) (tradeAmount : Z) (app : App) : Prop :=
  let s := gameState app in
  let id := Commodity.id c in
  exists app',
    CommodityCard.handleTrade onTrade c tradeAmount app = Some (app', 0%Z)
    /\ cash (gameState app') == cash s - inject_Z tradeAmount * p
    /\ owned id (inventory (gameState app'))
       = (owned id (inventory s) + tradeAmount)%Z.

(** The card of commodity [c] in [app].  Every sale on the slider, an
    amount from the bottom of the slider up to 0, goes through.  The
    top of the slider is the floor of the binary64 quotient of cash and
    price; for a cash and a price that are binary64 values, with the
    price above 0 and the quotient below 2^53, every purchase below the
    top goes through.  The top itself is left out: the quotient can
    round up to a whole number that the cash does not pay for. *)
Definition slider_contract {App : Type} (gameState : App -> GameState)
    (onTrade : string -> Z -> App -> option App)
    (c : Commodity) (app : App) : Prop :=
  let s := gameState app in
  let id := Commodity.id c in
  exists marketData, prices s !! id = Some marketData /\
    let p := MarketPrice.currentPrice marketData in
    (forall tradeAmount : Z,
       (CommodityCard.minAmount (owned id (inventory s)) <= tradeAmount <= 0)%Z ->
       goes_through gameState onTrade c p tradeAmount app)
    /\ (0 < p -> 0 <= cash s -> cash s < inject_Z (2 ^ 53) * p ->
        Binary64.round (cash s) == cash s -> Binary64.round p == p ->
        exists top : Z,
          CommodityCard.maxAmount (cash s) marketData = Number.Finite (inject_Z top)
          /\ forall tradeAmount : Z,
               (0 < tradeAmount < top)%Z ->
               goes_through gameState onTrade c p tradeAmount app).

(** Version A with the repayment slider at 3000 after a loan of 5000;
    the same for version B. *)
Definition repayingAppA : AppA.App :=
  AppA.setRepayAmount 3000 (AppA.takeLoan 5000 AppA.initialApp).

Definition repayingAppB : AppB.App :=
  AppB.setRepayAmount 3000 (AppB.takeLoan 5000 AppB.initialApp).

(** Version B after the solvency effect has ended the game. *)
Definition overAppB : AppB.App :=
  AppB.mkApp (initialGameState AppB.INITIAL_TAX_RATE) true 0 false (mkRefs 0 0 0).

(** Version A after the solvency effect has ended the game. *)
Definition overAppA : AppA.App :=
  AppA.mkApp (initialGameState AppA.INITIAL_TAX_RATE) true false 0 None (mkRefs 0 0 0).

(** ** Net equity and the books *)

(** The net equity is computed in [s] and in [s'], and is the same. *)
Definition equity_kept (netEquity : GameState -> option Q) (s s' : GameState) : Prop :=
  exists e e', netEquity s = Some e /\ netEquity s' = Some e' /\ e' == e.

(** The net equity is computed in [s] and in [s'], and moved by what
    the cash moved. *)
Definition equity_follows_cash (netEquity : GameState -> option Q)
    (s s' : GameState) : Prop :=
  exists e e', netEquity s = Some e /\ netEquity s' = Some e'
    /\ e' - e == cash s' - cash s.

(** The actions of version B with every loan of a nonnegative amount
    and every repayment covered by the cash. *)
Inductive fundedB (app : AppB.App) : AppB.App -> Prop :=
| fundedB_quiet (app' : AppB.App) : quietB app app' -> fundedB app app'
| fundedB_loan (amount : Q) : 0 <= amount -> fundedB app (AppB.takeLoan amount app)
| fundedB_repay :
    AppB.repayAmount app <= cash (AppB.gameState app) ->
    fundedB app (AppB.handleRepay app).

(** ** The cycle ledger *)

(** The ledger of [s'] and the counters [refs'] of the running cycle
    account for what the lifetime sales, market purchases and
    production costs grew by since [s0]; the net figure of the ledger
    is its sales less its purchases less its production costs. *)
Definition ledger_reports (s0 s' : GameState) (refs' : CycleRefs) : Prop :=
  sales (lastLedger s') + cycleSalesRef refs'
  == totalSales (lifetime s') - totalSales (lifetime s0)
  /\ purchases (lastLedger s') + cyclePurchasesRef refs'
     == totalMarketPurchases (lifetime s') - totalMarketPurchases (lifetime s0)
  /\ productionCosts (lastLedger s') + cycleProductionRef refs'
     == totalProductionCosts (lifetime s') - totalProductionCosts (lifetime s0)
  /\ net (lastLedger s')
     == sales (lastLedger s') - purchases (lastLedger s')
        - productionCosts (lastLedger s').

(** The counters [refs] of the running cycle hold what the lifetime
    sales, market purchases and production costs grew by since [s0]. *)
Definition cycle_counted (s0 s : GameState) (refs : CycleRefs) : Prop :=
  cycleSalesRef refs == totalSales (lifetime s) - totalSales (lifetime s0)
  /\ cyclePurchasesRef refs
     == totalMarketPurchases (lifetime s) - totalMarketPurchases (lifetime s0)
  /\ cycleProductionRef refs
     == totalProductionCosts (lifetime s) - totalProductionCosts (lifetime s0).

(** Where a session that started a cycle in [s0] stands after [k]
    ticks: in the cycle, on day [k] of it, up to the ninth tick; with
    the ledger of the cycle published at the tenth. *)
Definition cycle_runs (s0 : GameState) (k : nat) (s : GameState) (refs : CycleRefs)
  : Prop :=
  ((k < 10)%nat -> cycleProgress s = Z.of_nat k /\ cycle_counted s0 s refs)
  /\ (k = 10%nat -> cycleProgress s = 0%Z /\ ledger_reports s0 s refs).

(** * Properties *)

(** ** Comparisons and remainders *)

Lemma Qltb_true (x y : Q) : Qltb x y = true <-> x < y.
Proof.
  unfold Qltb. rewrite negb_true_iff, <- not_true_iff_false, Qle_bool_iff.
  split; [apply Qnot_le_lt | apply Qlt_not_le].
Qed.

Lemma Qltb_false (x y : Q) : Qltb x y = false <-> y <= x.
Proof.
  unfold Qltb. rewrite negb_false_iff, Qle_bool_iff. reflexivity.
Qed.

Lemma Qleb_true (x y : Q) : Qleb x y = true <-> x <= y.
Proof. apply Qle_bool_iff. Qed.

Lemma Qleb_false (x y : Q) : Qleb x y = false <-> y < x.
Proof.
  unfold Qleb. rewrite <- not_true_iff_false, Qle_bool_iff.
  split; [apply Qnot_le_lt | apply Qlt_not_le].
Qed.

(** Case analysis on the comparisons of a goal, leaving the order facts
    as hypotheses for [lra]. *)
Ltac case_Qltb x y :=
  let H := fresh "Hcmp" in
  destruct (Qltb x y) eqn:H;
  [apply Qltb_true in H | apply Qltb_false in H].

Ltac case_Qleb x y :=
  let H := fresh "Hcmp" in
  destruct (Qleb x y) eqn:H;
  [apply Qleb_true in H | apply Qleb_false in H].

Lemma Qtrunc_nonneg (x : Q) : 0 <= x -> Qtrunc x = Qfloor x.
Proof.
  destruct x as [n d]. unfold Qle, Qtrunc, Qfloor. simpl. intros Hn.
  apply Z.quot_div_nonneg; lia.
Qed.

Lemma jsRem_range (x y : Q) : 0 <= x -> 0 < y -> 0 <= jsRem x y /\ jsRem x y < y.
Proof.
  intros Hx Hy. unfold jsRem.
  assert (Hq : 0 <= x / y).
  { apply Qle_shift_div_l; [exact Hy | lra]. }
  rewrite (Qtrunc_nonneg _ Hq).
  pose proof (Qfloor_le (x / y)) as Hlo.
  pose proof (Qlt_floor (x / y)) as Hhi.
  rewrite inject_Z_plus in Hhi. change (inject_Z 1) with 1 in Hhi.
  set (k := inject_Z (Qfloor (x / y))) in *.
  assert (Hxy : x == y * (x / y)) by (field; lra).
  split.
  - assert (y * k <= y * (x / y)) by (apply Qmult_le_l; assumption). lra.
  - assert (y * (x / y) < y * (k + 1)) by (apply Qmult_lt_l; assumption). lra.
Qed.

(** ** Rounding to binary64 *)

(** The binary64 values of three decimal literals, of the sum
    [0.1 + 0.2], a tie that goes to the even significand, and the
    smallest positive value. *)
Lemma round_values :
  Binary64.round 0.1 == 3602879701896397 # 36028797018963968
  /\ Binary64.round 0.7 == 3152519739159347 # 4503599627370496
  /\ Binary64.round 1.4 == 3152519739159347 # 2251799813685248
  /\ Binary64.round (Binary64.round 0.1 + Binary64.round 0.2)
     == 1351079888211149 # 4503599627370496
  /\ Binary64.round (inject_Z (2 ^ 53 + 1)) == inject_Z (2 ^ 53)
  /\ Binary64.round (inject_Z (2 ^ 53 + 3)) == inject_Z (2 ^ 53 + 4)
  /\ Binary64.round (Qpower 2 (-1074) * 0.7) == Qpower 2 (-1074)
  /\ Binary64.round (Qpower 2 (-1074) * 0.5) == 0.
Proof. repeat split; vm_compute; reflexivity. Qed.

Lemma roundTiesToEven_upper (y : Q) :
  inject_Z (Binary64.roundTiesToEven y) <= y + 0.5.
Proof.
  unfold Binary64.roundTiesToEven.
  pose proof (Qfloor_le y) as Hlo.
  destruct (Qcompare_spec (y - inject_Z (Qfloor y)) 0.5) as [Heq|Hlt|Hgt].
  - destruct (Z.even (Qfloor y)); [lra|].
    rewrite inject_Z_plus. change (inject_Z 1) with 1. lra.
  - lra.
  - rewrite inject_Z_plus. change (inject_Z 1) with 1. lra.
Qed.

Lemma floorLog2_upper (x : Q) (k : Z) :
  0 < x -> (0 <= k)%Z -> x < inject_Z (2 ^ (k + 1)) ->
  (Binary64.floorLog2 x <= k)%Z.
Proof.
  intros Hpos Hk Hx. unfold Binary64.floorLog2.
  set (j := (Z.log2 (Qnum x) - Z.log2 (Z.pos (Qden x)))%Z).
  destruct (Qleb (2 ^ j) x) eqn:Hcase.
  - apply Qle_bool_iff in Hcase.
    destruct (Z.le_gt_cases j k) as [Hle|Hgt]; [exact Hle|exfalso].
    assert (Hmono : inject_Z (2 ^ (k + 1)) <= 2 ^ j).
    { rewrite Zpower_Qpower by lia. change (inject_Z 2) with 2.
      apply Qpower_le_compat_l; [lia | lra]. }
    lra.
  - destruct (Z.le_gt_cases j (k + 1)) as [Hle|Hgt]; [lia|exfalso].
    clear Hcase. subst j. destruct x as [n d]. unfold Qlt in Hpos, Hx.
    cbn [Qnum Qden inject_Z] in Hpos, Hx, Hgt.
    assert (Hn : (0 < n)%Z) by lia.
    pose proof (Z.log2_spec n Hn) as [Hn1 _].
    pose proof (Z.log2_spec (Z.pos d) (Pos2Z.is_pos d)) as [_ Hd2].
    pose proof (Z.log2_nonneg (Z.pos d)) as Hd0.
    pose proof (Z.log2_nonneg n) as Hn0.
    assert (Hpow : (2 ^ (k + 1) * 2 ^ Z.succ (Z.log2 (Z.pos d)) <= 2 ^ Z.log2 n)%Z).
    { rewrite <- Z.pow_add_r by lia. apply Z.pow_le_mono_r; lia. }
    assert (H0 : (0 < 2 ^ (k + 1))%Z) by (apply Z.pow_pos_nonneg; lia).
    nia.
Qed.

(** Below 2^53 the binary64 values are no more than 1 apart, and
    rounding moves a number up by a half at most. *)
Lemma round_upper (x : Q) :
  0 <= x -> x < inject_Z (2 ^ 53) -> Binary64.round x <= x + 0.5.
Proof.
  intros Hlo Hhi. unfold Binary64.round.
  destruct (Qeq_bool x 0) eqn:Hz; [lra|]. apply Qeq_bool_neq in Hz.
  assert (Hpos : 0 < x) by lra.
  assert (Habs : Qabs x = x).
  { destruct x as [[|n|n] d]; try reflexivity. unfold Qlt in Hpos. cbn in Hpos. lia. }
  rewrite Habs.
  set (e := Z.max (-1074) (Binary64.floorLog2 x - 52)).
  assert (He : (e <= 0)%Z).
  { pose proof (floorLog2_upper x 52 Hpos ltac:(lia) Hhi). lia. }
  assert (HP : 0 < 2 ^ e) by (apply Qpower_0_lt; lra).
  assert (HP1 : 2 ^ e <= 1).
  { change 1 with (2 ^ 0). apply Qpower_le_compat_l; [exact He | lra]. }
  pose proof (roundTiesToEven_upper (x / 2 ^ e)) as Hr.
  assert (Hx : x == x / 2 ^ e * 2 ^ e) by (field; lra).
  apply Qle_trans with ((x / 2 ^ e + 0.5) * 2 ^ e).
  - apply Qmult_le_compat_r; [exact Hr | lra].
  - rewrite Hx at 2. nra.
Qed.

(** The daily cost of a facility at level 3, and the sale value of a
    facility at level 1 and at level 2, for the commodities of the
    catalog in their order: the whole numbers of the program. *)
Lemma floors_of_rounded_products :
  map (fun c => ProductionPanel.currentDailyCost c
                  (Some (ProductionFacility.mk (Commodity.id c) 3 true 0)))
      COMMODITIES
  = [97; 3; 2939; 783; 293; 195; 587; 391]
  /\ map (fun c => ProductionPanel.sellValue c
                     (Some (ProductionFacility.mk (Commodity.id c) 1 true 0)))
         COMMODITIES
     = [1400; 70; 35000; 10500; 4375; 3150; 7874; 5600]
  /\ map (fun c => ProductionPanel.sellValue c
                     (Some (ProductionFacility.mk (Commodity.id c) 2 true 0)))
         COMMODITIES
     = [3919; 196; 98000; 29399; 12250; 8820; 22050; 15679].
Proof. repeat split; vm_compute; reflexivity. Qed.

(** The cost of an upgrade is the floor of [basePrice * 25 *
    Math.pow(1.8, level)].  Up to level 38 the binary64 product and the
    exact product have the same floor, for every commodity of the
    catalog; the embedding keeps the exact one. *)
Lemma upgrade_floor_exact (c : Commodity) (level : Z) :
  c ∈ COMMODITIES -> (0 <= level <= 38)%Z ->
  Math.floor (Binary64.mul (Binary64.mul (Commodity.basePrice c) 25)
                           (Binary64.pow 1.8 level))
  = Math.floor (Commodity.basePrice c * 25 * Math.pow 1.8 level).
Proof.
  intros Hc Hlevel.
  assert (Hall : forallb (fun c =>
                   forallb (fun level =>
                     Z.eqb (Math.floor (Binary64.mul
                                          (Binary64.mul (Commodity.basePrice c) 25)
                                          (Binary64.pow 1.8 level)))
                           (Math.floor (Commodity.basePrice c * 25
                                        * Math.pow 1.8 level)))
                     (seqZ 0 39)) COMMODITIES = true)
    by (vm_compute; reflexivity).
  rewrite forallb_forall in Hall.
  specialize (Hall c (proj1 (list_elem_of_In _ _) Hc)).
  rewrite forallb_forall in Hall. apply Z.eqb_eq, Hall.
  apply list_elem_of_In, elem_of_seqZ. lia.
Qed.

(** ** The effect monad *)

Lemma bind_eq {A B : Type} (m : M A) (k : A -> M B) (g g' : Rng) (a : A) :
  m g = Some (a, g') -> bind m k g = k a g'.
Proof. intros H. unfold bind. rewrite H. reflexivity. Qed.

Lemma bind_Some {A B : Type} (m : M A) (k : A -> M B) (g : Rng) (r : B * Rng) :
  bind m k g = Some r <-> exists a g', m g = Some (a, g') /\ k a g' = Some r.
Proof.
  unfold bind. destruct (m g) as [[a g']|].
  - split; [eauto | intros (? & ? & [= -> ->] & ?); assumption].
  - split; [discriminate | intros (? & ? & [=] & _)].
Qed.

Lemma advance_0 (g : Rng) : advance 0 g = g.
Proof. destruct g. unfold advance. simpl. f_equal. lia. Qed.

Lemma advance_advance (j k : nat) (g : Rng) :
  advance k (advance j g) = advance (j + k) g.
Proof. unfold advance. simpl. f_equal. lia. Qed.

Lemma valid_rng_advance (k : nat) (g : Rng) : valid_rng g -> valid_rng (advance k g).
Proof. intros H i. apply H. Qed.

Lemma Math_random_eq (g : Rng) :
  Math_random g = Some (stream g (cursor g), advance 1 g).
Proof. unfold Math_random, advance. repeat f_equal. lia. Qed.

(** ** The catalog *)

Lemma COMMODITIES_NoDup : NoDup (map Commodity.id COMMODITIES).
Proof.
  cbn.
  repeat (apply NoDup_cons; split;
          [ intros Hin;
            repeat (apply elem_of_cons in Hin as [Hin|Hin]; [discriminate Hin|]);
            apply elem_of_nil in Hin; exact Hin |]).
  apply NoDup_nil_2.
Qed.

Lemma find_eqb_Some {A : Type} (key : A -> string) (id : string) (xs : list A) (x : A) :
  List.find (fun y => String.eqb (key y) id) xs = Some x -> x ∈ xs /\ key x = id.
Proof.
  induction xs as [|y ys IH]; simpl; [discriminate|].
  destruct (String.eqb_spec (key y) id) as [Heq|Hne].
  - intros [= ->]. split; [left | exact Heq].
  - intros H. destruct (IH H) as [Hin Hk]. split; [right; exact Hin | exact Hk].
Qed.

Lemma find_eqb_None {A : Type} (key : A -> string) (id : string) (xs : list A) :
  List.find (fun y => String.eqb (key y) id) xs = None <-> id ∉ map key xs.
Proof.
  induction xs as [|y ys IH]; simpl.
  - split; [intros _; apply not_elem_of_nil | reflexivity].
  - rewrite not_elem_of_cons. destruct (String.eqb_spec (key y) id) as [Heq|Hne].
    + split; [discriminate | intros [Hne _]; congruence].
    + rewrite IH. split; [intros H; split; [congruence | exact H] | intros [_ H]; exact H].
Qed.

Lemma find_eqb_NoDup {A : Type} (key : A -> string) (xs : list A) (x : A) :
  NoDup (map key xs) -> x ∈ xs ->
  List.find (fun y => String.eqb (key y) (key x)) xs = Some x.
Proof.
  induction xs as [|y ys IH]; simpl; intros Hnd Hin.
  - apply elem_of_nil in Hin. destruct Hin.
  - apply NoDup_cons in Hnd as [Hy Hnd].
    apply elem_of_cons in Hin as [->|Hin].
    + rewrite String.eqb_refl. reflexivity.
    + destruct (String.eqb_spec (key y) (key x)) as [Heq|Hne].
      * exfalso. apply Hy. rewrite Heq. apply list_elem_of_fmap_2. exact Hin.
      * apply IH; assumption.
Qed.

Lemma findCommodity_catalog (c : Commodity) :
  c ∈ COMMODITIES -> findCommodity (Commodity.id c) = Some c.
Proof. apply find_eqb_NoDup, COMMODITIES_NoDup. Qed.

Lemma findCommodity_Some (id : string) (c : Commodity) :
  findCommodity id = Some c -> c ∈ COMMODITIES /\ Commodity.id c = id.
Proof. apply find_eqb_Some. Qed.

(** ** Market logic *)

Lemma updatePrice_eq (ev : option GlobalEvent) (P : gmap string MarketPrice)
    (c : Commodity) (g : Rng) (price : MarketPrice) :
  P !! Commodity.id c = Some price ->
  updatePrice ev P c g
  = Some (<[Commodity.id c := repriced ev c (stream g (cursor g)) price]> P,
          advance 1 g).
Proof.
  intros HP. unfold updatePrice.
  rewrite (bind_eq _ _ _ _ _ (Math_random_eq g)).
  unfold bind, defined. rewrite HP. reflexivity.
Qed.

Lemma forEach_updatePrice (ev : option GlobalEvent) (cs : list Commodity) :
  NoDup (map Commodity.id cs) ->
  forall (P : gmap string MarketPrice) (g : Rng),
    (forall c, c ∈ cs -> is_Some (P !! Commodity.id c)) ->
    exists P', forEachM (updatePrice ev) cs P g = Some (P', advance (length cs) g)
               /\ market_spec cs ev P P' g.
Proof.
  induction cs as [|c cs IH]; intros Hnd P g Hdom.
  - exists P. simpl. rewrite advance_0. split; [reflexivity|].
    split; [intros i c Hi; discriminate | reflexivity].
  - cbn [map] in Hnd. apply NoDup_cons in Hnd as [Hc Hnd].
    destruct (Hdom c) as [price Hprice]; [left|].
    set (P1 := <[Commodity.id c := repriced ev c (stream g (cursor g)) price]> P).
    destruct (IH Hnd P1 (advance 1 g)) as (P' & Hrun & Hspec & Hrest).
    { intros c' Hc'. unfold P1. apply lookup_insert_is_Some'. right.
      apply Hdom. right. exact Hc'. }
    exists P'. split.
    + cbn [forEachM]. rewrite (bind_eq _ _ _ _ _ (updatePrice_eq ev P c g price Hprice)).
      fold P1. rewrite Hrun, advance_advance. reflexivity.
    + split.
      * intros [|i] c' Hi.
        -- injection Hi as <-. exists price. split; [exact Hprice|].
           rewrite (Hrest _ Hc). unfold P1. rewrite lookup_insert_eq.
           replace (cursor g + 0)%nat with (cursor g) by lia. reflexivity.
        -- cbn in Hi. destruct (Hspec i c' Hi) as (price' & Hp1 & Hp').
           assert (Hne : Commodity.id c ≠ Commodity.id c').
           { intros Heq. apply Hc. rewrite Heq. apply list_elem_of_fmap_2.
             eapply list_elem_of_lookup_2. exact Hi. }
           exists price'. unfold P1 in Hp1. rewrite lookup_insert_ne in Hp1 by exact Hne.
           split; [exact Hp1|]. rewrite Hp'. unfold advance. cbn [stream cursor].
           replace (cursor g + 1 + i)%nat with (cursor g + S i)%nat by lia. reflexivity.
      * intros k Hk. cbn [map] in Hk. apply not_elem_of_cons in Hk as [Hkc Hk].
        rewrite (Hrest k Hk). unfold P1. apply lookup_insert_ne. congruence.
Qed.

Lemma marketLogic_spec (ev : option GlobalEvent) (P : gmap string MarketPrice) (g : Rng) :
  (forall c, c ∈ COMMODITIES -> is_Some (P !! Commodity.id c)) ->
  exists P', marketLogic ev P g = Some (P', advance (length COMMODITIES) g)
             /\ market_spec COMMODITIES ev P P' g.
Proof.
  intros HP. unfold marketLogic.
  exact (forEach_updatePrice ev COMMODITIES COMMODITIES_NoDup P g HP).
Qed.

(** The market block keeps the keys of the price table. *)
Lemma market_spec_is_Some (cs : list Commodity) (ev : option GlobalEvent)
    (P P' : gmap string MarketPrice) (g : Rng) (k : string) :
  market_spec cs ev P P' g -> is_Some (P !! k) -> is_Some (P' !! k).
Proof.
  intros [Hspec Hrest] Hk.
  destruct (decide (k ∈ map Commodity.id cs)) as [Hin|Hout].
  - apply list_elem_of_fmap in Hin as (c & -> & Hc).
    apply list_elem_of_lookup in Hc as [i Hi].
    destruct (Hspec i c Hi) as (price & _ & ->). eexists. reflexivity.
  - rewrite (Hrest k Hout). exact Hk.
Qed.

(** ** Event logic *)

Lemma pool_index (r : Q) :
  0 <= r -> r < 1 ->
  is_Some (jsIndex EVENTS_POOL
             (Math.floor (r * inject_Z (Z.of_nat (length EVENTS_POOL))))).
Proof.
  intros Hlo Hhi. unfold Math.floor.
  change (inject_Z (Z.of_nat (length EVENTS_POOL))) with 7.
  pose proof (Qfloor_le (r * 7)) as Hfl.
  assert (H0 : (0 <= Qfloor (r * 7))%Z).
  { change 0%Z with (Qfloor 0). apply Qfloor_resp_le. lra. }
  assert (H7 : (Qfloor (r * 7) < 7)%Z).
  { rewrite Zlt_Qlt. change (inject_Z 7) with 7. lra. }
  unfold jsIndex. destruct (Z.ltb_spec (Qfloor (r * 7)) 0) as [Hneg|_]; [lia|].
  apply lookup_lt_is_Some. change (length EVENTS_POOL) with 7%nat. lia.
Qed.

Lemma eventLogic_total (ev : option GlobalEvent) (nextCycleProgress : Z) (g : Rng) :
  valid_rng g ->
  exists ev' k, eventLogic ev nextCycleProgress g = Some (ev', advance k g).
Proof.
  intros Hg. unfold eventLogic.
  destruct ((10 <=? nextCycleProgress)%Z && negb (bool_decide (is_Some (ageEvent ev)))).
  - rewrite (bind_eq _ _ _ _ _ (Math_random_eq g)).
    destruct (Qltb 0.3 (stream g (cursor g))).
    + rewrite (bind_eq _ _ _ _ _ (Math_random_eq (advance 1 g))).
      destruct (valid_rng_advance 1 g Hg (cursor (advance 1 g))) as [Hlo Hhi].
      destruct (pool_index _ Hlo Hhi) as [template Ht].
      unfold bind at 1. unfold defined at 1. rewrite Ht.
      rewrite (bind_eq _ _ _ _ _ (Math_random_eq _)).
      rewrite !advance_advance. eexists _, _. reflexivity.
    + eexists _, 1%nat. reflexivity.
  - exists (ageEvent ev), 0%nat. rewrite advance_0. reflexivity.
Qed.

(** ** Production logic *)

Lemma ownedItem_creditYield_other (cid id : string) (y : Z) (inv : list InventoryItem) :
  cid ≠ id -> ownedItem id (creditYield cid y inv) = ownedItem id inv.
Proof.
  intros Hne. unfold creditYield.
  induction inv as [|x xs IH]; [reflexivity|].
  cbn [findIndex]. destruct (String.eqb_spec (InventoryItem.commodityId x) cid) as [Hx|Hx].
  - cbn. destruct (String.eqb_spec (InventoryItem.commodityId x) id); [congruence | reflexivity].
  - destruct (findIndex _ xs) as [i|] eqn:Hi; cbn; [|reflexivity].
    cbn in IH. destruct (xs !! i) as [item|]; cbn; [|reflexivity].
    unfold ownedItem in *. cbn.
    destruct (String.eqb (InventoryItem.commodityId x) id); [reflexivity | exact IH].
Qed.

Lemma ownedItem_creditYield_same (cid : string) (y : Z) (inv : list InventoryItem) :
  ownedItem cid (creditYield cid y inv)
  = (fun item => InventoryItem.mk (InventoryItem.commodityId item)
                   (InventoryItem.quantity item + y)%Z) <$> ownedItem cid inv.
Proof.
  unfold creditYield.
  induction inv as [|x xs IH]; [reflexivity|].
  cbn [findIndex]. unfold ownedItem in *. cbn [List.find].
  destruct (String.eqb_spec (InventoryItem.commodityId x) cid) as [Hx|Hx].
  - cbn. rewrite Hx, String.eqb_refl. reflexivity.
  - destruct (findIndex _ xs) as [i|] eqn:Hi; cbn.
    + cbn in IH. destruct (xs !! i) as [item|]; cbn.
      * destruct (String.eqb_spec (InventoryItem.commodityId x) cid); [congruence | exact IH].
      * destruct (String.eqb_spec (InventoryItem.commodityId x) cid); [congruence | exact IH].
    + destruct (String.eqb_spec (InventoryItem.commodityId x) cid); [congruence | exact IH].
Qed.

Lemma creditYield_ids (cid : string) (y : Z) (inv : list InventoryItem) :
  map InventoryItem.commodityId (creditYield cid y inv)
  = map InventoryItem.commodityId inv.
Proof.
  unfold creditYield.
  destruct (findIndex _ inv) as [i|]; [|reflexivity].
  destruct (inv !! i) as [item|] eqn:Hi; [|reflexivity].
  apply list_eq. intros j. rewrite !list_lookup_fmap.
  destruct (decide (i = j)) as [<-|Hne].
  - rewrite list_lookup_insert_eq by (eapply lookup_lt_Some; exact Hi).
    rewrite Hi. reflexivity.
  - rewrite list_lookup_insert_ne by exact Hne. reflexivity.
Qed.

Lemma produce_spec (h : bool) (acc : Production) (f : ProductionFacility) (c : Commodity) :
  findCommodity (ProductionFacility.commodityId f) = Some c ->
  exists cost,
    produce h acc f
    = Some (mkProduction cost
              (if completes h f
               then creditYield (ProductionFacility.commodityId f)
                      (Commodity.productionYield c) (nextInventory acc)
               else nextInventory acc)
              (nextFacilities acc ++ [advanceFacility h f])).
Proof.
  intros Hc. unfold produce, completes, advanceFacility. rewrite Hc.
  destruct (ProductionFacility.isProducing f && negb h); cbn.
  - eexists. reflexivity.
  - eexists. reflexivity.
Qed.

Lemma item_add_0 (o : option InventoryItem) :
  (fun item => InventoryItem.mk (InventoryItem.commodityId item)
                 (InventoryItem.quantity item + 0)%Z) <$> o = o.
Proof. destruct o as [[cid q]|]; cbn; [|reflexivity]. rewrite Z.add_0_r. reflexivity. Qed.

Lemma forEach_produce (h : bool) (fs : list ProductionFacility) :
  (forall f, f ∈ fs -> is_Some (findCommodity (ProductionFacility.commodityId f))) ->
  forall acc : Production,
  exists acc',
    forEachO (produce h) fs acc = Some acc'
    /\ nextFacilities acc' = nextFacilities acc ++ map (advanceFacility h) fs
    /\ map InventoryItem.commodityId (nextInventory acc')
       = map InventoryItem.commodityId (nextInventory acc)
    /\ forall id : string,
         ownedItem id (nextInventory acc')
         = (fun item => InventoryItem.mk (InventoryItem.commodityId item)
                          (InventoryItem.quantity item + credits h id fs)%Z)
           <$> ownedItem id (nextInventory acc).
Proof.
  induction fs as [|f fs IH]; intros Hwf acc.
  - exists acc. cbn. rewrite app_nil_r. repeat split; try reflexivity.
    intros id. symmetry. apply item_add_0.
  - destruct (Hwf f) as [c Hc]; [left|].
    destruct (produce_spec h acc f c Hc) as [cost Hstep].
    match type of Hstep with _ = Some ?acc1 =>
      destruct (IH (fun f' Hf' => Hwf f' (list_elem_of_further _ _ _ Hf')) acc1)
        as (acc' & Hrun & Hfac & Hids & Hown)
    end.
    exists acc'. cbn [forEachO]. rewrite Hstep. split; [exact Hrun|].
    cbn [nextFacilities nextInventory] in Hfac, Hids, Hown.
    split; [rewrite Hfac, <- app_assoc; reflexivity|].
    split.
    + rewrite Hids. destruct (completes h f); [apply creditYield_ids | reflexivity].
    + intros id. rewrite Hown. cbn [credits foldr]. fold (credits h id fs).
      unfold credit. rewrite Hc.
      destruct (completes h f); cbn [andb].
      * destruct (String.eqb_spec (ProductionFacility.commodityId f) id) as [<-|Hne].
        -- rewrite ownedItem_creditYield_same.
           destruct (ownedItem _ (nextInventory acc)) as [[cid q]|]; cbn; [|reflexivity].
           rewrite Z.add_assoc. reflexivity.
        -- rewrite ownedItem_creditYield_other by exact Hne. reflexivity.
      * reflexivity.
Qed.

(** Progress stays below 100 and never turns negative. *)
Lemma advanceFacility_progress (h : bool) (f : ProductionFacility) :
  0 <= ProductionFacility.progress f -> ProductionFacility.progress f < 100 ->
  (1 <= ProductionFacility.level f)%Z ->
  0 <= ProductionFacility.progress (advanceFacility h f)
  /\ ProductionFacility.progress (advanceFacility h f) < 100.
Proof.
  intros Hlo Hhi Hlevel. unfold advanceFacility.
  assert (Hl : 1 <= inject_Z (ProductionFacility.level f)).
  { change 1 with (inject_Z 1). rewrite <- Zle_Qle. exact Hlevel. }
  destruct (ProductionFacility.isProducing f && negb h); cbn [ProductionFacility.progress].
  - match goal with |- context [Qleb ?a ?b] => case_Qleb a b end.
    + apply jsRem_range; lra.
    + lra.
  - split; assumption.
Qed.

Lemma advanceFacility_level (h : bool) (f : ProductionFacility) :
  ProductionFacility.level (advanceFacility h f) = ProductionFacility.level f.
Proof.
  unfold advanceFacility. destruct (ProductionFacility.isProducing f && negb h); reflexivity.
Qed.

Lemma advanceFacility_commodityId (h : bool) (f : ProductionFacility) :
  ProductionFacility.commodityId (advanceFacility h f) = ProductionFacility.commodityId f.
Proof.
  unfold advanceFacility. destruct (ProductionFacility.isProducing f && negb h); reflexivity.
Qed.

Lemma productionLogic_spec (h : bool) (prev : GameState) :
  wf prev ->
  exists production,
    productionLogic h prev = Some production /\ production_spec h prev production.
Proof.
  intros (_ & _ & Hfac & _). unfold productionLogic, production_spec.
  destruct (forEach_produce h (facilities prev) Hfac (mkProduction 0 (inventory prev) []))
    as (production & Hrun & Hfs & Hids & Hown).
  exists production. split; [exact Hrun|]. repeat split; assumption.
Qed.

(** ** Derived values *)

Lemma forEachO_total {A S : Type} (f : S -> A -> option S) (xs : list A) :
  (forall x, x ∈ xs -> forall s, is_Some (f s x)) ->
  forall s, is_Some (forEachO f xs s).
Proof.
  induction xs as [|x xs IH]; intros Hf s; cbn.
  - eexists; reflexivity.
  - destruct (Hf x (list_elem_of_here _ _) s) as [s' ->].
    apply IH. intros y Hy. apply Hf. right. exact Hy.
Qed.

Lemma inventoryValueAt_total (P : gmap string MarketPrice) (inv : list InventoryItem) :
  (forall item, item ∈ inv -> is_Some (P !! InventoryItem.commodityId item)) ->
  is_Some (inventoryValueAt P inv).
Proof.
  intros HP. apply forEachO_total. intros item Hitem acc.
  destruct (HP item Hitem) as [price ->]. eexists; reflexivity.
Qed.

Lemma infrastructureValueOf_total (fs : list ProductionFacility) :
  (forall f, f ∈ fs -> is_Some (findCommodity (ProductionFacility.commodityId f))) ->
  is_Some (infrastructureValueOf fs).
Proof.
  intros Hfs. apply forEachO_total. intros f Hf acc.
  destruct (Hfs f Hf) as [c ->]. eexists; reflexivity.
Qed.

(** ** The tick updater *)

Lemma taxLogicA_total (prev : GameState) (nextPrices : gmap string MarketPrice) (g : Rng) :
  (forall item, item ∈ inventory prev ->
     is_Some (nextPrices !! InventoryItem.commodityId item)) ->
  (forall f, f ∈ facilities prev ->
     is_Some (findCommodity (ProductionFacility.commodityId f))) ->
  exists tax k, AppA.taxLogic prev nextPrices g = Some (tax, advance k g).
Proof.
  intros Hinv Hfac. unfold AppA.taxLogic.
  destruct (nextTaxDay prev <=? day prev + 1)%Z.
  - destruct (inventoryValueAt_total _ _ Hinv) as [iv Hiv].
    destruct (infrastructureValueOf_total _ Hfac) as [fv Hfv].
    unfold bind at 1. unfold defined at 1. rewrite Hiv.
    unfold bind at 1. unfold defined at 1. rewrite Hfv.
    rewrite (bind_eq _ _ _ _ _ (Math_random_eq g)).
    eexists _, 1%nat. reflexivity.
  - eexists _, 0%nat. rewrite advance_0. reflexivity.
Qed.

Lemma taxLogicB_total (prev : GameState) (g : Rng) :
  exists tax k, AppB.taxLogic prev g = Some (tax, advance k g).
Proof.
  unfold AppB.taxLogic. destruct (nextTaxDay prev <=? day prev + 1)%Z.
  - rewrite (bind_eq _ _ _ _ _ (Math_random_eq g)). eexists _, 1%nat. reflexivity.
  - eexists _, 0%nat. rewrite advance_0. reflexivity.
Qed.

Lemma tickA_spec (app : AppA.App) (g : Rng) :
  wf (AppA.gameState app) -> valid_rng g ->
  exists nextPrices tax nextEvent production finalLedger lastTax refs' g1 g2 g',
    marketLogic (activeEvent (AppA.gameState app)) (prices (AppA.gameState app)) g
    = Some (nextPrices, g1)
    /\ AppA.taxLogic (AppA.gameState app) nextPrices g1 = Some (tax, g2)
    /\ eventLogic (activeEvent (AppA.gameState app))
         (cycleProgress (AppA.gameState app) + 1) g2 = Some (nextEvent, g')
    /\ productionLogic (Qleb (Tax.nextCash tax) 0) (AppA.gameState app)
       = Some production
    /\ AppA.tick app g
       = Some (AppA.mkApp
                 (tickState (AppA.gameState app) nextPrices tax nextEvent production
                    finalLedger
                    (Tax.nextCash tax - currentDayProductionCost production))
                 (AppA.isGameOver app) (AppA.isPaused app) (AppA.repayAmount app)
                 lastTax refs',
               g')
    /\ valid_rng g'
    /\ market_spec COMMODITIES (activeEvent (AppA.gameState app))
         (prices (AppA.gameState app)) nextPrices g
    /\ production_spec (Qleb (Tax.nextCash tax) 0) (AppA.gameState app) production.
Proof.
  intros Hwf Hg. pose proof Hwf as (Hprices & Hinv & Hfac & _).
  destruct (marketLogic_spec (activeEvent (AppA.gameState app))
              (prices (AppA.gameState app)) g Hprices) as (nextPrices & Hmarket & Hspec).
  destruct (taxLogicA_total (AppA.gameState app) nextPrices
              (advance (length COMMODITIES) g)) as (tax & k1 & Htax).
  { intros item Hitem. eapply market_spec_is_Some; [exact Hspec | apply Hinv, Hitem]. }
  { exact Hfac. }
  destruct (eventLogic_total (activeEvent (AppA.gameState app))
              (cycleProgress (AppA.gameState app) + 1)
              (advance k1 (advance (length COMMODITIES) g)))
    as (nextEvent & k2 & Hevent).
  { do 2 apply valid_rng_advance. exact Hg. }
  destruct (productionLogic_spec (Qleb (Tax.nextCash tax) 0) (AppA.gameState app) Hwf)
    as (production & Hprod & Hpspec).
  destruct (ledgerRoll (AppA.refs app) (AppA.gameState app)
              (currentDayProductionCost production)
              (cycleProgress (AppA.gameState app) + 1)) as [refs' finalLedger] eqn:Hroll.
  eexists nextPrices, tax, nextEvent, production, finalLedger, _, refs', _, _, _.
  split; [exact Hmarket|]. split; [exact Htax|]. split; [exact Hevent|].
  split; [exact Hprod|]. split.
  - unfold AppA.tick.
    rewrite (bind_eq _ _ _ _ _ Hmarket), (bind_eq _ _ _ _ _ Htax),
      (bind_eq _ _ _ _ _ Hevent).
    unfold bind, defined. rewrite Hprod, Hroll. reflexivity.
  - split; [do 3 apply valid_rng_advance; exact Hg|]. split; assumption.
Qed.

Lemma tickB_spec (app : AppB.App) (g : Rng) :
  wf (AppB.gameState app) -> valid_rng g ->
  exists nextPrices tax nextEvent production finalLedger alert refs' g1 g2 g',
    AppB.taxLogic (AppB.gameState app) g = Some (tax, g1)
    /\ eventLogic (activeEvent (AppB.gameState app))
         (cycleProgress (AppB.gameState app) + 1) g1 = Some (nextEvent, g2)
    /\ marketLogic nextEvent (prices (AppB.gameState app)) g2 = Some (nextPrices, g')
    /\ productionLogic (Qleb (Tax.nextCash tax) 0) (AppB.gameState app)
       = Some production
    /\ AppB.tick app g
       = Some (AppB.mkApp
                 (tickState (AppB.gameState app) nextPrices tax nextEvent production
                    finalLedger
                    (Math.max 0 (Tax.nextCash tax
                                 - currentDayProductionCost production)))
                 (AppB.isGameOver app) (AppB.repayAmount app) alert refs',
               g')
    /\ valid_rng g'
    /\ stream g2 = stream g
    /\ market_spec COMMODITIES nextEvent (prices (AppB.gameState app)) nextPrices g2
    /\ production_spec (Qleb (Tax.nextCash tax) 0) (AppB.gameState app) production.
Proof.
  intros Hwf Hg. pose proof Hwf as (Hprices & Hinv & Hfac & _).
  destruct (taxLogicB_total (AppB.gameState app) g) as (tax & k1 & Htax).
  destruct (eventLogic_total (activeEvent (AppB.gameState app))
              (cycleProgress (AppB.gameState app) + 1) (advance k1 g))
    as (nextEvent & k2 & Hevent).
  { apply valid_rng_advance. exact Hg. }
  destruct (marketLogic_spec nextEvent (prices (AppB.gameState app))
              (advance k2 (advance k1 g)) Hprices) as (nextPrices & Hmarket & Hspec).
  destruct (productionLogic_spec (Qleb (Tax.nextCash tax) 0) (AppB.gameState app) Hwf)
    as (production & Hprod & Hpspec).
  destruct (ledgerRoll (AppB.refs app) (AppB.gameState app)
              (currentDayProductionCost production)
              (cycleProgress (AppB.gameState app) + 1)) as [refs' finalLedger] eqn:Hroll.
  eexists nextPrices, tax, nextEvent, production, finalLedger, _, refs', _, _, _.
  split; [exact Htax|]. split; [exact Hevent|]. split; [exact Hmarket|].
  split; [exact Hprod|]. split.
  - unfold AppB.tick.
    rewrite (bind_eq _ _ _ _ _ Htax), (bind_eq _ _ _ _ _ Hevent),
      (bind_eq _ _ _ _ _ Hmarket).
    unfold bind, defined. rewrite Hprod, Hroll. reflexivity.
  - split; [do 3 apply valid_rng_advance; exact Hg|].
    split; [reflexivity|]. split; assumption.
Qed.

Lemma ownedItem_is_Some (id : string) (inv : list InventoryItem) :
  is_Some (ownedItem id inv) <-> id ∈ map InventoryItem.commodityId inv.
Proof.
  unfold ownedItem. rewrite <- not_eq_None_Some, find_eqb_None.
  destruct (decide (id ∈ map InventoryItem.commodityId inv)); tauto.
Qed.

Lemma ownedItem_same_ids (id : string) (inv inv' : list InventoryItem) :
  map InventoryItem.commodityId inv' = map InventoryItem.commodityId inv ->
  is_Some (ownedItem id inv) -> is_Some (ownedItem id inv').
Proof. rewrite !ownedItem_is_Some. intros ->. trivial. Qed.

(** The state a tick returns keeps the promises of the data model. *)
Lemma wf_tickState (prev : GameState) (nextPrices : gmap string MarketPrice)
    (tax : Tax.t) (nextEvent evp : option GlobalEvent) (production : Production)
    (finalLedger : DailyLedger) (finalCash : Q) (g0 : Rng) (h : bool) :
  wf prev ->
  market_spec COMMODITIES evp (prices prev) nextPrices g0 ->
  production_spec h prev production ->
  wf (tickState prev nextPrices tax nextEvent production finalLedger finalCash).
Proof.
  intros (Hprices & Hinv & Hfac & Hitems) Hmarket (Hfs & Hids & _).
  unfold wf, tickState. cbn [prices inventory facilities].
  split; [|split; [|split]].
  - intros c Hc. eapply market_spec_is_Some; [exact Hmarket | apply Hprices, Hc].
  - intros item Hitem. eapply market_spec_is_Some; [exact Hmarket|].
    assert (Hin : InventoryItem.commodityId item
                  ∈ map InventoryItem.commodityId (inventory prev)).
    { rewrite <- Hids. apply list_elem_of_fmap_2. exact Hitem. }
    apply list_elem_of_fmap in Hin as (item0 & -> & Hitem0). apply Hinv, Hitem0.
  - intros f Hf. rewrite Hfs in Hf.
    apply list_elem_of_fmap in Hf as (f0 & -> & Hf0).
    rewrite advanceFacility_commodityId. apply Hfac, Hf0.
  - intros c Hc. eapply ownedItem_same_ids; [exact Hids | apply Hitems, Hc].
Qed.

Lemma market_spec_floor (ev : option GlobalEvent) (P P' : gmap string MarketPrice)
    (g : Rng) (c : Commodity) :
  market_spec COMMODITIES ev P P' g -> c ∈ COMMODITIES ->
  exists price, P' !! Commodity.id c = Some price
    /\ Commodity.basePrice c * 0.1 <= MarketPrice.currentPrice price.
Proof.
  intros [Hspec _] Hc. apply list_elem_of_lookup in Hc as [i Hi].
  destruct (Hspec i c Hi) as (price & _ & HP').
  eexists. split; [exact HP'|]. cbn. unfold newPrice, Math.max. apply Q.le_max_l.
Qed.

Lemma market_spec_use_event (ev : option GlobalEvent) (g0 g : Rng) (s s' : GameState) :
  stream g0 = stream g ->
  market_spec COMMODITIES ev (prices s) (prices s') g0 ->
  prices_use_event ev g s s'.
Proof.
  intros Hstream [Hspec _] c Hc. apply list_elem_of_lookup in Hc as [i Hi].
  destruct (Hspec i c Hi) as (price & HP & HP').
  exists price, (repriced ev c (stream g0 (cursor g0 + i)) price), (cursor g0 + i)%nat.
  split; [exact HP|]. split; [exact HP'|]. rewrite Hstream. reflexivity.
Qed.

Lemma constantRng_valid (r : Q) : 0 <= r -> r < 1 -> valid_rng (constantRng r).
Proof. intros Hlo Hhi i. split; assumption. Qed.

Lemma wf_initial (rate : Q) : wf (initialGameState rate).
Proof.
  assert (Hprices : forall c, c ∈ COMMODITIES ->
                      is_Some (initialPrices !! Commodity.id c)).
  { intros c Hc.
    repeat (apply elem_of_cons in Hc as [->|Hc]; [vm_compute; eexists; reflexivity|]).
    apply elem_of_nil in Hc. destruct Hc. }
  split; [exact Hprices|]. split; [|split].
  - intros item Hitem. cbn [inventory initialGameState] in Hitem.
    apply list_elem_of_fmap in Hitem as (c & -> & Hc). apply Hprices, Hc.
  - intros f Hf. apply elem_of_nil in Hf. destruct Hf.
  - intros c Hc. apply ownedItem_is_Some. cbn [inventory initialGameState].
    rewrite <- list_fmap_compose. apply list_elem_of_fmap_2. exact Hc.
Qed.

(** One tick from a well-formed state: it returns, and what it returns
    is well formed, priced above the floor, with the interest added. *)
Lemma tickA_step (app : AppA.App) (g : Rng) :
  wf (AppA.gameState app) -> valid_rng g ->
  exists app' g',
    AppA.tick app g = Some (app', g') /\ valid_rng g'
    /\ wf (AppA.gameState app') /\ price_floor (AppA.gameState app')
    /\ debt (AppA.gameState app')
       = debt (AppA.gameState app) + debt (AppA.gameState app) * DAILY_INTEREST_RATE.
Proof.
  intros Hwf Hg.
  destruct (tickA_spec app g Hwf Hg)
    as (nextPrices & tax & nextEvent & production & finalLedger & lastTax & refs'
        & g1 & g2 & g' & _ & _ & _ & _ & Htick & Hg' & Hmarket & Hprod).
  eexists _, g'. split; [exact Htick|]. split; [exact Hg'|].
  cbn [AppA.gameState]. split; [eapply wf_tickState; eassumption|].
  split; [|reflexivity].
  intros c Hc. exact (market_spec_floor _ _ _ _ c Hmarket Hc).
Qed.

Lemma tickB_step (app : AppB.App) (g : Rng) :
  wf (AppB.gameState app) -> valid_rng g ->
  exists app' g',
    AppB.tick app g = Some (app', g') /\ valid_rng g'
    /\ wf (AppB.gameState app') /\ price_floor (AppB.gameState app')
    /\ debt (AppB.gameState app')
       = debt (AppB.gameState app) + debt (AppB.gameState app) * DAILY_INTEREST_RATE.
Proof.
  intros Hwf Hg.
  destruct (tickB_spec app g Hwf Hg)
    as (nextPrices & tax & nextEvent & production & finalLedger & alert & refs'
        & g1 & g2 & g' & _ & _ & _ & _ & Htick & Hg' & _ & Hmarket & Hprod).
  eexists _, g'. split; [exact Htick|]. split; [exact Hg'|].
  cbn [AppB.gameState]. split; [eapply wf_tickState; eassumption|].
  split; [|reflexivity].
  intros c Hc. exact (market_spec_floor _ _ _ _ c Hmarket Hc).
Qed.

Lemma compound_first (d : Q) (n : nat) :
  (d + d * DAILY_INTEREST_RATE) * 1.015 ^ Z.of_nat n == d * 1.015 ^ Z.of_nat (S n).
Proof.
  rewrite Nat2Z.inj_succ. unfold Z.succ.
  rewrite Qpower_plus by (intros H; discriminate H).
  unfold DAILY_INTEREST_RATE. change (1.015 ^ 1) with 1.015. ring.
Qed.

Lemma ticksA_facts (n : nat) :
  forall (app : AppA.App) (g : Rng),
    wf (AppA.gameState app) -> valid_rng g ->
    exists app' g',
      AppA.ticks n app g = Some (app', g') /\ valid_rng g'
      /\ wf (AppA.gameState app')
      /\ debt (AppA.gameState app')
         == debt (AppA.gameState app) * 1.015 ^ Z.of_nat n
      /\ (n ≠ 0%nat -> price_floor (AppA.gameState app')).
Proof.
  induction n as [|n IH]; intros app g Hwf Hg.
  - exists app, g. cbn [AppA.ticks]. split; [reflexivity|].
    split; [exact Hg|]. split; [exact Hwf|].
    split; [change (1.015 ^ Z.of_nat 0) with 1; ring | intros H; destruct (H eq_refl)].
  - destruct (tickA_step app g Hwf Hg) as (app1 & g1 & Htick & Hg1 & Hwf1 & Hfloor1 & Hdebt1).
    destruct (IH app1 g1 Hwf1 Hg1) as (app' & g' & Hrun & Hg' & Hwf' & Hdebt' & Hfloor').
    exists app', g'. cbn [AppA.ticks]. rewrite (bind_eq _ _ _ _ _ Htick).
    split; [exact Hrun|]. split; [exact Hg'|]. split; [exact Hwf'|]. split.
    + rewrite Hdebt', Hdebt1. apply compound_first.
    + intros _. destruct n as [|n'].
      * cbn in Hrun. injection Hrun as <- <-. exact Hfloor1.
      * apply Hfloor'. discriminate.
Qed.

Lemma ticksB_facts (n : nat) :
  forall (app : AppB.App) (g : Rng),
    wf (AppB.gameState app) -> valid_rng g ->
    exists app' g',
      AppB.ticks n app g = Some (app', g') /\ valid_rng g'
      /\ wf (AppB.gameState app')
      /\ debt (AppB.gameState app')
         == debt (AppB.gameState app) * 1.015 ^ Z.of_nat n
      /\ (n ≠ 0%nat -> price_floor (AppB.gameState app')).
Proof.
  induction n as [|n IH]; intros app g Hwf Hg.
  - exists app, g. cbn [AppB.ticks]. split; [reflexivity|].
    split; [exact Hg|]. split; [exact Hwf|].
    split; [change (1.015 ^ Z.of_nat 0) with 1; ring | intros H; destruct (H eq_refl)].
  - destruct (tickB_step app g Hwf Hg) as (app1 & g1 & Htick & Hg1 & Hwf1 & Hfloor1 & Hdebt1).
    destruct (IH app1 g1 Hwf1 Hg1) as (app' & g' & Hrun & Hg' & Hwf' & Hdebt' & Hfloor').
    exists app', g'. cbn [AppB.ticks]. rewrite (bind_eq _ _ _ _ _ Htick).
    split; [exact Hrun|]. split; [exact Hg'|]. split; [exact Hwf'|]. split.
    + rewrite Hdebt', Hdebt1. apply compound_first.
    + intros _. destruct n as [|n'].
      * cbn in Hrun. injection Hrun as <- <-. exact Hfloor1.
      * apply Hfloor'. discriminate.
Qed.

(** ** States reached by the loan and repayment updaters *)

Lemma wf_withCashDebt (s : GameState) (c d : Q) : wf s -> wf (withCashDebt s c d).
Proof. intros H. exact H. Qed.

(** Whatever state the tick of version B is run on, the cash it
    returns is not negative. *)
Lemma tickB_cash_any (app app' : AppB.App) (g g' : Rng) :
  AppB.tick app g = Some (app', g') -> 0 <= cash (AppB.gameState app').
Proof.
  unfold AppB.tick. intros H.
  apply bind_Some in H as (tax & g1 & _ & H).
  apply bind_Some in H as (nextEvent & g2 & _ & H).
  apply bind_Some in H as (nextPrices & g3 & _ & H).
  apply bind_Some in H as (production & g4 & _ & H).
  destruct (ledgerRoll _ _ _ _) as [refs' finalLedger].
  injection H as <- <-. cbn. apply Q.le_max_l.
Qed.

(** ** The trade updater *)

Lemma owned_traded_same (id : string) (q : Z) (inv : list InventoryItem) :
  is_Some (ownedItem id inv) ->
  owned id (map (fun item =>
                   if String.eqb (InventoryItem.commodityId item) id
                   then InventoryItem.mk (InventoryItem.commodityId item)
                          (InventoryItem.quantity item + q)%Z
                   else item) inv)
  = (owned id inv + q)%Z.
Proof.
  unfold owned, ownedItem. induction inv as [|x xs IH]; cbn.
  - intros [? [=]].
  - destruct (String.eqb_spec (InventoryItem.commodityId x) id) as [Hx|Hx]; cbn.
    + intros _. rewrite Hx, String.eqb_refl. reflexivity.
    + intros Hsome. destruct (String.eqb_spec (InventoryItem.commodityId x) id);
        [contradiction | apply IH, Hsome].
Qed.

Lemma owned_traded_other (id id' : string) (q : Z) (inv : list InventoryItem) :
  id ≠ id' ->
  owned id' (map (fun item =>
                    if String.eqb (InventoryItem.commodityId item) id
                    then InventoryItem.mk (InventoryItem.commodityId item)
                           (InventoryItem.quantity item + q)%Z
                    else item) inv)
  = owned id' inv.
Proof.
  intros Hne. unfold owned, ownedItem. induction inv as [|x xs IH]; cbn; [reflexivity|].
  destruct (String.eqb_spec (InventoryItem.commodityId x) id) as [Hx|Hx]; cbn.
  - destruct (String.eqb_spec (InventoryItem.commodityId x) id'); [congruence | exact IH].
  - destruct (String.eqb_spec (InventoryItem.commodityId x) id'); [reflexivity | exact IH].
Qed.

Lemma owned_positive_item (id : string) (inv : list InventoryItem) :
  (0 < owned id inv)%Z -> is_Some (ownedItem id inv).
Proof.
  unfold owned. destruct (ownedItem id inv); [eexists; reflexivity | lia].
Qed.

(** A trade that meets its precondition: the cash moves by the total
    cost and the quantity is added to every item of the commodity. *)
Lemma tradeUpdater_accepts (id : string) (quantity : Z) (s : GameState)
    (refs : CycleRefs) (price : MarketPrice) :
  prices s !! id = Some price ->
  ((0 < quantity)%Z -> inject_Z quantity * MarketPrice.currentPrice price <= cash s) ->
  ((quantity < 0)%Z -> (- quantity <= owned id (inventory s))%Z) ->
  exists s' refs',
    tradeUpdater id quantity s refs = Some (s', refs')
    /\ cash s' = cash s - inject_Z quantity * MarketPrice.currentPrice price
    /\ inventory s'
       = map (fun item =>
                if String.eqb (InventoryItem.commodityId item) id
                then InventoryItem.mk (InventoryItem.commodityId item)
                       (InventoryItem.quantity item + quantity)%Z
                else item) (inventory s)
    /\ debt s' = debt s /\ prices s' = prices s /\ facilities s' = facilities s.
Proof.
  intros Hprice Hbuy Hsell. unfold tradeUpdater. rewrite Hprice. cbn.
  destruct (Z.ltb_spec 0 quantity) as [Hpos|Hnpos]; cbn [andb].
  - case_Qltb (cash s) (inject_Z quantity * MarketPrice.currentPrice price).
    + specialize (Hbuy Hpos). lra.
    + destruct (Z.ltb_spec quantity 0) as [Hneg|_]; [lia|]. cbn [andb].
      eexists _, _. split; [reflexivity|]. cbn. repeat split; reflexivity.
  - destruct (Z.ltb_spec quantity 0) as [Hneg|Hnneg]; cbn [andb].
    + specialize (Hsell Hneg). unfold owned in Hsell.
      destruct (ownedItem id (inventory s)) as [item|]; [|lia].
      destruct (Z.ltb_spec (InventoryItem.quantity item) (Z.abs quantity)) as [Hlt|_];
        [lia|].
      eexists _, _. split; [reflexivity|]. cbn. repeat split; reflexivity.
    + eexists _, _. split; [reflexivity|]. cbn. repeat split; reflexivity.
Qed.

(** A trade that fails its precondition returns [prev] and leaves the
    cycle counters alone. *)
Lemma tradeUpdater_rejects (id : string) (quantity : Z) (s : GameState)
    (refs : CycleRefs) (price : MarketPrice) :
  prices s !! id = Some price ->
  ((0 < quantity)%Z /\ cash s < inject_Z quantity * MarketPrice.currentPrice price)
  \/ ((quantity < 0)%Z /\ (owned id (inventory s) < - quantity)%Z) ->
  tradeUpdater id quantity s refs = Some (s, refs).
Proof.
  intros Hprice Hcase. unfold tradeUpdater. rewrite Hprice. cbn.
  destruct Hcase as [[Hpos Hcash]|[Hneg Hown]].
  - destruct (Z.ltb_spec 0 quantity) as [_|Hnpos]; [|lia]. cbn [andb].
    case_Qltb (cash s) (inject_Z quantity * MarketPrice.currentPrice price);
      [reflexivity | lra].
  - destruct (Z.ltb_spec 0 quantity) as [Hpos|_]; [lia|]. cbn [andb].
    destruct (Z.ltb_spec quantity 0) as [_|Hnneg]; [|lia]. cbn [andb].
    unfold owned in Hown. destruct (ownedItem id (inventory s)) as [item|]; [|reflexivity].
    destruct (Z.ltb_spec (InventoryItem.quantity item) (Z.abs quantity)) as [_|Hge];
      [reflexivity | lia].
Qed.

(** A handler that hands [tradeUpdater] to [setGameState] keeps the
    trade contract. *)
Lemma trade_contract_of_updater {App : Type} (gameState : App -> GameState)
    (handleTrade : string -> Z -> App -> option App)
    (wrap : GameState -> CycleRefs -> App) (refs : CycleRefs)
    (c : Commodity) (q : Z) (app : App) :
  (forall quantity,
     handleTrade (Commodity.id c) quantity app
     = '(s, r) ← tradeUpdater (Commodity.id c) quantity (gameState app) refs;
       Some (wrap s r)) ->
  (forall s r, gameState (wrap s r) = s) ->
  wrap (gameState app) refs = app ->
  wf (gameState app) -> c ∈ COMMODITIES -> (0 < q)%Z ->
  trade_contract gameState handleTrade c q app.
Proof.
  intros Hhandler Hproj Hsame (Hprices & _ & _ & Hitems) Hc Hq.
  destruct (Hprices c Hc) as [price Hprice].
  exists price. split; [exact Hprice|]. cbv zeta.
  split; [|split; [|split]].
  - intros Hcash.
    destruct (tradeUpdater_accepts (Commodity.id c) q (gameState app) refs price Hprice)
      as (s' & refs' & Hrun & Hcash' & Hinv' & _); [intros _; exact Hcash | lia |].
    exists (wrap s' refs'). rewrite Hhandler, Hrun. cbn. split; [reflexivity|].
    rewrite Hproj, Hcash', Hinv'. split; [reflexivity|].
    apply owned_traded_same, Hitems, Hc.
  - intros Hcash. rewrite Hhandler.
    rewrite (tradeUpdater_rejects _ _ _ _ price Hprice); [|left; split; assumption].
    cbn. rewrite Hsame. reflexivity.
  - intros Hown.
    destruct (tradeUpdater_accepts (Commodity.id c) (- q) (gameState app) refs price Hprice)
      as (s' & refs' & Hrun & Hcash' & Hinv' & _); [lia | intros _; lia |].
    exists (wrap s' refs'). rewrite Hhandler, Hrun. cbn. split; [reflexivity|].
    rewrite Hproj, Hcash', Hinv'. split.
    + rewrite inject_Z_opp. ring.
    + rewrite owned_traded_same by (apply Hitems, Hc). lia.
  - intros Hown. rewrite Hhandler.
    rewrite (tradeUpdater_rejects _ _ _ _ price Hprice); [|right; split; lia].
    cbn. rewrite Hsame. reflexivity.
Qed.

(** ** The facility and credit updaters *)

Lemma oil_in_catalog : oil ∈ COMMODITIES.
Proof. left. Qed.

Lemma unlockUpdater_rejects (id : string) (cost : Q) (s : GameState) :
  cash s < cost \/ hasFacility id (facilities s) = true ->
  unlockUpdater id cost s = s.
Proof.
  intros Hcase. unfold unlockUpdater.
  case_Qltb (cash s) cost; [reflexivity|]. cbn [orb].
  destruct Hcase as [Hcash|Hexists]; [lra | rewrite Hexists; reflexivity].
Qed.

Lemma unlockUpdater_accepts (id : string) (cost : Q) (s : GameState) :
  cost <= cash s -> hasFacility id (facilities s) = false ->
  cash (unlockUpdater id cost s) = cash s - cost
  /\ facilities (unlockUpdater id cost s)
     = facilities s ++ [ProductionFacility.mk id 1 true 0]
  /\ debt (unlockUpdater id cost s) = debt s
  /\ inventory (unlockUpdater id cost s) = inventory s
  /\ prices (unlockUpdater id cost s) = prices s.
Proof.
  intros Hcash Hnone. unfold unlockUpdater. rewrite Hnone.
  case_Qltb (cash s) cost; [lra|]. cbn. repeat split; reflexivity.
Qed.

Lemma setGameStateA_same (app : AppA.App) : AppA.setGameState (AppA.gameState app) app = app.
Proof. destruct app. reflexivity. Qed.

Lemma setGameStateB_same (app : AppB.App) : AppB.setGameState (AppB.gameState app) app = app.
Proof. destruct app. reflexivity. Qed.

Lemma unlockA_contract (c : Commodity) (app : AppA.App) :
  c ∈ COMMODITIES -> AppA.isPaused app = false ->
  unlock_contract AppA.gameState AppA.handleUnlockFacility c app.
Proof.
  intros Hc Hpaused. unfold unlock_contract, AppA.handleUnlockFacility.
  rewrite Hpaused, (findCommodity_catalog c Hc). cbn [mbind option_bind]. split.
  - intros Hcase. rewrite (unlockUpdater_rejects _ _ _ Hcase), setGameStateA_same.
    reflexivity.
  - intros Hcash Hnone. eexists. split; [reflexivity|]. cbn [AppA.gameState AppA.setGameState].
    apply unlockUpdater_accepts; assumption.
Qed.

Lemma unlockB_contract (c : Commodity) (app : AppB.App) :
  c ∈ COMMODITIES ->
  unlock_contract AppB.gameState AppB.handleUnlockFacility c app.
Proof.
  intros Hc. unfold unlock_contract, AppB.handleUnlockFacility.
  rewrite (findCommodity_catalog c Hc). cbn [mbind option_bind]. split.
  - intros Hcase. rewrite (unlockUpdater_rejects _ _ _ Hcase), setGameStateB_same.
    reflexivity.
  - intros Hcash Hnone. eexists. split; [reflexivity|]. cbn [AppB.gameState AppB.setGameState].
    apply unlockUpdater_accepts; assumption.
Qed.

Lemma tradeA_contract (c : Commodity) (q : Z) (app : AppA.App) :
  c ∈ COMMODITIES -> (0 < q)%Z -> wf (AppA.gameState app) ->
  AppA.isGameOver app = false -> AppA.isPaused app = false ->
  trade_contract AppA.gameState AppA.handleTrade c q app.
Proof.
  intros Hc Hq Hwf Hover Hpaused.
  apply (trade_contract_of_updater AppA.gameState AppA.handleTrade
           (fun s r => AppA.mkApp s (AppA.isGameOver app) (AppA.isPaused app)
                         (AppA.repayAmount app) (AppA.lastTaxPaid app) r)
           (AppA.refs app)); try assumption.
  - intros quantity. unfold AppA.handleTrade. rewrite Hover, Hpaused. reflexivity.
  - reflexivity.
  - destruct app. reflexivity.
Qed.

Lemma tradeB_contract (c : Commodity) (q : Z) (app : AppB.App) :
  c ∈ COMMODITIES -> (0 < q)%Z -> wf (AppB.gameState app) ->
  AppB.isGameOver app = false ->
  trade_contract AppB.gameState AppB.handleTrade c q app.
Proof.
  intros Hc Hq Hwf Hover.
  apply (trade_contract_of_updater AppB.gameState AppB.handleTrade
           (fun s r => AppB.mkApp s (AppB.isGameOver app) (AppB.repayAmount app)
                         (AppB.showTaxAlert app) r)
           (AppB.refs app)); try assumption.
  - intros quantity. unfold AppB.handleTrade. rewrite Hover. reflexivity.
  - reflexivity.
  - destruct app. reflexivity.
Qed.

Lemma tradeUpdater_total (id : string) (quantity : Z) (s : GameState)
    (refs : CycleRefs) :
  is_Some (prices s !! id) -> is_Some (tradeUpdater id quantity s refs).
Proof.
  intros [price Hprice]. unfold tradeUpdater. rewrite Hprice. cbn.
  destruct ((0 <? quantity)%Z && _); [eexists; reflexivity|].
  destruct ((quantity <? 0)%Z && _); eexists; reflexivity.
Qed.

Lemma upgradeUpdater_total (c : Commodity) (s : GameState) :
  c ∈ COMMODITIES -> is_Some (upgradeUpdater (Commodity.id c) s).
Proof.
  intros Hc. unfold upgradeUpdater. rewrite (findCommodity_catalog c Hc).
  destruct (facilityOf _ _); cbn; [|eexists; reflexivity].
  destruct (Qltb _ _); eexists; reflexivity.
Qed.

Lemma upgradeUpdater_rejects (c : Commodity) (s : GameState) :
  c ∈ COMMODITIES ->
  match facilityOf (Commodity.id c) (facilities s) with
  | None => upgradeUpdater (Commodity.id c) s = Some s
  | Some facility =>
      cash s < inject_Z (Math.floor (Commodity.basePrice c * 25
                                     * Math.pow 1.8 (ProductionFacility.level facility))) ->
      upgradeUpdater (Commodity.id c) s = Some s
  end.
Proof.
  intros Hc. unfold upgradeUpdater. rewrite (findCommodity_catalog c Hc).
  destruct (facilityOf _ _) as [facility|]; [|reflexivity].
  intros Hcash. cbn [mbind option_bind].
  apply Qltb_true in Hcash. rewrite Hcash. reflexivity.
Qed.

Lemma sellUpdater_total (c : Commodity) (s : GameState) :
  c ∈ COMMODITIES -> is_Some (AppA.sellUpdater (Commodity.id c) s).
Proof.
  intros Hc. unfold AppA.sellUpdater. rewrite (findCommodity_catalog c Hc).
  destruct (facilityOf _ _); eexists; reflexivity.
Qed.

(** Accepted trades keep the promises of the data model. *)
Lemma wf_traded (id : string) (quantity : Z) (s s' : GameState) (refs refs' : CycleRefs) :
  wf s -> tradeUpdater id quantity s refs = Some (s', refs') -> wf s'.
Proof.
  intros Hwf Hrun. pose proof Hwf as (Hprices & Hinv & Hfac & Hitems).
  unfold tradeUpdater in Hrun.
  destruct (prices s !! id) as [price|]; [|discriminate Hrun]. cbn in Hrun.
  destruct ((0 <? quantity)%Z && _); [injection Hrun as <- _; exact Hwf|].
  destruct ((quantity <? 0)%Z && _); [injection Hrun as <- _; exact Hwf|].
  injection Hrun as <- _.
  assert (Hids : map InventoryItem.commodityId
                   (map (fun item =>
                           if String.eqb (InventoryItem.commodityId item) id
                           then InventoryItem.mk (InventoryItem.commodityId item)
                                  (InventoryItem.quantity item + quantity)%Z
                           else item) (inventory s))
                 = map InventoryItem.commodityId (inventory s)).
  { rewrite <- list_fmap_compose. apply list_fmap_ext. intros i item _. cbn.
    destruct (String.eqb _ id); reflexivity. }
  split; [exact Hprices|]. split; [|split; [exact Hfac|]]; cbn [inventory prices].
  - intros item Hitem.
    assert (Hin : InventoryItem.commodityId item
                  ∈ map InventoryItem.commodityId (inventory s)).
    { rewrite <- Hids. apply list_elem_of_fmap_2. exact Hitem. }
    apply list_elem_of_fmap in Hin as (item0 & -> & Hitem0). apply Hinv, Hitem0.
  - intros c Hc. eapply ownedItem_same_ids; [exact Hids | apply Hitems, Hc].
Qed.

Lemma wf_staleRepayApp : wf (AppA.gameState staleRepayApp).
Proof.
  unfold staleRepayApp, AppA.handleTrade. cbn [AppA.isGameOver AppA.isPaused
    AppA.setRepayAmount AppA.takeLoan AppA.initialApp orb].
  destruct (tradeUpdater _ _ _ _) as [[s r]|] eqn:Hrun; cbn.
  - eapply wf_traded; [|exact Hrun].
    vm_compute Qltb. cbn. apply wf_withCashDebt, wf_initial.
  - apply wf_initial.
Qed.

(** ** Production over one tick *)

Lemma credit_once (h : bool) (id : string) (f : ProductionFacility) :
  credit h id f = 0%Z
  \/ exists c, findCommodity (ProductionFacility.commodityId f) = Some c
               /\ credit h id f = Commodity.productionYield c.
Proof.
  unfold credit. destruct (completes h f && _); [|left; reflexivity].
  destruct (findCommodity _) as [c|]; [right; exists c; split; reflexivity | left; reflexivity].
Qed.

Lemma production_spec_outcome (h : bool) (s s' : GameState) (production : Production) :
  wf s ->
  production_spec h s production ->
  facilities s' = nextFacilities production ->
  inventory s' = nextInventory production ->
  production_outcome s s'.
Proof.
  intros (_ & _ & _ & Hitems) (Hfs & _ & Hown) Hfac' Hinv'.
  exists h. rewrite Hfac', Hinv'. split; [exact Hfs|]. split.
  - intros f. apply advanceFacility_progress.
  - intros c Hc. unfold owned. rewrite Hown.
    destruct (Hitems c Hc) as [item ->]. reflexivity.
Qed.

(** ** What a tick that returns has done *)

Lemma forEach_updatePrice_inv (ev : option GlobalEvent) (cs : list Commodity) :
  NoDup (map Commodity.id cs) ->
  forall (P P' : gmap string MarketPrice) (g g' : Rng),
    forEachM (updatePrice ev) cs P g = Some (P', g') ->
    forall c, c ∈ cs -> is_Some (P !! Commodity.id c).
Proof.
  induction cs as [|c0 cs IH]; intros Hnd P P' g g' Hrun c Hc.
  - apply elem_of_nil in Hc. destruct Hc.
  - cbn [map] in Hnd. apply NoDup_cons in Hnd as [Hc0 Hnd].
    cbn [forEachM] in Hrun. apply bind_Some in Hrun as (P1 & g1 & Hstep & Hrest).
    unfold updatePrice in Hstep.
    rewrite (bind_eq _ _ _ _ _ (Math_random_eq g)) in Hstep.
    unfold bind, defined in Hstep.
    destruct (P !! Commodity.id c0) as [price0|] eqn:Hprice0; [|discriminate Hstep].
    injection Hstep as <- <-.
    apply elem_of_cons in Hc as [->|Hc]; [rewrite Hprice0; eexists; reflexivity|].
    pose proof (IH Hnd _ _ _ _ Hrest c Hc) as Hsome.
    rewrite lookup_insert_ne in Hsome; [exact Hsome|].
    intros Heq. apply Hc0. rewrite Heq. apply list_elem_of_fmap_2. exact Hc.
Qed.

Lemma marketLogic_floor (ev : option GlobalEvent) (P P' : gmap string MarketPrice)
    (g g' : Rng) (c : Commodity) :
  marketLogic ev P g = Some (P', g') -> c ∈ COMMODITIES ->
  exists price, P' !! Commodity.id c = Some price
    /\ Commodity.basePrice c * 0.1 <= MarketPrice.currentPrice price.
Proof.
  intros Hrun Hc.
  assert (Hdom : forall c, c ∈ COMMODITIES -> is_Some (P !! Commodity.id c)).
  { unfold marketLogic in Hrun.
    exact (forEach_updatePrice_inv ev COMMODITIES COMMODITIES_NoDup P P' g g' Hrun). }
  destruct (marketLogic_spec ev P g Hdom) as (P'' & Hrun' & Hspec).
  rewrite Hrun in Hrun'. injection Hrun' as -> _.
  exact (market_spec_floor ev P P'' g c Hspec Hc).
Qed.

Lemma tickA_returned (app app' : AppA.App) (g g' : Rng) :
  AppA.tick app g = Some (app', g') ->
  debt (AppA.gameState app')
  = debt (AppA.gameState app) + debt (AppA.gameState app) * DAILY_INTEREST_RATE
  /\ price_floor (AppA.gameState app').
Proof.
  unfold AppA.tick. intros H.
  apply bind_Some in H as (nextPrices & g1 & Hmarket & H).
  apply bind_Some in H as (tax & g2 & _ & H).
  apply bind_Some in H as (nextEvent & g3 & _ & H).
  apply bind_Some in H as (production & g4 & _ & H).
  destruct (ledgerRoll _ _ _ _) as [refs' finalLedger].
  injection H as <- <-. cbn [AppA.gameState]. split; [reflexivity|].
  intros c Hc. exact (marketLogic_floor _ _ _ _ _ c Hmarket Hc).
Qed.

Lemma tickB_returned (app app' : AppB.App) (g g' : Rng) :
  AppB.tick app g = Some (app', g') ->
  debt (AppB.gameState app')
  = debt (AppB.gameState app) + debt (AppB.gameState app) * DAILY_INTEREST_RATE
  /\ price_floor (AppB.gameState app').
Proof.
  unfold AppB.tick. intros H.
  apply bind_Some in H as (tax & g1 & _ & H).
  apply bind_Some in H as (nextEvent & g2 & _ & H).
  apply bind_Some in H as (nextPrices & g3 & Hmarket & H).
  apply bind_Some in H as (production & g4 & _ & H).
  destruct (ledgerRoll _ _ _ _) as [refs' finalLedger].
  injection H as <- <-. cbn [AppB.gameState]. split; [reflexivity|].
  intros c Hc. exact (marketLogic_floor _ _ _ _ _ c Hmarket Hc).
Qed.

(** ** What the actions leave alone *)

Lemma tradeUpdater_keeps (id : string) (quantity : Z) (s s' : GameState)
    (refs refs' : CycleRefs) :
  tradeUpdater id quantity s refs = Some (s', refs') ->
  debt s' = debt s /\ prices s' = prices s.
Proof.
  unfold tradeUpdater. destruct (prices s !! id) as [price|]; [|discriminate]. cbn.
  destruct ((0 <? quantity)%Z && _); [intros [= <- _]; split; reflexivity|].
  destruct ((quantity <? 0)%Z && _); intros [= <- _]; split; reflexivity.
Qed.

Lemma unlockUpdater_keeps (id : string) (cost : Q) (s : GameState) :
  debt (unlockUpdater id cost s) = debt s /\ prices (unlockUpdater id cost s) = prices s.
Proof. unfold unlockUpdater. destruct (_ || _); split; reflexivity. Qed.

Lemma upgradeUpdater_keeps (id : string) (s s' : GameState) :
  upgradeUpdater id s = Some s' -> debt s' = debt s /\ prices s' = prices s.
Proof.
  unfold upgradeUpdater. destruct (facilityOf _ _); [|intros [= <-]; split; reflexivity].
  destruct (findCommodity id); [|discriminate]. cbn [mbind option_bind].
  destruct (Qltb _ _); intros [= <-]; split; reflexivity.
Qed.

Lemma sellUpdater_keeps (id : string) (s s' : GameState) :
  AppA.sellUpdater id s = Some s' -> debt s' = debt s /\ prices s' = prices s.
Proof.
  unfold AppA.sellUpdater. destruct (facilityOf _ _); [|intros [= <-]; split; reflexivity].
  destruct (findCommodity id); [|discriminate]. cbn [mbind option_bind].
  intros [= <-]; split; reflexivity.
Qed.

Lemma quietA_keeps (app app' : AppA.App) :
  quietA app app' ->
  debt (AppA.gameState app') = debt (AppA.gameState app)
  /\ prices (AppA.gameState app') = prices (AppA.gameState app).
Proof.
  intros [id quantity app1 H|id app1 H|id app1 H|id app1 H|id|amount| |app1 H].
  - unfold AppA.handleTrade in H.
    destruct (_ || _); [injection H as <-; split; reflexivity|].
    destruct (tradeUpdater _ _ _ _) as [[s r]|] eqn:Hrun; [|discriminate H].
    injection H as <-. exact (tradeUpdater_keeps _ _ _ _ _ _ Hrun).
  - unfold AppA.handleUnlockFacility in H.
    destruct (AppA.isPaused app); [injection H as <-; split; reflexivity|].
    destruct (findCommodity id); [|discriminate H].
    injection H as <-. apply unlockUpdater_keeps.
  - unfold AppA.handleUpgradeFacility in H.
    destruct (AppA.isPaused app); [injection H as <-; split; reflexivity|].
    destruct (upgradeUpdater _ _) as [s|] eqn:Hrun; [|discriminate H].
    injection H as <-. exact (upgradeUpdater_keeps _ _ _ Hrun).
  - unfold AppA.handleSellFacility in H.
    destruct (AppA.isPaused app); [injection H as <-; split; reflexivity|].
    destruct (AppA.sellUpdater _ _) as [s|] eqn:Hrun; [|discriminate H].
    injection H as <-. exact (sellUpdater_keeps _ _ _ Hrun).
  - unfold AppA.handleToggleProduction.
    destruct (AppA.isPaused app); split; reflexivity.
  - split; reflexivity.
  - split; reflexivity.
  - unfold AppA.solvencyEffect in H.
    destruct (AppA.netEquity _); [|discriminate H]. cbn in H.
    destruct (_ && _); injection H as <-; split; reflexivity.
Qed.

Lemma quietB_keeps (app app' : AppB.App) :
  quietB app app' ->
  debt (AppB.gameState app') = debt (AppB.gameState app)
  /\ prices (AppB.gameState app') = prices (AppB.gameState app).
Proof.
  intros [id quantity app1 H|id app1 H|id app1 H|id|amount|app1 H].
  - unfold AppB.handleTrade in H.
    destruct (AppB.isGameOver app); [injection H as <-; split; reflexivity|].
    destruct (tradeUpdater _ _ _ _) as [[s r]|] eqn:Hrun; [|discriminate H].
    injection H as <-. exact (tradeUpdater_keeps _ _ _ _ _ _ Hrun).
  - unfold AppB.handleUnlockFacility in H.
    destruct (findCommodity id); [|discriminate H].
    injection H as <-. apply unlockUpdater_keeps.
  - unfold AppB.handleUpgradeFacility in H.
    destruct (upgradeUpdater _ _) as [s|] eqn:Hrun; [|discriminate H].
    injection H as <-. exact (upgradeUpdater_keeps _ _ _ Hrun).
  - split; reflexivity.
  - split; reflexivity.
  - unfold AppB.solvencyEffect in H.
    destruct (AppB.netEquity _); [|discriminate H]. cbn in H.
    destruct (_ && _); injection H as <-; split; reflexivity.
Qed.

Lemma anyA_keeps_prices (app app' : AppA.App) :
  anyA app app' -> prices (AppA.gameState app') = prices (AppA.gameState app).
Proof.
  intros [app1 H|amount|].
  - apply quietA_keeps, H.
  - unfold AppA.takeLoan. destruct (_ || _); reflexivity.
  - unfold AppA.handleRepay. destruct (AppA.isPaused app); reflexivity.
Qed.

Lemma anyB_keeps_prices (app app' : AppB.App) :
  anyB app app' -> prices (AppB.gameState app') = prices (AppB.gameState app).
Proof.
  intros [app1 H|amount|]; [apply quietB_keeps, H | reflexivity | reflexivity].
Qed.

(** ** Sessions *)

Section Sessions.

Context {App : Type} (gameState : App -> GameState).
Context (tick : App -> M App) (act : App -> App -> Prop).

Hypothesis tick_returned :
  forall app app' g g', tick app g = Some (app', g') ->
    debt (gameState app')
    = debt (gameState app) + debt (gameState app) * DAILY_INTEREST_RATE
    /\ price_floor (gameState app').

Hypothesis act_keeps_debt :
  forall app app', act app app' -> debt (gameState app') = debt (gameState app).

Hypothesis act_keeps_prices :
  forall app app', act app app' -> prices (gameState app') = prices (gameState app).

(** Interest is all that moves the debt in a session without loan and
    repayment. *)
Lemma run_debt (n : nat) (app app' : App) (g g' : Rng) :
  run tick act n app g app' g' ->
  debt (gameState app') == debt (gameState app) * 1.015 ^ Z.of_nat n.
Proof.
  induction 1 as [app g|n app app1 app' g g1 g' Htick _ IH|n app app1 app' g g' Hact _ IH].
  - change (1.015 ^ Z.of_nat 0) with 1. ring.
  - destruct (tick_returned _ _ _ _ Htick) as [Hdebt _].
    rewrite IH, Hdebt. apply compound_first.
  - rewrite IH, (act_keeps_debt _ _ Hact). reflexivity.
Qed.

(** From the first tick on the prices stay above the floor. *)
Lemma run_floor (n : nat) (app app' : App) (g g' : Rng) :
  run tick act n app g app' g' ->
  n ≠ 0%nat \/ price_floor (gameState app) -> price_floor (gameState app').
Proof.
  induction 1 as [app g|n app app1 app' g g1 g' Htick _ IH|n app app1 app' g g' Hact _ IH];
    intros Hstart.
  - destruct Hstart as [Hn|Hfloor]; [destruct (Hn eq_refl) | exact Hfloor].
  - apply IH. right. exact (proj2 (tick_returned _ _ _ _ Htick)).
  - apply IH. destruct Hstart as [Hn|Hfloor]; [left; exact Hn|].
    right. unfold price_floor. rewrite (act_keeps_prices _ _ Hact). exact Hfloor.
Qed.

End Sessions.

(** Ticks alone are a session. *)
Lemma ticksA_run (act : AppA.App -> AppA.App -> Prop) (n : nat) :
  forall (app app' : AppA.App) (g g' : Rng),
    AppA.ticks n app g = Some (app', g') -> run AppA.tick act n app g app' g'.
Proof.
  induction n as [|n IH]; intros app app' g g' Hrun; cbn [AppA.ticks] in Hrun.
  - injection Hrun as <- <-. constructor.
  - apply bind_Some in Hrun as (app1 & g1 & Htick & Hrest).
    eapply run_tick; [exact Htick | apply IH, Hrest].
Qed.

Lemma ticksB_run (act : AppB.App -> AppB.App -> Prop) (n : nat) :
  forall (app app' : AppB.App) (g g' : Rng),
    AppB.ticks n app g = Some (app', g') -> run AppB.tick act n app g app' g'.
Proof.
  induction n as [|n IH]; intros app app' g g' Hrun; cbn [AppB.ticks] in Hrun.
  - injection Hrun as <- <-. constructor.
  - apply bind_Some in Hrun as (app1 & g1 & Htick & Hrest).
    eapply run_tick; [exact Htick | apply IH, Hrest].
Qed.

(** A session of version A: buy 10 oil, then two ticks. *)
Example session_of_two_ticks :
  exists app' g', run AppA.tick quietA 2 AppA.initialApp (constantRng 0.5) app' g'.
Proof.
  destruct (AppA.handleTrade "oil" 10 AppA.initialApp) as [app1|] eqn:Htrade;
    [|vm_compute in Htrade; discriminate Htrade].
  assert (Hwf : wf (AppA.gameState app1)).
  { unfold AppA.handleTrade in Htrade.
    cbn [AppA.isGameOver AppA.isPaused AppA.initialApp orb] in Htrade.
    destruct (tradeUpdater _ _ _ _) as [[s r]|] eqn:Hrun; [|discriminate Htrade].
    injection Htrade as <-. eapply wf_traded; [apply wf_initial | exact Hrun]. }
  destruct (ticksA_facts 2 app1 (constantRng 0.5) Hwf) as (app' & g' & Hticks & _).
  { apply constantRng_valid; lra. }
  exists app', g'.
  eapply run_act; [eapply quietA_trade; exact Htrade|].
  apply ticksA_run, Hticks.
Qed.

(** * The claims *)

(** C3.  For every commodity of the catalog, whatever event is active
    and whatever values [Math.random()] returns, the current price after
    a tick is at least 0.1 times the base price, and it stays so through
    any number of further ticks and player actions.  From a well-formed
    state any number of ticks returns; and every session that contains
    a tick, from any state, ends above the floor.  In both versions. *)
Theorem price_never_below_floor (n : nat) (g : Rng)
    (appA : AppA.App) (appB : AppB.App) :
  valid_rng g -> wf (AppA.gameState appA) -> wf (AppB.gameState appB) ->
  (exists app' g', AppA.ticks (S n) appA g = Some (app', g')
                   /\ price_floor (AppA.gameState app'))
  /\ (exists app' g', AppB.ticks (S n) appB g = Some (app', g')
                      /\ price_floor (AppB.gameState app'))
  /\ (forall anyApp anyG app' g',
        run AppA.tick anyA (S n) anyApp anyG app' g' ->
        price_floor (AppA.gameState app'))
  /\ (forall anyApp anyG app' g',
        run AppB.tick anyB (S n) anyApp anyG app' g' ->
        price_floor (AppB.gameState app')).
Proof.
  intros Hg HA HB. split; [|split; [|split]].
  - destruct (ticksA_facts (S n) appA g HA Hg) as (app' & g' & Hrun & _ & _ & _ & Hfloor).
    exists app', g'. split; [exact Hrun | apply Hfloor; discriminate].
  - destruct (ticksB_facts (S n) appB g HB Hg) as (app' & g' & Hrun & _ & _ & _ & Hfloor).
    exists app', g'. split; [exact Hrun | apply Hfloor; discriminate].
  - intros anyApp anyG app' g' Hrun.
    apply (run_floor AppA.gameState AppA.tick anyA tickA_returned anyA_keeps_prices
             _ _ _ _ _ Hrun).
    left. discriminate.
  - intros anyApp anyG app' g' Hrun.
    apply (run_floor AppB.gameState AppB.tick anyB tickB_returned anyB_keeps_prices
             _ _ _ _ _ Hrun).
    left. discriminate.
Qed.

Lemma price_never_below_floor_witness :
  (exists app' g', AppA.ticks 3 AppA.initialApp (constantRng 0.5) = Some (app', g')
                   /\ price_floor (AppA.gameState app'))
  /\ (exists app' g', AppB.ticks 3 AppB.initialApp (constantRng 0.5) = Some (app', g')
                      /\ price_floor (AppB.gameState app')).
Proof.
  destruct (price_never_below_floor 2 (constantRng 0.5) AppA.initialApp AppB.initialApp)
    as (HA & HB & _).
  - apply constantRng_valid; lra.
  - apply wf_initial.
  - apply wf_initial.
  - split; [exact HA | exact HB].
Defined.

(** C6.  After [n] ticks with no loan and no repayment in between, the
    debt is the initial debt times 1.015 to the power [n]: each tick
    adds [debt * 0.015] to the debt, nothing when the debt is zero.
    From a well-formed state [n] ticks return such a debt; and every
    session of [n] ticks and any player actions other than loans and
    repayments, from any state, ends with such a debt.  In both
    versions. *)
Theorem debt_compounds (n : nat) (g : Rng) (appA : AppA.App) (appB : AppB.App) :
  valid_rng g -> wf (AppA.gameState appA) -> wf (AppB.gameState appB) ->
  (exists app' g', AppA.ticks n appA g = Some (app', g')
                   /\ debt (AppA.gameState app')
                      == debt (AppA.gameState appA) * 1.015 ^ Z.of_nat n)
  /\ (exists app' g', AppB.ticks n appB g = Some (app', g')
                      /\ debt (AppB.gameState app')
                         == debt (AppB.gameState appB) * 1.015 ^ Z.of_nat n)
  /\ (forall anyApp anyG app' g',
        run AppA.tick quietA n anyApp anyG app' g' ->
        debt (AppA.gameState app')
        == debt (AppA.gameState anyApp) * 1.015 ^ Z.of_nat n)
  /\ (forall anyApp anyG app' g',
        run AppB.tick quietB n anyApp anyG app' g' ->
        debt (AppB.gameState app')
        == debt (AppB.gameState anyApp) * 1.015 ^ Z.of_nat n).
Proof.
  intros Hg HA HB. split; [|split; [|split]].
  - destruct (ticksA_facts n appA g HA Hg) as (app' & g' & Hrun & _ & _ & Hdebt & _).
    exists app', g'. split; assumption.
  - destruct (ticksB_facts n appB g HB Hg) as (app' & g' & Hrun & _ & _ & Hdebt & _).
    exists app', g'. split; assumption.
  - intros anyApp anyG app' g'.
    apply (run_debt AppA.gameState AppA.tick quietA tickA_returned).
    intros app app1 Hact. apply quietA_keeps, Hact.
  - intros anyApp anyG app' g'.
    apply (run_debt AppB.gameState AppB.tick quietB tickB_returned).
    intros app app1 Hact. apply quietB_keeps, Hact.
Qed.

Lemma debt_compounds_witness :
  (exists app' g',
     AppA.ticks 2 (AppA.takeLoan 5000 AppA.initialApp) (constantRng 0.5)
     = Some (app', g')
     /\ debt (AppA.gameState app')
        == debt (AppA.gameState (AppA.takeLoan 5000 AppA.initialApp))
           * 1.015 ^ Z.of_nat 2)
  /\ (exists app' g',
        AppB.ticks 2 (AppB.takeLoan 5000 AppB.initialApp) (constantRng 0.5)
        = Some (app', g')
        /\ debt (AppB.gameState app')
           == debt (AppB.gameState (AppB.takeLoan 5000 AppB.initialApp))
              * 1.015 ^ Z.of_nat 2).
Proof.
  destruct (debt_compounds 2 (constantRng 0.5)
              (AppA.takeLoan 5000 AppA.initialApp) (AppB.takeLoan 5000 AppB.initialApp))
    as (HA & HB & _).
  - apply constantRng_valid; lra.
  - apply wf_withCashDebt, wf_initial.
  - apply wf_withCashDebt, wf_initial.
  - split; [exact HA | exact HB].
Defined.

(** C10.  In version B the tick returns as cash the maximum of 0 and
    the cash after tax less the day's production cost, so the cash it
    returns is never negative: from a well-formed state the tick returns
    such a state, and from any state whatever it returns is such a
    state.  Version A has no such clamp: its tick takes [strainedApp]
    from a cash of 10 to a negative cash. *)
Theorem tickB_cash_never_negative (app : AppB.App) (g : Rng) :
  wf (AppB.gameState app) -> valid_rng g ->
  (exists tax g1 production app' g',
     AppB.taxLogic (AppB.gameState app) g = Some (tax, g1)
     /\ productionLogic (Qleb (Tax.nextCash tax) 0) (AppB.gameState app)
        = Some production
     /\ AppB.tick app g = Some (app', g')
     /\ cash (AppB.gameState app')
        = Math.max 0 (Tax.nextCash tax - currentDayProductionCost production)
     /\ 0 <= cash (AppB.gameState app'))
  /\ (forall anyApp anyG app' g',
        AppB.tick anyApp anyG = Some (app', g') -> 0 <= cash (AppB.gameState app'))
  /\ (exists app' g',
        AppA.tick strainedApp (constantRng 0.5) = Some (app', g')
        /\ 0 <= cash (AppA.gameState strainedApp)
        /\ cash (AppA.gameState app') < 0).
Proof.
  intros Hwf Hg. split; [|split].
  - destruct (tickB_spec app g Hwf Hg)
      as (nextPrices & tax & nextEvent & production & finalLedger & alert & refs'
          & g1 & g2 & g' & Htax & _ & _ & Hprod & Htick & _).
    eexists tax, g1, production, _, g'.
    split; [exact Htax|]. split; [exact Hprod|]. split; [exact Htick|].
    split; [reflexivity|]. cbn. apply Q.le_max_l.
  - intros anyApp anyG app' g'. apply tickB_cash_any.
  - destruct (AppA.tick strainedApp (constantRng 0.5)) as [[app' g']|] eqn:Htick.
    + exists app', g'. split; [reflexivity|].
      vm_compute in Htick. injection Htick as <- _.
      split; vm_compute; [discriminate | reflexivity].
    + vm_compute in Htick. discriminate Htick.
Qed.

Lemma tickB_cash_never_negative_witness :
  (exists tax g1 production app' g',
     AppB.taxLogic (AppB.gameState AppB.initialApp) (constantRng 0.5) = Some (tax, g1)
     /\ productionLogic (Qleb (Tax.nextCash tax) 0) (AppB.gameState AppB.initialApp)
        = Some production
     /\ AppB.tick AppB.initialApp (constantRng 0.5) = Some (app', g')
     /\ cash (AppB.gameState app')
        = Math.max 0 (Tax.nextCash tax - currentDayProductionCost production)
     /\ 0 <= cash (AppB.gameState app')).
Proof.
  apply (tickB_cash_never_negative AppB.initialApp (constantRng 0.5)).
  - apply wf_initial.
  - apply constantRng_valid; lra.
Defined.





(** The scenario of the specification: from the initial cash of 5000,
    buying 10 oil at 80 leaves a cash of 4200 and 10 oil owned. *)
Example buy_ten_oil :
  exists app', AppA.handleTrade "oil" 10 AppA.initialApp = Some app'
    /\ cash (AppA.gameState app') == 4200
    /\ owned "oil" (inventory (AppA.gameState app')) = 10%Z.
Proof.
  destruct (AppA.handleTrade "oil" 10 AppA.initialApp) as [app'|] eqn:Htrade.
  - vm_compute in Htrade. injection Htrade as <-.
    eexists. split; [reflexivity|]. split; reflexivity.
  - vm_compute in Htrade. discriminate Htrade.
Qed.

(** C8.  Unlocking the facility of a catalog commodity costs
    [basePrice * 25]; it is rejected, the state unchanged, when the cash
    is below the cost or a facility of the commodity exists; otherwise
    the cost is debited and a facility with level 1, [isProducing] true
    and progress 0 is created.  From the initial cash of 5000,
    unlocking oil (cost 80 * 25 = 2000) leaves a cash of 3000.  In both
    versions. *)
Theorem unlock_costs_and_creates (c : Commodity) (appA : AppA.App) (appB : AppB.App) :
  c ∈ COMMODITIES -> AppA.isPaused appA = false ->
  unlock_contract AppA.gameState AppA.handleUnlockFacility c appA
  /\ unlock_contract AppB.gameState AppB.handleUnlockFacility c appB
  /\ (exists app', AppA.handleUnlockFacility "oil" AppA.initialApp = Some app'
                   /\ oil_unlocked (AppA.gameState app'))
  /\ (exists app', AppB.handleUnlockFacility "oil" AppB.initialApp = Some app'
                   /\ oil_unlocked (AppB.gameState app')).
Proof.
  intros Hc Hpaused.
  split; [apply unlockA_contract; assumption|].
  split; [apply unlockB_contract; assumption|].
  split.
  - destruct (unlockA_contract oil AppA.initialApp oil_in_catalog eq_refl) as [_ Hok].
    destruct Hok as (app' & Hrun & Hcash & Hfac & _);
      [vm_compute; discriminate | reflexivity |].
    exists app'. split; [exact Hrun|]. split; [rewrite Hcash; reflexivity | exact Hfac].
  - destruct (unlockB_contract oil AppB.initialApp oil_in_catalog) as [_ Hok].
    destruct Hok as (app' & Hrun & Hcash & Hfac & _);
      [vm_compute; discriminate | reflexivity |].
    exists app'. split; [exact Hrun|]. split; [rewrite Hcash; reflexivity | exact Hfac].
Qed.

Lemma unlock_costs_and_creates_witness :
  unlock_contract AppA.gameState AppA.handleUnlockFacility oil AppA.initialApp
  /\ unlock_contract AppB.gameState AppB.handleUnlockFacility oil AppB.initialApp
  /\ (exists app', AppA.handleUnlockFacility "oil" AppA.initialApp = Some app'
                   /\ oil_unlocked (AppA.gameState app'))
  /\ (exists app', AppB.handleUnlockFacility "oil" AppB.initialApp = Some app'
                   /\ oil_unlocked (AppB.gameState app')).
Proof.
  apply (unlock_costs_and_creates oil AppA.initialApp AppB.initialApp).
  - apply oil_in_catalog.
  - reflexivity.
Defined.


(** C5, amended.  In version A [takeLoan] returns the state unchanged
    whenever the outstanding debt is positive, so a loan taken while one
    is outstanding changes nothing, and an accepted loan adds exactly
    the requested amount to cash and to debt.  In version B [takeLoan]
    has no gate: every call adds the amount to cash and to debt,
    whatever the debt. *)
Theorem takeLoan_gate (amount : Q) (appA : AppA.App) (appB : AppB.App) :
  (0 < debt (AppA.gameState appA) -> AppA.takeLoan amount appA = appA)
  /\ (debt (AppA.gameState appA) <= 0 -> AppA.isPaused appA = false ->
       loan_granted amount (AppA.gameState appA)
         (AppA.gameState (AppA.takeLoan amount appA)))
  /\ (0 <= debt (AppA.gameState appA) -> 0 < amount ->
       forall another : Q,
         AppA.takeLoan another (AppA.takeLoan amount appA)
         = AppA.takeLoan amount appA)
  /\ loan_granted amount (AppB.gameState appB)
       (AppB.gameState (AppB.takeLoan amount appB)).
Proof.
  split; [|split; [|split]].
  - intros Hdebt. unfold AppA.takeLoan.
    apply Qltb_true in Hdebt. rewrite Hdebt. reflexivity.
  - intros Hdebt Hpaused. unfold AppA.takeLoan. rewrite Hpaused.
    apply Qltb_false in Hdebt. rewrite Hdebt. cbn. repeat split; reflexivity.
  - intros Hdebt Hamount another. unfold AppA.takeLoan at 2 3.
    case_Qltb 0 (debt (AppA.gameState appA)); cbn [orb].
    + unfold AppA.takeLoan. apply Qltb_true in Hcmp. rewrite Hcmp. reflexivity.
    + destruct (AppA.isPaused appA) eqn:Hpaused.
      * unfold AppA.takeLoan. rewrite Hpaused, orb_true_r. reflexivity.
      * unfold AppA.takeLoan. cbn [AppA.gameState AppA.setGameState loanUpdater
                                     withCashDebt debt].
        assert (Hpos : Qltb 0 (debt (AppA.gameState appA) + amount) = true)
          by (apply Qltb_true; lra).
        rewrite Hpos. reflexivity.
  - cbn. repeat split; reflexivity.
Qed.

Lemma takeLoan_gate_witness :
  AppA.takeLoan 10000 (AppA.takeLoan 5000 AppA.initialApp)
  = AppA.takeLoan 5000 AppA.initialApp
  /\ loan_granted 5000 (AppA.gameState AppA.initialApp)
       (AppA.gameState (AppA.takeLoan 5000 AppA.initialApp)).
Proof.
  split.
  - destruct (takeLoan_gate 10000 (AppA.takeLoan 5000 AppA.initialApp) AppB.initialApp)
      as (Hrejected & _).
    apply Hrejected. vm_compute. reflexivity.
  - destruct (takeLoan_gate 5000 AppA.initialApp AppB.initialApp)
      as (_ & Hgranted & _).
    apply Hgranted; [vm_compute; discriminate | reflexivity].
Defined.

(** C5 as stated fails on version B: with a debt of 5000 outstanding,
    a second loan of 5000 is granted and the debt is 10000. *)
Lemma takeLoanB_not_gated :
  0 < debt (AppB.gameState (AppB.takeLoan 5000 AppB.initialApp))
  /\ AppB.takeLoan 5000 (AppB.takeLoan 5000 AppB.initialApp)
     <> AppB.takeLoan 5000 AppB.initialApp
  /\ debt (AppB.gameState twiceIndebtedApp) == 10000.
Proof.
  split; [vm_compute; reflexivity|]. split; [|vm_compute; reflexivity].
  intros Heq. apply (f_equal (fun app => debt (AppB.gameState app))) in Heq.
  vm_compute in Heq. discriminate Heq.
Qed.


(** C4.  [handleRepay] applies the amount the slider was left at
    without comparing it with the state it is applied to, although the
    program bounds the slider by [maxRepayable].  After a loan of 5000
    the slider is moved to 5000, which is within [0, min(cash, debt)];
    100 oil are bought, which leaves a cash of 2000; the repayment of
    5000, now out of range, is carried out all the same: cash and debt
    change, and the cash turns negative. *)
Lemma repay_out_of_range_not_rejected :
  (0 <= 5000 /\ 5000 <= AppA.maxRepayable (AppA.takeLoan 5000 AppA.initialApp))
  /\ AppA.handleTrade "oil" 100
       (AppA.setRepayAmount 5000 (AppA.takeLoan 5000 AppA.initialApp))
     = Some staleRepayApp
  /\ AppA.isPaused staleRepayApp = false
  /\ AppA.maxRepayable staleRepayApp < AppA.repayAmount staleRepayApp
  /\ ~ cash (AppA.gameState (AppA.handleRepay staleRepayApp))
       == cash (AppA.gameState staleRepayApp)
  /\ ~ debt (AppA.gameState (AppA.handleRepay staleRepayApp))
       == debt (AppA.gameState staleRepayApp)
  /\ cash (AppA.gameState (AppA.handleRepay staleRepayApp)) < 0.
Proof.
  split; [split; vm_compute; discriminate|].
  split; [vm_compute; reflexivity|].
  split; [reflexivity|].
  split; [vm_compute; reflexivity|].
  split; [vm_compute; discriminate|].
  split; [vm_compute; discriminate|].
  vm_compute. reflexivity.
Qed.

(** What the handlers do besides.  On well-formed states and catalog
    commodities every player-action handler returns a state, and trade,
    unlock, upgrade and sell return the state unchanged when their
    precondition fails.  [handleRepay] takes [repayAmount] from cash
    and from debt and resets it to 0, whatever it holds.  In both
    versions. *)
Theorem mutators_total_repay_unchecked (c : Commodity) (q : Z)
    (appA : AppA.App) (appB : AppB.App) :
  c ∈ COMMODITIES -> (0 < q)%Z ->
  wf (AppA.gameState appA) -> wf (AppB.gameState appB) ->
  AppA.isGameOver appA = false -> AppA.isPaused appA = false ->
  AppB.isGameOver appB = false ->
  mutators_total c appA appB
  /\ mutators_reject c q appA appB
  /\ repaid (AppA.repayAmount appA) (AppA.gameState appA)
       (AppA.gameState (AppA.handleRepay appA))
  /\ AppA.repayAmount (AppA.handleRepay appA) = 0
  /\ repaid (AppB.repayAmount appB) (AppB.gameState appB)
       (AppB.gameState (AppB.handleRepay appB))
  /\ AppB.repayAmount (AppB.handleRepay appB) = 0.
Proof.
  intros Hc Hq HA HB HoverA HpausedA HoverB.
  pose proof HA as (HpricesA & _). pose proof HB as (HpricesB & _).
  split; [|split].
  - unfold mutators_total. repeat split.
    + unfold AppA.handleTrade. rewrite HoverA, HpausedA. cbn [orb].
      destruct (tradeUpdater_total (Commodity.id c) quantity (AppA.gameState appA)
                  (AppA.refs appA) (HpricesA c Hc)) as [[s r] ->].
      eexists; reflexivity.
    + unfold AppB.handleTrade. rewrite HoverB.
      destruct (tradeUpdater_total (Commodity.id c) quantity (AppB.gameState appB)
                  (AppB.refs appB) (HpricesB c Hc)) as [[s r] ->].
      eexists; reflexivity.
    + unfold AppA.handleUnlockFacility.
      rewrite HpausedA, (findCommodity_catalog c Hc). eexists; reflexivity.
    + unfold AppB.handleUnlockFacility.
      rewrite (findCommodity_catalog c Hc). eexists; reflexivity.
    + unfold AppA.handleUpgradeFacility. rewrite HpausedA.
      destruct (upgradeUpdater_total c (AppA.gameState appA) Hc) as [s ->].
      eexists; reflexivity.
    + unfold AppB.handleUpgradeFacility.
      destruct (upgradeUpdater_total c (AppB.gameState appB) Hc) as [s ->].
      eexists; reflexivity.
    + unfold AppA.handleSellFacility. rewrite HpausedA.
      destruct (sellUpdater_total c (AppA.gameState appA) Hc) as [s ->].
      eexists; reflexivity.
  - unfold mutators_reject.
    split; [apply tradeA_contract; assumption|].
    split; [apply tradeB_contract; assumption|].
    split; [apply unlockA_contract; assumption|].
    split; [apply unlockB_contract; assumption|].
    pose proof (upgradeUpdater_rejects c (AppA.gameState appA) Hc) as HupA.
    pose proof (upgradeUpdater_rejects c (AppB.gameState appB) Hc) as HupB.
    split; [|split].
    + clear HupB. unfold upgrade_rejects, AppA.handleUpgradeFacility. rewrite HpausedA.
      destruct (facilityOf (Commodity.id c) (facilities (AppA.gameState appA))).
      * intros Hcash. rewrite (HupA Hcash). cbn. rewrite setGameStateA_same. reflexivity.
      * rewrite HupA. cbn. rewrite setGameStateA_same. reflexivity.
    + clear HupA. unfold upgrade_rejects, AppB.handleUpgradeFacility.
      destruct (facilityOf (Commodity.id c) (facilities (AppB.gameState appB))).
      * intros Hcash. rewrite (HupB Hcash). cbn. rewrite setGameStateB_same. reflexivity.
      * rewrite HupB. cbn. rewrite setGameStateB_same. reflexivity.
    + intros Hnone. unfold AppA.handleSellFacility, AppA.sellUpdater.
      rewrite HpausedA, Hnone. cbn. rewrite setGameStateA_same. reflexivity.
  - unfold AppA.handleRepay. rewrite HpausedA. cbn.
    repeat split; reflexivity.
Qed.

Lemma mutators_total_repay_unchecked_witness :
  mutators_total oil staleRepayApp twiceIndebtedApp
  /\ mutators_reject oil 10 staleRepayApp twiceIndebtedApp
  /\ repaid (AppA.repayAmount staleRepayApp) (AppA.gameState staleRepayApp)
       (AppA.gameState (AppA.handleRepay staleRepayApp))
  /\ AppA.repayAmount (AppA.handleRepay staleRepayApp) = 0
  /\ repaid (AppB.repayAmount twiceIndebtedApp) (AppB.gameState twiceIndebtedApp)
       (AppB.gameState (AppB.handleRepay twiceIndebtedApp))
  /\ AppB.repayAmount (AppB.handleRepay twiceIndebtedApp) = 0.
Proof.
  apply (mutators_total_repay_unchecked oil 10 staleRepayApp twiceIndebtedApp).
  - apply oil_in_catalog.
  - reflexivity.
  - apply wf_staleRepayApp.
  - apply wf_withCashDebt, wf_withCashDebt, wf_initial.
  - reflexivity.
  - reflexivity.
  - reflexivity.
Defined.


(** C7.  In a tick every facility is advanced once: a facility whose
    progress was in [0, 100) (at a level of at least 1) has its progress
    in [0, 100) again, wrapped by [% 100] on completion; and the owned
    quantity of a commodity grows by the credits of the facilities,
    where one facility credits either nothing or the [productionYield]
    of its commodity, once, however far the increment [5 + level * 10]
    carries the progress.  In both versions. *)
Theorem production_wraps_and_credits_once (g : Rng)
    (appA : AppA.App) (appB : AppB.App) :
  valid_rng g ->
  wf (AppA.gameState appA) -> wf (AppB.gameState appB) ->
  (exists app' g', AppA.tick appA g = Some (app', g')
                   /\ production_outcome (AppA.gameState appA) (AppA.gameState app'))
  /\ (exists app' g', AppB.tick appB g = Some (app', g')
                      /\ production_outcome (AppB.gameState appB) (AppB.gameState app'))
  /\ (forall (hasNoCash : bool) (id : string) (f : ProductionFacility),
        credit hasNoCash id f = 0%Z
        \/ exists c, findCommodity (ProductionFacility.commodityId f) = Some c
                     /\ credit hasNoCash id f = Commodity.productionYield c).
Proof.
  intros Hg HA HB. split; [|split].
  - destruct (tickA_spec appA g HA Hg)
      as (nextPrices & tax & nextEvent & production & finalLedger & lastTax & refs'
          & g1 & g2 & g' & _ & _ & _ & _ & Htick & _ & _ & Hprod).
    eexists _, g'. split; [exact Htick|].
    eapply production_spec_outcome; [exact HA | exact Hprod | |]; reflexivity.
  - destruct (tickB_spec appB g HB Hg)
      as (nextPrices & tax & nextEvent & production & finalLedger & alert & refs'
          & g1 & g2 & g' & _ & _ & _ & _ & Htick & _ & _ & _ & Hprod).
    eexists _, g'. split; [exact Htick|].
    eapply production_spec_outcome; [exact HB | exact Hprod | |]; reflexivity.
  - apply credit_once.
Qed.

Lemma wf_deepOilApp : wf (AppA.gameState deepOilApp).
Proof.
  destruct (wf_initial AppA.INITIAL_TAX_RATE) as (Hprices & Hinv & _ & Hitems).
  split; [exact Hprices|]. split; [exact Hinv|]. split; [|exact Hitems].
  intros f Hf. cbn in Hf. apply list_elem_of_singleton in Hf as ->.
  eexists. reflexivity.
Qed.

Lemma production_wraps_and_credits_once_witness :
  (exists app' g', AppA.tick deepOilApp (constantRng 0.5) = Some (app', g')
                   /\ production_outcome (AppA.gameState deepOilApp)
                        (AppA.gameState app'))
  /\ (exists app' g', AppB.tick AppB.initialApp (constantRng 0.5) = Some (app', g')
                      /\ production_outcome (AppB.gameState AppB.initialApp)
                           (AppB.gameState app'))
  /\ (forall (hasNoCash : bool) (id : string) (f : ProductionFacility),
        credit hasNoCash id f = 0%Z
        \/ exists c, findCommodity (ProductionFacility.commodityId f) = Some c
                     /\ credit hasNoCash id f = Commodity.productionYield c).
Proof.
  apply (production_wraps_and_credits_once (constantRng 0.5) deepOilApp AppB.initialApp).
  - apply constantRng_valid; lra.
  - apply wf_deepOilApp.
  - apply wf_initial.
Defined.

(** The oil field at level 20 starts a tick at progress 0 and gains
    205: it ends the tick at progress 5 with one yield of 10 units
    credited, not two. *)
Example one_credit_past_200 :
  exists app' g' f',
    AppA.tick deepOilApp (constantRng 0.5) = Some (app', g')
    /\ facilities (AppA.gameState app') = [f']
    /\ ProductionFacility.progress f' == 5
    /\ owned "oil" (inventory (AppA.gameState deepOilApp)) = 0%Z
    /\ owned "oil" (inventory (AppA.gameState app')) = 10%Z.
Proof.
  destruct (AppA.tick deepOilApp (constantRng 0.5)) as [[app' g']|] eqn:Htick.
  - vm_compute in Htick. injection Htick as <- <-.
    eexists _, _, _. split; [reflexivity|]. split; [reflexivity|].
    split; [reflexivity|]. split; reflexivity.
  - vm_compute in Htick. discriminate Htick.
Qed.


(** C1 as stated fails on version A.  On the last day of an event
    that halves every target price, with [Math.random()] returning 0,
    the tick clears the event, yet the new price of oil is none of the
    prices the formula gives without an event. *)
Lemma tickA_prices_use_event_before_update :
  exists app' g',
    AppA.tick eventEndingApp (constantRng 0) = Some (app', g')
    /\ activeEvent (AppA.gameState app') = None
    /\ ~ prices_use_event (activeEvent (AppA.gameState app')) (constantRng 0)
          (AppA.gameState eventEndingApp) (AppA.gameState app').
Proof.
  destruct (AppA.tick eventEndingApp (constantRng 0)) as [[app' g']|] eqn:Htick.
  - vm_compute in Htick. injection Htick as <- <-.
    eexists _, _. split; [reflexivity|]. split; [reflexivity|].
    intros Huse. destruct (Huse oil oil_in_catalog) as (price & price' & i & Hp & Hp' & Heq).
    vm_compute in Hp. injection Hp as <-.
    vm_compute in Hp'. injection Hp' as <-.
    vm_compute in Heq. discriminate Heq.
  - vm_compute in Htick. discriminate Htick.
Qed.

(** C1, amended.  In the tick of version B the active-event update
    (decrement of [remainingDays], clearing at 0, possible trigger of a
    new event) runs before the prices are recomputed, and every
    commodity's new price is computed with the event that update
    returned.  In the tick of version A the prices are recomputed first,
    with the event that was active before the tick, and the event update
    runs afterwards. *)
Theorem event_update_and_price_order (g : Rng) (appA : AppA.App) (appB : AppB.App) :
  valid_rng g -> wf (AppA.gameState appA) -> wf (AppB.gameState appB) ->
  event_then_market appB g /\ market_then_event appA g.
Proof.
  intros Hg HA HB. split.
  - destruct (tickB_spec appB g HB Hg)
      as (nextPrices & tax & nextEvent & production & finalLedger & alert & refs'
          & g1 & g2 & g' & Htax & Hevent & Hmarket & _ & Htick & _ & Hstream & Hspec & _).
    unfold event_then_market.
    match type of Htick with _ = Some (?a, _) => exists tax, nextEvent, g1, g2, a, g' end.
    split; [exact Htax|]. split; [exact Hevent|]. split; [exact Hmarket|].
    split; [exact Htick|]. split; [reflexivity|].
    eapply market_spec_use_event; [exact Hstream | exact Hspec].
  - destruct (tickA_spec appA g HA Hg)
      as (nextPrices & tax & nextEvent & production & finalLedger & lastTax & refs'
          & g1 & g2 & g' & Hmarket & Htax & Hevent & _ & Htick & _ & Hspec & _).
    unfold market_then_event.
    match type of Htick with _ = Some (?a, _) => exists tax, g1, g2, a, g' end.
    split; [exact Hmarket|]. split; [exact Htax|]. split; [exact Hevent|].
    split; [exact Htick|].
    eapply market_spec_use_event; [reflexivity | exact Hspec].
Qed.

Lemma event_update_and_price_order_witness :
  event_then_market AppB.initialApp (constantRng 0.5)
  /\ market_then_event eventEndingApp (constantRng 0.5).
Proof.
  apply (event_update_and_price_order (constantRng 0.5) eventEndingApp AppB.initialApp).
  - apply constantRng_valid; lra.
  - apply wf_initial.
  - apply wf_initial.
Defined.

(** C9.  With at most one entry in the price history the displayed
    price change is the literal "0.00" and no history entry is read.
    With two or more entries the entry before the last exists, and the
    display is [(currentPrice - secondToLast) / secondToLast * 100]
    printed by [toFixed(2)]. *)
Theorem priceChange_defaults_to_zero (marketData : MarketPrice) :
  ((length (MarketPrice.history marketData) <= 1)%nat ->
     CommodityCard.priceChange marketData = "0.00")
  /\ ((2 <= length (MarketPrice.history marketData))%nat ->
       exists secondToLast : Q,
         MarketPrice.history marketData
           !! (length (MarketPrice.history marketData) - 2)%nat
         = Some secondToLast
         /\ CommodityCard.priceChange marketData
            = Number.toFixed
                (Number.mul
                   (Number.div
                      (Number.sub (Number.Finite (MarketPrice.currentPrice marketData))
                                  (Number.Finite secondToLast))
                      (Number.Finite secondToLast))
                   (Number.Finite 100))
                2
         /\ (~ secondToLast == 0 ->
             CommodityCard.priceChange marketData
             = Number.toFixed
                 (Number.Finite
                    ((MarketPrice.currentPrice marketData - secondToLast)
                     / secondToLast * 100))
                 2)).
Proof.
  unfold CommodityCard.priceChange. split.
  - intros Hlen. destruct (Nat.ltb_spec 1 (length (MarketPrice.history marketData)));
      [lia | reflexivity].
  - intros Hlen. destruct (Nat.ltb_spec 1 (length (MarketPrice.history marketData)));
      [|lia].
    destruct (lookup_lt_is_Some_2 (MarketPrice.history marketData)
                (length (MarketPrice.history marketData) - 2)) as [prior Hprior]; [lia|].
    exists prior. rewrite Hprior. split; [reflexivity|]. split; [reflexivity|].
    intros Hnz. cbn [Number.ofEntry Number.sub Number.div].
    destruct (Qeq_bool prior 0) eqn:Hz.
    + apply Qeq_bool_iff in Hz. contradiction.
    + reflexivity.
Qed.

Lemma priceChange_defaults_to_zero_witness :
  CommodityCard.priceChange (MarketPrice.mk "oil" 80 [80] stable) = "0.00"
  /\ CommodityCard.priceChange (MarketPrice.mk "oil" 84 [80; 84] up) = "5.00".
Proof.
  split.
  - apply (priceChange_defaults_to_zero (MarketPrice.mk "oil" 80 [80] stable)).
    cbn. lia.
  - destruct (priceChange_defaults_to_zero (MarketPrice.mk "oil" 84 [80; 84] up))
      as (_ & Hmany).
    destruct Hmany as (secondToLast & Hread & _ & Hdisplay); [cbn; lia|].
    cbn in Hread. injection Hread as <-.
    rewrite Hdisplay; [vm_compute; reflexivity | vm_compute; discriminate].
Defined.

(** * Further properties *)

(** ** What a returned tick is made of *)

Lemma defined_Some {A : Type} (o : option A) (g g' : Rng) (a : A) :
  defined o g = Some (a, g') <-> o = Some a /\ g' = g.
Proof.
  unfold defined. destruct o as [x|]; split.
  - intros [= -> ->]. split; reflexivity.
  - intros [[= ->] ->]. reflexivity.
  - discriminate.
  - intros [H _]. discriminate H.
Qed.

Lemma marketLogic_inv (ev : option GlobalEvent) (P P' : gmap string MarketPrice)
    (g g' : Rng) :
  marketLogic ev P g = Some (P', g') ->
  market_spec COMMODITIES ev P P' g /\ g' = advance (length COMMODITIES) g.
Proof.
  intros Hrun.
  assert (Hdom : forall c, c ∈ COMMODITIES -> is_Some (P !! Commodity.id c)).
  { unfold marketLogic in Hrun.
    exact (forEach_updatePrice_inv ev COMMODITIES COMMODITIES_NoDup P P' g g' Hrun). }
  destruct (marketLogic_spec ev P g Hdom) as (P'' & Hrun' & Hspec).
  rewrite Hrun in Hrun'. injection Hrun' as -> ->. split; [exact Hspec | reflexivity].
Qed.

Lemma taxLogicA_inv (prev : GameState) (P : gmap string MarketPrice)
    (g g' : Rng) (tax : Tax.t) :
  AppA.taxLogic prev P g = Some (tax, g') ->
  ((day prev + 1 < nextTaxDay prev)%Z
   /\ tax = Tax.mk (cash prev) (totalTaxesPaid (lifetime prev)) (taxRate prev)
              (nextTaxDay prev) None
   /\ g' = g)
  \/ ((nextTaxDay prev <= day prev + 1)%Z
      /\ exists iv fv,
           inventoryValueAt P (inventory prev) = Some iv
           /\ infrastructureValueOf (facilities prev) = Some fv
           /\ tax = Tax.mk
                      (cash prev
                       - Math.max 0 ((cash prev + iv + fv - debt prev) * taxRate prev))
                      (totalTaxesPaid (lifetime prev)
                       + Math.max 0 ((cash prev + iv + fv - debt prev) * taxRate prev))
                      (0.10 + stream g (cursor g) * 0.10)
                      (nextTaxDay prev + TAX_CYCLE)
                      (Some (Math.max 0 ((cash prev + iv + fv - debt prev)
                                         * taxRate prev)))
           /\ g' = advance 1 g).
Proof.
  unfold AppA.taxLogic. destruct (Z.leb_spec (nextTaxDay prev) (day prev + 1)) as [Hdue|Hnot].
  - intros H. right. split; [exact Hdue|].
    apply bind_Some in H as (iv & g1 & Hiv & H). apply defined_Some in Hiv as [Hiv ->].
    apply bind_Some in H as (fv & g2 & Hfv & H). apply defined_Some in Hfv as [Hfv ->].
    rewrite (bind_eq _ _ _ _ _ (Math_random_eq g)) in H. injection H as <- <-.
    exists iv, fv. repeat split; assumption.
  - intros [= <- <-]. left. repeat split. exact Hnot.
Qed.

Lemma taxLogicB_inv (prev : GameState) (g g' : Rng) (tax : Tax.t) :
  AppB.taxLogic prev g = Some (tax, g') ->
  ((day prev + 1 < nextTaxDay prev)%Z
   /\ tax = Tax.mk (cash prev) (totalTaxesPaid (lifetime prev)) (taxRate prev)
              (nextTaxDay prev) None
   /\ g' = g)
  \/ ((nextTaxDay prev <= day prev + 1)%Z
      /\ tax = Tax.mk (cash prev - cash prev * taxRate prev)
                 (totalTaxesPaid (lifetime prev) + cash prev * taxRate prev)
                 (0.10 + stream g (cursor g) * 0.25)
                 (nextTaxDay prev + TAX_CYCLE)
                 (Some (cash prev * taxRate prev))
      /\ g' = advance 1 g).
Proof.
  unfold AppB.taxLogic. destruct (Z.leb_spec (nextTaxDay prev) (day prev + 1)) as [Hdue|Hnot].
  - intros H. right. split; [exact Hdue|].
    rewrite (bind_eq _ _ _ _ _ (Math_random_eq g)) in H. injection H as <- <-.
    split; reflexivity.
  - intros [= <- <-]. left. repeat split. exact Hnot.
Qed.

Lemma pool_entry (i : Z) (t : EventTemplate) :
  jsIndex EVENTS_POOL i = Some t -> t ∈ EVENTS_POOL.
Proof.
  unfold jsIndex. destruct (i <? 0)%Z; [discriminate|].
  apply list_elem_of_lookup_2.
Qed.

Lemma duration_range (r : Q) :
  0 <= r -> r < 1 -> (3 <= Math.floor (r * 5) + 3 <= 7)%Z.
Proof.
  intros Hlo Hhi. unfold Math.floor.
  assert (H0 : (0 <= Qfloor (r * 5))%Z).
  { change 0%Z with (Qfloor 0). apply Qfloor_resp_le. lra. }
  assert (H4 : (Qfloor (r * 5) < 5)%Z).
  { rewrite Zlt_Qlt. pose proof (Qfloor_le (r * 5)) as Hle.
    change (inject_Z 5) with 5. lra. }
  lia.
Qed.

Lemma ageEvent_goes_on (ev : GlobalEvent) :
  (1 < GlobalEvent.remainingDays ev)%Z -> ageEvent (Some ev) = Some (aged ev).
Proof.
  intros Hrd. unfold ageEvent. cbn [GlobalEvent.remainingDays].
  destruct (Z.leb_spec (GlobalEvent.remainingDays ev - 1) 0); [lia | reflexivity].
Qed.

Lemma ageEvent_ends (o : option GlobalEvent) :
  (forall ev, o = Some ev -> (GlobalEvent.remainingDays ev <= 1)%Z) ->
  ageEvent o = None.
Proof.
  intros Hrd. destruct o as [ev|]; [|reflexivity].
  specialize (Hrd ev eq_refl). unfold ageEvent. cbn [GlobalEvent.remainingDays].
  destruct (Z.leb_spec (GlobalEvent.remainingDays ev - 1) 0); [reflexivity | lia].
Qed.

Lemma eventLogic_inv (o o' : option GlobalEvent) (nextCycleProgress : Z) (g g' : Rng) :
  valid_rng g ->
  eventLogic o nextCycleProgress g = Some (o', g') ->
  (exists k, g' = advance k g)
  /\ (forall ev, o = Some ev -> (1 < GlobalEvent.remainingDays ev)%Z ->
        o' = Some (aged ev))
  /\ ((forall ev, o = Some ev -> (GlobalEvent.remainingDays ev <= 1)%Z) ->
      ((nextCycleProgress < 10)%Z -> o' = None)
      /\ (forall ev', o' = Some ev' ->
            event_from_pool ev'
            /\ GlobalEvent.remainingDays ev' = GlobalEvent.duration ev')).
Proof.
  intros Hg H. unfold eventLogic in H.
  destruct (ageEvent o) as [e|] eqn:Hage.
  - rewrite bool_decide_eq_true_2 in H by (eexists; reflexivity).
    cbn [negb] in H. rewrite andb_false_r in H. injection H as <- <-.
    split; [exists 0%nat; symmetry; apply advance_0|]. split.
    + intros ev -> Hrd. rewrite (ageEvent_goes_on ev Hrd) in Hage. symmetry. exact Hage.
    + intros Hends. rewrite (ageEvent_ends o Hends) in Hage. discriminate Hage.
  - rewrite bool_decide_eq_false_2 in H by (intros [x Hx]; discriminate Hx).
    cbn [negb] in H. rewrite andb_true_r in H.
    assert (Hno : forall ev, o = Some ev -> (1 < GlobalEvent.remainingDays ev)%Z ->
                    o' = Some (aged ev)).
    { intros ev -> Hrd. rewrite (ageEvent_goes_on ev Hrd) in Hage. discriminate Hage. }
    destruct (Z.leb_spec 10 nextCycleProgress) as [Hroll|Hroll].
    + rewrite (bind_eq _ _ _ _ _ (Math_random_eq g)) in H.
      destruct (Qltb 0.3 (stream g (cursor g))).
      * rewrite (bind_eq _ _ _ _ _ (Math_random_eq (advance 1 g))) in H.
        apply bind_Some in H as (t & g1 & Ht & H). apply defined_Some in Ht as [Ht ->].
        rewrite (bind_eq _ _ _ _ _ (Math_random_eq _)) in H. injection H as <- <-.
        split; [rewrite !advance_advance; eexists; reflexivity|].
        split; [exact Hno|]. intros _. split; [lia|].
        intros ev' [= <-]. split; [|reflexivity]. split.
        -- exists t. split; [exact (pool_entry _ _ Ht)|]. repeat split.
        -- cbn [GlobalEvent.duration].
           destruct (Hg (cursor (advance 1 (advance 1 g)))) as [Hlo Hhi].
           exact (duration_range _ Hlo Hhi).
      * injection H as <- <-. split; [exists 1%nat; reflexivity|].
        split; [exact Hno|]. intros _. split; [reflexivity | discriminate].
    + injection H as <- <-. split; [exists 0%nat; symmetry; apply advance_0|].
      split; [exact Hno|]. intros _. split; [reflexivity | discriminate].
Qed.

(** ** The production block, whenever it returns *)

Lemma catalog_yield (c : Commodity) :
  c ∈ COMMODITIES -> (0 < Commodity.productionYield c)%Z.
Proof.
  intros Hc. unfold COMMODITIES in Hc.
  repeat (apply elem_of_cons in Hc as [->|Hc]; [reflexivity|]).
  apply elem_of_nil in Hc. destruct Hc.
Qed.

Lemma creditYield_stocked (cid : string) (y : Z) (inv : list InventoryItem) :
  (0 <= y)%Z -> stocked inv -> stocked (creditYield cid y inv).
Proof.
  intros Hy Hinv. unfold creditYield.
  destruct (findIndex _ inv) as [i|]; [|exact Hinv].
  destruct (inv !! i) as [item|] eqn:Hi; [|exact Hinv].
  apply Forall_insert; [exact Hinv|]. cbn [InventoryItem.quantity].
  pose proof (proj1 (Forall_lookup _ _) Hinv i item Hi) as Hq. cbn in Hq. lia.
Qed.

Lemma produce_inv (h : bool) (acc acc1 : Production) (f : ProductionFacility) :
  produce h acc f = Some acc1 ->
  nextFacilities acc1 = nextFacilities acc ++ [advanceFacility h f]
  /\ nextInventory acc1
     = (if completes h f then
          match findCommodity (ProductionFacility.commodityId f) with
          | Some c => creditYield (ProductionFacility.commodityId f)
                        (Commodity.productionYield c) (nextInventory acc)
          | None => nextInventory acc
          end
        else nextInventory acc)
  /\ currentDayProductionCost acc1
     == currentDayProductionCost acc + (if h then 0 else facilityCost f).
Proof.
  unfold produce, completes, advanceFacility, facilityCost, ProductionPanel.opCost,
    ProductionPanel.currentDailyCost.
  destruct (ProductionFacility.isProducing f) eqn:Hprod, h; cbn [andb negb].
  - intros [= <-]. cbn. repeat split; try reflexivity. ring.
  - destruct (findCommodity _) as [c|]; [|discriminate]. cbn [mbind option_bind].
    intros [= <-]. cbn [nextFacilities nextInventory currentDayProductionCost].
    repeat split; reflexivity.
  - intros [= <-]. cbn. repeat split; try reflexivity. ring.
  - intros [= <-]. cbn [nextFacilities nextInventory currentDayProductionCost].
    repeat split; try reflexivity.
    destruct (findCommodity _); ring.
Qed.

Lemma forEach_produce_inv (h : bool) (fs : list ProductionFacility) :
  forall acc acc' : Production,
    forEachO (produce h) fs acc = Some acc' ->
    nextFacilities acc' = nextFacilities acc ++ map (advanceFacility h) fs
    /\ currentDayProductionCost acc'
       == currentDayProductionCost acc + (if h then 0 else operatingCosts fs)
    /\ map InventoryItem.commodityId (nextInventory acc')
       = map InventoryItem.commodityId (nextInventory acc)
    /\ (forall id : string,
          ownedItem id (nextInventory acc')
          = (fun item => InventoryItem.mk (InventoryItem.commodityId item)
                           (InventoryItem.quantity item + credits h id fs)%Z)
            <$> ownedItem id (nextInventory acc))
    /\ (h = true -> nextInventory acc' = nextInventory acc)
    /\ (stocked (nextInventory acc) -> stocked (nextInventory acc')).
Proof.
  induction fs as [|f fs IH]; intros acc acc' Hrun; cbn [forEachO] in Hrun.
  - injection Hrun as <-. rewrite app_nil_r.
    split; [reflexivity|]. split; [destruct h; cbn; ring|].
    split; [reflexivity|]. split; [intros id; symmetry; apply item_add_0|].
    split; [reflexivity | trivial].
  - destruct (produce h acc f) as [acc1|] eqn:Hstep; [|discriminate Hrun].
    destruct (produce_inv h acc acc1 f Hstep) as (Hfac1 & Hinv1 & Hcost1).
    destruct (IH acc1 acc' Hrun) as (Hfac & Hcost & Hids & Hown & Hsame & Hstock).
    split; [rewrite Hfac, Hfac1, <- app_assoc; reflexivity|].
    split.
    { rewrite Hcost, Hcost1. destruct h; cbn [operatingCosts foldr]; [ring|].
      fold (operatingCosts fs). ring. }
    split.
    { rewrite Hids, Hinv1. destruct (completes h f); [|reflexivity].
      destruct (findCommodity _); [apply creditYield_ids | reflexivity]. }
    split.
    { intros id. rewrite Hown, Hinv1. cbn [credits foldr]. fold (credits h id fs).
      unfold credit.
      destruct (completes h f); cbn [andb]; [|reflexivity].
      destruct (findCommodity (ProductionFacility.commodityId f)) as [c|].
      - destruct (String.eqb_spec (ProductionFacility.commodityId f) id) as [<-|Hne].
        + rewrite ownedItem_creditYield_same.
          destruct (ownedItem _ (nextInventory acc)) as [[cid q]|]; cbn; [|reflexivity].
          rewrite Z.add_assoc. reflexivity.
        + rewrite ownedItem_creditYield_other by exact Hne. reflexivity.
      - destruct (String.eqb _ id); reflexivity. }
    split.
    { intros ->. rewrite (Hsame eq_refl), Hinv1.
      unfold completes. rewrite andb_false_r. reflexivity. }
    intros Hacc. apply Hstock. rewrite Hinv1.
    destruct (completes h f); [|exact Hacc].
    destruct (findCommodity _) as [c|] eqn:Hc; [|exact Hacc].
    apply creditYield_stocked; [|exact Hacc].
    apply findCommodity_Some in Hc as [Hc _]. apply Z.lt_le_incl, catalog_yield, Hc.
Qed.

Lemma productionLogic_inv (h : bool) (prev : GameState) (production : Production) :
  productionLogic h prev = Some production ->
  production_spec h prev production
  /\ currentDayProductionCost production
     == (if h then 0 else operatingCosts (facilities prev))
  /\ (h = true -> nextInventory production = inventory prev)
  /\ (stocked (inventory prev) -> stocked (nextInventory production)).
Proof.
  unfold productionLogic. intros Hrun.
  destruct (forEach_produce_inv h _ _ _ Hrun) as (Hfac & Hcost & Hids & Hown & Hsame & Hst).
  cbn [nextFacilities nextInventory currentDayProductionCost] in *.
  split; [repeat split; assumption|].
  split; [rewrite Hcost; ring|]. split; assumption.
Qed.

(** ** The tick updater, whenever it returns *)

Lemma tickA_inv (app app' : AppA.App) (g g' : Rng) :
  AppA.tick app g = Some (app', g') ->
  exists nextPrices tax nextEvent production g1 g2,
    marketLogic (activeEvent (AppA.gameState app)) (prices (AppA.gameState app)) g
    = Some (nextPrices, g1)
    /\ AppA.taxLogic (AppA.gameState app) nextPrices g1 = Some (tax, g2)
    /\ eventLogic (activeEvent (AppA.gameState app))
         (cycleProgress (AppA.gameState app) + 1) g2 = Some (nextEvent, g')
    /\ productionLogic (Qleb (Tax.nextCash tax) 0) (AppA.gameState app)
       = Some production
    /\ app'
       = AppA.mkApp
           (tickState (AppA.gameState app) nextPrices tax nextEvent production
              (snd (ledgerRoll (AppA.refs app) (AppA.gameState app)
                      (currentDayProductionCost production)
                      (cycleProgress (AppA.gameState app) + 1)))
              (Tax.nextCash tax - currentDayProductionCost production))
           (AppA.isGameOver app) (AppA.isPaused app) (AppA.repayAmount app)
           (match Tax.taxBill tax with
            | Some bill => Some bill
            | None => AppA.lastTaxPaid app
            end)
           (fst (ledgerRoll (AppA.refs app) (AppA.gameState app)
                   (currentDayProductionCost production)
                   (cycleProgress (AppA.gameState app) + 1))).
Proof.
  unfold AppA.tick. intros H.
  apply bind_Some in H as (nextPrices & g1 & Hmarket & H).
  apply bind_Some in H as (tax & g2 & Htax & H).
  apply bind_Some in H as (nextEvent & g3 & Hevent & H).
  apply bind_Some in H as (production & g4 & Hprod & H).
  apply defined_Some in Hprod as [Hprod ->].
  exists nextPrices, tax, nextEvent, production, g1, g2.
  destruct (ledgerRoll _ _ _ _) as [refs' finalLedger].
  injection H as <- <-. repeat split; assumption.
Qed.

Lemma tickB_inv (app app' : AppB.App) (g g' : Rng) :
  AppB.tick app g = Some (app', g') ->
  exists nextPrices tax nextEvent production g1 g2,
    AppB.taxLogic (AppB.gameState app) g = Some (tax, g1)
    /\ eventLogic (activeEvent (AppB.gameState app))
         (cycleProgress (AppB.gameState app) + 1) g1 = Some (nextEvent, g2)
    /\ marketLogic nextEvent (prices (AppB.gameState app)) g2 = Some (nextPrices, g')
    /\ productionLogic (Qleb (Tax.nextCash tax) 0) (AppB.gameState app)
       = Some production
    /\ app'
       = AppB.mkApp
           (tickState (AppB.gameState app) nextPrices tax nextEvent production
              (snd (ledgerRoll (AppB.refs app) (AppB.gameState app)
                      (currentDayProductionCost production)
                      (cycleProgress (AppB.gameState app) + 1)))
              (Math.max 0 (Tax.nextCash tax - currentDayProductionCost production)))
           (AppB.isGameOver app) (AppB.repayAmount app)
           (match Tax.taxBill tax with
            | Some _ => true
            | None => AppB.showTaxAlert app
            end)
           (fst (ledgerRoll (AppB.refs app) (AppB.gameState app)
                   (currentDayProductionCost production)
                   (cycleProgress (AppB.gameState app) + 1))).
Proof.
  unfold AppB.tick. intros H.
  apply bind_Some in H as (tax & g1 & Htax & H).
  apply bind_Some in H as (nextEvent & g2 & Hevent & H).
  apply bind_Some in H as (nextPrices & g3 & Hmarket & H).
  apply bind_Some in H as (production & g4 & Hprod & H).
  apply defined_Some in Hprod as [Hprod ->].
  exists nextPrices, tax, nextEvent, production, g1, g2.
  destruct (ledgerRoll _ _ _ _) as [refs' finalLedger].
  injection H as <- <-. repeat split; assumption.
Qed.

Lemma taxLogicA_advances (prev : GameState) (P : gmap string MarketPrice)
    (g g' : Rng) (tax : Tax.t) :
  AppA.taxLogic prev P g = Some (tax, g') -> exists k, g' = advance k g.
Proof.
  intros H. apply taxLogicA_inv in H as [(_ & _ & ->)|(_ & iv & fv & _ & _ & _ & ->)].
  - exists 0%nat. symmetry. apply advance_0.
  - exists 1%nat. reflexivity.
Qed.

Lemma taxLogicB_advances (prev : GameState) (g g' : Rng) (tax : Tax.t) :
  AppB.taxLogic prev g = Some (tax, g') -> exists k, g' = advance k g.
Proof.
  intros H. apply taxLogicB_inv in H as [(_ & _ & ->)|(_ & _ & ->)].
  - exists 0%nat. symmetry. apply advance_0.
  - exists 1%nat. reflexivity.
Qed.

(** The blocks of a tick of version A run on valid random sources. *)
Lemma tickA_sources (app : AppA.App) (nextPrices : gmap string MarketPrice)
    (tax : Tax.t) (nextEvent : option GlobalEvent) (g g1 g2 g' : Rng) :
  valid_rng g ->
  marketLogic (activeEvent (AppA.gameState app)) (prices (AppA.gameState app)) g
  = Some (nextPrices, g1) ->
  AppA.taxLogic (AppA.gameState app) nextPrices g1 = Some (tax, g2) ->
  eventLogic (activeEvent (AppA.gameState app))
    (cycleProgress (AppA.gameState app) + 1) g2 = Some (nextEvent, g') ->
  valid_rng g1 /\ valid_rng g2 /\ exists k, g' = advance k g.
Proof.
  intros Hg Hmarket Htax Hevent.
  apply marketLogic_inv in Hmarket as [_ ->].
  apply taxLogicA_advances in Htax as [k1 ->].
  assert (Hg2 : valid_rng (advance k1 (advance (length COMMODITIES) g))).
  { do 2 apply valid_rng_advance. exact Hg. }
  destruct (eventLogic_inv _ _ _ _ _ Hg2 Hevent) as ([k2 ->] & _).
  split; [apply valid_rng_advance; exact Hg|]. split; [exact Hg2|].
  rewrite !advance_advance. eexists. reflexivity.
Qed.

Lemma tickB_sources (app : AppB.App) (nextPrices : gmap string MarketPrice)
    (tax : Tax.t) (nextEvent : option GlobalEvent) (g g1 g2 g' : Rng) :
  valid_rng g ->
  AppB.taxLogic (AppB.gameState app) g = Some (tax, g1) ->
  eventLogic (activeEvent (AppB.gameState app))
    (cycleProgress (AppB.gameState app) + 1) g1 = Some (nextEvent, g2) ->
  marketLogic nextEvent (prices (AppB.gameState app)) g2 = Some (nextPrices, g') ->
  valid_rng g1 /\ valid_rng g2 /\ exists k, g' = advance k g.
Proof.
  intros Hg Htax Hevent Hmarket.
  apply taxLogicB_advances in Htax as [k1 ->].
  assert (Hg1 : valid_rng (advance k1 g)) by (apply valid_rng_advance; exact Hg).
  destruct (eventLogic_inv _ _ _ _ _ Hg1 Hevent) as ([k2 ->] & _).
  apply marketLogic_inv in Hmarket as [_ ->].
  split; [exact Hg1|]. split; [apply valid_rng_advance; exact Hg1|].
  rewrite !advance_advance. eexists. reflexivity.
Qed.

Lemma tickA_advances (app app' : AppA.App) (g g' : Rng) :
  valid_rng g -> AppA.tick app g = Some (app', g') -> valid_rng g'.
Proof.
  intros Hg H.
  apply tickA_inv in H as (P & tax & ev & pr & g1 & g2 & Hm & Ht & He & _).
  destruct (tickA_sources _ _ _ _ _ _ _ _ Hg Hm Ht He) as (_ & _ & k & ->).
  apply valid_rng_advance. exact Hg.
Qed.

Lemma tickB_advances (app app' : AppB.App) (g g' : Rng) :
  valid_rng g -> AppB.tick app g = Some (app', g') -> valid_rng g'.
Proof.
  intros Hg H.
  apply tickB_inv in H as (P & tax & ev & pr & g1 & g2 & Ht & He & Hm & _).
  destruct (tickB_sources _ _ _ _ _ _ _ _ Hg Ht He Hm) as (_ & _ & k & ->).
  apply valid_rng_advance. exact Hg.
Qed.

(** ** Invariants of a session *)

Section Invariants.

Context {App : Type} (tick : App -> M App) (act : App -> App -> Prop).
Context (V : Rng -> Prop) (Inv : nat -> App -> Prop).

Hypothesis tick_advances :
  forall app app' g g', V g -> tick app g = Some (app', g') -> V g'.

Hypothesis tick_keeps :
  forall k app app' g g', V g -> Inv k app ->
    tick app g = Some (app', g') -> Inv (S k) app'.

Hypothesis act_keeps :
  forall k app app', act app app' -> Inv k app -> Inv k app'.

(** An invariant counted in ticks holds at the end of a session whose
    random source satisfies [V]. *)
Lemma run_invariant (n : nat) (app app' : App) (g g' : Rng) :
  run tick act n app g app' g' ->
  V g -> forall k, Inv k app -> Inv (k + n)%nat app'.
Proof.
  induction 1 as [app g|n app app1 app' g g1 g' Htick _ IH|n app app1 app' g g' Hact _ IH];
    intros Hg k Hinv.
  - rewrite Nat.add_0_r. exact Hinv.
  - replace (k + S n)%nat with (S k + n)%nat by lia.
    apply IH; [exact (tick_advances _ _ _ _ Hg Htick)|].
    exact (tick_keeps _ _ _ _ _ Hg Hinv Htick).
  - apply IH; [exact Hg|]. exact (act_keeps _ _ _ Hact Hinv).
Qed.

End Invariants.

(** The same for a property that does not count the ticks. *)
Lemma run_keeps {App : Type} (tick : App -> M App) (act : App -> App -> Prop)
    (V : Rng -> Prop) (P : App -> Prop) :
  (forall app app' g g', V g -> tick app g = Some (app', g') -> V g') ->
  (forall app app' g g', V g -> P app -> tick app g = Some (app', g') -> P app') ->
  (forall app app', act app app' -> P app -> P app') ->
  forall (n : nat) (app app' : App) (g g' : Rng),
    run tick act n app g app' g' -> V g -> P app -> P app'.
Proof.
  intros Hadv Htick Hact n app app' g g' Hrun Hg HP.
  exact (run_invariant tick act V (fun _ => P) Hadv
           (fun _ => Htick) (fun _ => Hact) n app app' g g' Hrun Hg 0%nat HP).
Qed.

(** A property every tick establishes and every action keeps holds at
    the end of a session that contains a tick. *)
Lemma run_established {App : Type} (tick : App -> M App) (act : App -> App -> Prop)
    (P : App -> Prop) :
  (forall app app' g g', tick app g = Some (app', g') -> P app') ->
  (forall app app', act app app' -> P app -> P app') ->
  forall (n : nat) (app app' : App) (g g' : Rng),
    run tick act (S n) app g app' g' -> P app'.
Proof.
  intros Htick Hact n app app' g g' Hrun.
  apply (run_invariant tick act (fun _ => True)
           (fun k a => k <> 0%nat -> P a)
           (fun _ _ _ _ _ _ => I)
           (fun k a a' g0 g1 _ _ Ht _ => Htick a a' g0 g1 Ht)
           (fun k a a' Ha Hk Hne => Hact a a' Ha (Hk Hne))
           (S n) app app' g g' Hrun I 0%nat).
  - intros Hne. destruct (Hne eq_refl).
  - discriminate.
Qed.

(** ** What no action touches *)

Lemma same_clock_refl (s : GameState) : same_clock s s.
Proof. repeat split. Qed.

Lemma tradeUpdater_clock (id : string) (quantity : Z) (s s' : GameState)
    (refs refs' : CycleRefs) :
  tradeUpdater id quantity s refs = Some (s', refs') -> same_clock s s'.
Proof.
  unfold tradeUpdater. destruct (prices s !! id) as [price|]; [|discriminate]. cbn.
  destruct ((0 <? quantity)%Z && _); [intros [= <- _]; apply same_clock_refl|].
  destruct ((quantity <? 0)%Z && _); intros [= <- _]; repeat split.
Qed.

Lemma unlockUpdater_clock (id : string) (cost : Q) (s : GameState) :
  same_clock s (unlockUpdater id cost s).
Proof. unfold unlockUpdater. destruct (_ || _); repeat split. Qed.

Lemma upgradeUpdater_clock (id : string) (s s' : GameState) :
  upgradeUpdater id s = Some s' -> same_clock s s'.
Proof.
  unfold upgradeUpdater. destruct (facilityOf _ _); [|intros [= <-]; repeat split].
  destruct (findCommodity id); [|discriminate]. cbn [mbind option_bind].
  destruct (Qltb _ _); intros [= <-]; repeat split.
Qed.

Lemma sellUpdater_clock (id : string) (s s' : GameState) :
  AppA.sellUpdater id s = Some s' -> same_clock s s'.
Proof.
  unfold AppA.sellUpdater. destruct (facilityOf _ _); [|intros [= <-]; repeat split].
  destruct (findCommodity id); [|discriminate]. cbn [mbind option_bind].
  intros [= <-]; repeat split.
Qed.

Lemma quietA_clock (app app' : AppA.App) :
  quietA app app' -> same_clock (AppA.gameState app) (AppA.gameState app').
Proof.
  intros [id quantity app1 H|id app1 H|id app1 H|id app1 H|id|amount| |app1 H].
  - unfold AppA.handleTrade in H.
    destruct (_ || _); [injection H as <-; apply same_clock_refl|].
    destruct (tradeUpdater _ _ _ _) as [[s r]|] eqn:Hrun; [|discriminate H].
    injection H as <-. exact (tradeUpdater_clock _ _ _ _ _ _ Hrun).
  - unfold AppA.handleUnlockFacility in H.
    destruct (AppA.isPaused app); [injection H as <-; apply same_clock_refl|].
    destruct (findCommodity id); [|discriminate H].
    injection H as <-. apply unlockUpdater_clock.
  - unfold AppA.handleUpgradeFacility in H.
    destruct (AppA.isPaused app); [injection H as <-; apply same_clock_refl|].
    destruct (upgradeUpdater _ _) as [s|] eqn:Hrun; [|discriminate H].
    injection H as <-. exact (upgradeUpdater_clock _ _ _ Hrun).
  - unfold AppA.handleSellFacility in H.
    destruct (AppA.isPaused app); [injection H as <-; apply same_clock_refl|].
    destruct (AppA.sellUpdater _ _) as [s|] eqn:Hrun; [|discriminate H].
    injection H as <-. exact (sellUpdater_clock _ _ _ Hrun).
  - unfold AppA.handleToggleProduction.
    destruct (AppA.isPaused app); repeat split.
  - repeat split.
  - repeat split.
  - unfold AppA.solvencyEffect in H.
    destruct (AppA.netEquity _); [|discriminate H]. cbn in H.
    destruct (_ && _); injection H as <-; repeat split.
Qed.

Lemma anyA_clock (app app' : AppA.App) :
  anyA app app' -> same_clock (AppA.gameState app) (AppA.gameState app').
Proof.
  intros [app1 H|amount|].
  - apply quietA_clock, H.
  - unfold AppA.takeLoan. destruct (_ || _); repeat split.
  - unfold AppA.handleRepay. destruct (AppA.isPaused app); repeat split.
Qed.

Lemma quietB_clock (app app' : AppB.App) :
  quietB app app' -> same_clock (AppB.gameState app) (AppB.gameState app').
Proof.
  intros [id quantity app1 H|id app1 H|id app1 H|id|amount|app1 H].
  - unfold AppB.handleTrade in H.
    destruct (AppB.isGameOver app); [injection H as <-; apply same_clock_refl|].
    destruct (tradeUpdater _ _ _ _) as [[s r]|] eqn:Hrun; [|discriminate H].
    injection H as <-. exact (tradeUpdater_clock _ _ _ _ _ _ Hrun).
  - unfold AppB.handleUnlockFacility in H.
    destruct (findCommodity id); [|discriminate H].
    injection H as <-. apply unlockUpdater_clock.
  - unfold AppB.handleUpgradeFacility in H.
    destruct (upgradeUpdater _ _) as [s|] eqn:Hrun; [|discriminate H].
    injection H as <-. exact (upgradeUpdater_clock _ _ _ Hrun).
  - repeat split.
  - repeat split.
  - unfold AppB.solvencyEffect in H.
    destruct (AppB.netEquity _); [|discriminate H]. cbn in H.
    destruct (_ && _); injection H as <-; repeat split.
Qed.

Lemma anyB_clock (app app' : AppB.App) :
  anyB app app' -> same_clock (AppB.gameState app) (AppB.gameState app').
Proof.
  intros [app1 H|amount|]; [apply quietB_clock, H | repeat split | repeat split].
Qed.

(** ** The market block: history, displayed change and trend *)

Lemma market_spec_entry (cs : list Commodity) (ev : option GlobalEvent)
    (P P' : gmap string MarketPrice) (g : Rng) (c : Commodity) :
  market_spec cs ev P P' g -> c ∈ cs ->
  exists price r, P !! Commodity.id c = Some price
    /\ P' !! Commodity.id c = Some (repriced ev c r price).
Proof.
  intros [Hspec _] Hc. apply list_elem_of_lookup_1 in Hc as [i Hi].
  destruct (Hspec i c Hi) as (price & HP & HP'). eexists _, _. split; eassumption.
Qed.

Lemma sliceLast_snoc {A : Type} (h : list A) (x : A) :
  sliceLast 20 (h ++ [x]) = drop (length h - 19) h ++ [x].
Proof.
  unfold sliceLast. rewrite length_app. cbn [length].
  replace (length h + 1 - 20)%nat with (length h - 19)%nat by lia.
  apply drop_app_le. lia.
Qed.

Lemma tickA_market (app app' : AppA.App) (g g' : Rng) :
  AppA.tick app g = Some (app', g') ->
  exists ev g0,
    market_spec COMMODITIES ev (prices (AppA.gameState app))
      (prices (AppA.gameState app')) g0.
Proof.
  intros H. apply tickA_inv in H as (P & tax & ev & pr & g1 & g2 & Hm & _ & _ & _ & ->).
  apply marketLogic_inv in Hm as [Hm _]. eexists _, _. exact Hm.
Qed.

Lemma tickB_market (app app' : AppB.App) (g g' : Rng) :
  AppB.tick app g = Some (app', g') ->
  exists ev g0,
    market_spec COMMODITIES ev (prices (AppB.gameState app))
      (prices (AppB.gameState app')) g0.
Proof.
  intros H. apply tickB_inv in H as (P & tax & ev & pr & g1 & g2 & _ & _ & Hm & _ & ->).
  apply marketLogic_inv in Hm as [Hm _]. eexists _, _. exact Hm.
Qed.

Lemma market_spec_history (ev : option GlobalEvent) (g : Rng) (s s' : GameState) :
  market_spec COMMODITIES ev (prices s) (prices s') g -> history_rolls s s'.
Proof.
  intros Hspec c Hc.
  destruct (market_spec_entry _ _ _ _ _ c Hspec Hc) as (price & r & HP & HP').
  exists price, (repriced ev c r price). split; [exact HP|]. split; [exact HP'|].
  unfold repriced. cbn [MarketPrice.history MarketPrice.currentPrice].
  rewrite sliceLast_snoc. split; [reflexivity|].
  rewrite length_app, length_drop. cbn [length]. lia.
Qed.

Lemma priceChange_repriced (ev : option GlobalEvent) (c : Commodity) (r : Q)
    (price : MarketPrice) :
  last (MarketPrice.history price) = Some (MarketPrice.currentPrice price) ->
  CommodityCard.priceChange (repriced ev c r price)
  = Number.toFixed
      (percentChange (MarketPrice.currentPrice (repriced ev c r price))
                     (MarketPrice.currentPrice price)) 2.
Proof.
  intros Hlast. unfold CommodityCard.priceChange, repriced, percentChange.
  cbn [MarketPrice.history MarketPrice.currentPrice].
  rewrite sliceLast_snoc.
  set (h := MarketPrice.history price) in *.
  set (np := newPrice c ev (MarketPrice.currentPrice price) r).
  assert (Hlen : (1 <= length h)%nat).
  { destruct h; [discriminate Hlast | cbn; lia]. }
  rewrite last_lookup in Hlast.
  assert (Hlookup : (drop (length h - 19) h ++ [np])
                    !! (length (drop (length h - 19) h ++ [np]) - 2)%nat
                    = Some (MarketPrice.currentPrice price)).
  { rewrite length_app, length_drop. cbn [length].
    rewrite lookup_app_l by (rewrite length_drop; lia).
    rewrite lookup_drop. rewrite <- Hlast. f_equal. lia. }
  rewrite Hlookup. cbn [Number.ofEntry].
  destruct (Nat.ltb_spec 1 (length (drop (length h - 19) h ++ [np]))) as [_|Hshort];
    [reflexivity|].
  rewrite length_app, length_drop in Hshort. cbn [length] in Hshort. lia.
Qed.

Lemma market_spec_shows (ev : option GlobalEvent) (g : Rng) (s s' : GameState) :
  history_tracks s ->
  market_spec COMMODITIES ev (prices s) (prices s') g ->
  shows_change s s' /\ history_tracks s'.
Proof.
  intros Htracks Hspec. split; intros c Hc.
  - destruct (market_spec_entry _ _ _ _ _ c Hspec Hc) as (price & r & HP & HP').
    destruct (Htracks c Hc) as (price0 & HP0 & Hlast).
    rewrite HP in HP0. injection HP0 as <-.
    exists price, (repriced ev c r price). split; [exact HP|]. split; [exact HP'|].
    apply priceChange_repriced, Hlast.
  - destruct (market_spec_entry _ _ _ _ _ c Hspec Hc) as (price & r & HP & HP').
    exists (repriced ev c r price). split; [exact HP'|].
    unfold repriced. cbn [MarketPrice.history MarketPrice.currentPrice].
    rewrite sliceLast_snoc. apply last_snoc.
Qed.

Lemma history_tracks_initial (rate : Q) : history_tracks (initialGameState rate).
Proof.
  intros c Hc. unfold COMMODITIES in Hc.
  repeat (apply elem_of_cons in Hc as [->|Hc];
          [eexists; split; [vm_compute; reflexivity | reflexivity]|]).
  apply elem_of_nil in Hc. destruct Hc.
Qed.

Lemma market_spec_trend (ev : option GlobalEvent) (g : Rng) (s s' : GameState) :
  market_spec COMMODITIES ev (prices s) (prices s') g ->
  trend_follows s s' /\ no_stable_trend s'.
Proof.
  intros Hspec. split; intros c Hc;
    destruct (market_spec_entry _ _ _ _ _ c Hspec Hc) as (price & r & HP & HP').
  - exists price, (repriced ev c r price). split; [exact HP|]. split; [exact HP'|].
    reflexivity.
  - exists (repriced ev c r price). split; [exact HP'|].
    unfold repriced. cbn [MarketPrice.trend]. destruct (Qltb _ _); discriminate.
Qed.

(** ** The event block and the calendar in a tick *)

Lemma tickA_event (app app' : AppA.App) (g g' : Rng) :
  valid_rng g -> AppA.tick app g = Some (app', g') ->
  exists g2, valid_rng g2
    /\ eventLogic (activeEvent (AppA.gameState app))
         (cycleProgress (AppA.gameState app) + 1) g2
       = Some (activeEvent (AppA.gameState app'), g').
Proof.
  intros Hg H.
  apply tickA_inv in H as (P & tax & ev & pr & g1 & g2 & Hm & Ht & He & _ & ->).
  destruct (tickA_sources _ _ _ _ _ _ _ _ Hg Hm Ht He) as (_ & Hg2 & _).
  exists g2. split; [exact Hg2 | exact He].
Qed.

Lemma tickB_event (app app' : AppB.App) (g g' : Rng) :
  valid_rng g -> AppB.tick app g = Some (app', g') ->
  exists g1 g2, valid_rng g1
    /\ eventLogic (activeEvent (AppB.gameState app))
         (cycleProgress (AppB.gameState app) + 1) g1
       = Some (activeEvent (AppB.gameState app'), g2).
Proof.
  intros Hg H.
  apply tickB_inv in H as (P & tax & ev & pr & g1 & g2 & Ht & He & Hm & _ & ->).
  destruct (tickB_sources _ _ _ _ _ _ _ _ Hg Ht He Hm) as (Hg1 & _ & _).
  exists g1, g2. split; [exact Hg1 | exact He].
Qed.

Lemma eventLogic_lifecycle (s s' : GameState) (g g' : Rng) :
  valid_rng g ->
  eventLogic (activeEvent s) (cycleProgress s + 1) g = Some (activeEvent s', g') ->
  event_lifecycle s s'.
Proof.
  intros Hg H. destruct (eventLogic_inv _ _ _ _ _ Hg H) as (_ & Hon & Hend).
  split; [exact Hon | exact Hend].
Qed.

Lemma eventLogic_ok (s s' : GameState) (g g' : Rng) :
  valid_rng g ->
  eventLogic (activeEvent s) (cycleProgress s + 1) g = Some (activeEvent s', g') ->
  event_ok s -> event_ok s'.
Proof.
  intros Hg H Hok ev' Hev'.
  destruct (eventLogic_inv _ _ _ _ _ Hg H) as (_ & Hon & Hend).
  destruct (activeEvent s) as [ev|] eqn:Hev.
  - destruct (Hok ev Hev) as ((Hpool & Hdur) & Hrd).
    destruct (Z.lt_ge_cases 1 (GlobalEvent.remainingDays ev)) as [Hmore|Hlast].
    + rewrite (Hon ev eq_refl Hmore) in Hev'. injection Hev' as <-.
      unfold aged. cbn. split; [split; [exact Hpool | exact Hdur] | lia].
    + destruct Hend as [_ Hnew]; [intros ev0 [= <-]; exact Hlast|].
      destruct (Hnew ev' Hev') as ((Hpool' & Hdur') & Hrd').
      split; [split; assumption | lia].
  - destruct Hend as [_ Hnew]; [intros ev0 [=]|].
    destruct (Hnew ev' Hev') as ((Hpool' & Hdur') & Hrd').
    split; [split; assumption | lia].
Qed.

Lemma tickA_event_ok (app app' : AppA.App) (g g' : Rng) :
  valid_rng g -> event_ok (AppA.gameState app) ->
  AppA.tick app g = Some (app', g') -> event_ok (AppA.gameState app').
Proof.
  intros Hg Hok H. destruct (tickA_event _ _ _ _ Hg H) as (g2 & Hg2 & He).
  exact (eventLogic_ok _ _ _ _ Hg2 He Hok).
Qed.

Lemma tickB_event_ok (app app' : AppB.App) (g g' : Rng) :
  valid_rng g -> event_ok (AppB.gameState app) ->
  AppB.tick app g = Some (app', g') -> event_ok (AppB.gameState app').
Proof.
  intros Hg Hok H. destruct (tickB_event _ _ _ _ Hg H) as (g1 & g2 & Hg1 & He).
  exact (eventLogic_ok _ _ _ _ Hg1 He Hok).
Qed.

Lemma same_clock_event_ok (s s' : GameState) :
  same_clock s s' -> event_ok s -> event_ok s'.
Proof. intros (_ & _ & Hev & _) Hok. unfold event_ok. rewrite Hev. exact Hok. Qed.

Lemma tickA_calendar (app app' : AppA.App) (g g' : Rng) :
  AppA.tick app g = Some (app', g') ->
  day (AppA.gameState app') = (day (AppA.gameState app) + 1)%Z
  /\ cycleProgress (AppA.gameState app')
     = (if (10 <=? cycleProgress (AppA.gameState app) + 1)%Z then 0%Z
        else (cycleProgress (AppA.gameState app) + 1)%Z)
  /\ nextTaxDay (AppA.gameState app')
     = (if (nextTaxDay (AppA.gameState app) <=? day (AppA.gameState app) + 1)%Z
        then (nextTaxDay (AppA.gameState app) + TAX_CYCLE)%Z
        else nextTaxDay (AppA.gameState app)).
Proof.
  intros H.
  apply tickA_inv in H as (P & tax & ev & pr & g1 & g2 & _ & Ht & _ & _ & ->).
  cbn [AppA.gameState tickState day cycleProgress nextTaxDay].
  split; [reflexivity|]. split; [reflexivity|].
  apply taxLogicA_inv in Ht as [(Hnot & -> & _)|(Hdue & iv & fv & _ & _ & -> & _)];
    cbn [Tax.nextTaxDay].
  - destruct (Z.leb_spec (nextTaxDay (AppA.gameState app))
                (day (AppA.gameState app) + 1)); [lia | reflexivity].
  - destruct (Z.leb_spec (nextTaxDay (AppA.gameState app))
                (day (AppA.gameState app) + 1)); [reflexivity | lia].
Qed.

Lemma tickB_calendar (app app' : AppB.App) (g g' : Rng) :
  AppB.tick app g = Some (app', g') ->
  day (AppB.gameState app') = (day (AppB.gameState app) + 1)%Z
  /\ cycleProgress (AppB.gameState app')
     = (if (10 <=? cycleProgress (AppB.gameState app) + 1)%Z then 0%Z
        else (cycleProgress (AppB.gameState app) + 1)%Z)
  /\ nextTaxDay (AppB.gameState app')
     = (if (nextTaxDay (AppB.gameState app) <=? day (AppB.gameState app) + 1)%Z
        then (nextTaxDay (AppB.gameState app) + TAX_CYCLE)%Z
        else nextTaxDay (AppB.gameState app)).
Proof.
  intros H.
  apply tickB_inv in H as (P & tax & ev & pr & g1 & g2 & Ht & _ & _ & _ & ->).
  cbn [AppB.gameState tickState day cycleProgress nextTaxDay].
  split; [reflexivity|]. split; [reflexivity|].
  apply taxLogicB_inv in Ht as [(Hnot & -> & _)|(Hdue & -> & _)];
    cbn [Tax.nextTaxDay].
  - destruct (Z.leb_spec (nextTaxDay (AppB.gameState app))
                (day (AppB.gameState app) + 1)); [lia | reflexivity].
  - destruct (Z.leb_spec (nextTaxDay (AppB.gameState app))
                (day (AppB.gameState app) + 1)); [reflexivity | lia].
Qed.

(** One more day: the counters after the step described by
    [tickA_calendar]. *)
Lemma days_later_step (k : nat) (s0 s s' : GameState) :
  days_later k s0 s ->
  day s' = (day s + 1)%Z ->
  cycleProgress s'
  = (if (10 <=? cycleProgress s + 1)%Z then 0%Z else (cycleProgress s + 1)%Z) ->
  nextTaxDay s'
  = (if (nextTaxDay s <=? day s + 1)%Z then (nextTaxDay s + TAX_CYCLE)%Z
     else nextTaxDay s) ->
  days_later (S k) s0 s'.
Proof.
  intros (Hday & Hcp & Hcal) Hday' Hcp' Hntd'. unfold days_later.
  rewrite Nat2Z.inj_succ. split; [lia|]. split.
  - intros H0. specialize (Hcp H0). rewrite Hcp', Hcp.
    destruct (Z.leb_spec 10 ((cycleProgress s0 + Z.of_nat k) mod 10 + 1)).
    + apply Z.mod_unique with ((cycleProgress s0 + Z.of_nat k) / 10 + 1)%Z.
      * left. lia.
      * pose proof (Z.div_mod (cycleProgress s0 + Z.of_nat k) 10).
        pose proof (Z.mod_pos_bound (cycleProgress s0 + Z.of_nat k) 10). lia.
    + apply Z.mod_unique with ((cycleProgress s0 + Z.of_nat k) / 10)%Z.
      * left. pose proof (Z.mod_pos_bound (cycleProgress s0 + Z.of_nat k) 10). lia.
      * pose proof (Z.div_mod (cycleProgress s0 + Z.of_nat k) 10). lia.
  - intros H0. specialize (Hcal H0). unfold tax_calendar, TAX_CYCLE in *.
    rewrite Hntd', Hday'.
    pose proof (Z.div_mod (day s) 30) as Hd.
    pose proof (Z.mod_pos_bound (day s) 30) as Hm.
    destruct (Z.leb_spec (nextTaxDay s) (day s + 1)) as [Hdue|Hnot].
    + assert (Hq : ((day s + 1) / 30 = day s / 30 + 1)%Z).
      { symmetry. apply Z.div_unique with 0%Z; lia. }
      rewrite Hq. lia.
    + assert (Hq : ((day s + 1) / 30 = day s / 30)%Z).
      { symmetry. apply Z.div_unique with (day s mod 30 + 1)%Z; lia. }
      rewrite Hq. lia.
Qed.

Lemma days_later_start (s : GameState) : days_later 0 s s.
Proof.
  unfold days_later. cbn [Z.of_nat]. rewrite !Z.add_0_r.
  split; [reflexivity|]. split; [|trivial].
  intros H. symmetry. apply Z.mod_small. exact H.
Qed.

Lemma days_later_same_clock (k : nat) (s0 s s' : GameState) :
  same_clock s s' -> days_later k s0 s -> days_later k s0 s'.
Proof.
  intros (Hday & Hcp & _ & _ & Hntd & _) (H1 & H2 & H3). unfold days_later, tax_calendar in *.
  rewrite Hday, Hcp, Hntd. repeat split; assumption.
Qed.

(** ** Properties of the market, the event and the calendar *)

(** X1.  A tick appends the new price of every catalog commodity to its
    history and keeps the last 20 entries: the new history is the old
    one without its oldest entry when it had 20 (or more), followed by
    the new current price, so its length is min(20, old length + 1).
    In both versions. *)
Theorem price_history_rolls (appA : AppA.App) (appB : AppB.App) (g : Rng) :
  wf (AppA.gameState appA) -> wf (AppB.gameState appB) -> valid_rng g ->
  (exists app' g', AppA.tick appA g = Some (app', g')
                   /\ history_rolls (AppA.gameState appA) (AppA.gameState app'))
  /\ (exists app' g', AppB.tick appB g = Some (app', g')
                      /\ history_rolls (AppB.gameState appB) (AppB.gameState app')).
Proof.
  intros HwfA HwfB Hg. split.
  - destruct (tickA_step appA g HwfA Hg) as (app' & g' & Htick & _).
    exists app', g'. split; [exact Htick|].
    destruct (tickA_market _ _ _ _ Htick) as (ev & g0 & Hspec).
    exact (market_spec_history ev g0 _ _ Hspec).
  - destruct (tickB_step appB g HwfB Hg) as (app' & g' & Htick & _).
    exists app', g'. split; [exact Htick|].
    destruct (tickB_market _ _ _ _ Htick) as (ev & g0 & Hspec).
    exact (market_spec_history ev g0 _ _ Hspec).
Qed.

Lemma price_history_rolls_witness :
  (exists app' g', AppA.tick AppA.initialApp (constantRng 0.5) = Some (app', g')
     /\ history_rolls (AppA.gameState AppA.initialApp) (AppA.gameState app'))
  /\ (exists app' g', AppB.tick AppB.initialApp (constantRng 0.5) = Some (app', g')
        /\ history_rolls (AppB.gameState AppB.initialApp) (AppB.gameState app')).
Proof.
  apply (price_history_rolls AppA.initialApp AppB.initialApp (constantRng 0.5)).
  - apply wf_initial.
  - apply wf_initial.
  - apply constantRng_valid; lra.
Defined.

(** X2.  When the history of every catalog price ends with the current
    price, as it does in the initial state, then after a tick the card
    of every catalog commodity shows the change of the price over that
    tick, [(new - old) / old * 100] with two decimals, and the histories
    end with the current prices again.  In both versions. *)
Theorem card_shows_change_of_last_tick (appA : AppA.App) (appB : AppB.App) (g : Rng) :
  wf (AppA.gameState appA) -> wf (AppB.gameState appB) -> valid_rng g ->
  history_tracks (AppA.gameState appA) -> history_tracks (AppB.gameState appB) ->
  (exists app' g', AppA.tick appA g = Some (app', g')
     /\ shows_change (AppA.gameState appA) (AppA.gameState app')
     /\ history_tracks (AppA.gameState app'))
  /\ (exists app' g', AppB.tick appB g = Some (app', g')
        /\ shows_change (AppB.gameState appB) (AppB.gameState app')
        /\ history_tracks (AppB.gameState app')).
Proof.
  intros HwfA HwfB Hg HtA HtB. split.
  - destruct (tickA_step appA g HwfA Hg) as (app' & g' & Htick & _).
    exists app', g'. split; [exact Htick|].
    destruct (tickA_market _ _ _ _ Htick) as (ev & g0 & Hspec).
    exact (market_spec_shows ev g0 _ _ HtA Hspec).
  - destruct (tickB_step appB g HwfB Hg) as (app' & g' & Htick & _).
    exists app', g'. split; [exact Htick|].
    destruct (tickB_market _ _ _ _ Htick) as (ev & g0 & Hspec).
    exact (market_spec_shows ev g0 _ _ HtB Hspec).
Qed.

Lemma card_shows_change_of_last_tick_witness :
  (exists app' g', AppA.tick AppA.initialApp (constantRng 0.5) = Some (app', g')
     /\ shows_change (AppA.gameState AppA.initialApp) (AppA.gameState app')
     /\ history_tracks (AppA.gameState app'))
  /\ (exists app' g', AppB.tick AppB.initialApp (constantRng 0.5) = Some (app', g')
        /\ shows_change (AppB.gameState AppB.initialApp) (AppB.gameState app')
        /\ history_tracks (AppB.gameState app')).
Proof.
  apply (card_shows_change_of_last_tick AppA.initialApp AppB.initialApp
           (constantRng 0.5)).
  - apply wf_initial.
  - apply wf_initial.
  - apply constantRng_valid; lra.
  - apply history_tracks_initial.
  - apply history_tracks_initial.
Defined.

(** X3.  After a tick the trend of every catalog price is [up] when
    the price rose over the tick and [down] otherwise, also when the
    price did not move; so from the first tick on no catalog commodity
    is shown as [stable] again, whatever the player does.  In both
    versions. *)
Theorem trend_is_never_stable_again (n : nat) (g : Rng)
    (appA : AppA.App) (appB : AppB.App) :
  valid_rng g -> wf (AppA.gameState appA) -> wf (AppB.gameState appB) ->
  (exists app' g', AppA.tick appA g = Some (app', g')
     /\ trend_follows (AppA.gameState appA) (AppA.gameState app'))
  /\ (exists app' g', AppB.tick appB g = Some (app', g')
        /\ trend_follows (AppB.gameState appB) (AppB.gameState app'))
  /\ (forall anyApp anyG app' g',
        run AppA.tick anyA (S n) anyApp anyG app' g' ->
        no_stable_trend (AppA.gameState app'))
  /\ (forall anyApp anyG app' g',
        run AppB.tick anyB (S n) anyApp anyG app' g' ->
        no_stable_trend (AppB.gameState app')).
Proof.
  intros Hg HwfA HwfB. split; [|split; [|split]].
  - destruct (tickA_step appA g HwfA Hg) as (app' & g' & Htick & _).
    exists app', g'. split; [exact Htick|].
    destruct (tickA_market _ _ _ _ Htick) as (ev & g0 & Hspec).
    exact (proj1 (market_spec_trend ev g0 _ _ Hspec)).
  - destruct (tickB_step appB g HwfB Hg) as (app' & g' & Htick & _).
    exists app', g'. split; [exact Htick|].
    destruct (tickB_market _ _ _ _ Htick) as (ev & g0 & Hspec).
    exact (proj1 (market_spec_trend ev g0 _ _ Hspec)).
  - intros anyApp anyG app' g'.
    apply (run_established AppA.tick anyA
             (fun app => no_stable_trend (AppA.gameState app))).
    + intros app app1 g0 g1 Htick.
      destruct (tickA_market _ _ _ _ Htick) as (ev & g2 & Hspec).
      exact (proj2 (market_spec_trend ev g2 _ _ Hspec)).
    + intros app app1 Hact. unfold no_stable_trend.
      rewrite (anyA_keeps_prices _ _ Hact). trivial.
  - intros anyApp anyG app' g'.
    apply (run_established AppB.tick anyB
             (fun app => no_stable_trend (AppB.gameState app))).
    + intros app app1 g0 g1 Htick.
      destruct (tickB_market _ _ _ _ Htick) as (ev & g2 & Hspec).
      exact (proj2 (market_spec_trend ev g2 _ _ Hspec)).
    + intros app app1 Hact. unfold no_stable_trend.
      rewrite (anyB_keeps_prices _ _ Hact). trivial.
Qed.

Lemma trend_is_never_stable_again_witness :
  (exists app' g', AppA.tick AppA.initialApp (constantRng 0.5) = Some (app', g')
     /\ trend_follows (AppA.gameState AppA.initialApp) (AppA.gameState app'))
  /\ (exists app' g', AppB.tick AppB.initialApp (constantRng 0.5) = Some (app', g')
        /\ trend_follows (AppB.gameState AppB.initialApp) (AppB.gameState app')).
Proof.
  destruct (trend_is_never_stable_again 0 (constantRng 0.5)
              AppA.initialApp AppB.initialApp) as (HA & HB & _).
  - apply constantRng_valid; lra.
  - apply wf_initial.
  - apply wf_initial.
  - split; [exact HA | exact HB].
Defined.

(** X4.  Over a tick an active event with more than one day left goes
    on with one day less, whatever [Math.random()] returns and whatever
    the day of the cycle: a running event is never replaced.  An event
    on its last day ends; after it, or when there was none, the new
    state has an event only on the day the 10-day cycle completes, and
    that event has the name, description, category and multiplier of a
    pool entry, a duration of 3 to 7 days and all its days left.  In
    both versions. *)
Theorem event_runs_its_course (appA : AppA.App) (appB : AppB.App) (g : Rng) :
  wf (AppA.gameState appA) -> wf (AppB.gameState appB) -> valid_rng g ->
  (exists app' g', AppA.tick appA g = Some (app', g')
     /\ event_lifecycle (AppA.gameState appA) (AppA.gameState app'))
  /\ (exists app' g', AppB.tick appB g = Some (app', g')
        /\ event_lifecycle (AppB.gameState appB) (AppB.gameState app')).
Proof.
  intros HwfA HwfB Hg. split.
  - destruct (tickA_step appA g HwfA Hg) as (app' & g' & Htick & _).
    exists app', g'. split; [exact Htick|].
    destruct (tickA_event _ _ _ _ Hg Htick) as (g2 & Hg2 & He).
    exact (eventLogic_lifecycle _ _ _ _ Hg2 He).
  - destruct (tickB_step appB g HwfB Hg) as (app' & g' & Htick & _).
    exists app', g'. split; [exact Htick|].
    destruct (tickB_event _ _ _ _ Hg Htick) as (g1 & g2 & Hg1 & He).
    exact (eventLogic_lifecycle _ _ _ _ Hg1 He).
Qed.

Lemma event_runs_its_course_witness :
  (exists app' g', AppA.tick eventEndingApp (constantRng 0.5) = Some (app', g')
     /\ event_lifecycle (AppA.gameState eventEndingApp) (AppA.gameState app'))
  /\ (exists app' g', AppB.tick AppB.initialApp (constantRng 0.5) = Some (app', g')
        /\ event_lifecycle (AppB.gameState AppB.initialApp) (AppB.gameState app')).
Proof.
  apply (event_runs_its_course eventEndingApp AppB.initialApp (constantRng 0.5)).
  - apply wf_initial.
  - apply wf_initial.
  - apply constantRng_valid; lra.
Defined.

(** X5.  Through any session (ticks and player actions in any order)
    the active event, if there is one, stays an event of the pool with
    a duration of 3 to 7 days and between 1 day and its whole duration
    left; in particular a price target is never multiplied by anything
    but a pool multiplier.  From a well-formed state [n] ticks return
    such a state.  In both versions. *)
Theorem active_event_is_from_the_pool (n : nat) (g : Rng)
    (appA : AppA.App) (appB : AppB.App) :
  valid_rng g -> wf (AppA.gameState appA) -> wf (AppB.gameState appB) ->
  event_ok (AppA.gameState appA) -> event_ok (AppB.gameState appB) ->
  (exists app' g', AppA.ticks n appA g = Some (app', g')
     /\ event_ok (AppA.gameState app'))
  /\ (exists app' g', AppB.ticks n appB g = Some (app', g')
        /\ event_ok (AppB.gameState app'))
  /\ (forall anyApp anyG app' g',
        valid_rng anyG -> event_ok (AppA.gameState anyApp) ->
        run AppA.tick anyA n anyApp anyG app' g' ->
        event_ok (AppA.gameState app'))
  /\ (forall anyApp anyG app' g',
        valid_rng anyG -> event_ok (AppB.gameState anyApp) ->
        run AppB.tick anyB n anyApp anyG app' g' ->
        event_ok (AppB.gameState app')).
Proof.
  intros Hg HwfA HwfB HokA HokB.
  assert (HA : forall anyApp anyG app' g',
             valid_rng anyG -> event_ok (AppA.gameState anyApp) ->
             run AppA.tick anyA n anyApp anyG app' g' ->
             event_ok (AppA.gameState app')).
  { intros anyApp anyG app' g' HanyG Hok Hrun.
    apply (run_keeps AppA.tick anyA valid_rng
             (fun app => event_ok (AppA.gameState app))
             tickA_advances tickA_event_ok) with n anyApp anyG g'; try assumption.
    intros app app1 Hact. apply same_clock_event_ok, anyA_clock, Hact. }
  assert (HB : forall anyApp anyG app' g',
             valid_rng anyG -> event_ok (AppB.gameState anyApp) ->
             run AppB.tick anyB n anyApp anyG app' g' ->
             event_ok (AppB.gameState app')).
  { intros anyApp anyG app' g' HanyG Hok Hrun.
    apply (run_keeps AppB.tick anyB valid_rng
             (fun app => event_ok (AppB.gameState app))
             tickB_advances tickB_event_ok) with n anyApp anyG g'; try assumption.
    intros app app1 Hact. apply same_clock_event_ok, anyB_clock, Hact. }
  split; [|split; [|split; assumption]].
  - destruct (ticksA_facts n appA g HwfA Hg) as (app' & g' & Hticks & _).
    exists app', g'. split; [exact Hticks|].
    exact (HA appA g app' g' Hg HokA (ticksA_run anyA n _ _ _ _ Hticks)).
  - destruct (ticksB_facts n appB g HwfB Hg) as (app' & g' & Hticks & _).
    exists app', g'. split; [exact Hticks|].
    exact (HB appB g app' g' Hg HokB (ticksB_run anyB n _ _ _ _ Hticks)).
Qed.

Lemma event_ok_eventEndingApp : event_ok (AppA.gameState eventEndingApp).
Proof.
  intros ev [= <-]. split; [split|].
  - eexists. split; [do 4 right; left|]. repeat split.
  - cbn. lia.
  - cbn. lia.
Qed.

Lemma event_ok_initial (rate : Q) : event_ok (initialGameState rate).
Proof. intros ev [=]. Qed.

Lemma active_event_is_from_the_pool_witness :
  (exists app' g', AppA.ticks 12 eventEndingApp (constantRng 0.5) = Some (app', g')
     /\ event_ok (AppA.gameState app'))
  /\ (exists app' g', AppB.ticks 12 AppB.initialApp (constantRng 0.5) = Some (app', g')
        /\ event_ok (AppB.gameState app')).
Proof.
  destruct (active_event_is_from_the_pool 12 (constantRng 0.5)
              eventEndingApp AppB.initialApp) as (HA & HB & _).
  - apply constantRng_valid; lra.
  - apply wf_initial.
  - apply wf_initial.
  - apply event_ok_eventEndingApp.
  - apply event_ok_initial.
  - split; [exact HA | exact HB].
Defined.

(** X6.  A session of [n] ticks and any player actions ends [n] days
    later: the day is the start day plus [n]; the day of the cycle, when
    it started in 0..9, is the start value plus [n] modulo 10; and when
    the next tax day was the next multiple of 30 after the current day,
    as in the initial state, it is so again, which places the tax days
    on the days 30, 60, 90, ...  No player action moves the calendar.
    In both versions. *)
Theorem calendar_counts_the_ticks (n : nat) (g : Rng)
    (appA : AppA.App) (appB : AppB.App) :
  valid_rng g -> wf (AppA.gameState appA) -> wf (AppB.gameState appB) ->
  (exists app' g', AppA.ticks n appA g = Some (app', g')
     /\ days_later n (AppA.gameState appA) (AppA.gameState app'))
  /\ (exists app' g', AppB.ticks n appB g = Some (app', g')
        /\ days_later n (AppB.gameState appB) (AppB.gameState app'))
  /\ (forall anyApp anyG app' g',
        run AppA.tick anyA n anyApp anyG app' g' ->
        days_later n (AppA.gameState anyApp) (AppA.gameState app'))
  /\ (forall anyApp anyG app' g',
        run AppB.tick anyB n anyApp anyG app' g' ->
        days_later n (AppB.gameState anyApp) (AppB.gameState app')).
Proof.
  intros Hg HwfA HwfB.
  assert (HA : forall anyApp anyG app' g',
             run AppA.tick anyA n anyApp anyG app' g' ->
             days_later n (AppA.gameState anyApp) (AppA.gameState app')).
  { intros anyApp anyG app' g' Hrun.
    apply (run_invariant AppA.tick anyA (fun _ => True)
             (fun k app => days_later k (AppA.gameState anyApp) (AppA.gameState app))
             (fun _ _ _ _ _ _ => I)) with (k := 0%nat) (n := n) (g := anyG) (g' := g')
                                          (app := anyApp); trivial.
    - intros k app app1 g0 g1 _ Hk Htick.
      destruct (tickA_calendar _ _ _ _ Htick) as (Hd & Hc & Ht).
      exact (days_later_step k _ _ _ Hk Hd Hc Ht).
    - intros k app app1 Hact. apply days_later_same_clock, anyA_clock, Hact.
    - apply days_later_start. }
  assert (HB : forall anyApp anyG app' g',
             run AppB.tick anyB n anyApp anyG app' g' ->
             days_later n (AppB.gameState anyApp) (AppB.gameState app')).
  { intros anyApp anyG app' g' Hrun.
    apply (run_invariant AppB.tick anyB (fun _ => True)
             (fun k app => days_later k (AppB.gameState anyApp) (AppB.gameState app))
             (fun _ _ _ _ _ _ => I)) with (k := 0%nat) (n := n) (g := anyG) (g' := g')
                                          (app := anyApp); trivial.
    - intros k app app1 g0 g1 _ Hk Htick.
      destruct (tickB_calendar _ _ _ _ Htick) as (Hd & Hc & Ht).
      exact (days_later_step k _ _ _ Hk Hd Hc Ht).
    - intros k app app1 Hact. apply days_later_same_clock, anyB_clock, Hact.
    - apply days_later_start. }
  split; [|split; [|split; assumption]].
  - destruct (ticksA_facts n appA g HwfA Hg) as (app' & g' & Hticks & _).
    exists app', g'. split; [exact Hticks|].
    exact (HA appA g app' g' (ticksA_run anyA n _ _ _ _ Hticks)).
  - destruct (ticksB_facts n appB g HwfB Hg) as (app' & g' & Hticks & _).
    exists app', g'. split; [exact Hticks|].
    exact (HB appB g app' g' (ticksB_run anyB n _ _ _ _ Hticks)).
Qed.

Lemma calendar_counts_the_ticks_witness :
  (exists app' g', AppA.ticks 31 AppA.initialApp (constantRng 0.5) = Some (app', g')
     /\ days_later 31 (AppA.gameState AppA.initialApp) (AppA.gameState app'))
  /\ (exists app' g', AppB.ticks 31 AppB.initialApp (constantRng 0.5) = Some (app', g')
        /\ days_later 31 (AppB.gameState AppB.initialApp) (AppB.gameState app')).
Proof.
  destruct (calendar_counts_the_ticks 31 (constantRng 0.5)
              AppA.initialApp AppB.initialApp) as (HA & HB & _).
  - apply constantRng_valid; lra.
  - apply wf_initial.
  - apply wf_initial.
  - split; [exact HA | exact HB].
Defined.

(** ** The production block in a tick *)

Lemma advanceFacility_off (f : ProductionFacility) :
  advanceFacility true f = switchedOff f.
Proof.
  unfold advanceFacility, switchedOff. rewrite andb_false_r, andb_true_r.
  destruct (ProductionFacility.isProducing f); reflexivity.
Qed.

Lemma credit_nonneg (h : bool) (id : string) (f : ProductionFacility) :
  (0 <= credit h id f)%Z.
Proof.
  destruct (credit_once h id f) as [->|(c & Hc & ->)]; [lia|].
  apply findCommodity_Some in Hc as [Hc _].
  apply Z.lt_le_incl, catalog_yield, Hc.
Qed.

Lemma credits_nonneg (h : bool) (id : string) (fs : list ProductionFacility) :
  (0 <= credits h id fs)%Z.
Proof.
  induction fs as [|f fs IH]; cbn [credits foldr]; [lia|].
  fold (credits h id fs). pose proof (credit_nonneg h id f). lia.
Qed.

Lemma production_spec_kept (h : bool) (s s' : GameState) (production : Production) :
  production_spec h s production ->
  facilities s' = nextFacilities production ->
  inventory s' = nextInventory production ->
  plant_kept s s'.
Proof.
  intros (Hfac & Hids & Hown) Hfs Hinv. unfold plant_kept.
  rewrite Hfs, Hinv, Hfac, <- !list_fmap_compose.
  split; [apply list_fmap_ext; intros i f _; apply advanceFacility_commodityId|].
  split; [apply list_fmap_ext; intros i f _; apply advanceFacility_level|].
  split; [exact Hids|].
  intros id. unfold owned. rewrite Hown.
  destruct (ownedItem id (inventory s)) as [item|]; cbn; [|lia].
  pose proof (credits_nonneg h id (facilities s)). lia.
Qed.

Lemma tickA_production (app app' : AppA.App) (g g' : Rng) :
  AppA.tick app g = Some (app', g') ->
  exists tax production g1 g2,
    AppA.taxLogic (AppA.gameState app) (prices (AppA.gameState app')) g1
    = Some (tax, g2)
    /\ productionLogic (Qleb (Tax.nextCash tax) 0) (AppA.gameState app)
       = Some production
    /\ facilities (AppA.gameState app') = nextFacilities production
    /\ inventory (AppA.gameState app') = nextInventory production
    /\ cash (AppA.gameState app')
       = Tax.nextCash tax - currentDayProductionCost production
    /\ totalProductionCosts (lifetime (AppA.gameState app'))
       = totalProductionCosts (lifetime (AppA.gameState app))
         + currentDayProductionCost production.
Proof.
  intros H.
  apply tickA_inv in H as (P & tax & ev & pr & g1 & g2 & _ & Ht & _ & Hp & ->).
  exists tax, pr, g1, g2. repeat split; assumption.
Qed.

Lemma tickB_production (app app' : AppB.App) (g g' : Rng) :
  AppB.tick app g = Some (app', g') ->
  exists tax production g1,
    AppB.taxLogic (AppB.gameState app) g = Some (tax, g1)
    /\ productionLogic (Qleb (Tax.nextCash tax) 0) (AppB.gameState app)
       = Some production
    /\ facilities (AppB.gameState app') = nextFacilities production
    /\ inventory (AppB.gameState app') = nextInventory production
    /\ cash (AppB.gameState app')
       = Math.max 0 (Tax.nextCash tax - currentDayProductionCost production)
    /\ totalProductionCosts (lifetime (AppB.gameState app'))
       = totalProductionCosts (lifetime (AppB.gameState app))
         + currentDayProductionCost production.
Proof.
  intros H.
  apply tickB_inv in H as (P & tax & ev & pr & g1 & g2 & Ht & _ & _ & Hp & ->).
  exists tax, pr, g1. repeat split; assumption.
Qed.

Lemma tickA_plant_kept (app app' : AppA.App) (g g' : Rng) :
  AppA.tick app g = Some (app', g') ->
  plant_kept (AppA.gameState app) (AppA.gameState app').
Proof.
  intros H. destruct (tickA_production _ _ _ _ H)
    as (tax & pr & g1 & g2 & _ & Hp & Hfac & Hinv & _).
  apply productionLogic_inv in Hp as (Hspec & _).
  exact (production_spec_kept _ _ _ _ Hspec Hfac Hinv).
Qed.

Lemma tickB_plant_kept (app app' : AppB.App) (g g' : Rng) :
  AppB.tick app g = Some (app', g') ->
  plant_kept (AppB.gameState app) (AppB.gameState app').
Proof.
  intros H. destruct (tickB_production _ _ _ _ H)
    as (tax & pr & g1 & _ & Hp & Hfac & Hinv & _).
  apply productionLogic_inv in Hp as (Hspec & _).
  exact (production_spec_kept _ _ _ _ Hspec Hfac Hinv).
Qed.

Lemma taxA_nextCash_le (prev : GameState) (P : gmap string MarketPrice)
    (g g' : Rng) (tax : Tax.t) :
  AppA.taxLogic prev P g = Some (tax, g') -> Tax.nextCash tax <= cash prev.
Proof.
  intros H. apply taxLogicA_inv in H as [(_ & -> & _)|(_ & iv & fv & _ & _ & -> & _)];
    cbn [Tax.nextCash].
  - apply Qle_refl.
  - pose proof (Q.le_max_l 0 ((cash prev + iv + fv - debt prev) * taxRate prev)) as Hb.
    unfold Math.max. lra.
Qed.

Lemma taxB_nextCash_le (prev : GameState) (g g' : Rng) (tax : Tax.t) :
  cash prev <= 0 -> taxRate prev <= 1 ->
  AppB.taxLogic prev g = Some (tax, g') -> Tax.nextCash tax <= 0.
Proof.
  intros Hcash Hrate H. apply taxLogicB_inv in H as [(_ & -> & _)|(_ & -> & _)];
    cbn [Tax.nextCash].
  - exact Hcash.
  - nra.
Qed.

Lemma production_halts (s s' : GameState) (production : Production) :
  productionLogic true s = Some production ->
  facilities s' = nextFacilities production ->
  inventory s' = nextInventory production ->
  totalProductionCosts (lifetime s')
  = totalProductionCosts (lifetime s) + currentDayProductionCost production ->
  production_halted s s'.
Proof.
  intros Hp Hfac Hinv Hcost.
  apply productionLogic_inv in Hp as ((Hfs & _) & Hzero & Hsame & _).
  unfold production_halted. rewrite Hfac, Hinv, Hcost, Hfs, (Hsame eq_refl), Hzero.
  split; [apply list_fmap_ext; intros i f _; apply advanceFacility_off|].
  split; [reflexivity | ring].
Qed.

Lemma wf_withCashFacilities (s : GameState) (c : Q) (fs : list ProductionFacility) :
  wf s ->
  (forall f, f ∈ fs -> is_Some (findCommodity (ProductionFacility.commodityId f))) ->
  wf (withCashFacilities s c fs).
Proof.
  intros (H1 & H2 & _ & H4) Hfs. repeat split; assumption.
Qed.

Lemma wf_penniless :
  wf (AppA.gameState pennilessAppA) /\ wf (AppB.gameState pennilessAppB).
Proof.
  split; (apply wf_withCashFacilities; [apply wf_initial|]);
    intros f Hf; apply list_elem_of_singleton in Hf as ->;
    eexists; vm_compute; reflexivity.
Qed.

Lemma wf_producer :
  wf (AppA.gameState producerAppA) /\ wf (AppB.gameState producerAppB).
Proof.
  split; (apply wf_withCashFacilities; [apply wf_initial|]);
    intros f Hf; unfold twoPlants in Hf;
    repeat (apply elem_of_cons in Hf as [->|Hf]; [eexists; vm_compute; reflexivity|]);
    apply elem_of_nil in Hf; destruct Hf.
Qed.

(** ** The tax block in a tick *)

Lemma tax_calendar_due (s : GameState) :
  tax_calendar s -> ((nextTaxDay s <= day s + 1)%Z <-> tax_day s).
Proof.
  unfold tax_calendar, tax_day, TAX_CYCLE. intros ->.
  pose proof (Z.div_mod (day s) 30) as Hd.
  pose proof (Z.mod_pos_bound (day s) 30) as Hm.
  split.
  - intros Hdue. symmetry. apply Z.mod_unique with (day s / 30 + 1)%Z; lia.
  - intros Hz.
    pose proof (Z.div_mod (day s + 1) 30) as Hd1. rewrite Hz in Hd1.
    assert (Hq : ((day s + 1) / 30 = day s / 30 + 1)%Z) by lia.
    lia.
Qed.

Lemma tickA_tax (app app' : AppA.App) (g g' : Rng) :
  valid_rng g -> AppA.tick app g = Some (app', g') ->
  exists tax g1 g2,
    valid_rng g1
    /\ AppA.taxLogic (AppA.gameState app) (prices (AppA.gameState app')) g1
       = Some (tax, g2)
    /\ taxRate (AppA.gameState app') = Tax.currentTaxRate tax
    /\ nextTaxDay (AppA.gameState app') = Tax.nextTaxDay tax
    /\ totalTaxesPaid (lifetime (AppA.gameState app')) = Tax.totalTaxesPaid tax
    /\ AppA.lastTaxPaid app'
       = match Tax.taxBill tax with
         | Some bill => Some bill
         | None => AppA.lastTaxPaid app
         end.
Proof.
  intros Hg H.
  apply tickA_inv in H as (P & tax & ev & pr & g1 & g2 & Hm & Ht & He & _ & ->).
  destruct (tickA_sources _ _ _ _ _ _ _ _ Hg Hm Ht He) as (Hg1 & _ & _).
  exists tax, g1, g2. split; [exact Hg1|]. split; [exact Ht|]. repeat split.
Qed.

Lemma tickB_tax (app app' : AppB.App) (g g' : Rng) :
  AppB.tick app g = Some (app', g') ->
  exists tax g1,
    AppB.taxLogic (AppB.gameState app) g = Some (tax, g1)
    /\ taxRate (AppB.gameState app') = Tax.currentTaxRate tax
    /\ nextTaxDay (AppB.gameState app') = Tax.nextTaxDay tax
    /\ totalTaxesPaid (lifetime (AppB.gameState app')) = Tax.totalTaxesPaid tax
    /\ AppB.showTaxAlert app'
       = match Tax.taxBill tax with
         | Some _ => true
         | None => AppB.showTaxAlert app
         end.
Proof.
  intros H.
  apply tickB_inv in H as (P & tax & ev & pr & g1 & g2 & Ht & _ & _ & _ & ->).
  exists tax, g1. repeat split; assumption.
Qed.

Lemma tickA_tax_band (app app' : AppA.App) (g g' : Rng) :
  valid_rng g -> tax_band 0.10 0.20 (AppA.gameState app) ->
  AppA.tick app g = Some (app', g') -> tax_band 0.10 0.20 (AppA.gameState app').
Proof.
  intros Hg Hband H.
  destruct (tickA_tax _ _ _ _ Hg H) as (tax & g1 & g2 & Hg1 & Ht & Hrate & _).
  unfold tax_band. rewrite Hrate.
  apply taxLogicA_inv in Ht as [(_ & -> & _)|(_ & iv & fv & _ & _ & -> & _)];
    cbn [Tax.currentTaxRate]; [exact Hband|].
  destruct (Hg1 (cursor g1)) as [Hlo Hhi]. split; lra.
Qed.

Lemma tickB_tax_band (app app' : AppB.App) (g g' : Rng) :
  valid_rng g -> tax_band 0.10 0.35 (AppB.gameState app) ->
  AppB.tick app g = Some (app', g') -> tax_band 0.10 0.35 (AppB.gameState app').
Proof.
  intros Hg Hband H.
  destruct (tickB_tax _ _ _ _ H) as (tax & g1 & Ht & Hrate & _).
  unfold tax_band. rewrite Hrate.
  apply taxLogicB_inv in Ht as [(_ & -> & _)|(_ & -> & _)];
    cbn [Tax.currentTaxRate]; [exact Hband|].
  destruct (Hg (cursor g)) as [Hlo Hhi]. split; lra.
Qed.

Lemma same_clock_tax_band (lo hi : Q) (s s' : GameState) :
  same_clock s s' -> tax_band lo hi s -> tax_band lo hi s'.
Proof. intros (_ & _ & _ & Hrate & _) Hband. unfold tax_band. rewrite Hrate. exact Hband. Qed.

(** ** Properties of production and taxes *)

(** X7.  A tick that starts without cash (cash at or below 0) switches
    every facility off: each keeps its commodity, level and progress
    and has [isProducing] false afterwards, so it stays off until the
    player toggles it; nothing is produced and no production cost is
    booked.  In version A this holds on every day, the tax bill never
    being negative; in version B for a tax rate of at most 1. *)
Theorem no_cash_halts_production (appA : AppA.App) (appB : AppB.App) (g : Rng) :
  wf (AppA.gameState appA) -> wf (AppB.gameState appB) -> valid_rng g ->
  cash (AppA.gameState appA) <= 0 ->
  cash (AppB.gameState appB) <= 0 -> taxRate (AppB.gameState appB) <= 1 ->
  (exists app' g', AppA.tick appA g = Some (app', g')
     /\ production_halted (AppA.gameState appA) (AppA.gameState app'))
  /\ (exists app' g', AppB.tick appB g = Some (app', g')
        /\ production_halted (AppB.gameState appB) (AppB.gameState app')).
Proof.
  intros HwfA HwfB Hg HcashA HcashB HrateB. split.
  - destruct (tickA_step appA g HwfA Hg) as (app' & g' & Htick & _).
    exists app', g'. split; [exact Htick|].
    destruct (tickA_production _ _ _ _ Htick)
      as (tax & pr & g1 & g2 & Ht & Hp & Hfac & Hinv & _ & Hcost).
    pose proof (taxA_nextCash_le _ _ _ _ _ Ht) as Hle.
    assert (Hh : Qleb (Tax.nextCash tax) 0 = true) by (apply Qleb_true; lra).
    rewrite Hh in Hp. exact (production_halts _ _ _ Hp Hfac Hinv Hcost).
  - destruct (tickB_step appB g HwfB Hg) as (app' & g' & Htick & _).
    exists app', g'. split; [exact Htick|].
    destruct (tickB_production _ _ _ _ Htick)
      as (tax & pr & g1 & Ht & Hp & Hfac & Hinv & _ & Hcost).
    pose proof (taxB_nextCash_le _ _ _ _ HcashB HrateB Ht) as Hle.
    assert (Hh : Qleb (Tax.nextCash tax) 0 = true) by (apply Qleb_true; exact Hle).
    rewrite Hh in Hp. exact (production_halts _ _ _ Hp Hfac Hinv Hcost).
Qed.

Lemma no_cash_halts_production_witness :
  (exists app' g', AppA.tick pennilessAppA (constantRng 0.5) = Some (app', g')
     /\ production_halted (AppA.gameState pennilessAppA) (AppA.gameState app'))
  /\ (exists app' g', AppB.tick pennilessAppB (constantRng 0.5) = Some (app', g')
        /\ production_halted (AppB.gameState pennilessAppB) (AppB.gameState app')).
Proof.
  apply (no_cash_halts_production pennilessAppA pennilessAppB (constantRng 0.5)).
  - apply wf_penniless.
  - apply wf_penniless.
  - apply constantRng_valid; lra.
  - vm_compute. discriminate.
  - vm_compute. discriminate.
  - vm_compute. discriminate.
Defined.

(** X8.  On a day without tax and with cash above 0, the tick charges
    the sum of the operating costs the facility panels compute,
    [Math.floor(productionCost * Math.pow(1.4, level - 1))] of the
    binary64 product (97 for an oil field at level 3) for a facility
    that is switched on and 0 for one that is off: version A returns the cash
    less that sum, version B the maximum of 0 and that difference, and
    both add the sum to the lifetime production costs. *)
Theorem operating_costs_are_charged (appA : AppA.App) (appB : AppB.App) (g : Rng) :
  wf (AppA.gameState appA) -> wf (AppB.gameState appB) -> valid_rng g ->
  (day (AppA.gameState appA) + 1 < nextTaxDay (AppA.gameState appA))%Z ->
  (day (AppB.gameState appB) + 1 < nextTaxDay (AppB.gameState appB))%Z ->
  0 < cash (AppA.gameState appA) -> 0 < cash (AppB.gameState appB) ->
  (exists app' g', AppA.tick appA g = Some (app', g')
     /\ cash (AppA.gameState app')
        == cash (AppA.gameState appA)
           - operatingCosts (facilities (AppA.gameState appA))
     /\ totalProductionCosts (lifetime (AppA.gameState app'))
        == totalProductionCosts (lifetime (AppA.gameState appA))
           + operatingCosts (facilities (AppA.gameState appA)))
  /\ (exists app' g', AppB.tick appB g = Some (app', g')
        /\ cash (AppB.gameState app')
           == Math.max 0 (cash (AppB.gameState appB)
                          - operatingCosts (facilities (AppB.gameState appB)))
        /\ totalProductionCosts (lifetime (AppB.gameState app'))
           == totalProductionCosts (lifetime (AppB.gameState appB))
              + operatingCosts (facilities (AppB.gameState appB))).
Proof.
  intros HwfA HwfB Hg HdayA HdayB HcashA HcashB. split.
  - destruct (tickA_step appA g HwfA Hg) as (app' & g' & Htick & _).
    exists app', g'. split; [exact Htick|].
    destruct (tickA_production _ _ _ _ Htick)
      as (tax & pr & g1 & g2 & Ht & Hp & _ & _ & Hcash & Hcost).
    apply taxLogicA_inv in Ht as [(_ & -> & _)|(Hdue & _)]; [|lia].
    cbn [Tax.nextCash] in Hp, Hcash.
    assert (Hh : Qleb (cash (AppA.gameState appA)) 0 = false)
      by (apply Qleb_false; exact HcashA).
    rewrite Hh in Hp. apply productionLogic_inv in Hp as (_ & Hsum & _).
    rewrite Hcash, Hcost, Hsum. split; reflexivity.
  - destruct (tickB_step appB g HwfB Hg) as (app' & g' & Htick & _).
    exists app', g'. split; [exact Htick|].
    destruct (tickB_production _ _ _ _ Htick)
      as (tax & pr & g1 & Ht & Hp & _ & _ & Hcash & Hcost).
    apply taxLogicB_inv in Ht as [(_ & -> & _)|(Hdue & _)]; [|lia].
    cbn [Tax.nextCash] in Hp, Hcash.
    assert (Hh : Qleb (cash (AppB.gameState appB)) 0 = false)
      by (apply Qleb_false; exact HcashB).
    rewrite Hh in Hp. apply productionLogic_inv in Hp as (_ & Hsum & _).
    rewrite Hcash, Hcost. unfold Math.max. rewrite Hsum. split; reflexivity.
Qed.

Lemma operating_costs_are_charged_witness :
  (exists app' g', AppA.tick producerAppA (constantRng 0.5) = Some (app', g')
     /\ cash (AppA.gameState app')
        == cash (AppA.gameState producerAppA)
           - operatingCosts (facilities (AppA.gameState producerAppA))
     /\ totalProductionCosts (lifetime (AppA.gameState app'))
        == totalProductionCosts (lifetime (AppA.gameState producerAppA))
           + operatingCosts (facilities (AppA.gameState producerAppA)))
  /\ (exists app' g', AppB.tick producerAppB (constantRng 0.5) = Some (app', g')
        /\ cash (AppB.gameState app')
           == Math.max 0 (cash (AppB.gameState producerAppB)
                          - operatingCosts (facilities (AppB.gameState producerAppB)))
        /\ totalProductionCosts (lifetime (AppB.gameState app'))
           == totalProductionCosts (lifetime (AppB.gameState producerAppB))
              + operatingCosts (facilities (AppB.gameState producerAppB))).
Proof.
  apply (operating_costs_are_charged producerAppA producerAppB (constantRng 0.5)).
  - apply wf_producer.
  - apply wf_producer.
  - apply constantRng_valid; lra.
  - reflexivity.
  - reflexivity.
  - reflexivity.
  - reflexivity.
Defined.

(** X9.  A tick never adds, removes or reorders a facility and never
    changes a level; it never adds or removes an inventory item, and no
    owned quantity goes down in it.  This holds for whatever a tick
    returns, and from a well-formed state the tick returns.  In both
    versions. *)
Theorem tick_keeps_the_plant (appA : AppA.App) (appB : AppB.App) (g : Rng) :
  wf (AppA.gameState appA) -> wf (AppB.gameState appB) -> valid_rng g ->
  (exists app' g', AppA.tick appA g = Some (app', g')
     /\ plant_kept (AppA.gameState appA) (AppA.gameState app'))
  /\ (exists app' g', AppB.tick appB g = Some (app', g')
        /\ plant_kept (AppB.gameState appB) (AppB.gameState app'))
  /\ (forall anyApp anyG app' g',
        AppA.tick anyApp anyG = Some (app', g') ->
        plant_kept (AppA.gameState anyApp) (AppA.gameState app'))
  /\ (forall anyApp anyG app' g',
        AppB.tick anyApp anyG = Some (app', g') ->
        plant_kept (AppB.gameState anyApp) (AppB.gameState app')).
Proof.
  intros HwfA HwfB Hg. split; [|split; [|split]].
  - destruct (tickA_step appA g HwfA Hg) as (app' & g' & Htick & _).
    exists app', g'. split; [exact Htick | exact (tickA_plant_kept _ _ _ _ Htick)].
  - destruct (tickB_step appB g HwfB Hg) as (app' & g' & Htick & _).
    exists app', g'. split; [exact Htick | exact (tickB_plant_kept _ _ _ _ Htick)].
  - intros anyApp anyG app' g'. apply tickA_plant_kept.
  - intros anyApp anyG app' g'. apply tickB_plant_kept.
Qed.

Lemma tick_keeps_the_plant_witness :
  (exists app' g', AppA.tick producerAppA (constantRng 0.5) = Some (app', g')
     /\ plant_kept (AppA.gameState producerAppA) (AppA.gameState app'))
  /\ (exists app' g', AppB.tick producerAppB (constantRng 0.5) = Some (app', g')
        /\ plant_kept (AppB.gameState producerAppB) (AppB.gameState app')).
Proof.
  destruct (tick_keeps_the_plant producerAppA producerAppB (constantRng 0.5))
    as (HA & HB & _).
  - apply wf_producer.
  - apply wf_producer.
  - apply constantRng_valid; lra.
  - split; [exact HA | exact HB].
Defined.

(** X10.  With the next tax day at the next multiple of 30, as it is
    from the initial state on, a tick settles taxes exactly when it
    arrives on a day that is a multiple of 30.  On such a day the next
    tax day moves on by 30, the new rate is drawn, the bill is added to
    the lifetime taxes and the notice is raised: in version A the bill
    is never negative and is kept in [lastTaxPaid], in version B it is
    [cash * taxRate] and [showTaxAlert] is set.  On every other day the
    rate, the next tax day, the lifetime taxes and the notice are left
    as they were. *)
Theorem taxes_fall_due_every_30_days (appA : AppA.App) (appB : AppB.App) (g : Rng) :
  wf (AppA.gameState appA) -> wf (AppB.gameState appB) -> valid_rng g ->
  tax_calendar (AppA.gameState appA) -> tax_calendar (AppB.gameState appB) ->
  (exists app' g', AppA.tick appA g = Some (app', g')
     /\ (~ tax_day (AppA.gameState appA) ->
         tax_untouched (AppA.gameState appA) (AppA.gameState app')
         /\ AppA.lastTaxPaid app' = AppA.lastTaxPaid appA)
     /\ (tax_day (AppA.gameState appA) ->
         nextTaxDay (AppA.gameState app')
         = (nextTaxDay (AppA.gameState appA) + 30)%Z
         /\ tax_band 0.10 0.20 (AppA.gameState app')
         /\ exists bill, AppA.lastTaxPaid app' = Some bill /\ 0 <= bill
              /\ totalTaxesPaid (lifetime (AppA.gameState app'))
                 = totalTaxesPaid (lifetime (AppA.gameState appA)) + bill))
  /\ (exists app' g', AppB.tick appB g = Some (app', g')
        /\ (~ tax_day (AppB.gameState appB) ->
            tax_untouched (AppB.gameState appB) (AppB.gameState app')
            /\ AppB.showTaxAlert app' = AppB.showTaxAlert appB)
        /\ (tax_day (AppB.gameState appB) ->
            nextTaxDay (AppB.gameState app')
            = (nextTaxDay (AppB.gameState appB) + 30)%Z
            /\ tax_band 0.10 0.35 (AppB.gameState app')
            /\ AppB.showTaxAlert app' = true
            /\ totalTaxesPaid (lifetime (AppB.gameState app'))
               = totalTaxesPaid (lifetime (AppB.gameState appB))
                 + cash (AppB.gameState appB) * taxRate (AppB.gameState appB))).
Proof.
  intros HwfA HwfB Hg HcalA HcalB. split.
  - destruct (tickA_step appA g HwfA Hg) as (app' & g' & Htick & _).
    exists app', g'. split; [exact Htick|].
    destruct (tickA_tax _ _ _ _ Hg Htick)
      as (tax & g1 & g2 & Hg1 & Ht & Hrate & Hntd & Hpaid & Hlast).
    pose proof (tax_calendar_due _ HcalA) as Hdue.
    unfold tax_untouched, tax_band. rewrite Hrate, Hntd, Hpaid, Hlast.
    apply taxLogicA_inv in Ht as [(Hnot & -> & _)|(Hyes & iv & fv & _ & _ & -> & _)];
      cbn [Tax.currentTaxRate Tax.nextTaxDay Tax.totalTaxesPaid Tax.taxBill].
    + split; [intros _; repeat split|].
      intros Hday. apply Hdue in Hday. lia.
    + split; [intros Hday; destruct Hday; apply Hdue; exact Hyes|].
      intros _. split; [reflexivity|].
      destruct (Hg1 (cursor g1)) as [Hlo Hhi].
      split; [split; lra|].
      eexists. split; [reflexivity|]. split; [apply Q.le_max_l | reflexivity].
  - destruct (tickB_step appB g HwfB Hg) as (app' & g' & Htick & _).
    exists app', g'. split; [exact Htick|].
    destruct (tickB_tax _ _ _ _ Htick)
      as (tax & g1 & Ht & Hrate & Hntd & Hpaid & Halert).
    pose proof (tax_calendar_due _ HcalB) as Hdue.
    unfold tax_untouched, tax_band. rewrite Hrate, Hntd, Hpaid, Halert.
    apply taxLogicB_inv in Ht as [(Hnot & -> & _)|(Hyes & -> & _)];
      cbn [Tax.currentTaxRate Tax.nextTaxDay Tax.totalTaxesPaid Tax.taxBill].
    + split; [intros _; repeat split|].
      intros Hday. apply Hdue in Hday. lia.
    + split; [intros Hday; destruct Hday; apply Hdue; exact Hyes|].
      intros _. split; [reflexivity|].
      destruct (Hg (cursor g)) as [Hlo Hhi].
      split; [split; lra|]. split; reflexivity.
Qed.

Lemma tax_calendar_initial (rate : Q) : tax_calendar (initialGameState rate).
Proof. reflexivity. Qed.

Lemma taxes_fall_due_every_30_days_witness :
  (exists app' g', AppA.tick AppA.initialApp (constantRng 0.5) = Some (app', g')
     /\ (~ tax_day (AppA.gameState AppA.initialApp) ->
         tax_untouched (AppA.gameState AppA.initialApp) (AppA.gameState app')
         /\ AppA.lastTaxPaid app' = AppA.lastTaxPaid AppA.initialApp))
  /\ (exists app' g', AppB.tick AppB.initialApp (constantRng 0.5) = Some (app', g')
        /\ (~ tax_day (AppB.gameState AppB.initialApp) ->
            tax_untouched (AppB.gameState AppB.initialApp) (AppB.gameState app')
            /\ AppB.showTaxAlert app' = AppB.showTaxAlert AppB.initialApp)).
Proof.
  destruct (taxes_fall_due_every_30_days AppA.initialApp AppB.initialApp
              (constantRng 0.5))
    as ((appA' & gA' & HA & HnotA & _) & (appB' & gB' & HB & HnotB & _)).
  - apply wf_initial.
  - apply wf_initial.
  - apply constantRng_valid; lra.
  - apply tax_calendar_initial.
  - apply tax_calendar_initial.
  - split; [exists appA', gA' | exists appB', gB']; split; assumption.
Defined.

(** X11.  Through any session the tax rate of version A stays in
    [0.10, 0.20) and that of version B in [0.10, 0.35), where the
    initial rates 0.15 and 0.20 lie: a rate is only ever replaced by
    [0.10 + Math.random() * 0.10], respectively [* 0.25], and no player
    action changes it.  From a well-formed state [n] ticks return such a
    state. *)
Theorem tax_rate_stays_in_band (n : nat) (g : Rng)
    (appA : AppA.App) (appB : AppB.App) :
  valid_rng g -> wf (AppA.gameState appA) -> wf (AppB.gameState appB) ->
  tax_band 0.10 0.20 (AppA.gameState appA) ->
  tax_band 0.10 0.35 (AppB.gameState appB) ->
  (exists app' g', AppA.ticks n appA g = Some (app', g')
     /\ tax_band 0.10 0.20 (AppA.gameState app'))
  /\ (exists app' g', AppB.ticks n appB g = Some (app', g')
        /\ tax_band 0.10 0.35 (AppB.gameState app'))
  /\ (forall anyApp anyG app' g',
        valid_rng anyG -> tax_band 0.10 0.20 (AppA.gameState anyApp) ->
        run AppA.tick anyA n anyApp anyG app' g' ->
        tax_band 0.10 0.20 (AppA.gameState app'))
  /\ (forall anyApp anyG app' g',
        valid_rng anyG -> tax_band 0.10 0.35 (AppB.gameState anyApp) ->
        run AppB.tick anyB n anyApp anyG app' g' ->
        tax_band 0.10 0.35 (AppB.gameState app')).
Proof.
  intros Hg HwfA HwfB HbandA HbandB.
  assert (HA : forall anyApp anyG app' g',
             valid_rng anyG -> tax_band 0.10 0.20 (AppA.gameState anyApp) ->
             run AppA.tick anyA n anyApp anyG app' g' ->
             tax_band 0.10 0.20 (AppA.gameState app')).
  { intros anyApp anyG app' g' HanyG Hband Hrun.
    apply (run_keeps AppA.tick anyA valid_rng
             (fun app => tax_band 0.10 0.20 (AppA.gameState app))
             tickA_advances tickA_tax_band) with n anyApp anyG g'; try assumption.
    intros app app1 Hact. apply same_clock_tax_band, anyA_clock, Hact. }
  assert (HB : forall anyApp anyG app' g',
             valid_rng anyG -> tax_band 0.10 0.35 (AppB.gameState anyApp) ->
             run AppB.tick anyB n anyApp anyG app' g' ->
             tax_band 0.10 0.35 (AppB.gameState app')).
  { intros anyApp anyG app' g' HanyG Hband Hrun.
    apply (run_keeps AppB.tick anyB valid_rng
             (fun app => tax_band 0.10 0.35 (AppB.gameState app))
             tickB_advances tickB_tax_band) with n anyApp anyG g'; try assumption.
    intros app app1 Hact. apply same_clock_tax_band, anyB_clock, Hact. }
  split; [|split; [|split; assumption]].
  - destruct (ticksA_facts n appA g HwfA Hg) as (app' & g' & Hticks & _).
    exists app', g'. split; [exact Hticks|].
    exact (HA appA g app' g' Hg HbandA (ticksA_run anyA n _ _ _ _ Hticks)).
  - destruct (ticksB_facts n appB g HwfB Hg) as (app' & g' & Hticks & _).
    exists app', g'. split; [exact Hticks|].
    exact (HB appB g app' g' Hg HbandB (ticksB_run anyB n _ _ _ _ Hticks)).
Qed.

Lemma tax_rate_stays_in_band_witness :
  (exists app' g', AppA.ticks 31 AppA.initialApp (constantRng 0.5) = Some (app', g')
     /\ tax_band 0.10 0.20 (AppA.gameState app'))
  /\ (exists app' g', AppB.ticks 31 AppB.initialApp (constantRng 0.5) = Some (app', g')
        /\ tax_band 0.10 0.35 (AppB.gameState app')).
Proof.
  destruct (tax_rate_stays_in_band 31 (constantRng 0.5)
              AppA.initialApp AppB.initialApp) as (HA & HB & _).
  - apply constantRng_valid; lra.
  - apply wf_initial.
  - apply wf_initial.
  - split; vm_compute; [discriminate | reflexivity].
  - split; vm_compute; [discriminate | reflexivity].
  - split; [exact HA | exact HB].
Defined.

(** ** The updaters of the player actions *)

Lemma tradeUpdater_inv (id : string) (quantity : Z) (s s' : GameState)
    (refs refs' : CycleRefs) :
  tradeUpdater id quantity s refs = Some (s', refs') ->
  (s' = s /\ refs' = refs)
  \/ exists price,
       prices s !! id = Some price
       /\ ((0 < quantity)%Z ->
           inject_Z quantity * MarketPrice.currentPrice price <= cash s)
       /\ ((quantity < 0)%Z ->
           exists item, ownedItem id (inventory s) = Some item
             /\ (Z.abs quantity <= InventoryItem.quantity item)%Z)
       /\ cash s' = cash s - inject_Z quantity * MarketPrice.currentPrice price
       /\ debt s' = debt s
       /\ inventory s' = traded id quantity (inventory s)
       /\ facilities s' = facilities s
       /\ totalSales (lifetime s')
          = (if (quantity <? 0)%Z
             then totalSales (lifetime s)
                  + Math.abs (inject_Z quantity * MarketPrice.currentPrice price)
             else totalSales (lifetime s))
       /\ totalMarketPurchases (lifetime s')
          = (if (0 <? quantity)%Z
             then totalMarketPurchases (lifetime s)
                  + inject_Z quantity * MarketPrice.currentPrice price
             else totalMarketPurchases (lifetime s))
       /\ totalProductionCosts (lifetime s') = totalProductionCosts (lifetime s)
       /\ totalConstruction (lifetime s') = totalConstruction (lifetime s)
       /\ totalUpgrades (lifetime s') = totalUpgrades (lifetime s)
       /\ totalInterestPaid (lifetime s') = totalInterestPaid (lifetime s)
       /\ totalTaxesPaid (lifetime s') = totalTaxesPaid (lifetime s).
Proof.
  unfold tradeUpdater. destruct (prices s !! id) as [price|] eqn:Hprice; [|discriminate].
  cbn [fmap option_fmap option_map mbind option_bind].
  destruct (Z.ltb_spec 0 quantity) as [Hpos|Hpos]; cbn [andb].
  - case_Qltb (cash s) (inject_Z quantity * MarketPrice.currentPrice price).
    + intros [= <- <-]. left. split; reflexivity.
    + destruct (Z.ltb_spec quantity 0) as [Hneg|Hneg]; [lia|]. cbn [andb].
      intros [= <- <-]. right. exists price. split; [reflexivity|].
      split; [intros _; exact Hcmp|]. split; [intros; lia|].
      repeat split.
  - destruct (Z.ltb_spec quantity 0) as [Hneg|Hneg]; cbn [andb].
    + destruct (ownedItem id (inventory s)) as [item|] eqn:Hitem.
      * destruct (Z.ltb_spec (InventoryItem.quantity item) (Z.abs quantity)) as [Hq|Hq].
        -- intros [= <- <-]. left. split; reflexivity.
        -- intros [= <- <-]. right. exists price. split; [reflexivity|].
           split; [intros; lia|].
           split; [intros _; exists item; split; [reflexivity | exact Hq]|].
           repeat split.
      * intros [= <- <-]. left. split; reflexivity.
    + intros [= <- <-]. right. exists price. split; [reflexivity|].
      split; [intros; lia|]. split; [intros; lia|]. repeat split.
Qed.

Lemma facilityOf_None (id : string) (fs : list ProductionFacility) :
  facilityOf id fs = None <-> hasFacility id fs = false.
Proof.
  unfold facilityOf, hasFacility. induction fs as [|f fs IH]; [split; reflexivity|].
  cbn [List.find existsb]. destruct (String.eqb _ id); cbn [orb].
  - split; discriminate.
  - exact IH.
Qed.

Lemma hasFacility_ids (id : string) (fs : list ProductionFacility) :
  hasFacility id fs = false <-> id ∉ map ProductionFacility.commodityId fs.
Proof. rewrite <- facilityOf_None. apply find_eqb_None. Qed.

Lemma unlockUpdater_inv (id : string) (cost : Q) (s : GameState) :
  unlockUpdater id cost s = s
  \/ (cost <= cash s /\ hasFacility id (facilities s) = false
      /\ cash (unlockUpdater id cost s) = cash s - cost
      /\ debt (unlockUpdater id cost s) = debt s
      /\ inventory (unlockUpdater id cost s) = inventory s
      /\ facilities (unlockUpdater id cost s)
         = facilities s ++ [ProductionFacility.mk id 1 true 0]
      /\ lifetimeNet (unlockUpdater id cost s) == lifetimeNet s - cost).
Proof.
  unfold unlockUpdater. case_Qltb (cash s) cost; cbn [orb]; [left; reflexivity|].
  destruct (hasFacility id (facilities s)); [left; reflexivity|].
  right. split; [exact Hcmp|]. repeat split.
  unfold lifetimeNet, lifetimeCosts. cbn. ring.
Qed.

Lemma upgradeUpdater_inv (id : string) (s s' : GameState) :
  upgradeUpdater id s = Some s' ->
  s' = s
  \/ exists facility c,
       facilityOf id (facilities s) = Some facility
       /\ findCommodity id = Some c
       /\ ProductionPanel.upgradeCost c (Some facility) <= cash s
       /\ cash s' = cash s - ProductionPanel.upgradeCost c (Some facility)
       /\ debt s' = debt s
       /\ inventory s' = inventory s
       /\ facilities s' = upgraded id (facilities s)
       /\ totalUpgrades (lifetime s')
          = totalUpgrades (lifetime s) + ProductionPanel.upgradeCost c (Some facility)
       /\ lifetimeNet s'
          == lifetimeNet s - ProductionPanel.upgradeCost c (Some facility).
Proof.
  unfold upgradeUpdater.
  destruct (facilityOf id (facilities s)) as [facility|]; [|intros [= <-]; left; reflexivity].
  destruct (findCommodity id) as [c|]; [|discriminate]. cbn [mbind option_bind].
  match goal with |- context [Qltb ?a ?b] => case_Qltb a b end.
  - intros [= <-]. left. reflexivity.
  - intros [= <-]. right. exists facility, c.
    split; [reflexivity|]. split; [reflexivity|]. split; [exact Hcmp|].
    repeat split. unfold lifetimeNet, lifetimeCosts. cbn. ring.
Qed.

Lemma totalInvested_low (c : Commodity) (level : Z) :
  (level <= 1)%Z -> totalInvested c level = Commodity.basePrice c * 25.
Proof.
  intros Hlevel. unfold totalInvested, seqZ.
  replace (Z.to_nat (level - 1)) with 0%nat by lia. reflexivity.
Qed.

Lemma sellValue_refund (c : Commodity) (facility : ProductionFacility) :
  ProductionPanel.sellValue c (Some facility)
  = inject_Z (Math.floor
                (Binary64.mul (totalInvested c (ProductionFacility.level facility)) 0.7)).
Proof.
  unfold ProductionPanel.sellValue.
  destruct (Z.ltb_spec 1 (ProductionFacility.level facility)) as [Hup|Hlow].
  - reflexivity.
  - rewrite (totalInvested_low c _ Hlow). reflexivity.
Qed.

Lemma sellUpdater_inv (id : string) (s s' : GameState) :
  AppA.sellUpdater id s = Some s' ->
  s' = s
  \/ exists facility c,
       facilityOf id (facilities s) = Some facility
       /\ findCommodity id = Some c
       /\ s' = withCashFacilities s
                 (cash s + ProductionPanel.sellValue c (Some facility))
                 (filter (fun f => ProductionFacility.commodityId f ≠ id)
                         (facilities s)).
Proof.
  unfold AppA.sellUpdater.
  destruct (facilityOf id (facilities s)) as [facility|]; [|intros [= <-]; left; reflexivity].
  destruct (findCommodity id) as [c|]; [|discriminate]. cbn [mbind option_bind].
  intros [= <-]. right. exists facility, c.
  rewrite sellValue_refund. repeat split.
Qed.

(** ** From the handlers to the updaters *)

Lemma quietA_updates (app app' : AppA.App) :
  quietA app app' -> updates true (AppA.gameState app) (AppA.gameState app').
Proof.
  intros [id quantity app1 H|id app1 H|id app1 H|id app1 H|id|amount| |app1 H].
  - unfold AppA.handleTrade in H.
    destruct (_ || _); [injection H as <-; constructor|].
    destruct (tradeUpdater _ _ _ _) as [[s r]|] eqn:Hrun; [|discriminate H].
    injection H as <-. eapply updates_trade. exact Hrun.
  - unfold AppA.handleUnlockFacility in H.
    destruct (AppA.isPaused app); [injection H as <-; constructor|].
    destruct (findCommodity id) as [c|] eqn:Hc; [|discriminate H].
    injection H as <-. apply updates_unlock. exact Hc.
  - unfold AppA.handleUpgradeFacility in H.
    destruct (AppA.isPaused app); [injection H as <-; constructor|].
    destruct (upgradeUpdater _ _) as [s|] eqn:Hrun; [|discriminate H].
    injection H as <-. eapply updates_upgrade. exact Hrun.
  - unfold AppA.handleSellFacility in H.
    destruct (AppA.isPaused app); [injection H as <-; constructor|].
    destruct (AppA.sellUpdater _ _) as [s|] eqn:Hrun; [|discriminate H].
    injection H as <-. eapply updates_sell; [reflexivity | exact Hrun].
  - unfold AppA.handleToggleProduction.
    destruct (AppA.isPaused app); [constructor | apply updates_toggle].
  - constructor.
  - constructor.
  - unfold AppA.solvencyEffect in H.
    destruct (AppA.netEquity _); [|discriminate H]. cbn in H.
    destruct (_ && _); injection H as <-; constructor.
Qed.

Lemma anyA_updates (app app' : AppA.App) :
  anyA app app' -> updates true (AppA.gameState app) (AppA.gameState app').
Proof.
  intros [app1 H|amount|].
  - apply quietA_updates, H.
  - unfold AppA.takeLoan. destruct (_ || _); [constructor | apply updates_loan].
  - unfold AppA.handleRepay. destruct (AppA.isPaused app); [constructor | apply updates_repay].
Qed.

Lemma keepingA_updates (app app' : AppA.App) :
  keepingA app app' -> updates false (AppA.gameState app) (AppA.gameState app').
Proof.
  intros [id quantity app1 H|id app1 H|id app1 H|id|amount| |app1 H|amount|].
  - unfold AppA.handleTrade in H.
    destruct (_ || _); [injection H as <-; constructor|].
    destruct (tradeUpdater _ _ _ _) as [[s r]|] eqn:Hrun; [|discriminate H].
    injection H as <-. eapply updates_trade. exact Hrun.
  - unfold AppA.handleUnlockFacility in H.
    destruct (AppA.isPaused app); [injection H as <-; constructor|].
    destruct (findCommodity id) as [c|] eqn:Hc; [|discriminate H].
    injection H as <-. apply updates_unlock. exact Hc.
  - unfold AppA.handleUpgradeFacility in H.
    destruct (AppA.isPaused app); [injection H as <-; constructor|].
    destruct (upgradeUpdater _ _) as [s|] eqn:Hrun; [|discriminate H].
    injection H as <-. eapply updates_upgrade. exact Hrun.
  - unfold AppA.handleToggleProduction.
    destruct (AppA.isPaused app); [constructor | apply updates_toggle].
  - constructor.
  - constructor.
  - unfold AppA.solvencyEffect in H.
    destruct (AppA.netEquity _); [|discriminate H]. cbn in H.
    destruct (_ && _); injection H as <-; constructor.
  - unfold AppA.takeLoan. destruct (_ || _); [constructor | apply updates_loan].
  - unfold AppA.handleRepay. destruct (AppA.isPaused app); [constructor | apply updates_repay].
Qed.

Lemma quietB_updates (app app' : AppB.App) :
  quietB app app' -> updates false (AppB.gameState app) (AppB.gameState app').
Proof.
  intros [id quantity app1 H|id app1 H|id app1 H|id|amount|app1 H].
  - unfold AppB.handleTrade in H.
    destruct (AppB.isGameOver app); [injection H as <-; constructor|].
    destruct (tradeUpdater _ _ _ _) as [[s r]|] eqn:Hrun; [|discriminate H].
    injection H as <-. eapply updates_trade. exact Hrun.
  - unfold AppB.handleUnlockFacility in H.
    destruct (findCommodity id) as [c|] eqn:Hc; [|discriminate H].
    injection H as <-. apply updates_unlock. exact Hc.
  - unfold AppB.handleUpgradeFacility in H.
    destruct (upgradeUpdater _ _) as [s|] eqn:Hrun; [|discriminate H].
    injection H as <-. eapply updates_upgrade. exact Hrun.
  - apply updates_toggle.
  - constructor.
  - unfold AppB.solvencyEffect in H.
    destruct (AppB.netEquity _); [|discriminate H]. cbn in H.
    destruct (_ && _); injection H as <-; constructor.
Qed.

Lemma anyB_updates (app app' : AppB.App) :
  anyB app app' -> updates false (AppB.gameState app) (AppB.gameState app').
Proof.
  intros [app1 H|amount|].
  - apply quietB_updates, H.
  - apply updates_loan.
  - apply updates_repay.
Qed.

Lemma updates_sale (s s' : GameState) : updates false s s' -> updates true s s'.
Proof.
  intros [|id q r r' s1 H|id c H|id s1 H|id s1 Hs H|id|amount|amount].
  - constructor.
  - eapply updates_trade; exact H.
  - apply updates_unlock; exact H.
  - eapply updates_upgrade; exact H.
  - discriminate Hs.
  - apply updates_toggle.
  - apply updates_loan.
  - apply updates_repay.
Qed.

(** ** What the updaters keep *)

Lemma wf_frame (s s' : GameState) :
  wf s -> prices s' = prices s -> inventory s' = inventory s ->
  (forall f, f ∈ facilities s' ->
     is_Some (findCommodity (ProductionFacility.commodityId f))) ->
  wf s'.
Proof.
  intros (H1 & H2 & _ & H4) HP Hinv Hfs. unfold wf. rewrite HP, Hinv.
  repeat split; assumption.
Qed.

Lemma elem_of_upgraded (id : string) (f' : ProductionFacility)
    (fs : list ProductionFacility) :
  f' ∈ upgraded id fs ->
  exists f, f ∈ fs
    /\ ProductionFacility.commodityId f' = ProductionFacility.commodityId f
    /\ (ProductionFacility.level f <= ProductionFacility.level f')%Z.
Proof.
  unfold upgraded. intros Hf. apply list_elem_of_fmap in Hf as (f & -> & Hf).
  exists f. split; [exact Hf|].
  destruct (String.eqb _ id); cbn; split; try reflexivity; lia.
Qed.

Lemma upgraded_ids (id : string) (fs : list ProductionFacility) :
  map ProductionFacility.commodityId (upgraded id fs)
  = map ProductionFacility.commodityId fs.
Proof.
  unfold upgraded. rewrite <- list_fmap_compose. apply list_fmap_ext.
  intros i f _. cbn. destruct (String.eqb _ id); reflexivity.
Qed.

Lemma toggled_keeps (id : string) (s : GameState) :
  map ProductionFacility.commodityId (facilities (toggleUpdater id s))
  = map ProductionFacility.commodityId (facilities s)
  /\ map ProductionFacility.level (facilities (toggleUpdater id s))
     = map ProductionFacility.level (facilities s).
Proof.
  unfold toggleUpdater. cbn [facilities withCashFacilities].
  rewrite <- !list_fmap_compose.
  split; apply list_fmap_ext; intros i f _; cbn; destruct (String.eqb _ id); reflexivity.
Qed.

Lemma updates_wf (sale : bool) (s s' : GameState) :
  updates sale s s' -> wf s -> wf s'.
Proof.
  intros [|id q r r' s1 H|id c H|id s1 H|id s1 _ H|id|amount|amount] Hwf.
  - exact Hwf.
  - exact (wf_traded _ _ _ _ _ _ Hwf H).
  - destruct (unlockUpdater_inv id (Commodity.basePrice c * 25) s)
      as [->|(_ & _ & _ & _ & Hinv & Hfs & _)]; [exact Hwf|].
    apply (wf_frame s); [exact Hwf | apply unlockUpdater_keeps | exact Hinv|].
    intros f Hf. rewrite Hfs in Hf. apply elem_of_app in Hf as [Hf|Hf].
    + apply Hwf, Hf.
    + apply list_elem_of_singleton in Hf as ->. cbn [ProductionFacility.commodityId].
      rewrite H. eexists; reflexivity.
  - pose proof (upgradeUpdater_keeps _ _ _ H) as [_ HP].
    apply upgradeUpdater_inv in H
      as [->|(facility & c & _ & _ & _ & _ & _ & Hinv & Hfs & _)]; [exact Hwf|].
    apply (wf_frame s); [exact Hwf | exact HP | exact Hinv|].
    intros f Hf. rewrite Hfs in Hf.
    apply elem_of_upgraded in Hf as (f0 & Hf0 & -> & _). apply Hwf, Hf0.
  - apply sellUpdater_inv in H as [->|(facility & c & _ & _ & ->)]; [exact Hwf|].
    apply wf_withCashFacilities; [exact Hwf|].
    intros f Hf. apply list_elem_of_filter in Hf as [_ Hf]. apply Hwf, Hf.
  - apply wf_withCashFacilities; [exact Hwf|].
    intros f Hf. apply list_elem_of_fmap in Hf as (f0 & -> & Hf0).
    assert (Hid : ProductionFacility.commodityId
                    (if String.eqb (ProductionFacility.commodityId f0) id
                     then ProductionFacility.mk (ProductionFacility.commodityId f0)
                            (ProductionFacility.level f0)
                            (negb (ProductionFacility.isProducing f0))
                            (ProductionFacility.progress f0)
                     else f0)
                  = ProductionFacility.commodityId f0)
      by (destruct (String.eqb _ id); reflexivity).
    rewrite Hid. apply Hwf, Hf0.
  - exact Hwf.
  - exact Hwf.
Qed.

Lemma traded_ids (id : string) (q : Z) (inv : list InventoryItem) :
  map InventoryItem.commodityId (traded id q inv) = map InventoryItem.commodityId inv.
Proof.
  unfold traded. rewrite <- list_fmap_compose. apply list_fmap_ext.
  intros i item _. cbn. destruct (String.eqb _ id); reflexivity.
Qed.

Lemma updates_inventory (sale : bool) (s s' : GameState) :
  updates sale s s' ->
  inventory s' = inventory s
  \/ exists id quantity,
       inventory s' = traded id quantity (inventory s)
       /\ ((quantity < 0)%Z ->
           exists item, ownedItem id (inventory s) = Some item
             /\ (Z.abs quantity <= InventoryItem.quantity item)%Z).
Proof.
  intros [|id q r r' s1 H|id c H|id s1 H|id s1 _ H|id|amount|amount].
  - left. reflexivity.
  - apply tradeUpdater_inv in H as [[-> _]|(price & _ & _ & Hsell & _ & _ & Hinv & _)].
    + left. reflexivity.
    + right. exists id, q. split; assumption.
  - left. unfold unlockUpdater. destruct (_ || _); reflexivity.
  - left. apply upgradeUpdater_inv in H
      as [->|(facility & c & _ & _ & _ & _ & _ & Hinv & _)]; [reflexivity | exact Hinv].
  - left. apply sellUpdater_inv in H as [->|(facility & c & _ & _ & ->)]; reflexivity.
  - left. reflexivity.
  - left. reflexivity.
  - left. reflexivity.
Qed.

(** ** Well-formed states stay well-formed and nothing throws in them *)

Lemma tickA_wf (app app' : AppA.App) (g g' : Rng) :
  wf (AppA.gameState app) -> AppA.tick app g = Some (app', g') ->
  wf (AppA.gameState app').
Proof.
  intros Hwf H.
  apply tickA_inv in H as (P & tax & ev & pr & g1 & g2 & Hm & _ & _ & Hp & ->).
  apply marketLogic_inv in Hm as [Hm _]. apply productionLogic_inv in Hp as [Hp _].
  cbn [AppA.gameState]. eapply wf_tickState; eassumption.
Qed.

Lemma tickB_wf (app app' : AppB.App) (g g' : Rng) :
  wf (AppB.gameState app) -> AppB.tick app g = Some (app', g') ->
  wf (AppB.gameState app').
Proof.
  intros Hwf H.
  apply tickB_inv in H as (P & tax & ev & pr & g1 & g2 & _ & _ & Hm & Hp & ->).
  apply marketLogic_inv in Hm as [Hm _]. apply productionLogic_inv in Hp as [Hp _].
  cbn [AppB.gameState]. eapply wf_tickState; eassumption.
Qed.

Lemma wf_no_errorA (app : AppA.App) : wf (AppA.gameState app) -> no_errorA app.
Proof.
  intros Hwf. pose proof Hwf as (Hprices & Hinv & Hfac & _). split; [|split].
  - intros g Hg. destruct (tickA_step app g Hwf Hg) as (app' & g' & -> & _).
    eexists; reflexivity.
  - unfold AppA.solvencyEffect, AppA.netEquity, AppA.inventoryValue,
      AppA.infrastructureValue.
    destruct (inventoryValueAt_total _ _ Hinv) as [iv ->].
    destruct (infrastructureValueOf_total _ Hfac) as [fv ->].
    eexists; reflexivity.
  - intros c Hc. repeat split.
    + intros quantity. unfold AppA.handleTrade.
      destruct (_ || _); [eexists; reflexivity|].
      destruct (tradeUpdater_total (Commodity.id c) quantity (AppA.gameState app)
                  (AppA.refs app) (Hprices c Hc)) as [[s r] ->].
      eexists; reflexivity.
    + unfold AppA.handleUnlockFacility.
      destruct (AppA.isPaused app); [eexists; reflexivity|].
      rewrite (findCommodity_catalog c Hc). eexists; reflexivity.
    + unfold AppA.handleUpgradeFacility.
      destruct (AppA.isPaused app); [eexists; reflexivity|].
      destruct (upgradeUpdater_total c (AppA.gameState app) Hc) as [s ->].
      eexists; reflexivity.
    + unfold AppA.handleSellFacility.
      destruct (AppA.isPaused app); [eexists; reflexivity|].
      destruct (sellUpdater_total c (AppA.gameState app) Hc) as [s ->].
      eexists; reflexivity.
Qed.

Lemma wf_no_errorB (app : AppB.App) : wf (AppB.gameState app) -> no_errorB app.
Proof.
  intros Hwf. pose proof Hwf as (Hprices & Hinv & Hfac & _). split; [|split].
  - intros g Hg. destruct (tickB_step app g Hwf Hg) as (app' & g' & -> & _).
    eexists; reflexivity.
  - unfold AppB.solvencyEffect, AppB.netEquity, AppB.inventoryValue.
    destruct (inventoryValueAt_total _ _ Hinv) as [iv ->].
    eexists; reflexivity.
  - intros c Hc. repeat split.
    + intros quantity. unfold AppB.handleTrade.
      destruct (AppB.isGameOver app); [eexists; reflexivity|].
      destruct (tradeUpdater_total (Commodity.id c) quantity (AppB.gameState app)
                  (AppB.refs app) (Hprices c Hc)) as [[s r] ->].
      eexists; reflexivity.
    + unfold AppB.handleUnlockFacility.
      rewrite (findCommodity_catalog c Hc). eexists; reflexivity.
    + unfold AppB.handleUpgradeFacility.
      destruct (upgradeUpdater_total c (AppB.gameState app) Hc) as [s ->].
      eexists; reflexivity.
Qed.

(** ** Stock and plant *)

Lemma traded_stocked (id : string) (q : Z) (inv : list InventoryItem) :
  NoDup (map InventoryItem.commodityId inv) -> stocked inv ->
  ((q < 0)%Z ->
   exists item, ownedItem id inv = Some item
     /\ (Z.abs q <= InventoryItem.quantity item)%Z) ->
  stocked (traded id q inv).
Proof.
  intros Hnd Hst Hsell. unfold stocked, traded. apply Forall_fmap, Forall_forall.
  intros item Hitem. cbn.
  pose proof (proj1 (Forall_forall _ _) Hst item Hitem) as Hq. cbn in Hq.
  destruct (String.eqb_spec (InventoryItem.commodityId item) id) as [Hid|Hid];
    [|exact Hq].
  cbn [InventoryItem.quantity].
  destruct (Z.lt_ge_cases q 0) as [Hneg|Hpos]; [|lia].
  destruct (Hsell Hneg) as (item0 & Hfind & Habs).
  pose proof (find_eqb_NoDup InventoryItem.commodityId inv item Hnd Hitem) as Hsame.
  rewrite Hid in Hsame. unfold ownedItem in Hfind. rewrite Hfind in Hsame.
  injection Hsame as ->. lia.
Qed.

Lemma updates_inventory_ok (sale : bool) (s s' : GameState) :
  updates sale s s' -> inventory_ok s -> inventory_ok s'.
Proof.
  intros Hup [Hnd Hst]. unfold inventory_ok.
  destruct (updates_inventory _ _ _ Hup) as [->|(id & q & -> & Hsell)].
  - split; assumption.
  - rewrite traded_ids. split; [exact Hnd|]. apply traded_stocked; assumption.
Qed.

Lemma plant_kept_inventory_ok (s s' : GameState) (production : Production) (h : bool) :
  productionLogic h s = Some production ->
  inventory s' = nextInventory production ->
  inventory_ok s -> inventory_ok s'.
Proof.
  intros Hp Hinv [Hnd Hst].
  apply productionLogic_inv in Hp as ((_ & Hids & _) & _ & _ & Hstock).
  unfold inventory_ok. rewrite Hinv, Hids. split; [exact Hnd | apply Hstock, Hst].
Qed.

Lemma tickA_inventory_ok (app app' : AppA.App) (g g' : Rng) :
  inventory_ok (AppA.gameState app) -> AppA.tick app g = Some (app', g') ->
  inventory_ok (AppA.gameState app').
Proof.
  intros Hok H. destruct (tickA_production _ _ _ _ H)
    as (tax & pr & g1 & g2 & _ & Hp & _ & Hinv & _).
  exact (plant_kept_inventory_ok _ _ _ _ Hp Hinv Hok).
Qed.

Lemma tickB_inventory_ok (app app' : AppB.App) (g g' : Rng) :
  inventory_ok (AppB.gameState app) -> AppB.tick app g = Some (app', g') ->
  inventory_ok (AppB.gameState app').
Proof.
  intros Hok H. destruct (tickB_production _ _ _ _ H)
    as (tax & pr & g1 & _ & Hp & _ & Hinv & _).
  exact (plant_kept_inventory_ok _ _ _ _ Hp Hinv Hok).
Qed.

Lemma inventory_ok_never_short (s : GameState) : inventory_ok s -> never_short s.
Proof.
  intros [_ Hst] id. unfold owned.
  destruct (ownedItem id (inventory s)) as [item|] eqn:Hitem; [|lia].
  apply find_eqb_Some in Hitem as [Hitem _].
  exact (proj1 (Forall_forall _ _) Hst item Hitem).
Qed.

Lemma inventory_ok_initial (rate : Q) : inventory_ok (initialGameState rate).
Proof.
  split.
  - cbn [inventory initialGameState]. rewrite <- list_fmap_compose.
    exact COMMODITIES_NoDup.
  - cbn [inventory initialGameState]. apply Forall_fmap, Forall_forall.
    intros c _. cbn. lia.
Qed.

Lemma same_levels (fs fs' : list ProductionFacility) :
  map ProductionFacility.level fs' = map ProductionFacility.level fs ->
  Forall (fun f => (1 <= ProductionFacility.level f)%Z) fs ->
  Forall (fun f => (1 <= ProductionFacility.level f)%Z) fs'.
Proof.
  intros Heq Hlv. apply Forall_forall. intros f Hf.
  assert (Hin : ProductionFacility.level f ∈ map ProductionFacility.level fs')
    by (apply (list_elem_of_fmap_2 ProductionFacility.level); exact Hf).
  rewrite Heq in Hin. apply list_elem_of_fmap in Hin as (f0 & -> & Hf0).
  exact (proj1 (Forall_forall _ _) Hlv f0 Hf0).
Qed.

Lemma plant_kept_plant_ok (s s' : GameState) :
  plant_kept s s' -> plant_ok s -> plant_ok s'.
Proof.
  intros (Hids & Hlevels & _) [Hnd Hlv]. unfold plant_ok. rewrite Hids.
  split; [exact Hnd | exact (same_levels _ _ Hlevels Hlv)].
Qed.

Lemma updates_plant_ok (sale : bool) (s s' : GameState) :
  updates sale s s' -> plant_ok s -> plant_ok s'.
Proof.
  intros [|id q r r' s1 H|id c H|id s1 H|id s1 _ H|id|amount|amount] [Hnd Hlv].
  - split; assumption.
  - apply tradeUpdater_inv in H as [[-> _]|(price & _ & _ & _ & _ & _ & _ & Hfs & _)];
      unfold plant_ok; [|rewrite Hfs]; split; assumption.
  - destruct (unlockUpdater_inv id (Commodity.basePrice c * 25) s)
      as [->|(_ & Hnone & _ & _ & _ & Hfs & _)]; [split; assumption|].
    unfold plant_ok. rewrite Hfs. split.
    + rewrite fmap_app. apply NoDup_app. split; [exact Hnd|]. split.
      * intros x Hx Hin. apply list_elem_of_singleton in Hin. subst x.
        apply hasFacility_ids in Hnone. exact (Hnone Hx).
      * apply NoDup_singleton.
    + apply Forall_app. split; [exact Hlv|]. apply Forall_singleton. cbn. lia.
  - apply upgradeUpdater_inv in H
      as [->|(facility & c & _ & _ & _ & _ & _ & _ & Hfs & _)]; [split; assumption|].
    unfold plant_ok. rewrite Hfs, upgraded_ids. split; [exact Hnd|].
    apply Forall_forall. intros f Hf.
    apply elem_of_upgraded in Hf as (f0 & Hf0 & _ & Hle).
    pose proof (proj1 (Forall_forall _ _) Hlv f0 Hf0) as H0. cbn in H0. lia.
  - apply sellUpdater_inv in H as [->|(facility & c & _ & _ & ->)]; [split; assumption|].
    unfold plant_ok. cbn [facilities withCashFacilities]. split.
    + apply (sublist_NoDup _ (map ProductionFacility.commodityId (facilities s)));
        [exact Hnd|].
      apply fmap_sublist, sublist_filter.
    + apply Forall_forall. intros f Hf. apply list_elem_of_filter in Hf as [_ Hf].
      exact (proj1 (Forall_forall _ _) Hlv f Hf).
  - unfold plant_ok. destruct (toggled_keeps id s) as [Hids Hlevels].
    rewrite Hids. split; [exact Hnd | exact (same_levels _ _ Hlevels Hlv)].
  - split; assumption.
  - split; assumption.
Qed.

(** ** Properties of sessions *)

(** X12.  From a well-formed state, such as the initial one, every
    session leads to a well-formed state, and in a well-formed state
    nothing throws: the tick returns for every random source in [0, 1),
    the solvency effect computes the net equity, and trade, unlock,
    upgrade and sale return for every commodity of the catalog and every
    quantity.  In both versions (version B has no sale). *)
Theorem nothing_throws_in_a_session (n : nat) (g : Rng)
    (appA : AppA.App) (appB : AppB.App) :
  wf (AppA.gameState appA) -> wf (AppB.gameState appB) ->
  (forall app' g', run AppA.tick anyA n appA g app' g' ->
     wf (AppA.gameState app') /\ no_errorA app')
  /\ (forall app' g', run AppB.tick anyB n appB g app' g' ->
        wf (AppB.gameState app') /\ no_errorB app').
Proof.
  intros HwfA HwfB. split.
  - intros app' g' Hrun.
    assert (Hwf : wf (AppA.gameState app')).
    { apply (run_keeps AppA.tick anyA (fun _ => True)
               (fun app => wf (AppA.gameState app))
               (fun _ _ _ _ _ _ => I)) with n appA g g'; trivial.
      - intros app app1 g0 g1 _. apply tickA_wf.
      - intros app app1 Hact. exact (updates_wf _ _ _ (anyA_updates _ _ Hact)). }
    split; [exact Hwf | exact (wf_no_errorA _ Hwf)].
  - intros app' g' Hrun.
    assert (Hwf : wf (AppB.gameState app')).
    { apply (run_keeps AppB.tick anyB (fun _ => True)
               (fun app => wf (AppB.gameState app))
               (fun _ _ _ _ _ _ => I)) with n appB g g'; trivial.
      - intros app app1 g0 g1 _. apply tickB_wf.
      - intros app app1 Hact. exact (updates_wf _ _ _ (anyB_updates _ _ Hact)). }
    split; [exact Hwf | exact (wf_no_errorB _ Hwf)].
Qed.

Lemma nothing_throws_in_a_session_witness :
  (forall app' g', run AppA.tick anyA 3 AppA.initialApp (constantRng 0.5) app' g' ->
     wf (AppA.gameState app') /\ no_errorA app')
  /\ (forall app' g', run AppB.tick anyB 3 AppB.initialApp (constantRng 0.5) app' g' ->
        wf (AppB.gameState app') /\ no_errorB app').
Proof.
  apply (nothing_throws_in_a_session 3 (constantRng 0.5) AppA.initialApp AppB.initialApp).
  - apply wf_initial.
  - apply wf_initial.
Defined.

(** X13.  When every commodity has one inventory item at most and no
    quantity is negative, as in the initial state, this stays so through
    every session: a sale that exceeds the stock is rejected, nothing
    else takes from the inventory, and so no owned quantity is ever
    negative.  From a well-formed state [n] ticks return such a state.
    In both versions. *)
Theorem stock_is_never_negative (n : nat) (g : Rng)
    (appA : AppA.App) (appB : AppB.App) :
  valid_rng g -> wf (AppA.gameState appA) -> wf (AppB.gameState appB) ->
  inventory_ok (AppA.gameState appA) -> inventory_ok (AppB.gameState appB) ->
  (exists app' g', AppA.ticks n appA g = Some (app', g')
     /\ inventory_ok (AppA.gameState app') /\ never_short (AppA.gameState app'))
  /\ (exists app' g', AppB.ticks n appB g = Some (app', g')
        /\ inventory_ok (AppB.gameState app') /\ never_short (AppB.gameState app'))
  /\ (forall anyApp anyG app' g',
        inventory_ok (AppA.gameState anyApp) ->
        run AppA.tick anyA n anyApp anyG app' g' ->
        inventory_ok (AppA.gameState app') /\ never_short (AppA.gameState app'))
  /\ (forall anyApp anyG app' g',
        inventory_ok (AppB.gameState anyApp) ->
        run AppB.tick anyB n anyApp anyG app' g' ->
        inventory_ok (AppB.gameState app') /\ never_short (AppB.gameState app')).
Proof.
  intros Hg HwfA HwfB HokA HokB.
  assert (HA : forall anyApp anyG app' g',
             inventory_ok (AppA.gameState anyApp) ->
             run AppA.tick anyA n anyApp anyG app' g' ->
             inventory_ok (AppA.gameState app') /\ never_short (AppA.gameState app')).
  { intros anyApp anyG app' g' Hok Hrun.
    assert (Hok' : inventory_ok (AppA.gameState app')).
    { apply (run_keeps AppA.tick anyA (fun _ => True)
               (fun app => inventory_ok (AppA.gameState app))
               (fun _ _ _ _ _ _ => I)) with n anyApp anyG g'; trivial.
      - intros app app1 g0 g1 _. apply tickA_inventory_ok.
      - intros app app1 Hact.
        exact (updates_inventory_ok _ _ _ (anyA_updates _ _ Hact)). }
    split; [exact Hok' | exact (inventory_ok_never_short _ Hok')]. }
  assert (HB : forall anyApp anyG app' g',
             inventory_ok (AppB.gameState anyApp) ->
             run AppB.tick anyB n anyApp anyG app' g' ->
             inventory_ok (AppB.gameState app') /\ never_short (AppB.gameState app')).
  { intros anyApp anyG app' g' Hok Hrun.
    assert (Hok' : inventory_ok (AppB.gameState app')).
    { apply (run_keeps AppB.tick anyB (fun _ => True)
               (fun app => inventory_ok (AppB.gameState app))
               (fun _ _ _ _ _ _ => I)) with n anyApp anyG g'; trivial.
      - intros app app1 g0 g1 _. apply tickB_inventory_ok.
      - intros app app1 Hact.
        exact (updates_inventory_ok _ _ _ (anyB_updates _ _ Hact)). }
    split; [exact Hok' | exact (inventory_ok_never_short _ Hok')]. }
  split; [|split; [|split; assumption]].
  - destruct (ticksA_facts n appA g HwfA Hg) as (app' & g' & Hticks & _).
    exists app', g'. split; [exact Hticks|].
    exact (HA appA g app' g' HokA (ticksA_run anyA n _ _ _ _ Hticks)).
  - destruct (ticksB_facts n appB g HwfB Hg) as (app' & g' & Hticks & _).
    exists app', g'. split; [exact Hticks|].
    exact (HB appB g app' g' HokB (ticksB_run anyB n _ _ _ _ Hticks)).
Qed.

Lemma stock_is_never_negative_witness :
  (exists app' g', AppA.ticks 3 producerAppA (constantRng 0.5) = Some (app', g')
     /\ inventory_ok (AppA.gameState app') /\ never_short (AppA.gameState app'))
  /\ (exists app' g', AppB.ticks 3 producerAppB (constantRng 0.5) = Some (app', g')
        /\ inventory_ok (AppB.gameState app') /\ never_short (AppB.gameState app')).
Proof.
  destruct (stock_is_never_negative 3 (constantRng 0.5) producerAppA producerAppB)
    as (HA & HB & _).
  - apply constantRng_valid; lra.
  - apply wf_producer.
  - apply wf_producer.
  - apply inventory_ok_initial.
  - apply inventory_ok_initial.
  - split; [exact HA | exact HB].
Defined.

(** X14.  When every commodity has one facility at most and every
    facility is at level 1 or above, as in the initial state, which has
    none, this stays so through every session: a second unlock of a
    commodity is rejected, an upgrade only raises a level, and a tick
    changes neither the facilities nor their levels.  From a
    well-formed state [n] ticks return such a state.  In both
    versions. *)
Theorem one_facility_per_commodity (n : nat) (g : Rng)
    (appA : AppA.App) (appB : AppB.App) :
  valid_rng g -> wf (AppA.gameState appA) -> wf (AppB.gameState appB) ->
  plant_ok (AppA.gameState appA) -> plant_ok (AppB.gameState appB) ->
  (exists app' g', AppA.ticks n appA g = Some (app', g')
     /\ plant_ok (AppA.gameState app'))
  /\ (exists app' g', AppB.ticks n appB g = Some (app', g')
        /\ plant_ok (AppB.gameState app'))
  /\ (forall anyApp anyG app' g',
        plant_ok (AppA.gameState anyApp) ->
        run AppA.tick anyA n anyApp anyG app' g' ->
        plant_ok (AppA.gameState app'))
  /\ (forall anyApp anyG app' g',
        plant_ok (AppB.gameState anyApp) ->
        run AppB.tick anyB n anyApp anyG app' g' ->
        plant_ok (AppB.gameState app')).
Proof.
  intros Hg HwfA HwfB HokA HokB.
  assert (HA : forall anyApp anyG app' g',
             plant_ok (AppA.gameState anyApp) ->
             run AppA.tick anyA n anyApp anyG app' g' ->
             plant_ok (AppA.gameState app')).
  { intros anyApp anyG app' g' Hok Hrun.
    apply (run_keeps AppA.tick anyA (fun _ => True)
             (fun app => plant_ok (AppA.gameState app))
             (fun _ _ _ _ _ _ => I)) with n anyApp anyG g'; trivial.
    - intros app app1 g0 g1 _ Hp Htick.
      exact (plant_kept_plant_ok _ _ (tickA_plant_kept _ _ _ _ Htick) Hp).
    - intros app app1 Hact.
      exact (updates_plant_ok _ _ _ (anyA_updates _ _ Hact)). }
  assert (HB : forall anyApp anyG app' g',
             plant_ok (AppB.gameState anyApp) ->
             run AppB.tick anyB n anyApp anyG app' g' ->
             plant_ok (AppB.gameState app')).
  { intros anyApp anyG app' g' Hok Hrun.
    apply (run_keeps AppB.tick anyB (fun _ => True)
             (fun app => plant_ok (AppB.gameState app))
             (fun _ _ _ _ _ _ => I)) with n anyApp anyG g'; trivial.
    - intros app app1 g0 g1 _ Hp Htick.
      exact (plant_kept_plant_ok _ _ (tickB_plant_kept _ _ _ _ Htick) Hp).
    - intros app app1 Hact.
      exact (updates_plant_ok _ _ _ (anyB_updates _ _ Hact)). }
  split; [|split; [|split; assumption]].
  - destruct (ticksA_facts n appA g HwfA Hg) as (app' & g' & Hticks & _).
    exists app', g'. split; [exact Hticks|].
    exact (HA appA g app' g' HokA (ticksA_run anyA n _ _ _ _ Hticks)).
  - destruct (ticksB_facts n appB g HwfB Hg) as (app' & g' & Hticks & _).
    exists app', g'. split; [exact Hticks|].
    exact (HB appB g app' g' HokB (ticksB_run anyB n _ _ _ _ Hticks)).
Qed.

Lemma plant_ok_producer :
  plant_ok (AppA.gameState producerAppA) /\ plant_ok (AppB.gameState producerAppB).
Proof.
  assert (H : NoDup (map ProductionFacility.commodityId twoPlants)
              /\ Forall (fun f => (1 <= ProductionFacility.level f)%Z) twoPlants).
  { split.
    - cbn. apply NoDup_cons. split.
      + intros Hin. apply list_elem_of_singleton in Hin. discriminate Hin.
      + apply NoDup_singleton.
    - unfold twoPlants. repeat constructor; cbn; lia. }
  split; exact H.
Qed.

Lemma one_facility_per_commodity_witness :
  (exists app' g', AppA.ticks 3 producerAppA (constantRng 0.5) = Some (app', g')
     /\ plant_ok (AppA.gameState app'))
  /\ (exists app' g', AppB.ticks 3 producerAppB (constantRng 0.5) = Some (app', g')
        /\ plant_ok (AppB.gameState app')).
Proof.
  destruct (one_facility_per_commodity 3 (constantRng 0.5) producerAppA producerAppB)
    as (HA & HB & _).
  - apply constantRng_valid; lra.
  - apply wf_producer.
  - apply wf_producer.
  - apply plant_ok_producer.
  - apply plant_ok_producer.
  - split; [exact HA | exact HB].
Defined.

(** ** Upgrade, sale and the buttons of the cards *)

Lemma facilityOf_upgraded (id : string) (fs : list ProductionFacility)
    (facility : ProductionFacility) :
  facilityOf id fs = Some facility ->
  facilityOf id (upgraded id fs)
  = Some (ProductionFacility.mk (ProductionFacility.commodityId facility)
            (ProductionFacility.level facility + 1)
            (ProductionFacility.isProducing facility)
            (ProductionFacility.progress facility)).
Proof.
  unfold facilityOf, upgraded. induction fs as [|f fs IH]; [discriminate|].
  cbn [List.find map].
  destruct (String.eqb (ProductionFacility.commodityId f) id) eqn:Hid.
  - intros [= <-]. cbn [ProductionFacility.commodityId]. rewrite Hid. reflexivity.
  - rewrite Hid. exact IH.
Qed.

Lemma upgradeUpdater_accepts (c : Commodity) (s : GameState)
    (facility : ProductionFacility) :
  c ∈ COMMODITIES ->
  facilityOf (Commodity.id c) (facilities s) = Some facility ->
  ProductionPanel.upgradeCost c (Some facility) <= cash s ->
  exists s',
    upgradeUpdater (Commodity.id c) s = Some s'
    /\ cash s' = cash s - ProductionPanel.upgradeCost c (Some facility)
    /\ facilities s' = upgraded (Commodity.id c) (facilities s)
    /\ totalUpgrades (lifetime s')
       = totalUpgrades (lifetime s) + ProductionPanel.upgradeCost c (Some facility)
    /\ debt s' = debt s /\ inventory s' = inventory s /\ prices s' = prices s.
Proof.
  intros Hc Hfac Hcost. unfold upgradeUpdater.
  rewrite Hfac, (findCommodity_catalog c Hc). cbn [mbind option_bind].
  apply Qltb_false in Hcost.
  unfold ProductionPanel.upgradeCost, ProductionPanel.unlockCost in Hcost.
  rewrite Hcost. eexists. split; [reflexivity|]. repeat split.
Qed.

Lemma upgrade_contract_of_updater {App : Type} (gameState : App -> GameState)
    (handleUpgradeFacility : string -> App -> option App)
    (wrap : GameState -> App) (c : Commodity) (facility : ProductionFacility)
    (app : App) :
  handleUpgradeFacility (Commodity.id c) app
  = wrap <$> upgradeUpdater (Commodity.id c) (gameState app) ->
  (forall s, gameState (wrap s) = s) ->
  c ∈ COMMODITIES ->
  facilityOf (Commodity.id c) (facilities (gameState app)) = Some facility ->
  ProductionPanel.upgradeCost c (Some facility) <= cash (gameState app) ->
  upgrade_contract gameState handleUpgradeFacility c facility app.
Proof.
  intros Hhandler Hproj Hc Hfac Hcost.
  destruct (upgradeUpdater_accepts c (gameState app) facility Hc Hfac Hcost)
    as (s' & Hrun & Hcash & Hfs & Hup & Hdebt & Hinv & HP).
  exists (wrap s'). rewrite Hhandler, Hrun, Hproj. split; [reflexivity|].
  split; [exact Hcash|]. split; [exact Hfs|].
  split; [rewrite Hfs; exact (facilityOf_upgraded _ _ _ Hfac)|].
  repeat split; assumption.
Qed.

Lemma facilityOf_sold (id : string) (fs : list ProductionFacility) :
  facilityOf id (filter (fun f => ProductionFacility.commodityId f ≠ id) fs) = None.
Proof.
  apply find_eqb_None. intros Hin.
  apply list_elem_of_fmap in Hin as (f & Hid & Hf).
  apply list_elem_of_filter in Hf as [Hne _]. exact (Hne (eq_sym Hid)).
Qed.

Lemma filter_others (id : string) (fs : list ProductionFacility) :
  hasFacility id fs = false ->
  filter (fun f => ProductionFacility.commodityId f ≠ id) fs = fs.
Proof.
  intros Hnone. apply hasFacility_ids in Hnone.
  induction fs as [|f fs IH]; [reflexivity|].
  assert (Hf : ProductionFacility.commodityId f ≠ id).
  { intros Heq. apply Hnone. cbn [map]. rewrite Heq. left. }
  rewrite filter_cons_True by exact Hf. f_equal.
  apply IH. intros Hin. apply Hnone. right. exact Hin.
Qed.

Lemma facilityOf_built (id : string) (fs : list ProductionFacility)
    (f : ProductionFacility) :
  hasFacility id fs = false -> ProductionFacility.commodityId f = id ->
  facilityOf id (fs ++ [f]) = Some f.
Proof.
  intros Hnone Hid. apply facilityOf_None in Hnone. unfold facilityOf in *.
  induction fs as [|f0 fs IH]; cbn [app List.find] in *.
  - rewrite Hid, String.eqb_refl. reflexivity.
  - destruct (String.eqb (ProductionFacility.commodityId f0) id); [discriminate Hnone|].
    apply IH, Hnone.
Qed.

Lemma toggle_twice (id : string) (fs : list ProductionFacility) :
  map (fun f =>
         if String.eqb (ProductionFacility.commodityId f) id
         then ProductionFacility.mk (ProductionFacility.commodityId f)
                (ProductionFacility.level f)
                (negb (ProductionFacility.isProducing f))
                (ProductionFacility.progress f)
         else f)
      (map (fun f =>
              if String.eqb (ProductionFacility.commodityId f) id
              then ProductionFacility.mk (ProductionFacility.commodityId f)
                     (ProductionFacility.level f)
                     (negb (ProductionFacility.isProducing f))
                     (ProductionFacility.progress f)
              else f) fs)
  = fs.
Proof.
  induction fs as [|f fs IH]; [reflexivity|]. cbn [map]. rewrite IH. f_equal.
  destruct f as [cid level on progress]. cbn.
  destruct (String.eqb cid id) eqn:Hid; cbn; rewrite Hid; [|reflexivity].
  rewrite negb_involutive. reflexivity.
Qed.

Lemma toggleUpdater_twice (id : string) (s : GameState) :
  toggleUpdater id (toggleUpdater id s) = s.
Proof.
  destruct s. unfold toggleUpdater, withCashFacilities. cbn.
  rewrite toggle_twice. reflexivity.
Qed.

Lemma maxBuyable_top (cash : Q) (marketData : MarketPrice) :
  let p := MarketPrice.currentPrice marketData in
  0 < p -> 0 <= cash -> cash < inject_Z (2 ^ 53) * p ->
  Binary64.round cash == cash -> Binary64.round p == p ->
  exists top : Z,
    CommodityCard.maxAmount cash marketData = Number.Finite (inject_Z top)
    /\ inject_Z top <= cash / p + 0.5.
Proof.
  intros p Hpos Hcash Hbound Hc64 Hp64.
  unfold CommodityCard.maxAmount, CommodityCard.maxBuyable, Number.div64.
  cbn [Number.round Number.div]. fold p.
  destruct (Qeq_bool (Binary64.round p) 0) eqn:Hz.
  { apply Qeq_bool_iff in Hz. lra. }
  cbn [Number.round Number.floor].
  set (q := Binary64.round cash / Binary64.round p).
  assert (Hq : q == cash / p) by (unfold q; rewrite Hc64, Hp64; reflexivity).
  exists (Qfloor (Binary64.round q)). split; [reflexivity|].
  assert (Hq0 : 0 <= q).
  { rewrite Hq. apply Qle_shift_div_l; [exact Hpos | lra]. }
  assert (Hq1 : q < inject_Z (2 ^ 53)).
  { rewrite Hq. apply Qlt_shift_div_r; [exact Hpos | exact Hbound]. }
  pose proof (Qfloor_le (Binary64.round q)) as Hfl.
  pose proof (round_upper q Hq0 Hq1) as Hup.
  rewrite <- Hq. lra.
Qed.

Lemma slider_contract_of_updater {App : Type} (gameState : App -> GameState)
    (handleTrade : string -> Z -> App -> option App)
    (wrap : GameState -> CycleRefs -> App) (refs : CycleRefs)
    (c : Commodity) (app : App) :
  (forall quantity,
     handleTrade (Commodity.id c) quantity app
     = '(s, r) ← tradeUpdater (Commodity.id c) quantity (gameState app) refs;
       Some (wrap s r)) ->
  (forall s r, gameState (wrap s r) = s) ->
  wf (gameState app) -> c ∈ COMMODITIES ->
  slider_contract gameState handleTrade c app.
Proof.
  intros Hhandler Hproj (Hprices & _ & _ & Hitems) Hc.
  destruct (Hprices c Hc) as [price Hprice].
  exists price. split; [exact Hprice|]. cbv zeta.
  assert (Hgoes : forall tradeAmount : Z,
            ((0 < tradeAmount)%Z ->
             inject_Z tradeAmount * MarketPrice.currentPrice price
             <= cash (gameState app)) ->
            ((tradeAmount < 0)%Z ->
             (- tradeAmount <= owned (Commodity.id c) (inventory (gameState app)))%Z) ->
            goes_through gameState handleTrade c (MarketPrice.currentPrice price)
              tradeAmount app).
  { intros tradeAmount Hbuy Hsell. unfold goes_through, CommodityCard.handleTrade.
    destruct (Z.eqb_spec tradeAmount 0) as [->|Hne].
    - exists app. split; [reflexivity|]. split; [|lia].
      change (inject_Z 0) with 0. ring.
    - destruct (tradeUpdater_accepts (Commodity.id c) tradeAmount (gameState app) refs
                  price Hprice Hbuy Hsell) as (s' & refs' & Hrun & Hcash' & Hinv' & _).
      exists (wrap s' refs'). rewrite Hhandler, Hrun. cbn [mbind option_bind].
      split; [reflexivity|]. rewrite Hproj, Hcash', Hinv'.
      split; [reflexivity|]. apply owned_traded_same, Hitems, Hc. }
  split.
  - intros tradeAmount [Hmin Hmax]. unfold CommodityCard.minAmount in Hmin.
    apply Hgoes; intros; lia.
  - intros Hpos Hcash Hbound Hc64 Hp64.
    destruct (maxBuyable_top (cash (gameState app)) price Hpos Hcash Hbound Hc64 Hp64)
      as (top & Htop & Hle).
    exists top. split; [exact Htop|].
    intros tradeAmount [Hlo Hhi]. apply Hgoes; [intros _|intros; lia].
    assert (Hamount : inject_Z tradeAmount
                      <= cash (gameState app) / MarketPrice.currentPrice price).
    { assert (Hstep : inject_Z tradeAmount <= inject_Z top - 1).
      { apply Qplus_le_l with 1. ring_simplify.
        change 1 with (inject_Z 1). rewrite <- inject_Z_plus, <- Zle_Qle. lia. }
      lra. }
    assert (Hcash' : cash (gameState app)
                     == cash (gameState app) / MarketPrice.currentPrice price
                        * MarketPrice.currentPrice price) by (field; lra).
    rewrite Hcash'. apply Qmult_le_compat_r; [exact Hamount | lra].
Qed.

(** The top of the slider can be refused.  With a cash of 3.9 and a
    price of 1.3 the binary64 quotient is 3, and three units cost more
    than the cash; at the start of the game the top for oil is 62. *)
Lemma slider_top_can_be_refused :
  let marketData :=
    MarketPrice.mk "gas" (Binary64.round 1.3) [Binary64.round 1.3] stable in
  CommodityCard.maxAmount (Binary64.round 3.9) marketData = Number.Finite 3
  /\ Binary64.round 3.9 < 3 * MarketPrice.currentPrice marketData
  /\ CommodityCard.maxAmount INITIAL_CASH (MarketPrice.mk "oil" 80 [80] stable)
     = Number.Finite 62.
Proof. repeat split; vm_compute; reflexivity. Qed.

(** The refund for a facility that was never upgraded is at most 70% of
    the unlock cost, for every commodity of the catalog: the binary64
    product [unlockCost * 0.7] lies at or just below the exact one. *)
Lemma refund_of_new_facility (c : Commodity) :
  c ∈ COMMODITIES ->
  inject_Z (Math.floor (Binary64.mul (ProductionPanel.unlockCost c) 0.7))
  <= ProductionPanel.unlockCost c * 0.7.
Proof.
  intros Hc.
  repeat (apply elem_of_cons in Hc as [->|Hc]; [vm_compute; discriminate|]).
  apply elem_of_nil in Hc. destruct Hc.
Qed.

Lemma handleSellFacility_pays (c : Commodity) (facility : ProductionFacility)
    (app : AppA.App) :
  c ∈ COMMODITIES -> AppA.isPaused app = false ->
  facilityOf (Commodity.id c) (facilities (AppA.gameState app)) = Some facility ->
  exists app',
    AppA.handleSellFacility (Commodity.id c) app = Some app'
    /\ cash (AppA.gameState app')
       = cash (AppA.gameState app) + ProductionPanel.sellValue c (Some facility)
    /\ facilities (AppA.gameState app')
       = filter (fun f => ProductionFacility.commodityId f ≠ Commodity.id c)
                (facilities (AppA.gameState app))
    /\ facilityOf (Commodity.id c) (facilities (AppA.gameState app')) = None
    /\ lifetime (AppA.gameState app') = lifetime (AppA.gameState app)
    /\ debt (AppA.gameState app') = debt (AppA.gameState app)
    /\ inventory (AppA.gameState app') = inventory (AppA.gameState app)
    /\ prices (AppA.gameState app') = prices (AppA.gameState app).
Proof.
  intros Hc Hpaused Hfac. unfold AppA.handleSellFacility, AppA.sellUpdater.
  rewrite Hpaused, Hfac, (findCommodity_catalog c Hc). cbn [mbind option_bind].
  rewrite <- sellValue_refund. eexists. split; [reflexivity|].
  cbn [AppA.gameState AppA.setGameState withCashFacilities cash facilities lifetime
       debt inventory prices].
  split; [reflexivity|]. split; [reflexivity|].
  split; [apply facilityOf_sold|]. repeat split.
Qed.

(** ** Properties of the player actions *)

(** X15.  Whenever the upgrade button of a facility panel is enabled,
    the upgrade goes through: [handleUpgradeFacility] debits exactly the
    cost the panel shows, [Math.floor(basePrice * 25 * 1.8^level)], books
    it under the lifetime upgrades, raises the level of that facility
    by one and leaves its progress and switch, the debt, the inventory
    and the prices as they are.  In both versions, each with its own
    panel. *)
Theorem enabled_upgrade_goes_through (c : Commodity)
    (facilityA facilityB : ProductionFacility) (appA : AppA.App) (appB : AppB.App) :
  c ∈ COMMODITIES ->
  facilityOf (Commodity.id c) (facilities (AppA.gameState appA)) = Some facilityA ->
  facilityOf (Commodity.id c) (facilities (AppB.gameState appB)) = Some facilityB ->
  ProductionPanel.upgradeDisabled c (Some facilityA) (cash (AppA.gameState appA))
    (AppA.isPaused appA) = false ->
  ProductionPanel.upgradeDisabled0 c (Some facilityB) (cash (AppB.gameState appB))
  = false ->
  upgrade_contract AppA.gameState AppA.handleUpgradeFacility c facilityA appA
  /\ upgrade_contract AppB.gameState AppB.handleUpgradeFacility c facilityB appB.
Proof.
  intros Hc HfacA HfacB HenA HenB.
  unfold ProductionPanel.upgradeDisabled in HenA.
  apply orb_false_elim in HenA as [HcostA HpausedA]. apply Qltb_false in HcostA.
  unfold ProductionPanel.upgradeDisabled0 in HenB. apply Qltb_false in HenB.
  split.
  - apply (upgrade_contract_of_updater AppA.gameState AppA.handleUpgradeFacility
             (fun s => AppA.setGameState s appA)); try assumption.
    + unfold AppA.handleUpgradeFacility. rewrite HpausedA.
      destruct (upgradeUpdater _ _); reflexivity.
    + reflexivity.
  - apply (upgrade_contract_of_updater AppB.gameState AppB.handleUpgradeFacility
             (fun s => AppB.setGameState s appB)); try assumption.
    + unfold AppB.handleUpgradeFacility.
      destruct (upgradeUpdater _ _); reflexivity.
    + reflexivity.
Qed.

Lemma enabled_upgrade_goes_through_witness :
  upgrade_contract AppA.gameState AppA.handleUpgradeFacility oil
    (ProductionFacility.mk "oil" 1 true 40) producerAppA
  /\ upgrade_contract AppB.gameState AppB.handleUpgradeFacility oil
       (ProductionFacility.mk "oil" 1 true 40) producerAppB.
Proof.
  apply (enabled_upgrade_goes_through oil (ProductionFacility.mk "oil" 1 true 40)
           (ProductionFacility.mk "oil" 1 true 40) producerAppA producerAppB).
  - apply oil_in_catalog.
  - reflexivity.
  - reflexivity.
  - vm_compute. reflexivity.
  - vm_compute. reflexivity.
Defined.

(** X16.  In version A, when the game is not paused, selling the
    facility of a catalog commodity pays exactly the value its panel
    shows, [Math.floor(totalInvested * 0.7)] of the binary64 product,
    with [totalInvested] the unlock cost plus the cost of every upgrade
    made (3919 for an oil field at level 2); the facility is
    removed, the commodity has none afterwards, and the lifetime
    figures, the debt, the inventory and the prices stay as they are:
    the proceeds of a sale are not booked. *)
Theorem sale_pays_the_displayed_value (c : Commodity) (facility : ProductionFacility)
    (app : AppA.App) :
  c ∈ COMMODITIES -> AppA.isPaused app = false ->
  facilityOf (Commodity.id c) (facilities (AppA.gameState app)) = Some facility ->
  exists app',
    AppA.handleSellFacility (Commodity.id c) app = Some app'
    /\ cash (AppA.gameState app')
       = cash (AppA.gameState app) + ProductionPanel.sellValue c (Some facility)
    /\ facilities (AppA.gameState app')
       = filter (fun f => ProductionFacility.commodityId f ≠ Commodity.id c)
                (facilities (AppA.gameState app))
    /\ facilityOf (Commodity.id c) (facilities (AppA.gameState app')) = None
    /\ lifetime (AppA.gameState app') = lifetime (AppA.gameState app)
    /\ debt (AppA.gameState app') = debt (AppA.gameState app)
    /\ inventory (AppA.gameState app') = inventory (AppA.gameState app)
    /\ prices (AppA.gameState app') = prices (AppA.gameState app).
Proof. apply handleSellFacility_pays. Qed.

Lemma sale_pays_the_displayed_value_witness :
  exists app',
    AppA.handleSellFacility (Commodity.id oil) producerAppA = Some app'
    /\ cash (AppA.gameState app')
       = cash (AppA.gameState producerAppA)
         + ProductionPanel.sellValue oil (Some (ProductionFacility.mk "oil" 1 true 40))
    /\ facilities (AppA.gameState app')
       = filter (fun f => ProductionFacility.commodityId f ≠ Commodity.id oil)
                (facilities (AppA.gameState producerAppA))
    /\ facilityOf (Commodity.id oil) (facilities (AppA.gameState app')) = None
    /\ lifetime (AppA.gameState app') = lifetime (AppA.gameState producerAppA)
    /\ debt (AppA.gameState app') = debt (AppA.gameState producerAppA)
    /\ inventory (AppA.gameState app') = inventory (AppA.gameState producerAppA)
    /\ prices (AppA.gameState app') = prices (AppA.gameState producerAppA).
Proof.
  apply (sale_pays_the_displayed_value oil (ProductionFacility.mk "oil" 1 true 40)
           producerAppA).
  - apply oil_in_catalog.
  - reflexivity.
  - reflexivity.
Defined.

(** X17.  In version A, building a facility and selling it at once
    brings back the facilities as they were, with the debt, the
    inventory and the prices, and costs the player 30% of the unlock
    cost or more: the cash is the old cash less the unlock cost plus
    [Math.floor(unlockCost * 0.7)], the floor of the binary64 product,
    which for no commodity of the catalog exceeds 70% of the unlock
    cost (for beef it is 7874 of 11250). *)
Theorem build_then_sell_costs_30_percent (c : Commodity) (app : AppA.App) :
  c ∈ COMMODITIES -> AppA.isPaused app = false ->
  ProductionPanel.buildDisabled c (cash (AppA.gameState app)) (AppA.isPaused app)
  = false ->
  facilityOf (Commodity.id c) (facilities (AppA.gameState app)) = None ->
  exists app1 app2,
    AppA.handleUnlockFacility (Commodity.id c) app = Some app1
    /\ AppA.handleSellFacility (Commodity.id c) app1 = Some app2
    /\ facilities (AppA.gameState app2) = facilities (AppA.gameState app)
    /\ cash (AppA.gameState app2)
       = cash (AppA.gameState app) - ProductionPanel.unlockCost c
         + inject_Z (Math.floor (Binary64.mul (ProductionPanel.unlockCost c) 0.7))
    /\ cash (AppA.gameState app2)
       <= cash (AppA.gameState app) - ProductionPanel.unlockCost c * 0.3
    /\ debt (AppA.gameState app2) = debt (AppA.gameState app)
    /\ inventory (AppA.gameState app2) = inventory (AppA.gameState app)
    /\ prices (AppA.gameState app2) = prices (AppA.gameState app).
Proof.
  intros Hc Hpaused Hen Hnone.
  unfold ProductionPanel.buildDisabled in Hen.
  apply orb_false_elim in Hen as [Hcost _]. apply Qltb_false in Hcost.
  apply facilityOf_None in Hnone.
  destruct (unlockA_contract c app Hc Hpaused) as [_ Hbuild].
  destruct (Hbuild Hcost Hnone) as (app1 & Hunlock & Hcash1 & Hfs1 & Hdebt1 & Hinv1 & HP1).
  assert (Hpaused1 : AppA.isPaused app1 = false).
  { unfold AppA.handleUnlockFacility in Hunlock.
    rewrite Hpaused, (findCommodity_catalog c Hc) in Hunlock.
    injection Hunlock as <-. exact Hpaused. }
  assert (Hfac1 : facilityOf (Commodity.id c) (facilities (AppA.gameState app1))
                  = Some (ProductionFacility.mk (Commodity.id c) 1 true 0)).
  { rewrite Hfs1. apply facilityOf_built; [exact Hnone | reflexivity]. }
  destruct (handleSellFacility_pays c _ app1 Hc Hpaused1 Hfac1)
    as (app2 & Hsell & Hcash2 & Hfs2 & _ & _ & Hdebt2 & Hinv2 & HP2).
  exists app1, app2. split; [exact Hunlock|]. split; [exact Hsell|].
  split.
  { rewrite Hfs2, Hfs1, filter_app, (filter_others _ _ Hnone).
    rewrite filter_cons_False by (intros Hne; apply Hne; reflexivity).
    rewrite filter_nil. apply app_nil_r. }
  assert (Hvalue : ProductionPanel.sellValue c
                     (Some (ProductionFacility.mk (Commodity.id c) 1 true 0))
                   = inject_Z (Math.floor
                                 (Binary64.mul (ProductionPanel.unlockCost c) 0.7)))
    by reflexivity.
  split; [rewrite Hcash2, Hcash1, Hvalue; reflexivity|].
  split.
  { rewrite Hcash2, Hcash1, Hvalue.
    pose proof (refund_of_new_facility c Hc) as Hfloor.
    fold (ProductionPanel.unlockCost c). lra. }
  split; [rewrite Hdebt2; exact Hdebt1|].
  split; [rewrite Hinv2; exact Hinv1 | rewrite HP2; exact HP1].
Qed.

Lemma build_then_sell_costs_30_percent_witness :
  exists app1 app2,
    AppA.handleUnlockFacility (Commodity.id oil) AppA.initialApp = Some app1
    /\ AppA.handleSellFacility (Commodity.id oil) app1 = Some app2
    /\ facilities (AppA.gameState app2) = facilities (AppA.gameState AppA.initialApp)
    /\ cash (AppA.gameState app2)
       = cash (AppA.gameState AppA.initialApp) - ProductionPanel.unlockCost oil
         + inject_Z (Math.floor (Binary64.mul (ProductionPanel.unlockCost oil) 0.7))
    /\ cash (AppA.gameState app2)
       <= cash (AppA.gameState AppA.initialApp) - ProductionPanel.unlockCost oil * 0.3
    /\ debt (AppA.gameState app2) = debt (AppA.gameState AppA.initialApp)
    /\ inventory (AppA.gameState app2) = inventory (AppA.gameState AppA.initialApp)
    /\ prices (AppA.gameState app2) = prices (AppA.gameState AppA.initialApp).
Proof.
  apply (build_then_sell_costs_30_percent oil AppA.initialApp).
  - apply oil_in_catalog.
  - reflexivity.
  - vm_compute. reflexivity.
  - reflexivity.
Defined.

(** X18.  While version A is paused no handler changes anything: trade,
    unlock, upgrade, sale, production toggle, loan and repayment all
    return the application state they were given, whatever their
    arguments, also for a commodity that does not exist.  After game
    over a trade returns the state it was given, in both versions. *)
Theorem paused_or_over_nothing_moves (pausedA overA : AppA.App) (overB : AppB.App) :
  AppA.isPaused pausedA = true ->
  AppA.isGameOver overA = true -> AppB.isGameOver overB = true ->
  ((forall id quantity, AppA.handleTrade id quantity pausedA = Some pausedA)
   /\ (forall id, AppA.handleUnlockFacility id pausedA = Some pausedA)
   /\ (forall id, AppA.handleUpgradeFacility id pausedA = Some pausedA)
   /\ (forall id, AppA.handleSellFacility id pausedA = Some pausedA)
   /\ (forall id, AppA.handleToggleProduction id pausedA = pausedA)
   /\ (forall amount, AppA.takeLoan amount pausedA = pausedA)
   /\ AppA.handleRepay pausedA = pausedA)
  /\ (forall id quantity, AppA.handleTrade id quantity overA = Some overA)
  /\ (forall id quantity, AppB.handleTrade id quantity overB = Some overB).
Proof.
  intros Hpaused HoverA HoverB. split; [|split].
  - repeat split.
    + intros id quantity. unfold AppA.handleTrade. rewrite Hpaused, orb_true_r. reflexivity.
    + intros id. unfold AppA.handleUnlockFacility. rewrite Hpaused. reflexivity.
    + intros id. unfold AppA.handleUpgradeFacility. rewrite Hpaused. reflexivity.
    + intros id. unfold AppA.handleSellFacility. rewrite Hpaused. reflexivity.
    + intros id. unfold AppA.handleToggleProduction. rewrite Hpaused. reflexivity.
    + intros amount. unfold AppA.takeLoan. rewrite Hpaused, orb_true_r. reflexivity.
    + unfold AppA.handleRepay. rewrite Hpaused. reflexivity.
  - intros id quantity. unfold AppA.handleTrade. rewrite HoverA. reflexivity.
  - intros id quantity. unfold AppB.handleTrade. rewrite HoverB. reflexivity.
Qed.

Lemma paused_or_over_nothing_moves_witness :
  ((forall id quantity,
      AppA.handleTrade id quantity (AppA.togglePause AppA.initialApp)
      = Some (AppA.togglePause AppA.initialApp))
   /\ (forall id, AppA.handleUnlockFacility id (AppA.togglePause AppA.initialApp)
                  = Some (AppA.togglePause AppA.initialApp))
   /\ (forall id, AppA.handleUpgradeFacility id (AppA.togglePause AppA.initialApp)
                  = Some (AppA.togglePause AppA.initialApp))
   /\ (forall id, AppA.handleSellFacility id (AppA.togglePause AppA.initialApp)
                  = Some (AppA.togglePause AppA.initialApp))
   /\ (forall id, AppA.handleToggleProduction id (AppA.togglePause AppA.initialApp)
                  = AppA.togglePause AppA.initialApp)
   /\ (forall amount, AppA.takeLoan amount (AppA.togglePause AppA.initialApp)
                      = AppA.togglePause AppA.initialApp)
   /\ AppA.handleRepay (AppA.togglePause AppA.initialApp)
      = AppA.togglePause AppA.initialApp)
  /\ (forall id quantity, AppA.handleTrade id quantity overAppA = Some overAppA)
  /\ (forall id quantity, AppB.handleTrade id quantity overAppB = Some overAppB).
Proof.
  apply (paused_or_over_nothing_moves (AppA.togglePause AppA.initialApp)
           overAppA overAppB).
  - reflexivity.
  - reflexivity.
  - reflexivity.
Defined.

(** X19.  Toggling the production of a commodity twice gives back the
    very state: the second toggle undoes the first, for every facility
    of that commodity, and nothing else is touched.  In both
    versions. *)
Theorem toggle_twice_restores (id : string) (appA : AppA.App) (appB : AppB.App) :
  AppA.handleToggleProduction id (AppA.handleToggleProduction id appA) = appA
  /\ AppB.handleToggleProduction id (AppB.handleToggleProduction id appB) = appB.
Proof.
  split.
  - unfold AppA.handleToggleProduction. destruct (AppA.isPaused appA) eqn:Hpaused.
    + rewrite Hpaused. reflexivity.
    + cbn [AppA.isPaused AppA.setGameState AppA.gameState]. rewrite Hpaused.
      rewrite toggleUpdater_twice. destruct appA. cbn in *. subst. reflexivity.
  - unfold AppB.handleToggleProduction, AppB.setGameState.
    cbn [AppB.gameState]. rewrite toggleUpdater_twice. destruct appB. reflexivity.
Qed.

(** X20.  A repayment of an amount on the slider, from 0 to the lesser
    of cash and debt at the moment of the click, leaves neither cash
    nor debt negative, leaves cash less debt as it was, and resets the
    slider to 0; repaying the whole debt clears it.  In both versions
    (version A when not paused). *)
Theorem repayment_on_the_slider_is_safe (appA : AppA.App) (appB : AppB.App) :
  AppA.isPaused appA = false ->
  0 <= AppA.repayAmount appA -> AppA.repayAmount appA <= AppA.maxRepayable appA ->
  0 <= AppB.repayAmount appB -> AppB.repayAmount appB <= AppB.maxRepayable appB ->
  (0 <= cash (AppA.gameState (AppA.handleRepay appA))
   /\ 0 <= debt (AppA.gameState (AppA.handleRepay appA))
   /\ cash (AppA.gameState (AppA.handleRepay appA))
      - debt (AppA.gameState (AppA.handleRepay appA))
      == cash (AppA.gameState appA) - debt (AppA.gameState appA)
   /\ AppA.repayAmount (AppA.handleRepay appA) = 0
   /\ (AppA.repayAmount appA == debt (AppA.gameState appA) ->
       debt (AppA.gameState (AppA.handleRepay appA)) == 0))
  /\ (0 <= cash (AppB.gameState (AppB.handleRepay appB))
      /\ 0 <= debt (AppB.gameState (AppB.handleRepay appB))
      /\ cash (AppB.gameState (AppB.handleRepay appB))
         - debt (AppB.gameState (AppB.handleRepay appB))
         == cash (AppB.gameState appB) - debt (AppB.gameState appB)
      /\ AppB.repayAmount (AppB.handleRepay appB) = 0
      /\ (AppB.repayAmount appB == debt (AppB.gameState appB) ->
          debt (AppB.gameState (AppB.handleRepay appB)) == 0)).
Proof.
  intros Hpaused HloA HhiA HloB HhiB.
  unfold AppA.maxRepayable, Math.min in HhiA. unfold AppB.maxRepayable, Math.min in HhiB.
  pose proof (Q.le_min_l (cash (AppA.gameState appA)) (debt (AppA.gameState appA))).
  pose proof (Q.le_min_r (cash (AppA.gameState appA)) (debt (AppA.gameState appA))).
  pose proof (Q.le_min_l (cash (AppB.gameState appB)) (debt (AppB.gameState appB))).
  pose proof (Q.le_min_r (cash (AppB.gameState appB)) (debt (AppB.gameState appB))).
  split.
  - unfold AppA.handleRepay. rewrite Hpaused.
    cbn [AppA.gameState AppA.repayAmount repayUpdater withCashDebt cash debt].
    repeat split; lra.
  - unfold AppB.handleRepay.
    cbn [AppB.gameState AppB.repayAmount repayUpdater withCashDebt cash debt].
    repeat split; lra.
Qed.

Lemma repayment_on_the_slider_is_safe_witness :
  (0 <= cash (AppA.gameState (AppA.handleRepay repayingAppA))
   /\ 0 <= debt (AppA.gameState (AppA.handleRepay repayingAppA))
   /\ cash (AppA.gameState (AppA.handleRepay repayingAppA))
      - debt (AppA.gameState (AppA.handleRepay repayingAppA))
      == cash (AppA.gameState repayingAppA) - debt (AppA.gameState repayingAppA)
   /\ AppA.repayAmount (AppA.handleRepay repayingAppA) = 0
   /\ (AppA.repayAmount repayingAppA == debt (AppA.gameState repayingAppA) ->
       debt (AppA.gameState (AppA.handleRepay repayingAppA)) == 0))
  /\ (0 <= cash (AppB.gameState (AppB.handleRepay repayingAppB))
      /\ 0 <= debt (AppB.gameState (AppB.handleRepay repayingAppB))
      /\ cash (AppB.gameState (AppB.handleRepay repayingAppB))
         - debt (AppB.gameState (AppB.handleRepay repayingAppB))
         == cash (AppB.gameState repayingAppB) - debt (AppB.gameState repayingAppB)
      /\ AppB.repayAmount (AppB.handleRepay repayingAppB) = 0
      /\ (AppB.repayAmount repayingAppB == debt (AppB.gameState repayingAppB) ->
          debt (AppB.gameState (AppB.handleRepay repayingAppB)) == 0)).
Proof.
  apply (repayment_on_the_slider_is_safe repayingAppA repayingAppB).
  - reflexivity.
  - vm_compute. discriminate.
  - vm_compute. discriminate.
  - vm_compute. discriminate.
  - vm_compute. discriminate.
Defined.

(** X21.  On the card of a catalog commodity, in a running game, every
    sale on the trade slider, from minus the owned quantity up to 0,
    goes through when the button is pressed.  The top of the slider is
    [Math.floor(cash / currentPrice)], the floor of the binary64
    quotient; with cash and price binary64 values, the price above 0
    and the quotient below 2^53, every purchase below that top goes
    through.  A trade that goes through moves the cash by amount times
    price and the owned quantity by the amount, and leaves the amount
    of the card at 0.  In both versions. *)
Theorem amounts_below_the_slider_top_trade (c : Commodity)
    (appA : AppA.App) (appB : AppB.App) :
  c ∈ COMMODITIES ->
  wf (AppA.gameState appA) -> wf (AppB.gameState appB) ->
  AppA.isGameOver appA = false -> AppA.isPaused appA = false ->
  AppB.isGameOver appB = false ->
  slider_contract AppA.gameState AppA.handleTrade c appA
  /\ slider_contract AppB.gameState AppB.handleTrade c appB.
Proof.
  intros Hc HwfA HwfB HoverA HpausedA HoverB. split.
  - apply (slider_contract_of_updater AppA.gameState AppA.handleTrade
             (fun s r => AppA.mkApp s (AppA.isGameOver appA) (AppA.isPaused appA)
                           (AppA.repayAmount appA) (AppA.lastTaxPaid appA) r)
             (AppA.refs appA)); try assumption.
    + intros quantity. unfold AppA.handleTrade. rewrite HoverA, HpausedA. reflexivity.
    + reflexivity.
  - apply (slider_contract_of_updater AppB.gameState AppB.handleTrade
             (fun s r => AppB.mkApp s (AppB.isGameOver appB) (AppB.repayAmount appB)
                           (AppB.showTaxAlert appB) r)
             (AppB.refs appB)); try assumption.
    + intros quantity. unfold AppB.handleTrade. rewrite HoverB. reflexivity.
    + reflexivity.
Qed.

Lemma amounts_below_the_slider_top_trade_witness :
  (forall tradeAmount : Z,
     (0 < tradeAmount < 62)%Z ->
     goes_through AppA.gameState AppA.handleTrade oil 80 tradeAmount AppA.initialApp)
  /\ slider_contract AppB.gameState AppB.handleTrade oil AppB.initialApp.
Proof.
  destruct (amounts_below_the_slider_top_trade oil AppA.initialApp AppB.initialApp)
    as [HA HB].
  - apply oil_in_catalog.
  - apply wf_initial.
  - apply wf_initial.
  - reflexivity.
  - reflexivity.
  - reflexivity.
  - split; [|exact HB].
    destruct HA as (marketData & Hprice & _ & Hbuy).
    assert (Hoil : marketData = MarketPrice.mk "oil" 80 [80] stable).
    { vm_compute in Hprice. injection Hprice as <-. reflexivity. }
    subst marketData. cbv zeta in Hbuy.
    destruct Hbuy as (top & Htop & Hgoes).
    + vm_compute. reflexivity.
    + vm_compute. discriminate.
    + vm_compute. reflexivity.
    + vm_compute. reflexivity.
    + vm_compute. reflexivity.
    + assert (Hvalue : CommodityCard.maxAmount (cash (AppA.gameState AppA.initialApp))
                         (MarketPrice.mk "oil" 80 [80] stable)
                       = Number.Finite 62) by (vm_compute; reflexivity).
      rewrite Hvalue in Htop. injection Htop as <-. exact Hgoes.
Defined.

(** ** Sums computed by [forEach] and [reduce] *)

Section Sums.

Context {A : Type} (F : Q -> A -> option Q) (val : A -> option Q).

Hypothesis F_adds : forall acc x, F acc x = (fun v => acc + v) <$> val x.

Lemma forEachO_shift (xs : list A) :
  forall a r b, forEachO F xs a = Some r ->
    exists r', forEachO F xs b = Some r' /\ r' - b == r - a.
Proof.
  induction xs as [|x xs IH]; intros a r b Hrun; cbn [forEachO] in *.
  - injection Hrun as <-. exists b. split; [reflexivity | ring].
  - rewrite F_adds in *. destruct (val x) as [v|]; [|discriminate Hrun].
    cbn [fmap option_fmap option_map] in *.
    destruct (IH _ _ (b + v) Hrun) as (r' & Hrun' & Heq).
    exists r'. split; [exact Hrun'|]. lra.
Qed.

Lemma forEachO_app (xs ys : list A) (a : Q) :
  forEachO F (xs ++ ys) a
  = match forEachO F xs a with
    | Some b => forEachO F ys b
    | None => None
    end.
Proof.
  revert a. induction xs as [|x xs IH]; intros a; cbn [app forEachO]; [reflexivity|].
  destruct (F a x); [apply IH | reflexivity].
Qed.

End Sums.

Lemma inventory_adds (P : gmap string MarketPrice) (acc : Q) (item : InventoryItem) :
  (price ← P !! InventoryItem.commodityId item;
   Some (acc + inject_Z (InventoryItem.quantity item) * MarketPrice.currentPrice price))
  = (fun v => acc + v)
    <$> ((fun price => inject_Z (InventoryItem.quantity item)
                       * MarketPrice.currentPrice price)
         <$> P !! InventoryItem.commodityId item).
Proof. destruct (P !! _); reflexivity. Qed.

Lemma infrastructure_adds (acc : Q) (f : ProductionFacility) :
  (commodity ← findCommodity (ProductionFacility.commodityId f);
   Some (acc + totalInvested commodity (ProductionFacility.level f)))
  = (fun v => acc + v)
    <$> ((fun commodity => totalInvested commodity (ProductionFacility.level f))
         <$> findCommodity (ProductionFacility.commodityId f)).
Proof. destruct (findCommodity _); reflexivity. Qed.

Lemma traded_absent (id : string) (q : Z) (inv : list InventoryItem) :
  id ∉ map InventoryItem.commodityId inv -> traded id q inv = inv.
Proof.
  intros Hno. unfold traded. induction inv as [|item inv IH]; [reflexivity|].
  cbn [map]. destruct (String.eqb_spec (InventoryItem.commodityId item) id) as [Hid|Hid].
  - destruct Hno. cbn [map]. rewrite Hid. left.
  - f_equal. apply IH. intros Hin. apply Hno. right. exact Hin.
Qed.

Lemma forEachO_traded (P : gmap string MarketPrice) (id : string) (q : Z)
    (price : MarketPrice) (inv : list InventoryItem) :
  P !! id = Some price ->
  forall a : Q,
  NoDup (map InventoryItem.commodityId inv) ->
  id ∈ map InventoryItem.commodityId inv ->
  forall iv,
    forEachO (fun acc item =>
                price ← P !! InventoryItem.commodityId item;
                Some (acc + inject_Z (InventoryItem.quantity item)
                            * MarketPrice.currentPrice price)) inv a = Some iv ->
    exists iv',
      forEachO (fun acc item =>
                  price ← P !! InventoryItem.commodityId item;
                  Some (acc + inject_Z (InventoryItem.quantity item)
                              * MarketPrice.currentPrice price))
               (traded id q inv) a = Some iv'
      /\ iv' == iv + inject_Z q * MarketPrice.currentPrice price.
Proof.
  intros Hprice.
  induction inv as [|item inv IH]; intros a Hnd Hin iv Hrun.
  - apply elem_of_nil in Hin. destruct Hin.
  - cbn [map] in Hnd. apply NoDup_cons in Hnd as [Hfresh Hnd].
    cbn [traded map forEachO] in *. fold (traded id q inv).
    destruct (String.eqb_spec (InventoryItem.commodityId item) id) as [Hid|Hid].
    + cbn [InventoryItem.commodityId InventoryItem.quantity].
      rewrite Hid, Hprice in *. cbn [mbind option_bind] in *.
      rewrite traded_absent by exact Hfresh.
      destruct (forEachO_shift _ _ (inventory_adds P) inv _ _
                  (a + inject_Z (InventoryItem.quantity item + q)
                       * MarketPrice.currentPrice price) Hrun) as (iv' & Hrun' & Heq).
      exists iv'. split; [exact Hrun'|]. rewrite inject_Z_plus in Heq. lra.
    + destruct (P !! InventoryItem.commodityId item) as [price0|]; [|discriminate Hrun].
      cbn [mbind option_bind] in *.
      apply (IH _ Hnd); [|exact Hrun].
      cbn [map] in Hin. apply elem_of_cons in Hin as [Hin|Hin]; [congruence | exact Hin].
Qed.

Lemma inventoryValueAt_traded (P : gmap string MarketPrice) (id : string) (q : Z)
    (price : MarketPrice) (inv : list InventoryItem) :
  P !! id = Some price ->
  NoDup (map InventoryItem.commodityId inv) ->
  id ∈ map InventoryItem.commodityId inv ->
  forall iv, inventoryValueAt P inv = Some iv ->
    exists iv', inventoryValueAt P (traded id q inv) = Some iv'
      /\ iv' == iv + inject_Z q * MarketPrice.currentPrice price.
Proof. intros Hprice. exact (forEachO_traded P id q price inv Hprice 0). Qed.

Lemma totalInvested_next (c : Commodity) (level : Z) :
  (1 <= level)%Z ->
  totalInvested c (level + 1)
  = totalInvested c level
    + inject_Z (Math.floor (Commodity.basePrice c * 25 * Math.pow 1.8 level)).
Proof.
  intros Hlevel. unfold totalInvested.
  replace (level + 1 - 1)%Z with ((level - 1) + 1)%Z by lia.
  rewrite seqZ_app by lia. rewrite foldl_app.
  replace (1 + (level - 1))%Z with level by lia. reflexivity.
Qed.

Lemma upgraded_absent (id : string) (fs : list ProductionFacility) :
  id ∉ map ProductionFacility.commodityId fs -> upgraded id fs = fs.
Proof.
  intros Hno. unfold upgraded. induction fs as [|f fs IH]; [reflexivity|].
  cbn [map]. destruct (String.eqb_spec (ProductionFacility.commodityId f) id) as [Hid|Hid].
  - destruct Hno. cbn [map]. rewrite Hid. left.
  - f_equal. apply IH. intros Hin. apply Hno. right. exact Hin.
Qed.

Lemma forEachO_upgraded (id : string) (c : Commodity)
    (facility : ProductionFacility) (fs : list ProductionFacility) :
  findCommodity id = Some c ->
  forall a : Q,
  NoDup (map ProductionFacility.commodityId fs) ->
  Forall (fun f => (1 <= ProductionFacility.level f)%Z) fs ->
  facilityOf id fs = Some facility ->
  forall fv,
    forEachO (fun acc facility =>
                commodity ← findCommodity (ProductionFacility.commodityId facility);
                Some (acc + totalInvested commodity (ProductionFacility.level facility)))
             fs a = Some fv ->
    exists fv',
      forEachO (fun acc facility =>
                  commodity ← findCommodity (ProductionFacility.commodityId facility);
                  Some (acc + totalInvested commodity
                                (ProductionFacility.level facility)))
               (upgraded id fs) a = Some fv'
      /\ fv' == fv + ProductionPanel.upgradeCost c (Some facility).
Proof.
  intros Hc. unfold facilityOf.
  induction fs as [|f fs IH]; intros a Hnd Hlv Hfac fv Hrun; [discriminate Hfac|].
  cbn [map] in Hnd. apply NoDup_cons in Hnd as [Hfresh Hnd].
  apply Forall_cons in Hlv as [Hlevel Hlv].
  cbn [upgraded map forEachO List.find] in *. fold (upgraded id fs).
  destruct (String.eqb_spec (ProductionFacility.commodityId f) id) as [Hid|Hid].
  - injection Hfac as <-.
    cbn [ProductionFacility.commodityId ProductionFacility.level].
    rewrite Hid, Hc in *. cbn [mbind option_bind] in *.
    rewrite upgraded_absent by exact Hfresh.
    destruct (forEachO_shift _ _ infrastructure_adds fs _ _
                (a + totalInvested c (ProductionFacility.level f + 1)) Hrun)
      as (fv' & Hrun' & Heq).
    exists fv'. split; [exact Hrun'|].
    rewrite (totalInvested_next c _ Hlevel) in Heq.
    unfold ProductionPanel.upgradeCost, ProductionPanel.unlockCost. lra.
  - destruct (findCommodity (ProductionFacility.commodityId f)) as [c0|];
      [|discriminate Hrun].
    cbn [mbind option_bind] in *.
    exact (IH _ Hnd Hlv Hfac fv Hrun).
Qed.

Lemma infrastructureValueOf_upgraded (id : string) (c : Commodity)
    (facility : ProductionFacility) (fs : list ProductionFacility) :
  findCommodity id = Some c ->
  NoDup (map ProductionFacility.commodityId fs) ->
  Forall (fun f => (1 <= ProductionFacility.level f)%Z) fs ->
  facilityOf id fs = Some facility ->
  forall fv, infrastructureValueOf fs = Some fv ->
    exists fv', infrastructureValueOf (upgraded id fs) = Some fv'
      /\ fv' == fv + ProductionPanel.upgradeCost c (Some facility).
Proof. intros Hc. exact (forEachO_upgraded id c facility fs Hc 0). Qed.

Lemma infrastructureValueOf_built (id : string) (c : Commodity)
    (fs : list ProductionFacility) (fv : Q) :
  findCommodity id = Some c ->
  infrastructureValueOf fs = Some fv ->
  infrastructureValueOf (fs ++ [ProductionFacility.mk id 1 true 0])
  = Some (fv + Commodity.basePrice c * 25).
Proof.
  intros Hc Hfv. unfold infrastructureValueOf in *.
  rewrite forEachO_app, Hfv. cbn [forEachO].
  cbn [ProductionFacility.commodityId ProductionFacility.level].
  rewrite Hc. cbn [mbind option_bind]. rewrite totalInvested_low by lia. reflexivity.
Qed.

(** ** Net equity under the player actions *)

Lemma wf_values (s : GameState) :
  wf s ->
  exists iv fv,
    inventoryValueAt (prices s) (inventory s) = Some iv
    /\ infrastructureValueOf (facilities s) = Some fv.
Proof.
  intros (_ & Hinv & Hfac & _).
  destruct (inventoryValueAt_total _ _ Hinv) as [iv Hiv].
  destruct (infrastructureValueOf_total _ Hfac) as [fv Hfv].
  exists iv, fv. split; assumption.
Qed.

Lemma traded_value (id : string) (quantity : Z) (s s' : GameState)
    (refs refs' : CycleRefs) (iv : Q) :
  wf s -> inventory_ok s -> id ∈ map InventoryItem.commodityId (inventory s) ->
  tradeUpdater id quantity s refs = Some (s', refs') ->
  inventoryValueAt (prices s) (inventory s) = Some iv ->
  exists iv',
    inventoryValueAt (prices s') (inventory s') = Some iv'
    /\ cash s' + iv' == cash s + iv
    /\ facilities s' = facilities s /\ debt s' = debt s.
Proof.
  intros Hwf [Hnd _] Hin Hrun Hiv.
  pose proof (tradeUpdater_keeps _ _ _ _ _ _ Hrun) as [_ HP].
  apply tradeUpdater_inv in Hrun
    as [[-> _]|(price & Hprice & _ & _ & Hcash & Hdebt & Hinv & Hfs & _)].
  - exists iv. split; [exact Hiv|]. repeat split; reflexivity.
  - destruct (inventoryValueAt_traded _ id quantity price _ Hprice Hnd Hin iv Hiv)
      as (iv' & Hiv' & Heq).
    exists iv'. rewrite HP, Hinv, Hcash. split; [exact Hiv'|].
    split; [rewrite Heq; ring|]. split; assumption.
Qed.

Lemma catalog_item (c : Commodity) (s : GameState) :
  wf s -> c ∈ COMMODITIES -> Commodity.id c ∈ map InventoryItem.commodityId (inventory s).
Proof. intros (_ & _ & _ & Hitems) Hc. apply ownedItem_is_Some, Hitems, Hc. Qed.

Lemma tradeA_keeps_equity (c : Commodity) (quantity : Z) (app app' : AppA.App) :
  c ∈ COMMODITIES -> wf (AppA.gameState app) -> inventory_ok (AppA.gameState app) ->
  AppA.handleTrade (Commodity.id c) quantity app = Some app' ->
  equity_kept AppA.netEquity (AppA.gameState app) (AppA.gameState app').
Proof.
  intros Hc Hwf Hok H. destruct (wf_values _ Hwf) as (iv & fv & Hiv & Hfv).
  unfold equity_kept, AppA.netEquity, AppA.inventoryValue, AppA.infrastructureValue.
  rewrite Hiv, Hfv. cbn [mbind option_bind].
  unfold AppA.handleTrade in H. destruct (_ || _).
  - injection H as <-. rewrite Hiv, Hfv. eexists _, _.
    split; [reflexivity|]. split; reflexivity.
  - destruct (tradeUpdater _ _ _ _) as [[s r]|] eqn:Hrun; [|discriminate H].
    injection H as <-. cbn [AppA.gameState].
    destruct (traded_value _ _ _ _ _ _ iv Hwf Hok (catalog_item c _ Hwf Hc) Hrun Hiv)
      as (iv' & Hiv' & Heq & Hfs & Hdebt).
    rewrite Hiv', Hfs, Hfv, Hdebt. cbn [mbind option_bind].
    eexists _, _. split; [reflexivity|]. split; [reflexivity|]. lra.
Qed.

Lemma tradeB_keeps_equity (c : Commodity) (quantity : Z) (app app' : AppB.App) :
  c ∈ COMMODITIES -> wf (AppB.gameState app) -> inventory_ok (AppB.gameState app) ->
  AppB.handleTrade (Commodity.id c) quantity app = Some app' ->
  equity_kept AppB.netEquity (AppB.gameState app) (AppB.gameState app').
Proof.
  intros Hc Hwf Hok H. destruct (wf_values _ Hwf) as (iv & fv & Hiv & Hfv).
  unfold equity_kept, AppB.netEquity, AppB.inventoryValue.
  rewrite Hiv. cbn [mbind option_bind].
  unfold AppB.handleTrade in H. destruct (AppB.isGameOver app).
  - injection H as <-. rewrite Hiv. eexists _, _.
    split; [reflexivity|]. split; reflexivity.
  - destruct (tradeUpdater _ _ _ _) as [[s r]|] eqn:Hrun; [|discriminate H].
    injection H as <-. cbn [AppB.gameState].
    destruct (traded_value _ _ _ _ _ _ iv Hwf Hok (catalog_item c _ Hwf Hc) Hrun Hiv)
      as (iv' & Hiv' & Heq & Hfs & Hdebt).
    rewrite Hiv', Hdebt. cbn [mbind option_bind].
    eexists _, _. split; [reflexivity|]. split; [reflexivity|]. lra.
Qed.

Lemma credit_keeps_equityA (s : GameState) (c d : Q) :
  wf s -> c - d == cash s - debt s ->
  equity_kept AppA.netEquity s (withCashDebt s c d).
Proof.
  intros Hwf Heq. destruct (wf_values _ Hwf) as (iv & fv & Hiv & Hfv).
  unfold equity_kept, AppA.netEquity, AppA.inventoryValue, AppA.infrastructureValue.
  cbn [withCashDebt prices inventory facilities cash debt].
  rewrite Hiv, Hfv. cbn [mbind option_bind].
  eexists _, _. split; [reflexivity|]. split; [reflexivity|]. lra.
Qed.

Lemma credit_keeps_equityB (s : GameState) (c d : Q) :
  wf s -> c - d == cash s - debt s ->
  equity_kept AppB.netEquity s (withCashDebt s c d).
Proof.
  intros Hwf Heq. destruct (wf_values _ Hwf) as (iv & fv & Hiv & Hfv).
  unfold equity_kept, AppB.netEquity, AppB.inventoryValue.
  cbn [withCashDebt prices inventory facilities cash debt].
  rewrite Hiv. cbn [mbind option_bind].
  eexists _, _. split; [reflexivity|]. split; [reflexivity|]. lra.
Qed.

Lemma equity_kept_refl (netEquity : GameState -> option Q) (s : GameState) :
  is_Some (netEquity s) -> equity_kept netEquity s s.
Proof. intros [e He]. exists e, e. split; [exact He|]. split; [exact He | reflexivity]. Qed.

Lemma netEquityA_is_Some (s : GameState) : wf s -> is_Some (AppA.netEquity s).
Proof.
  intros Hwf. destruct (wf_values _ Hwf) as (iv & fv & Hiv & Hfv).
  unfold AppA.netEquity, AppA.inventoryValue, AppA.infrastructureValue.
  rewrite Hiv, Hfv. eexists; reflexivity.
Qed.

Lemma netEquityB_is_Some (s : GameState) : wf s -> is_Some (AppB.netEquity s).
Proof.
  intros Hwf. destruct (wf_values _ Hwf) as (iv & fv & Hiv & Hfv).
  unfold AppB.netEquity, AppB.inventoryValue.
  rewrite Hiv. eexists; reflexivity.
Qed.

Lemma unlock_keeps_equityA (c : Commodity) (s : GameState) :
  c ∈ COMMODITIES -> wf s ->
  equity_kept AppA.netEquity s
    (unlockUpdater (Commodity.id c) (Commodity.basePrice c * 25) s).
Proof.
  intros Hc Hwf.
  destruct (unlockUpdater_inv (Commodity.id c) (Commodity.basePrice c * 25) s)
    as [->|(_ & _ & Hcash & Hdebt & Hinv & Hfs & _)];
    [apply equity_kept_refl, netEquityA_is_Some, Hwf|].
  destruct (wf_values _ Hwf) as (iv & fv & Hiv & Hfv).
  unfold equity_kept, AppA.netEquity, AppA.inventoryValue, AppA.infrastructureValue.
  rewrite (proj2 (unlockUpdater_keeps _ _ _)), Hinv, Hfs, Hcash, Hdebt, Hiv, Hfv.
  rewrite (infrastructureValueOf_built _ c _ fv (findCommodity_catalog c Hc) Hfv).
  cbn [mbind option_bind].
  eexists _, _. split; [reflexivity|]. split; [reflexivity|]. ring.
Qed.

Lemma upgrade_keeps_equityA (c : Commodity) (s s' : GameState) :
  c ∈ COMMODITIES -> wf s -> plant_ok s ->
  upgradeUpdater (Commodity.id c) s = Some s' ->
  equity_kept AppA.netEquity s s'.
Proof.
  intros Hc Hwf [Hnd Hlv] H.
  pose proof (upgradeUpdater_keeps _ _ _ H) as [_ HP].
  apply upgradeUpdater_inv in H
    as [->|(facility & c0 & Hfac & Hc0 & _ & Hcash & Hdebt & Hinv & Hfs & _)];
    [apply equity_kept_refl, netEquityA_is_Some, Hwf|].
  destruct (wf_values _ Hwf) as (iv & fv & Hiv & Hfv).
  destruct (infrastructureValueOf_upgraded _ c0 facility _ Hc0 Hnd Hlv Hfac fv Hfv)
    as (fv' & Hfv' & Heq).
  unfold equity_kept, AppA.netEquity, AppA.inventoryValue, AppA.infrastructureValue.
  rewrite HP, Hinv, Hfs, Hcash, Hdebt, Hiv, Hfv, Hfv'. cbn [mbind option_bind].
  eexists _, _. split; [reflexivity|]. split; [reflexivity|]. lra.
Qed.

Lemma plant_follows_cashB (s s' : GameState) :
  wf s -> prices s' = prices s -> inventory s' = inventory s -> debt s' = debt s ->
  equity_follows_cash AppB.netEquity s s'.
Proof.
  intros Hwf HP Hinv Hdebt. destruct (wf_values _ Hwf) as (iv & fv & Hiv & Hfv).
  unfold equity_follows_cash, AppB.netEquity, AppB.inventoryValue.
  rewrite HP, Hinv, Hdebt, Hiv. cbn [mbind option_bind].
  eexists _, _. split; [reflexivity|]. split; [reflexivity|]. ring.
Qed.

(** ** The books *)

Lemma catalog_basePrice (c : Commodity) : c ∈ COMMODITIES -> 0 < Commodity.basePrice c.
Proof.
  intros Hc. unfold COMMODITIES in Hc.
  repeat (apply elem_of_cons in Hc as [->|Hc]; [reflexivity|]).
  apply elem_of_nil in Hc. destruct Hc.
Qed.

Lemma market_spec_nonneg (ev : option GlobalEvent) (g : Rng) (s s' : GameState) :
  market_spec COMMODITIES ev (prices s) (prices s') g ->
  prices_nonneg s -> prices_nonneg s'.
Proof.
  intros Hspec Hnn id price' Hprice'.
  destruct (decide (id ∈ map Commodity.id COMMODITIES)) as [Hin|Hout].
  - apply list_elem_of_fmap in Hin as (c & -> & Hc).
    destruct (market_spec_floor _ _ _ _ c Hspec Hc) as (price & Hprice & Hfloor).
    rewrite Hprice in Hprice'. injection Hprice' as <-.
    pose proof (catalog_basePrice c Hc). lra.
  - destruct Hspec as [_ Hsame]. rewrite (Hsame id Hout) in Hprice'.
    exact (Hnn id price' Hprice').
Qed.

Lemma tickA_prices_nonneg (app app' : AppA.App) (g g' : Rng) :
  prices_nonneg (AppA.gameState app) -> AppA.tick app g = Some (app', g') ->
  prices_nonneg (AppA.gameState app').
Proof.
  intros Hnn H. destruct (tickA_market _ _ _ _ H) as (ev & g0 & Hspec).
  exact (market_spec_nonneg _ _ _ _ Hspec Hnn).
Qed.

Lemma tickB_prices_nonneg (app app' : AppB.App) (g g' : Rng) :
  prices_nonneg (AppB.gameState app) -> AppB.tick app g = Some (app', g') ->
  prices_nonneg (AppB.gameState app').
Proof.
  intros Hnn H. destruct (tickB_market _ _ _ _ H) as (ev & g0 & Hspec).
  exact (market_spec_nonneg _ _ _ _ Hspec Hnn).
Qed.

Lemma same_prices_nonneg (s s' : GameState) :
  prices s' = prices s -> prices_nonneg s -> prices_nonneg s'.
Proof. intros HP Hnn. unfold prices_nonneg. rewrite HP. exact Hnn. Qed.

Lemma prices_nonneg_initial (rate : Q) : prices_nonneg (initialGameState rate).
Proof.
  intros id price Hprice.
  destruct (decide (id ∈ map Commodity.id COMMODITIES)) as [Hin|Hout].
  - apply list_elem_of_fmap in Hin as (c & -> & Hc). unfold COMMODITIES in Hc.
    repeat (apply elem_of_cons in Hc as [->|Hc];
            [vm_compute in Hprice; injection Hprice as <-; vm_compute; discriminate|]).
    apply elem_of_nil in Hc. destruct Hc.
  - exfalso. apply Hout. clear Hout.
    cbn [prices initialGameState] in Hprice. unfold initialPrices in Hprice.
    cbn [foldl COMMODITIES] in Hprice.
    repeat (apply lookup_insert_Some in Hprice as [[<- _]|[_ Hprice]];
            [cbn; set_solver|]).
    rewrite lookup_empty in Hprice. discriminate Hprice.
Qed.

Lemma tickA_books (app app' : AppA.App) (g g' : Rng) :
  AppA.tick app g = Some (app', g') ->
  books (AppA.gameState app') == books (AppA.gameState app).
Proof.
  intros H.
  apply tickA_inv in H as (P & tax & ev & pr & g1 & g2 & _ & Ht & _ & _ & ->).
  unfold books, lifetimeNet, lifetimeCosts.
  cbn [AppA.gameState tickState cash debt lifetime totalSales totalMarketPurchases
       totalProductionCosts totalConstruction totalUpgrades totalInterestPaid
       totalTaxesPaid].
  apply taxLogicA_inv in Ht as [(_ & -> & _)|(_ & iv & fv & _ & _ & -> & _)];
    cbn [Tax.nextCash Tax.totalTaxesPaid]; ring.
Qed.

Lemma tickB_books (app app' : AppB.App) (g g' : Rng) :
  AppB.tick app g = Some (app', g') ->
  books (AppB.gameState app) <= books (AppB.gameState app').
Proof.
  intros H.
  apply tickB_inv in H as (P & tax & ev & pr & g1 & g2 & Ht & _ & _ & _ & ->).
  unfold books, lifetimeNet, lifetimeCosts.
  cbn [AppB.gameState tickState cash debt lifetime totalSales totalMarketPurchases
       totalProductionCosts totalConstruction totalUpgrades totalInterestPaid
       totalTaxesPaid].
  pose proof (Q.le_max_r 0 (Tax.nextCash tax - currentDayProductionCost pr)) as Hmax.
  unfold Math.max.
  apply taxLogicB_inv in Ht as [(_ & -> & _)|(_ & -> & _)];
    cbn [Tax.nextCash Tax.totalTaxesPaid] in *; lra.
Qed.

Lemma updates_books (s s' : GameState) :
  updates false s s' -> prices_nonneg s -> books s' == books s.
Proof.
  intros [|id q r r' s1 H|id c H|id s1 H|id s1 Hs H|id|amount|amount] Hnn.
  - reflexivity.
  - apply tradeUpdater_inv in H
      as [[-> _]|(price & Hprice & _ & _ & Hcash & Hdebt & _ & _ & Hsales & Hbuys
                  & Hprod & Hcon & Hupg & Hint & Htax)]; [reflexivity|].
    unfold books, lifetimeNet, lifetimeCosts.
    rewrite Hcash, Hdebt, Hsales, Hbuys, Hprod, Hcon, Hupg, Hint, Htax.
    pose proof (Hnn id price Hprice) as Hp.
    destruct (Z.ltb_spec q 0) as [Hneg|Hnneg], (Z.ltb_spec 0 q) as [Hpos|Hnpos];
      try lia.
    + assert (Hq : inject_Z q <= 0) by (change 0 with (inject_Z 0); rewrite <- Zle_Qle; lia).
      assert (Hle : inject_Z q * MarketPrice.currentPrice price <= 0) by nra.
      unfold Math.abs. rewrite (Qabs_neg _ Hle). ring.
    + ring.
    + assert (Hq : q = 0%Z) by lia. subst q. change (inject_Z 0) with 0. ring.
  - destruct (unlockUpdater_inv id (Commodity.basePrice c * 25) s)
      as [->|(_ & _ & Hcash & Hdebt & _ & _ & Hnet)]; [reflexivity|].
    unfold books. rewrite Hcash, Hdebt, Hnet. ring.
  - apply upgradeUpdater_inv in H
      as [->|(facility & c & _ & _ & _ & Hcash & Hdebt & _ & _ & _ & Hnet)];
      [reflexivity|].
    unfold books. rewrite Hcash, Hdebt, Hnet. ring.
  - discriminate Hs.
  - reflexivity.
  - unfold books, lifetimeNet, lifetimeCosts, loanUpdater. cbn. ring.
  - unfold books, lifetimeNet, lifetimeCosts, repayUpdater. cbn. ring.
Qed.

Lemma updates_prices (sale : bool) (s s' : GameState) :
  updates sale s s' -> prices s' = prices s.
Proof.
  intros [|id q r r' s1 H|id c H|id s1 H|id s1 _ H|id|amount|amount].
  - reflexivity.
  - exact (proj2 (tradeUpdater_keeps _ _ _ _ _ _ H)).
  - exact (proj2 (unlockUpdater_keeps _ _ _)).
  - exact (proj2 (upgradeUpdater_keeps _ _ _ H)).
  - exact (proj2 (sellUpdater_keeps _ _ _ H)).
  - reflexivity.
  - reflexivity.
  - reflexivity.
Qed.

(** ** Cash in version B *)

Lemma fundedB_cash (app app' : AppB.App) :
  fundedB app app' ->
  prices_nonneg (AppB.gameState app) -> 0 <= cash (AppB.gameState app) ->
  0 <= cash (AppB.gameState app').
Proof.
  intros [app1 [id q app2 H|id app2 H|id app2 H|id|amount|app2 H]|amount Hamount|Hrepay]
    Hnn Hcash.
  - unfold AppB.handleTrade in H.
    destruct (AppB.isGameOver app); [injection H as <-; exact Hcash|].
    destruct (tradeUpdater _ _ _ _) as [[s r]|] eqn:Hrun; [|discriminate H].
    injection H as <-. cbn [AppB.gameState].
    apply tradeUpdater_inv in Hrun
      as [[-> _]|(price & Hprice & Hbuy & _ & -> & _)]; [exact Hcash|].
    pose proof (Hnn id price Hprice) as Hp.
    destruct (Z.lt_ge_cases 0 q) as [Hpos|Hnpos].
    + specialize (Hbuy Hpos). lra.
    + assert (Hq : inject_Z q <= 0) by (change 0 with (inject_Z 0); rewrite <- Zle_Qle; lia).
      nra.
  - unfold AppB.handleUnlockFacility in H.
    destruct (findCommodity id) as [c|]; [|discriminate H].
    injection H as <-. cbn [AppB.gameState AppB.setGameState].
    destruct (unlockUpdater_inv id (Commodity.basePrice c * 25) (AppB.gameState app))
      as [->|(Hcost & _ & -> & _)]; [exact Hcash | lra].
  - unfold AppB.handleUpgradeFacility in H.
    destruct (upgradeUpdater _ _) as [s|] eqn:Hrun; [|discriminate H].
    injection H as <-. cbn [AppB.gameState AppB.setGameState].
    apply upgradeUpdater_inv in Hrun
      as [->|(facility & c & _ & _ & Hcost & -> & _)]; [exact Hcash | lra].
  - exact Hcash.
  - exact Hcash.
  - unfold AppB.solvencyEffect in H.
    destruct (AppB.netEquity _); [|discriminate H]. cbn in H.
    destruct (_ && _); injection H as <-; exact Hcash.
  - cbn. lra.
  - cbn. lra.
Qed.

Lemma fundedB_prices (app app' : AppB.App) :
  fundedB app app' -> prices (AppB.gameState app') = prices (AppB.gameState app).
Proof.
  intros [app1 H|amount _|_]; [|reflexivity|reflexivity].
  apply anyB_keeps_prices, anyB_quiet, H.
Qed.

(** ** Game over *)

Lemma tickA_flag (app app' : AppA.App) (g g' : Rng) :
  AppA.tick app g = Some (app', g') -> AppA.isGameOver app' = AppA.isGameOver app.
Proof.
  intros H. apply tickA_inv in H as (P & tax & ev & pr & g1 & g2 & _ & _ & _ & _ & ->).
  reflexivity.
Qed.

Lemma tickB_flag (app app' : AppB.App) (g g' : Rng) :
  AppB.tick app g = Some (app', g') -> AppB.isGameOver app' = AppB.isGameOver app.
Proof.
  intros H. apply tickB_inv in H as (P & tax & ev & pr & g1 & g2 & _ & _ & _ & _ & ->).
  reflexivity.
Qed.

Lemma anyA_flag (app app' : AppA.App) :
  anyA app app' -> AppA.isGameOver app = true -> AppA.isGameOver app' = true.
Proof.
  intros [app1 [id q app2 H|id app2 H|id app2 H|id app2 H|id|amount| |app2 H]|amount|]
    Hover.
  - unfold AppA.handleTrade in H. destruct (_ || _); [injection H as <-; exact Hover|].
    destruct (tradeUpdater _ _ _ _) as [[s r]|]; [|discriminate H].
    injection H as <-. exact Hover.
  - unfold AppA.handleUnlockFacility in H.
    destruct (AppA.isPaused app); [injection H as <-; exact Hover|].
    destruct (findCommodity id); [|discriminate H]. injection H as <-. exact Hover.
  - unfold AppA.handleUpgradeFacility in H.
    destruct (AppA.isPaused app); [injection H as <-; exact Hover|].
    destruct (upgradeUpdater _ _); [|discriminate H]. injection H as <-. exact Hover.
  - unfold AppA.handleSellFacility in H.
    destruct (AppA.isPaused app); [injection H as <-; exact Hover|].
    destruct (AppA.sellUpdater _ _); [|discriminate H]. injection H as <-. exact Hover.
  - unfold AppA.handleToggleProduction. destruct (AppA.isPaused app); exact Hover.
  - exact Hover.
  - exact Hover.
  - unfold AppA.solvencyEffect in H.
    destruct (AppA.netEquity _); [|discriminate H]. cbn in H.
    destruct (_ && _); injection H as <-; [reflexivity | exact Hover].
  - unfold AppA.takeLoan. destruct (_ || _); exact Hover.
  - unfold AppA.handleRepay. destruct (AppA.isPaused app); exact Hover.
Qed.

Lemma anyB_flag (app app' : AppB.App) :
  anyB app app' -> AppB.isGameOver app = true -> AppB.isGameOver app' = true.
Proof.
  intros [app1 [id q app2 H|id app2 H|id app2 H|id|amount|app2 H]|amount|] Hover.
  - unfold AppB.handleTrade in H. rewrite Hover in H. injection H as <-. exact Hover.
  - unfold AppB.handleUnlockFacility in H.
    destruct (findCommodity id); [|discriminate H]. injection H as <-. exact Hover.
  - unfold AppB.handleUpgradeFacility in H.
    destruct (upgradeUpdater _ _); [|discriminate H]. injection H as <-. exact Hover.
  - exact Hover.
  - exact Hover.
  - unfold AppB.solvencyEffect in H.
    destruct (AppB.netEquity _); [|discriminate H]. cbn in H.
    destruct (_ && _); injection H as <-; [reflexivity | exact Hover].
  - exact Hover.
  - exact Hover.
Qed.

(** ** Properties of net equity, the books and the end of the game *)

(** X22.  Game over is final: once [isGameOver] is set, no tick and no
    player action clears it, through any session.  The solvency effect
    is what sets it: in a well-formed state it computes the net equity
    and leaves the game state alone, and afterwards the flag is set
    exactly when it was set before or the net equity is below -1000 in
    version A, below 0 in version B. *)
Theorem game_over_is_final (n : nat) (overA appA : AppA.App) (overB appB : AppB.App) :
  AppA.isGameOver overA = true -> AppB.isGameOver overB = true ->
  wf (AppA.gameState appA) -> wf (AppB.gameState appB) ->
  (forall g app' g', run AppA.tick anyA n overA g app' g' ->
     AppA.isGameOver app' = true)
  /\ (forall g app' g', run AppB.tick anyB n overB g app' g' ->
        AppB.isGameOver app' = true)
  /\ (exists e app',
        AppA.netEquity (AppA.gameState appA) = Some e
        /\ AppA.solvencyEffect appA = Some app'
        /\ AppA.gameState app' = AppA.gameState appA
        /\ AppA.isGameOver app' = AppA.isGameOver appA || Qltb e (-1000))
  /\ (exists e app',
        AppB.netEquity (AppB.gameState appB) = Some e
        /\ AppB.solvencyEffect appB = Some app'
        /\ AppB.gameState app' = AppB.gameState appB
        /\ AppB.isGameOver app' = AppB.isGameOver appB || Qltb e 0).
Proof.
  intros HoverA HoverB HwfA HwfB. split; [|split; [|split]].
  - intros g app' g' Hrun.
    apply (run_keeps AppA.tick anyA (fun _ => True)
             (fun app => AppA.isGameOver app = true)
             (fun _ _ _ _ _ _ => I)) with n overA g g'; trivial.
    + intros app app1 g0 g1 _ Hover Htick. rewrite (tickA_flag _ _ _ _ Htick). exact Hover.
    + exact anyA_flag.
  - intros g app' g' Hrun.
    apply (run_keeps AppB.tick anyB (fun _ => True)
             (fun app => AppB.isGameOver app = true)
             (fun _ _ _ _ _ _ => I)) with n overB g g'; trivial.
    + intros app app1 g0 g1 _ Hover Htick. rewrite (tickB_flag _ _ _ _ Htick). exact Hover.
    + exact anyB_flag.
  - destruct (netEquityA_is_Some _ HwfA) as [e He]. exists e.
    unfold AppA.solvencyEffect. rewrite He. cbn [mbind option_bind].
    eexists. split; [reflexivity|]. split; [reflexivity|].
    destruct (Qltb e (-1000)); destruct (AppA.isGameOver appA) eqn:Hflag;
      cbn [andb negb orb AppA.gameState AppA.isGameOver]; rewrite ?Hflag;
      split; reflexivity.
  - destruct (netEquityB_is_Some _ HwfB) as [e He]. exists e.
    unfold AppB.solvencyEffect. rewrite He. cbn [mbind option_bind].
    eexists. split; [reflexivity|]. split; [reflexivity|].
    destruct (Qltb e 0); destruct (AppB.isGameOver appB) eqn:Hflag;
      cbn [andb negb orb AppB.gameState AppB.isGameOver]; rewrite ?Hflag;
      split; reflexivity.
Qed.

Lemma game_over_is_final_witness :
  (forall g app' g', run AppA.tick anyA 3 overAppA g app' g' ->
     AppA.isGameOver app' = true)
  /\ (forall g app' g', run AppB.tick anyB 3 overAppB g app' g' ->
        AppB.isGameOver app' = true)
  /\ (exists e app',
        AppA.netEquity (AppA.gameState AppA.initialApp) = Some e
        /\ AppA.solvencyEffect AppA.initialApp = Some app'
        /\ AppA.gameState app' = AppA.gameState AppA.initialApp
        /\ AppA.isGameOver app' = AppA.isGameOver AppA.initialApp || Qltb e (-1000))
  /\ (exists e app',
        AppB.netEquity (AppB.gameState AppB.initialApp) = Some e
        /\ AppB.solvencyEffect AppB.initialApp = Some app'
        /\ AppB.gameState app' = AppB.gameState AppB.initialApp
        /\ AppB.isGameOver app' = AppB.isGameOver AppB.initialApp || Qltb e 0).
Proof.
  apply (game_over_is_final 3 overAppA AppA.initialApp overAppB AppB.initialApp).
  - reflexivity.
  - reflexivity.
  - apply wf_initial.
  - apply wf_initial.
Defined.

(** X23.  In a well-formed state with one inventory item per commodity,
    a trade of a catalog commodity at the current price does not change
    the net equity, whether it goes through or is rejected and whatever
    the quantity: what leaves the cash enters the inventory value.
    Neither does a loan or a repayment of any amount, which move cash
    and debt together.  So none of them can end the game.  In both
    versions. *)
Theorem trade_and_credit_keep_net_equity (c : Commodity)
    (appA : AppA.App) (appB : AppB.App) :
  c ∈ COMMODITIES ->
  wf (AppA.gameState appA) -> wf (AppB.gameState appB) ->
  inventory_ok (AppA.gameState appA) -> inventory_ok (AppB.gameState appB) ->
  ((forall quantity app',
      AppA.handleTrade (Commodity.id c) quantity appA = Some app' ->
      equity_kept AppA.netEquity (AppA.gameState appA) (AppA.gameState app'))
   /\ (forall amount,
         equity_kept AppA.netEquity (AppA.gameState appA)
           (AppA.gameState (AppA.takeLoan amount appA)))
   /\ equity_kept AppA.netEquity (AppA.gameState appA)
        (AppA.gameState (AppA.handleRepay appA)))
  /\ ((forall quantity app',
         AppB.handleTrade (Commodity.id c) quantity appB = Some app' ->
         equity_kept AppB.netEquity (AppB.gameState appB) (AppB.gameState app'))
      /\ (forall amount,
            equity_kept AppB.netEquity (AppB.gameState appB)
              (AppB.gameState (AppB.takeLoan amount appB)))
      /\ equity_kept AppB.netEquity (AppB.gameState appB)
           (AppB.gameState (AppB.handleRepay appB))).
Proof.
  intros Hc HwfA HwfB HokA HokB. split; split; [| split | | split].
  - intros quantity app'. apply tradeA_keeps_equity; assumption.
  - intros amount. unfold AppA.takeLoan.
    destruct (_ || _); [apply equity_kept_refl, netEquityA_is_Some, HwfA|].
    apply credit_keeps_equityA; [exact HwfA | ring].
  - unfold AppA.handleRepay.
    destruct (AppA.isPaused appA); [apply equity_kept_refl, netEquityA_is_Some, HwfA|].
    apply credit_keeps_equityA; [exact HwfA | ring].
  - intros quantity app'. apply tradeB_keeps_equity; assumption.
  - intros amount. apply credit_keeps_equityB; [exact HwfB | ring].
  - apply credit_keeps_equityB; [exact HwfB | ring].
Qed.

Lemma trade_and_credit_keep_net_equity_witness :
  ((forall quantity app',
      AppA.handleTrade (Commodity.id oil) quantity AppA.initialApp = Some app' ->
      equity_kept AppA.netEquity (AppA.gameState AppA.initialApp) (AppA.gameState app'))
   /\ (forall amount,
         equity_kept AppA.netEquity (AppA.gameState AppA.initialApp)
           (AppA.gameState (AppA.takeLoan amount AppA.initialApp)))
   /\ equity_kept AppA.netEquity (AppA.gameState AppA.initialApp)
        (AppA.gameState (AppA.handleRepay AppA.initialApp)))
  /\ ((forall quantity app',
         AppB.handleTrade (Commodity.id oil) quantity AppB.initialApp = Some app' ->
         equity_kept AppB.netEquity (AppB.gameState AppB.initialApp)
           (AppB.gameState app'))
      /\ (forall amount,
            equity_kept AppB.netEquity (AppB.gameState AppB.initialApp)
              (AppB.gameState (AppB.takeLoan amount AppB.initialApp)))
      /\ equity_kept AppB.netEquity (AppB.gameState AppB.initialApp)
           (AppB.gameState (AppB.handleRepay AppB.initialApp))).
Proof.
  apply (trade_and_credit_keep_net_equity oil AppA.initialApp AppB.initialApp).
  - apply oil_in_catalog.
  - apply wf_initial.
  - apply wf_initial.
  - apply inventory_ok_initial.
  - apply inventory_ok_initial.
Defined.

(** X24.  In version A, whose net equity counts every facility at what
    was invested in it, building and upgrading do not change the net
    equity: the cost leaves the cash and enters the infrastructure
    value (with one facility per commodity and levels of 1 or above).
    In version B, whose net equity leaves the facilities out, unlock
    and upgrade move the net equity by what they move the cash, so the
    net equity falls by the cost. *)
Theorem building_keeps_net_equity_in_A (c : Commodity)
    (appA : AppA.App) (appB : AppB.App) :
  c ∈ COMMODITIES ->
  wf (AppA.gameState appA) -> wf (AppB.gameState appB) ->
  plant_ok (AppA.gameState appA) ->
  ((forall app', AppA.handleUnlockFacility (Commodity.id c) appA = Some app' ->
      equity_kept AppA.netEquity (AppA.gameState appA) (AppA.gameState app'))
   /\ (forall app', AppA.handleUpgradeFacility (Commodity.id c) appA = Some app' ->
         equity_kept AppA.netEquity (AppA.gameState appA) (AppA.gameState app')))
  /\ ((forall app', AppB.handleUnlockFacility (Commodity.id c) appB = Some app' ->
         equity_follows_cash AppB.netEquity (AppB.gameState appB) (AppB.gameState app'))
      /\ (forall app', AppB.handleUpgradeFacility (Commodity.id c) appB = Some app' ->
            equity_follows_cash AppB.netEquity (AppB.gameState appB)
              (AppB.gameState app'))).
Proof.
  intros Hc HwfA HwfB Hplant. split; split.
  - intros app' H. unfold AppA.handleUnlockFacility in H.
    destruct (AppA.isPaused appA);
      [injection H as <-; apply equity_kept_refl, netEquityA_is_Some, HwfA|].
    rewrite (findCommodity_catalog c Hc) in H. injection H as <-.
    exact (unlock_keeps_equityA c _ Hc HwfA).
  - intros app' H. unfold AppA.handleUpgradeFacility in H.
    destruct (AppA.isPaused appA);
      [injection H as <-; apply equity_kept_refl, netEquityA_is_Some, HwfA|].
    destruct (upgradeUpdater _ _) as [s|] eqn:Hrun; [|discriminate H].
    injection H as <-. exact (upgrade_keeps_equityA c _ _ Hc HwfA Hplant Hrun).
  - intros app' H. unfold AppB.handleUnlockFacility in H.
    rewrite (findCommodity_catalog c Hc) in H. injection H as <-.
    cbn [AppB.gameState AppB.setGameState].
    apply plant_follows_cashB; [exact HwfB | apply unlockUpdater_keeps | |
                                apply unlockUpdater_keeps].
    unfold unlockUpdater. destruct (_ || _); reflexivity.
  - intros app' H. unfold AppB.handleUpgradeFacility in H.
    destruct (upgradeUpdater _ _) as [s|] eqn:Hrun; [|discriminate H].
    injection H as <-. cbn [AppB.gameState AppB.setGameState].
    pose proof (upgradeUpdater_keeps _ _ _ Hrun) as [Hdebt HP].
    apply plant_follows_cashB; [exact HwfB | exact HP | | exact Hdebt].
    apply upgradeUpdater_inv in Hrun
      as [->|(facility & c0 & _ & _ & _ & _ & _ & Hinv & _)]; [reflexivity | exact Hinv].
Qed.

Lemma building_keeps_net_equity_in_A_witness :
  ((forall app', AppA.handleUnlockFacility (Commodity.id oil) producerAppA = Some app' ->
      equity_kept AppA.netEquity (AppA.gameState producerAppA) (AppA.gameState app'))
   /\ (forall app', AppA.handleUpgradeFacility (Commodity.id oil) producerAppA = Some app' ->
         equity_kept AppA.netEquity (AppA.gameState producerAppA)
           (AppA.gameState app')))
  /\ ((forall app', AppB.handleUnlockFacility (Commodity.id oil) producerAppB = Some app' ->
         equity_follows_cash AppB.netEquity (AppB.gameState producerAppB)
           (AppB.gameState app'))
      /\ (forall app', AppB.handleUpgradeFacility (Commodity.id oil) producerAppB
                       = Some app' ->
            equity_follows_cash AppB.netEquity (AppB.gameState producerAppB)
              (AppB.gameState app'))).
Proof.
  apply (building_keeps_net_equity_in_A oil producerAppA producerAppB).
  - apply oil_in_catalog.
  - apply wf_producer.
  - apply wf_producer.
  - apply plant_ok_producer.
Defined.

(** X25.  The lifetime report balances with the accounts.  With no
    negative price, as from the initial state on, cash less debt less
    the lifetime net profit of the report is the same at the end of
    every session of version A in which no facility is sold: every tick,
    trade, unlock, upgrade, loan and repayment books what it moves.
    From the initial state, cash less debt is 5000 plus the lifetime net
    profit.  In version B the tick raises a negative cash to 0 without
    booking it, so the difference can only grow. *)
Theorem the_books_balance (n : nat) (g : Rng) (appA : AppA.App) (appB : AppB.App) :
  valid_rng g -> wf (AppA.gameState appA) -> wf (AppB.gameState appB) ->
  prices_nonneg (AppA.gameState appA) -> prices_nonneg (AppB.gameState appB) ->
  (exists app' g', AppA.ticks n appA g = Some (app', g')
     /\ books (AppA.gameState app') == books (AppA.gameState appA))
  /\ (exists app' g', AppB.ticks n appB g = Some (app', g')
        /\ books (AppB.gameState appB) <= books (AppB.gameState app'))
  /\ (forall anyApp anyG app' g',
        prices_nonneg (AppA.gameState anyApp) ->
        run AppA.tick keepingA n anyApp anyG app' g' ->
        books (AppA.gameState app') == books (AppA.gameState anyApp))
  /\ (forall anyApp anyG app' g',
        prices_nonneg (AppB.gameState anyApp) ->
        run AppB.tick anyB n anyApp anyG app' g' ->
        books (AppB.gameState anyApp) <= books (AppB.gameState app')).
Proof.
  intros Hg HwfA HwfB HnnA HnnB.
  assert (HA : forall anyApp anyG app' g',
             prices_nonneg (AppA.gameState anyApp) ->
             run AppA.tick keepingA n anyApp anyG app' g' ->
             books (AppA.gameState app') == books (AppA.gameState anyApp)).
  { intros anyApp anyG app' g' Hnn Hrun.
    apply (run_keeps AppA.tick keepingA (fun _ => True)
             (fun app => prices_nonneg (AppA.gameState app)
                         /\ books (AppA.gameState app) == books (AppA.gameState anyApp))
             (fun _ _ _ _ _ _ => I)) with n anyApp anyG g'; trivial.
    - intros app app1 g0 g1 _ [Hp Hb] Htick.
      split; [exact (tickA_prices_nonneg _ _ _ _ Hp Htick)|].
      rewrite (tickA_books _ _ _ _ Htick). exact Hb.
    - intros app app1 Hact [Hp Hb]. apply keepingA_updates in Hact.
      split; [exact (same_prices_nonneg _ _ (updates_prices _ _ _ Hact) Hp)|].
      rewrite (updates_books _ _ Hact Hp). exact Hb.
    - split; [exact Hnn | reflexivity]. }
  assert (HB : forall anyApp anyG app' g',
             prices_nonneg (AppB.gameState anyApp) ->
             run AppB.tick anyB n anyApp anyG app' g' ->
             books (AppB.gameState anyApp) <= books (AppB.gameState app')).
  { intros anyApp anyG app' g' Hnn Hrun.
    apply (run_keeps AppB.tick anyB (fun _ => True)
             (fun app => prices_nonneg (AppB.gameState app)
                         /\ books (AppB.gameState anyApp) <= books (AppB.gameState app))
             (fun _ _ _ _ _ _ => I)) with n anyApp anyG g'; trivial.
    - intros app app1 g0 g1 _ [Hp Hb] Htick.
      split; [exact (tickB_prices_nonneg _ _ _ _ Hp Htick)|].
      pose proof (tickB_books _ _ _ _ Htick). lra.
    - intros app app1 Hact [Hp Hb]. apply anyB_updates in Hact.
      split; [exact (same_prices_nonneg _ _ (updates_prices _ _ _ Hact) Hp)|].
      rewrite (updates_books _ _ Hact Hp). exact Hb.
    - split; [exact Hnn | apply Qle_refl]. }
  split; [|split; [|split; assumption]].
  - destruct (ticksA_facts n appA g HwfA Hg) as (app' & g' & Hticks & _).
    exists app', g'. split; [exact Hticks|].
    exact (HA appA g app' g' HnnA (ticksA_run keepingA n _ _ _ _ Hticks)).
  - destruct (ticksB_facts n appB g HwfB Hg) as (app' & g' & Hticks & _).
    exists app', g'. split; [exact Hticks|].
    exact (HB appB g app' g' HnnB (ticksB_run anyB n _ _ _ _ Hticks)).
Qed.

Lemma the_books_balance_witness :
  (exists app' g', AppA.ticks 31 producerAppA (constantRng 0.5) = Some (app', g')
     /\ books (AppA.gameState app') == books (AppA.gameState producerAppA))
  /\ (exists app' g', AppB.ticks 31 producerAppB (constantRng 0.5) = Some (app', g')
        /\ books (AppB.gameState producerAppB) <= books (AppB.gameState app')).
Proof.
  destruct (the_books_balance 31 (constantRng 0.5) producerAppA producerAppB)
    as (HA & HB & _).
  - apply constantRng_valid; lra.
  - apply wf_producer.
  - apply wf_producer.
  - apply prices_nonneg_initial.
  - apply prices_nonneg_initial.
  - split; [exact HA | exact HB].
Defined.

(** X26.  In version B the cash is never negative, through any session
    in which every loan is of a nonnegative amount and every repayment
    is covered by the cash at the moment it is made: a purchase, an
    unlock and an upgrade are rejected when the cash does not cover
    them, a sale at a nonnegative price adds to the cash, and the tick
    returns no negative cash.  (No price is negative from the initial
    state on.) *)
Theorem cash_stays_nonnegative_in_B (n : nat) (g : Rng) (app : AppB.App) :
  valid_rng g -> wf (AppB.gameState app) ->
  prices_nonneg (AppB.gameState app) -> 0 <= cash (AppB.gameState app) ->
  (exists app' g', AppB.ticks n app g = Some (app', g')
     /\ 0 <= cash (AppB.gameState app'))
  /\ (forall anyG app' g',
        run AppB.tick fundedB n app anyG app' g' -> 0 <= cash (AppB.gameState app')).
Proof.
  intros Hg Hwf Hnn Hcash.
  assert (HB : forall anyG app' g',
             run AppB.tick fundedB n app anyG app' g' ->
             0 <= cash (AppB.gameState app')).
  { intros anyG app' g' Hrun.
    apply (run_keeps AppB.tick fundedB (fun _ => True)
             (fun a => prices_nonneg (AppB.gameState a) /\ 0 <= cash (AppB.gameState a))
             (fun _ _ _ _ _ _ => I)) with n app anyG g'; trivial.
    - intros a a1 g0 g1 _ [Hp _] Htick.
      split; [exact (tickB_prices_nonneg _ _ _ _ Hp Htick)|].
      exact (tickB_cash_any _ _ _ _ Htick).
    - intros a a1 Hact [Hp Hc].
      split; [exact (same_prices_nonneg _ _ (fundedB_prices _ _ Hact) Hp)|].
      exact (fundedB_cash _ _ Hact Hp Hc).
    - split; assumption. }
  split; [|exact HB].
  destruct (ticksB_facts n app g Hwf Hg) as (app' & g' & Hticks & _).
  exists app', g'. split; [exact Hticks|].
  exact (HB g app' g' (ticksB_run fundedB n _ _ _ _ Hticks)).
Qed.

Lemma cash_stays_nonnegative_in_B_witness :
  exists app' g', AppB.ticks 3 producerAppB (constantRng 0.5) = Some (app', g')
    /\ 0 <= cash (AppB.gameState app').
Proof.
  destruct (cash_stays_nonnegative_in_B 3 (constantRng 0.5) producerAppB) as (HB & _).
  - apply constantRng_valid; lra.
  - apply wf_producer.
  - apply prices_nonneg_initial.
  - vm_compute. discriminate.
  - exact HB.
Defined.

(** ** The cycle ledger *)

Lemma tradeUpdater_refs (id : string) (quantity : Z) (s s' : GameState)
    (refs refs' : CycleRefs) :
  tradeUpdater id quantity s refs = Some (s', refs') ->
  cycleSalesRef refs' - cycleSalesRef refs
  == totalSales (lifetime s') - totalSales (lifetime s)
  /\ cyclePurchasesRef refs' - cyclePurchasesRef refs
     == totalMarketPurchases (lifetime s') - totalMarketPurchases (lifetime s)
  /\ cycleProductionRef refs' = cycleProductionRef refs
  /\ totalProductionCosts (lifetime s') = totalProductionCosts (lifetime s)
  /\ lastLedger s' = lastLedger s /\ cycleProgress s' = cycleProgress s.
Proof.
  unfold tradeUpdater. destruct (prices s !! id) as [price|]; [|discriminate].
  cbn [fmap option_fmap option_map mbind option_bind].
  destruct ((0 <? quantity)%Z && _).
  { intros [= <- <-]. repeat split; ring. }
  destruct ((quantity <? 0)%Z && _).
  { intros [= <- <-]. repeat split; ring. }
  intros [= <- <-].
  cbn [lifetime totalSales totalMarketPurchases totalProductionCosts lastLedger
       cycleProgress].
  destruct (Z.ltb_spec 0 quantity) as [Hpos|Hnpos];
    destruct (Z.ltb_spec quantity 0) as [Hneg|Hnneg]; try lia;
    cbn [cycleSalesRef cyclePurchasesRef cycleProductionRef];
    repeat split; try ring.
  assert (Hq : quantity = 0%Z) by lia. subst quantity.
  change (inject_Z 0) with 0. unfold Math.abs.
  assert (Hz : 0 * MarketPrice.currentPrice price == 0) by ring.
  rewrite Hz. cbn. ring.
Qed.

Lemma cycle_runs_kept (s0 s s' : GameState) (refs refs' : CycleRefs) (k : nat) :
  cycle_runs s0 k s refs ->
  lastLedger s' = lastLedger s -> cycleProgress s' = cycleProgress s ->
  cycleSalesRef refs' - cycleSalesRef refs
  == totalSales (lifetime s') - totalSales (lifetime s) ->
  cyclePurchasesRef refs' - cyclePurchasesRef refs
  == totalMarketPurchases (lifetime s') - totalMarketPurchases (lifetime s) ->
  cycleProductionRef refs' - cycleProductionRef refs
  == totalProductionCosts (lifetime s') - totalProductionCosts (lifetime s) ->
  cycle_runs s0 k s' refs'.
Proof.
  intros [Hin Hend] Hledger Hcp Hs Hp Hc. split.
  - intros Hk. destruct (Hin Hk) as (Hday & H1 & H2 & H3).
    split; [rewrite Hcp; exact Hday|]. unfold cycle_counted. repeat split; lra.
  - intros Hk. destruct (Hend Hk) as (Hday & H1 & H2 & H3 & H4).
    split; [rewrite Hcp; exact Hday|]. unfold ledger_reports. rewrite Hledger.
    repeat split; lra.
Qed.

Lemma tradeA_cycle (s0 : GameState) (k : nat) (id : string) (quantity : Z)
    (app app' : AppA.App) :
  AppA.handleTrade id quantity app = Some app' ->
  cycle_runs s0 k (AppA.gameState app) (AppA.refs app) ->
  cycle_runs s0 k (AppA.gameState app') (AppA.refs app').
Proof.
  unfold AppA.handleTrade. destruct (_ || _); [intros [= <-]; trivial|].
  destruct (tradeUpdater _ _ _ _) as [[s r]|] eqn:Hrun; [|discriminate].
  intros [= <-] Hk. cbn [AppA.gameState AppA.refs].
  destruct (tradeUpdater_refs _ _ _ _ _ _ Hrun) as (Hs & Hp & Hc & Hcost & Hl & Hcp).
  apply (cycle_runs_kept s0 _ _ _ _ k Hk Hl Hcp Hs Hp). rewrite Hc, Hcost. ring.
Qed.

Lemma tradeB_cycle (s0 : GameState) (k : nat) (id : string) (quantity : Z)
    (app app' : AppB.App) :
  AppB.handleTrade id quantity app = Some app' ->
  cycle_runs s0 k (AppB.gameState app) (AppB.refs app) ->
  cycle_runs s0 k (AppB.gameState app') (AppB.refs app').
Proof.
  unfold AppB.handleTrade. destruct (AppB.isGameOver app); [intros [= <-]; trivial|].
  destruct (tradeUpdater _ _ _ _) as [[s r]|] eqn:Hrun; [|discriminate].
  intros [= <-] Hk. cbn [AppB.gameState AppB.refs].
  destruct (tradeUpdater_refs _ _ _ _ _ _ Hrun) as (Hs & Hp & Hc & Hcost & Hl & Hcp).
  apply (cycle_runs_kept s0 _ _ _ _ k Hk Hl Hcp Hs Hp). rewrite Hc, Hcost. ring.
Qed.

Lemma framed_cycle (s0 s s' : GameState) (refs : CycleRefs) (k : nat) :
  lastLedger s' = lastLedger s /\ cycleProgress s' = cycleProgress s
  /\ totalSales (lifetime s') = totalSales (lifetime s)
  /\ totalMarketPurchases (lifetime s') = totalMarketPurchases (lifetime s)
  /\ totalProductionCosts (lifetime s') = totalProductionCosts (lifetime s) ->
  cycle_runs s0 k s refs -> cycle_runs s0 k s' refs.
Proof.
  intros (Hl & Hcp & Hs & Hp & Hc) Hk.
  apply (cycle_runs_kept s0 s s' refs refs k Hk Hl Hcp); [rewrite Hs|rewrite Hp|rewrite Hc];
    ring.
Qed.

Lemma unlock_frame (id : string) (cost : Q) (s : GameState) :
  lastLedger (unlockUpdater id cost s) = lastLedger s
  /\ cycleProgress (unlockUpdater id cost s) = cycleProgress s
  /\ totalSales (lifetime (unlockUpdater id cost s)) = totalSales (lifetime s)
  /\ totalMarketPurchases (lifetime (unlockUpdater id cost s))
     = totalMarketPurchases (lifetime s)
  /\ totalProductionCosts (lifetime (unlockUpdater id cost s))
     = totalProductionCosts (lifetime s).
Proof. unfold unlockUpdater. destruct (_ || _); repeat split. Qed.

Lemma upgrade_frame (id : string) (s s' : GameState) :
  upgradeUpdater id s = Some s' ->
  lastLedger s' = lastLedger s /\ cycleProgress s' = cycleProgress s
  /\ totalSales (lifetime s') = totalSales (lifetime s)
  /\ totalMarketPurchases (lifetime s') = totalMarketPurchases (lifetime s)
  /\ totalProductionCosts (lifetime s') = totalProductionCosts (lifetime s).
Proof.
  unfold upgradeUpdater. destruct (facilityOf _ _); [|intros [= <-]; repeat split].
  destruct (findCommodity id); [|discriminate]. cbn [mbind option_bind].
  destruct (Qltb _ _); intros [= <-]; repeat split.
Qed.

Lemma sell_frame (id : string) (s s' : GameState) :
  AppA.sellUpdater id s = Some s' ->
  lastLedger s' = lastLedger s /\ cycleProgress s' = cycleProgress s
  /\ totalSales (lifetime s') = totalSales (lifetime s)
  /\ totalMarketPurchases (lifetime s') = totalMarketPurchases (lifetime s)
  /\ totalProductionCosts (lifetime s') = totalProductionCosts (lifetime s).
Proof.
  intros H. apply sellUpdater_inv in H as [->|(facility & c & _ & _ & ->)]; repeat split.
Qed.

Lemma anyA_cycle (s0 : GameState) (k : nat) (app app' : AppA.App) :
  anyA app app' ->
  cycle_runs s0 k (AppA.gameState app) (AppA.refs app) ->
  cycle_runs s0 k (AppA.gameState app') (AppA.refs app').
Proof.
  intros [app1 [id q app2 H|id app2 H|id app2 H|id app2 H|id|amount| |app2 H]|amount|].
  - exact (tradeA_cycle s0 k _ _ _ _ H).
  - unfold AppA.handleUnlockFacility in H.
    destruct (AppA.isPaused app); [injection H as <-; trivial|].
    destruct (findCommodity id); [|discriminate H]. injection H as <-.
    apply framed_cycle, unlock_frame.
  - unfold AppA.handleUpgradeFacility in H.
    destruct (AppA.isPaused app); [injection H as <-; trivial|].
    destruct (upgradeUpdater _ _) as [s|] eqn:Hrun; [|discriminate H]. injection H as <-.
    apply framed_cycle, (upgrade_frame _ _ _ Hrun).
  - unfold AppA.handleSellFacility in H.
    destruct (AppA.isPaused app); [injection H as <-; trivial|].
    destruct (AppA.sellUpdater _ _) as [s|] eqn:Hrun; [|discriminate H]. injection H as <-.
    apply framed_cycle, (sell_frame _ _ _ Hrun).
  - unfold AppA.handleToggleProduction. destruct (AppA.isPaused app); [trivial|].
    apply framed_cycle. repeat split.
  - trivial.
  - trivial.
  - unfold AppA.solvencyEffect in H.
    destruct (AppA.netEquity _); [|discriminate H]. cbn in H.
    destruct (_ && _); injection H as <-; trivial.
  - unfold AppA.takeLoan. destruct (_ || _); [trivial|]. apply framed_cycle. repeat split.
  - unfold AppA.handleRepay. destruct (AppA.isPaused app); [trivial|].
    apply framed_cycle. repeat split.
Qed.

Lemma anyB_cycle (s0 : GameState) (k : nat) (app app' : AppB.App) :
  anyB app app' ->
  cycle_runs s0 k (AppB.gameState app) (AppB.refs app) ->
  cycle_runs s0 k (AppB.gameState app') (AppB.refs app').
Proof.
  intros [app1 [id q app2 H|id app2 H|id app2 H|id|amount|app2 H]|amount|].
  - exact (tradeB_cycle s0 k _ _ _ _ H).
  - unfold AppB.handleUnlockFacility in H.
    destruct (findCommodity id); [|discriminate H]. injection H as <-.
    apply framed_cycle, unlock_frame.
  - unfold AppB.handleUpgradeFacility in H.
    destruct (upgradeUpdater _ _) as [s|] eqn:Hrun; [|discriminate H]. injection H as <-.
    apply framed_cycle, (upgrade_frame _ _ _ Hrun).
  - apply framed_cycle. repeat split.
  - trivial.
  - unfold AppB.solvencyEffect in H.
    destruct (AppB.netEquity _); [|discriminate H]. cbn in H.
    destruct (_ && _); injection H as <-; trivial.
  - apply framed_cycle. repeat split.
  - apply framed_cycle. repeat split.
Qed.

(** One tick further in the cycle, from the state [s] and the counters
    [refs] to what the tick returns for a production cost of [cost]. *)
Lemma cycle_runs_tick (s0 s s' : GameState) (refs : CycleRefs) (cost : Q) (k : nat) :
  cycle_runs s0 k s refs ->
  cycleProgress s'
  = (if (10 <=? cycleProgress s + 1)%Z then 0%Z else (cycleProgress s + 1)%Z) ->
  lastLedger s' = snd (ledgerRoll refs s cost (cycleProgress s + 1)) ->
  totalSales (lifetime s') = totalSales (lifetime s) ->
  totalMarketPurchases (lifetime s') = totalMarketPurchases (lifetime s) ->
  totalProductionCosts (lifetime s') = totalProductionCosts (lifetime s) + cost ->
  cycle_runs s0 (S k) s' (fst (ledgerRoll refs s cost (cycleProgress s + 1))).
Proof.
  intros [Hin _] Hcp Hledger Hs Hp Hc. unfold cycle_runs, ledgerRoll in *.
  split.
  - intros Hk. destruct Hin as (Hday & H1 & H2 & H3); [lia|].
    rewrite Hday in *.
    destruct (Z.leb_spec 10 (Z.of_nat k + 1)) as [Hroll|_]; [lia|].
    cbn [fst snd] in *. split; [rewrite Hcp; lia|].
    unfold cycle_counted.
    cbn [cycleSalesRef cyclePurchasesRef cycleProductionRef].
    rewrite Hs, Hp, Hc. repeat split; lra.
  - intros Hk. destruct Hin as (Hday & H1 & H2 & H3); [lia|].
    rewrite Hday in *.
    destruct (Z.leb_spec 10 (Z.of_nat k + 1)) as [_|Hnot]; [|lia].
    cbn [fst snd] in *. split; [exact Hcp|].
    unfold ledger_reports. rewrite Hledger, Hs, Hp, Hc.
    cbn [sales purchases productionCosts net cycleSalesRef cyclePurchasesRef
         cycleProductionRef].
    repeat split; lra.
Qed.

Lemma tickA_cycle (s0 : GameState) (k : nat) (app app' : AppA.App) (g g' : Rng) :
  cycle_runs s0 k (AppA.gameState app) (AppA.refs app) ->
  AppA.tick app g = Some (app', g') ->
  cycle_runs s0 (S k) (AppA.gameState app') (AppA.refs app').
Proof.
  intros Hk H.
  apply tickA_inv in H as (P & tax & ev & pr & g1 & g2 & _ & _ & _ & _ & ->).
  cbn [AppA.gameState AppA.refs].
  apply (cycle_runs_tick s0 (AppA.gameState app)); try reflexivity. exact Hk.
Qed.

Lemma tickB_cycle (s0 : GameState) (k : nat) (app app' : AppB.App) (g g' : Rng) :
  cycle_runs s0 k (AppB.gameState app) (AppB.refs app) ->
  AppB.tick app g = Some (app', g') ->
  cycle_runs s0 (S k) (AppB.gameState app') (AppB.refs app').
Proof.
  intros Hk H.
  apply tickB_inv in H as (P & tax & ev & pr & g1 & g2 & _ & _ & _ & _ & ->).
  cbn [AppB.gameState AppB.refs].
  apply (cycle_runs_tick s0 (AppB.gameState app)); try reflexivity. exact Hk.
Qed.

Lemma cycle_runs_start (s : GameState) :
  cycleProgress s = 0%Z -> cycle_runs s 0 s (mkRefs 0 0 0).
Proof.
  intros Hcp. split; [|discriminate]. intros _. split; [exact Hcp|].
  unfold cycle_counted. cbn. repeat split; ring.
Qed.

(** X27.  The ledger balances with the lifetime figures.  A session
    that starts a cycle (day 0 of the cycle, counters at 0) and lasts
    ten ticks, with any player actions before, between and after them,
    ends on day 0 of the next cycle with the ledger of the cycle
    published: its sales, purchases and production costs, together with
    what the new cycle has counted since, are exactly what the lifetime
    sales, market purchases and production costs grew by during the
    session, and its net figure is sales less purchases less production
    costs.  In both versions. *)
Theorem ledger_reports_the_cycle (g : Rng) (appA : AppA.App) (appB : AppB.App) :
  valid_rng g -> wf (AppA.gameState appA) -> wf (AppB.gameState appB) ->
  cycleProgress (AppA.gameState appA) = 0%Z -> AppA.refs appA = mkRefs 0 0 0 ->
  cycleProgress (AppB.gameState appB) = 0%Z -> AppB.refs appB = mkRefs 0 0 0 ->
  (exists app' g', AppA.ticks 10 appA g = Some (app', g')
     /\ cycleProgress (AppA.gameState app') = 0%Z
     /\ ledger_reports (AppA.gameState appA) (AppA.gameState app') (AppA.refs app'))
  /\ (exists app' g', AppB.ticks 10 appB g = Some (app', g')
        /\ cycleProgress (AppB.gameState app') = 0%Z
        /\ ledger_reports (AppB.gameState appB) (AppB.gameState app') (AppB.refs app'))
  /\ (forall anyG app' g',
        run AppA.tick anyA 10 appA anyG app' g' ->
        cycleProgress (AppA.gameState app') = 0%Z
        /\ ledger_reports (AppA.gameState appA) (AppA.gameState app') (AppA.refs app'))
  /\ (forall anyG app' g',
        run AppB.tick anyB 10 appB anyG app' g' ->
        cycleProgress (AppB.gameState app') = 0%Z
        /\ ledger_reports (AppB.gameState appB) (AppB.gameState app') (AppB.refs app')).
Proof.
  intros Hg HwfA HwfB HcpA HrefsA HcpB HrefsB.
  assert (HA : forall anyG app' g',
             run AppA.tick anyA 10 appA anyG app' g' ->
             cycleProgress (AppA.gameState app') = 0%Z
             /\ ledger_reports (AppA.gameState appA) (AppA.gameState app')
                  (AppA.refs app')).
  { intros anyG app' g' Hrun.
    apply (run_invariant AppA.tick anyA (fun _ => True)
             (fun k app => cycle_runs (AppA.gameState appA) k (AppA.gameState app)
                             (AppA.refs app))
             (fun _ _ _ _ _ _ => I)
             (fun k app app1 g0 g1 _ Hk Htick =>
                tickA_cycle _ k app app1 g0 g1 Hk Htick)
             (fun k app app1 Hact Hk => anyA_cycle _ k app app1 Hact Hk)
             10 appA app' anyG g' Hrun I 0%nat); [|reflexivity].
    rewrite HrefsA. apply cycle_runs_start, HcpA. }
  assert (HB : forall anyG app' g',
             run AppB.tick anyB 10 appB anyG app' g' ->
             cycleProgress (AppB.gameState app') = 0%Z
             /\ ledger_reports (AppB.gameState appB) (AppB.gameState app')
                  (AppB.refs app')).
  { intros anyG app' g' Hrun.
    apply (run_invariant AppB.tick anyB (fun _ => True)
             (fun k app => cycle_runs (AppB.gameState appB) k (AppB.gameState app)
                             (AppB.refs app))
             (fun _ _ _ _ _ _ => I)
             (fun k app app1 g0 g1 _ Hk Htick =>
                tickB_cycle _ k app app1 g0 g1 Hk Htick)
             (fun k app app1 Hact Hk => anyB_cycle _ k app app1 Hact Hk)
             10 appB app' anyG g' Hrun I 0%nat); [|reflexivity].
    rewrite HrefsB. apply cycle_runs_start, HcpB. }
  split; [|split; [|split; assumption]].
  - destruct (ticksA_facts 10 appA g HwfA Hg) as (app' & g' & Hticks & _).
    exists app', g'. split; [exact Hticks|].
    exact (HA g app' g' (ticksA_run anyA 10 _ _ _ _ Hticks)).
  - destruct (ticksB_facts 10 appB g HwfB Hg) as (app' & g' & Hticks & _).
    exists app', g'. split; [exact Hticks|].
    exact (HB g app' g' (ticksB_run anyB 10 _ _ _ _ Hticks)).
Qed.

Lemma ledger_reports_the_cycle_witness :
  (exists app' g', AppA.ticks 10 producerAppA (constantRng 0.5) = Some (app', g')
     /\ cycleProgress (AppA.gameState app') = 0%Z
     /\ ledger_reports (AppA.gameState producerAppA) (AppA.gameState app')
          (AppA.refs app'))
  /\ (exists app' g', AppB.ticks 10 producerAppB (constantRng 0.5) = Some (app', g')
        /\ cycleProgress (AppB.gameState app') = 0%Z
        /\ ledger_reports (AppB.gameState producerAppB) (AppB.gameState app')
             (AppB.refs app')).
Proof.
  destruct (ledger_reports_the_cycle (constantRng 0.5) producerAppA producerAppB)
    as (HA & HB & _).
  - apply constantRng_valid; lra.
  - apply wf_producer.
  - apply wf_producer.
  - reflexivity.
  - reflexivity.
  - reflexivity.
  - reflexivity.
  - split; [exact HA | exact HB].
Defined.
